(* ===== verification/_CoqProject ===== *)
-Q . S2P
Prelude.v
PyTime.v
Urn.v
Contracts.v
Judgment.v
Operator.v
World.v
Ontology.v
Codec.v
Floats.v
Json.v
Capture.v
References.v
Binding.v
Business.v
Unicode.v
Retrieval.v
Derive.v
Domains.v
Config.v
Names.v
Clock.v
Tables.v
Integrity.v
Txn.v
Approval.v
Chain.v
Store.v
Records.v
Semantic.v
Review.v
Envelopes.v
Bundles.v
Relations.v
Bitemporal.v
Safety.v
Governance.v
Machine.v
Scenario.v
Rollback.v
Intake.v
Chronicle.v
Resolution.v
Writes.v
Versions.v
FirstWrites.v
Ceremony.v
History.v
Checkpoint.v
Source.v
Io.v
Delivery.v
Latch.v
Grounded.v
Spool.v
Asciitext.v
Survival.v
