(* ===== verification/Prelude.v ===== *)
(** * Imprint: a verification development

    Imprint ([src/src/imprint]) keeps an operator's judgments: a client hook
    captures raw feedback into a spool, the compiler moves it into an
    event-sourced SQLite store through one canonical writer, derivers propose
    typed records from it, the operator ratifies, corrects or rejects them with
    signed approvals, and a retrieval engine compiles what is current into a
    byte budget for a model's context.  This library models that path as
    functions and proves what makes it correct.  File names below are relative
    to [src/src/imprint]; a definition carries the name of the function it
    models, a helper splits one out of a longer function.

    ** Conventions

    A Python operation that returns or raises is a value of [res A] (this
    file): [Ok a] or [Err e] with [e] in [exn], one constructor per exception
    class that can be told apart.  JSON values are the inductive [json];
    [obj] is a dictionary as an association list in insertion order, with
    [get]/[item] for [.get]/indexing; Python's [==] on such values is [py_eq]
    and truth is [truthy].  Floats are binary64 ([SpecFloat]); [int] is [Z].
    Text is a string of UTF-8 bytes.  A datetime is a record of its fields with
    its offset, and [instant] is its microsecond count.

    ** Parts

    Contracts of records ([ontology/]).
    - [Prelude]: errors, JSON, lists and strings; [PyTime]: the calendar and
      [datetime.fromisoformat]; [Urn]: [urn.py] with the part of [uuid.UUID] it
      relies on; [Contracts]: [ontology/contracts.py] 1-200, the shared checks
      and the provenance contract; [Judgment], [Operator], [World]: the payloads
      of [judgment.py], [operator.py], [world.py]; [Ontology]: the relation
      registry and the two contracts [validate_node_contract],
      [validate_relation_contract].
    - [References], [Binding], [Business]: [references.py] with
      [producer_coverage.py] and [direction.py]; [registries.py] with
      [validators.py]; [business.py].
    Encoding.
    - [Codec]: [canonical_bytes] and SHA-256; [Floats]: what rounding a decimal
      computes and why seventeen digits are enough; [Json]: [json.loads] and the
      round trip; [Names]: UUIDv5, [_domain_node_id], base64 and [json.dumps] of
      identifiers; [Clock]: the two timestamp formats and deadlines.
    Intake and retrieval.
    - [Capture]: [capture/schema.py], [durability.py], [pipeline.py]; [Derive]:
      [derive/]; [Unicode], [Retrieval]: [retrieve/tokenizer.py], [engine.py],
      [models.py]; [Domains]: [domains/selector.py]; [Config]: [config.py].
    The store ([store/], [authority/]).
    - [Tables]: the rows of [store/schema.py] and every SQL statement of the
      writer as a function on a database value (the tables of trust beside the
      ledger only as far as the writer reads them), with triggers, keys, the unique
      index and foreign keys; a [BEFORE] trigger precedes a unique conflict,
      which precedes a foreign key.
    - [Integrity]: what a database satisfies ([db_ok]) and what no statement
      undoes ([extends]).
    - [Txn]: [connect] as a state monad over the rows seen, the rows committed
      and the draws of identifiers and clock, and a program logic for it
      ([hoare P m Q], which also carries [db_ok] and [extends]).
    - [Approval]: [authority/challenge.py], the challenge, mutation and token
      operations of [authority/ledger.py], [AuthorityService.approve] up to the
      signature and [ImprintStore._consume_authority].  [Chain]: the rest of
      [ledger.py], the ledger of keys as it is written and verified, with its
      pinned heads and checkpoints.  [History]: an abstract machine of keys that
      the replay refines, and what a verified ledger proves.  [Checkpoint]: that
      a fresh checkpoint is accepted, and a concrete ledger.
    - [Store], [Records], [Semantic], [Review]: the methods of [ImprintStore],
      in the order of [store/service.py]: captures and reads; domains,
      transitions, consent; derived and semantic records, proposals; reviews.
    - [Envelopes], [Bundles], [Relations], [Bitemporal]: the governed records of
      [store/service.py] 893-2320: envelopes and their references, first writes
      in bundles, business relations and contradictions, corrections, contests
      and the read at a coordinate of valid and system time.
    - [Safety], [Governance]: the triples of all of them.  [Machine]: one command
      per public write, [run], and [reaches]/[reachable] by rule induction.
      [Scenario], [Chronicle]: computed histories, with a promotion and with
      governed records, each step prepared, approved, signed and executed.
      [Machine], [Rollback], [Intake], [Ceremony]: the theorems on the writer.
    - [Resolution]: what accepted references mean; [Writes]: the rows a governed
      write appends, as a monoid; [FirstWrites], [Versions]: the theorems on
      bundles, corrections and contests.

    Services around the store, as programs over files and the writer.
    - [Source]: [retrieve/store_source.py] and [lifecycle.py], the records the
      store offers to retrieval.  [Io]: private files ([durable_io.py],
      [permissions.py]), trees of calls, their interleaving and a
      rely-guarantee logic.  [Delivery]: [retrieve/receipts.py] and
      [retrieve_payload].  [Spool]: [compiler/spool.py].
    - [Latch], [Grounded], [Asciitext], [Survival]: the theorems on them.

    How they meet: [Semantic] calls the contracts of [Ontology] and the
    references of [References] through [store_view]; every write that raises
    authority calls [_consume_authority]; captures are validated by [Capture];
    the generation that [Machine.generation_tracks_content] speaks of is
    the key of the retrieval cache.

    ** What the theorems show

    - Authority: contracts never let inferred records carry authority
      ([Ontology.node_authority_never_escalates], [Derive.proposal_never_escalates]);
      in every reachable store each version with authority goes back to a
      verified signature over a challenge that binds the fields of the write
      ([Machine.no_authority_without_approval]); a token that was consumed is
      refused from then on, and so is any other for its challenge or its
      operation ([Ceremony.approval_single_use]); what a bundle writes rests on a judged
      role, a policy, an actor and artifacts of the same operator
      ([FirstWrites.first_writes_accountable]); a challenge that was issued and signed
      in time is accepted ([Ceremony]).
    - Integrity: [Machine.store_invariant], [history_append_only],
      [one_head_per_node], [Rollback.failed_write_rolls_back].  An ungoverned
      record has at most one open version; a corrected or contested governed
      record has two, and [current_nodes] lists both.  A write that raises leaves
      nothing, except that a refusal may leave one pending mutation and a batch
      keeps the groups it has committed.
    - Two times: a correction splits the version it replaces at its effective
      time and a contest shows both sides, and neither changes what any earlier
      system time or any other valid time shows ([Versions]); a bundle writes
      exactly its envelopes and the heads its assessments name, and spends one
      approval at most ([FirstWrites.bundle_writes_exactly]).  The system
      time of an approved write is the one fixed when it was prepared.
    - Intake: what a capture writes, that replays are free and that batches are
      sequences ([Intake]); persist-first capture ([Capture]); a file that was
      in a spool is there until the store has recorded it, unless its path is
      used twice ([Survival.feedback_survives]), and an acknowledgement speaks
      the truth ([Survival.acknowledgements_honest]).
    - Retrieval: eligibility, budgets, maximality, independence of order
      ([Retrieval]); what is offered rests on current rows of the operator, their
      consent, policy and evidence ([Grounded.context_grounded]); a latch closes
      once under any interleaving ([Latch.latch_closes_once]), and alone a
      response is handed out unchanged until its commit ([Latch.delivery_cycle]).
    - Encoding: [Json.json_roundtrip], [Clock.timestamp_roundtrip].
    - Keys: every event of a verified ledger was signed by a key active before
      it, ended keys stay ended, an installation has one key, a pinned head
      fixes the history behind it up to a collision between two events the
      theorem names ([History]).
    - Specifications: contracts equal to declarative predicates ([..._iff],
      [..._sound]), error behaviour ([..._errors]), and the defects the model
      found, as theorems where they have a concrete run.

    ** Bounds and fuel

    [Json.loads] takes the length of its text as fuel: every recursive call
    consumes a character.  [Store.capture_groups] takes the number of items:
    every group consumes one ([Intake.groups_sequence]).  [Io.run] is structural
    on a program; [Io.step] takes one call of one process.  The authority scan of
    [Derive] and the depth-bounded comparisons recurse on the value itself.

    ** Interfaces, and what they assume

    [crypto] ([rfc8785.dumps], Ed25519 verification), [environment] (uuid4,
    [secrets], the clock), [sqlite] (how SQLite renders a stored real),
    [normalization] and [unicode_data] (tables of the runtime), [printing] (how
    Python prints a container), [host] (process identifiers, times of files and
    the local zone), the candidate source of [Retrieval] and the ports of
    [Capture].
    No law is assumed of any of them unless a theorem states it as a
    hypothesis.  Text is compared bytewise; a query without [ORDER BY] returns
    its rows in the order of insertion.

    ** Not modelled

    - The ceremonies of [authority/service.py] around the ledger, trust anchors,
      transfers and recovery archives: consoles, key files and archives of the
      host.  Commands of [Machine] do not write the ledger; [Chain] does.
    - Interleaving inside one command: SQLite serialises writers, so a command
      is atomic except for the commits it makes itself, between which
      another process could write; the model lets commands of different
      processes interleave, not their parts.  In [Io] a call of the writer is
      one step for the same reason, and so is one file operation.
    - Temporary files, links, modes, owners and [fsync]; [store.initialize];
      [recover_stale_compiler_lock], which works on file identities; locks and
      WAL recovery.
    - Writers beside [ImprintStore], with connections of their own: the ingest
      queue, [append_business_relationship], import, migrations, purge and
      restore.  Reachability is under the commands of [ImprintStore].
    - Backup, portability, projections, the proposal spool, the
      transcripts and the feedback detector, health reports and the command
      line: the note of each in the manifest says why. *)
From Stdlib Require Export String Ascii ZArith NArith Bool List Lia Permutation Sorted.
From Stdlib Require Export SpecFloat.
From stdpp Require Export base list strings.

#[export] Set Warnings "-register-all,-clear-no-such-hyp".
#[global] Arguments String.append : simpl nomatch.
#[global] Open Scope string_scope.
#[global] Open Scope list_scope.
#[global] Open Scope Z_scope.

(** ** 1. Errors and the error monad

    A Python operation either returns or raises.  [ValidationErrorNames s l]
    is a [ValidationError] whose message is [s] followed by the [repr] of the
    sorted list [l]; [CodedError] is one of its subclasses that carry a
    machine-readable code and a JSON pointer
    ([OntologyValidationError], [BusinessValidationError]). *)
Inductive exn : Type :=
| ValidationError (msg : string)
| ValidationErrorNames (msg : string) (names : list string)
| CodedError (code pointer msg : string)
| ConflictError (msg : string)
| SafetyError (msg : string)
| CapturePersistenceError (msg : string)
| ValueError (msg : string)
| ValueErrorNames (msg : string) (names : list string)
| RuntimeError (msg : string)
| TypeError
| KeyError (key : string)
| AttributeError
| OverflowError
| IntegrityError (unique : bool)
| OperationalError (msg : string)
| ProgrammingError.

Inductive res (A : Type) : Type :=
| Ok (a : A)
| Err (e : exn).
Arguments Ok {A} a.
Arguments Err {A} e.

#[export] Instance res_ret : MRet res := @Ok.
#[export] Instance res_bind : MBind res := λ A B f m,
  match m with Ok a => f a | Err e => Err e end.
#[export] Instance res_fmap : FMap res := λ A B f m,
  match m with Ok a => Ok (f a) | Err e => Err e end.

(** [isinstance(exc, ValidationError)]. *)
Definition is_validation (e : exn) : bool :=
  match e with
  | ValidationError _ | ValidationErrorNames _ _ | CodedError _ _ _ => true
  | _ => false
  end.

Definition is_ok {A} (m : res A) : bool :=
  match m with Ok _ => true | Err _ => false end.

(** [if cond: raise e] *)
Definition raise_if (cond : bool) (e : exn) : res unit :=
  if cond then Err e else Ok tt.

(** Short-circuiting [or] and [and] on conditions that may themselves raise. *)
Definition or_else (a b : res bool) : res bool :=
  x ← a; if (x : bool) then Ok true else b.
Definition and_then (a b : res bool) : res bool :=
  x ← a; if (x : bool) then b else Ok false.

(** A [for] loop whose body may raise. *)
Fixpoint for_each {A} (f : A → res unit) (l : list A) : res unit :=
  match l with
  | [] => Ok tt
  | x :: r => f x ;; for_each f r
  end.

Fixpoint map_res {A B} (f : A → res B) (l : list A) : res (list B) :=
  match l with
  | [] => Ok []
  | x :: r => y ← f x; ys ← map_res f r; Ok (y :: ys)
  end.

(** [any(f(x) for x in l)] with a raising [f]. *)
Fixpoint any_res {A} (f : A → res bool) (l : list A) : res bool :=
  match l with
  | [] => Ok false
  | x :: r => or_else (f x) (any_res f r)
  end.

(** [try: m except <p>: raise e] *)
Definition except_raise {A} (m : res A) (p : exn → bool) (e : exn) : res A :=
  match m with
  | Ok a => Ok a
  | Err x => if p x then Err e else Err x
  end.

(** ** 2. Python strings

    A [str] is kept as its UTF-8 encoding.  [chars] splits it into its code
    points (a lead byte with its continuation bytes), so that [len], [strip]
    and the whitespace tests count and inspect code points as Python does,
    while [String.length] is [len(s.encode("utf-8"))]. *)
Definition is_cont (a : ascii) : bool :=
  let n := N_of_ascii a in ((128 <=? n) && (n <? 192))%N.

Fixpoint chars (s : string) : list string :=
  match s with
  | EmptyString => []
  | String a s' =>
      match chars s' with
      | (String b r as c) :: cs =>
          if is_cont b then String a c :: cs else String a "" :: c :: cs
      | cs => String a "" :: cs
      end
  end.

Definition py_len (s : string) : Z := Z.of_nat (length (chars s)).

Definition byte (n : N) : string := String (ascii_of_N n) "".

(** The code points [str.isspace] accepts, each as its UTF-8 encoding. *)
Definition whitespace : list string :=
  map byte [9; 10; 11; 12; 13; 28; 29; 30; 31; 32]%N ++
  [byte 0xC2 +:+ byte 0x85; byte 0xC2 +:+ byte 0xA0;
   byte 0xE1 +:+ byte 0x9A +:+ byte 0x80;
   byte 0xE2 +:+ byte 0x80 +:+ byte 0xA8; byte 0xE2 +:+ byte 0x80 +:+ byte 0xA9;
   byte 0xE2 +:+ byte 0x80 +:+ byte 0xAF; byte 0xE2 +:+ byte 0x81 +:+ byte 0x9F;
   byte 0xE3 +:+ byte 0x80 +:+ byte 0x80] ++
  map (λ n, byte 0xE2 +:+ byte 0x80 +:+ byte n)
    [0x80; 0x81; 0x82; 0x83; 0x84; 0x85; 0x86; 0x87; 0x88; 0x89; 0x8A]%N.

Definition mem (s : string) (l : list string) : bool := existsb (String.eqb s) l.

Definition is_space (c : string) : bool := mem c whitespace.

Fixpoint drop_while {A} (p : A → bool) (l : list A) : list A :=
  match l with
  | [] => []
  | x :: r => if p x then drop_while p r else l
  end.

Definition str_concat (l : list string) : string := fold_right String.append "" l.

(** [s.strip()] *)
Definition strip (s : string) : string :=
  str_concat (rev (drop_while is_space (rev (drop_while is_space (chars s))))).

(** [not s.strip()]: the string is empty or all whitespace. *)
Definition blank (s : string) : bool := forallb is_space (chars s).

Definition lower_ascii (a : ascii) : ascii :=
  let n := N_of_ascii a in
  if ((65 <=? n) && (n <=? 90))%N then ascii_of_N (n + 32) else a.

(** [s.lower()] on an ASCII string. *)
Fixpoint lower (s : string) : string :=
  match s with
  | EmptyString => EmptyString
  | String a r => String (lower_ascii a) (lower r)
  end.

Fixpoint str_forallb (p : ascii → bool) (s : string) : bool :=
  match s with
  | EmptyString => true
  | String a r => p a && str_forallb p r
  end.

(** [sub in s] *)
Fixpoint contains (sub s : string) : bool :=
  String.prefix sub s ||
  match s with
  | EmptyString => false
  | String _ r => contains sub r
  end.

(** [s.split(sep)] for a one-character separator. *)
Fixpoint split_on (sep : ascii) (s : string) : list string :=
  match s with
  | EmptyString => [""]
  | String a r =>
      if Ascii.eqb a sep then "" :: split_on sep r
      else match split_on sep r with
           | [] => [String a ""]
           | x :: xs => String a x :: xs
           end
  end.

(** [s.replace(old, new)] for a one-character [old]. *)
Fixpoint replace_char (old : ascii) (new s : string) : string :=
  match s with
  | EmptyString => EmptyString
  | String a r =>
      if Ascii.eqb a old then new +:+ replace_char old new r
      else String a (replace_char old new r)
  end.

Definition starts_with (p s : string) : bool := String.prefix p s.

Definition ends_with (p s : string) : bool :=
  Nat.leb (String.length p) (String.length s) &&
  String.eqb p (String.substring (String.length s - String.length p) (String.length p) s).

Definition in_range (lo hi : ascii) (a : ascii) : bool :=
  ((N_of_ascii lo <=? N_of_ascii a) && (N_of_ascii a <=? N_of_ascii hi))%N.
Definition is_digit (a : ascii) : bool := in_range "0" "9" a.
Definition is_lower (a : ascii) : bool := in_range "a" "z" a.
Definition is_upper (a : ascii) : bool := in_range "A" "Z" a.
Definition is_lower_alnum (a : ascii) : bool := is_lower a || is_digit a.
Definition is_hex (a : ascii) : bool := is_digit a || in_range "a" "f" a.

(** [[a-z0-9][a-z0-9-]{0,62}] under [fullmatch]: the safe local identifier
    shared by configuration, capture, domains and receipts. *)
Definition safe_id (s : string) : bool :=
  match s with
  | EmptyString => false
  | String a r =>
      is_lower_alnum a &&
      str_forallb (λ c, is_lower_alnum c || Ascii.eqb c "-") r &&
      Nat.leb (String.length r) 62
  end.

(** [[0-9a-f]{64}] under [fullmatch]. *)
Definition is_sha256_hex (s : string) : bool :=
  Nat.eqb (String.length s) 64 && str_forallb is_hex s.

(** Stable insertion sort: [list.sort] and [sorted] for a total preorder. *)
Fixpoint insert_by {A} (le : A → A → bool) (x : A) (l : list A) : list A :=
  match l with
  | [] => [x]
  | y :: r => if le x y then x :: l else y :: insert_by le x r
  end.
Definition sort_by {A} (le : A → A → bool) (l : list A) : list A :=
  fold_right (insert_by le) [] l.

(** UTF-8 byte order is code point order. *)
Definition sorted_strs (l : list string) : list string := sort_by String.leb l.

Fixpoint dedup_strs (l : list string) : list string :=
  match l with
  | [] => []
  | x :: r => x :: List.filter (λ y, negb (String.eqb x y)) (dedup_strs r)
  end.

Definition set_diff (a b : list string) : list string :=
  List.filter (λ x, negb (mem x b)) a.
Definition subset (a b : list string) : bool := forallb (λ x, mem x b) a.
Definition set_eq (a b : list string) : bool := subset a b && subset b a.

(** ** 3. JSON values as Python holds them

    An object is its key/value pairs in insertion order; keys are distinct,
    as in any [dict].  A [float] is a binary64 datum of [SpecFloat]. *)
Inductive json : Type :=
| JNull
| JBool (b : bool)
| JInt (z : Z)
| JFloat (f : spec_float)
| JStr (s : string)
| JList (l : list json)
| JObj (m : list (string * json)).

Abbreviation obj := (list (string * json)).

Fixpoint assoc {A} (k : string) (m : list (string * A)) : option A :=
  match m with
  | [] => None
  | (k', v) :: r => if String.eqb k k' then Some v else assoc k r
  end.

Definition keys {A} (m : list (string * A)) : list string := map fst m.
Definition has_key {A} (k : string) (m : list (string * A)) : bool := mem k (keys m).

(** [m[k] = v]: an existing key keeps its position. *)
Fixpoint set_item {A} (k : string) (v : A) (m : list (string * A)) : list (string * A) :=
  match m with
  | [] => [(k, v)]
  | (k', v') :: r => if String.eqb k k' then (k', v) :: r else (k', v') :: set_item k v r
  end.

(** A structural induction principle for [json] that reaches into lists and
    objects. *)
Section json_induction.
Variable P : json → Prop.
Hypothesis P_null : P JNull.
Hypothesis P_bool : ∀ b, P (JBool b).
Hypothesis P_int : ∀ z, P (JInt z).
Hypothesis P_float : ∀ f, P (JFloat f).
Hypothesis P_str : ∀ s, P (JStr s).
Hypothesis P_list : ∀ l, Forall P l → P (JList l).
Hypothesis P_obj : ∀ m, Forall (λ kv, P kv.2) m → P (JObj m).

Fixpoint json_ind' (v : json) : P v :=
  match v with
  | JNull => P_null
  | JBool b => P_bool b
  | JInt z => P_int z
  | JFloat f => P_float f
  | JStr s => P_str s
  | JList l => P_list l
      ((fix go l : Forall P l :=
          match l with
          | [] => List.Forall_nil _
          | x :: r => List.Forall_cons _ _ _ (json_ind' x) (go r)
          end) l)
  | JObj m => P_obj m
      ((fix go (m : obj) : Forall (λ kv, P kv.2) m :=
          match m with
          | [] => List.Forall_nil _
          | kv :: r => List.Forall_cons _ _ _ (json_ind' kv.2) (go r)
          end) m)
  end.
End json_induction.

(** [m[k]] and [m.get(k)] *)
Definition item (k : string) (m : obj) : res json :=
  match assoc k m with Some v => Ok v | None => Err (KeyError k) end.
Definition get (k : string) (m : obj) : json :=
  match assoc k m with Some v => v | None => JNull end.
Definition get_default (k : string) (d : json) (m : obj) : json :=
  match assoc k m with Some v => v | None => d end.

Definition is_null (v : json) : bool := match v with JNull => true | _ => false end.
Definition is_str (v : json) : bool := match v with JStr _ => true | _ => false end.
Definition is_bool (v : json) : bool := match v with JBool _ => true | _ => false end.
Definition is_list (v : json) : bool := match v with JList _ => true | _ => false end.
Definition is_obj (v : json) : bool := match v with JObj _ => true | _ => false end.

(** [isinstance(v, (int, float))]: Python's [bool] is an [int]. *)
Definition is_number (v : json) : bool :=
  match v with JBool _ | JInt _ | JFloat _ => true | _ => false end.

Definition hashable (v : json) : bool :=
  match v with JList _ | JObj _ => false | _ => true end.

(** Truth value. *)
Definition truthy (v : json) : bool :=
  match v with
  | JNull => false
  | JBool b => b
  | JInt z => negb (z =? 0)
  | JFloat f => match f with S754_zero _ => false | _ => true end
  | JStr s => negb (String.eqb s "")
  | JList l => match l with [] => false | _ => true end
  | JObj m => match m with [] => false | _ => true end
  end.

(** Exact numeric values: [Fin m e] is [m * 2^e]. *)
Inductive num : Type := Nan | Inf (neg : bool) | Fin (m e : Z).

Definition num_of_float (f : spec_float) : num :=
  match f with
  | S754_zero _ => Fin 0 0
  | S754_infinity s => Inf s
  | S754_nan => Nan
  | S754_finite s m e => Fin (if s then Z.neg m else Z.pos m) e
  end.

Definition num_of (v : json) : option num :=
  match v with
  | JBool b => Some (Fin (if b then 1 else 0) 0)
  | JInt z => Some (Fin z 0)
  | JFloat f => Some (num_of_float f)
  | _ => None
  end.

Definition fin_compare (m1 e1 m2 e2 : Z) : comparison :=
  let e := Z.min e1 e2 in
  Z.compare (m1 * 2 ^ (e1 - e)) (m2 * 2 ^ (e2 - e)).

(** Python compares an [int] with a [float] by their exact values. *)
Definition num_compare (a b : num) : option comparison :=
  match a, b with
  | Nan, _ | _, Nan => None
  | Inf s, Inf t => Some (if Bool.eqb s t then Eq else if s then Lt else Gt)
  | Inf s, Fin _ _ => Some (if s then Lt else Gt)
  | Fin _ _, Inf s => Some (if s then Gt else Lt)
  | Fin m1 e1, Fin m2 e2 => Some (fin_compare m1 e1 m2 e2)
  end.

Definition num_eq (a b : num) : bool :=
  match num_compare a b with Some Eq => true | _ => false end.
Definition num_le (a b : num) : bool :=
  match num_compare a b with Some Eq | Some Lt => true | _ => false end.
Definition num_lt (a b : num) : bool :=
  match num_compare a b with Some Lt => true | _ => false end.

(** [0 <= v <= 1] for a number [v]. *)
Definition unit_interval (v : json) : bool :=
  match num_of v with
  | Some n => num_le (Fin 0 0) n && num_le n (Fin 1 0)
  | None => false
  end.

(** [a == b] *)
Definition scalar_eq (a b : json) : bool :=
  match a, b with
  | JNull, JNull => true
  | JStr s, JStr t => String.eqb s t
  | _, _ =>
      match num_of a, num_of b with
      | Some x, Some y => num_eq x y
      | _, _ => false
      end
  end.

Fixpoint py_eq (a b : json) {struct a} : bool :=
  match a, b with
  | JList l1, JList l2 =>
      (fix go (l1 l2 : list json) {struct l1} :=
         match l1, l2 with
         | [], [] => true
         | x :: xs, y :: ys => py_eq x y && go xs ys
         | _, _ => false
         end) l1 l2
  | JObj m1, JObj m2 =>
      Nat.eqb (length m1) (length m2) &&
      (fix go (m1 : list (string * json)) :=
         match m1 with
         | [] => true
         | (k, x) :: r =>
             match assoc k m2 with Some y => py_eq x y | None => false end && go r
         end) m1
  | _, _ => scalar_eq a b
  end.

(** [v in s] for a set of strings: an unhashable [v] raises [TypeError]. *)
Definition in_set (v : json) (s : list string) : res bool :=
  if hashable v
  then Ok (match v with JStr x => mem x s | _ => false end)
  else Err TypeError.

Definition not_in_set (v : json) (s : list string) : res bool :=
  b ← in_set v s; Ok (negb b).

(** [set(l)] for a JSON list: unhashable members raise. *)
Fixpoint dedup_json (l : list json) : list json :=
  match l with
  | [] => []
  | x :: r => x :: List.filter (λ y, negb (scalar_eq x y)) (dedup_json r)
  end.
Definition py_set (l : list json) : res (list json) :=
  if forallb hashable l then Ok (dedup_json l) else Err TypeError.

(** [len(l) != len(set(l))] *)
Definition has_duplicates (l : list json) : res bool :=
  s ← py_set l; Ok (negb (Nat.eqb (length l) (length s))).

(** [set(l) - allowed] is non-empty. *)
Definition has_outside (l : list json) (allowed : list string) : res bool :=
  s ← py_set l;
  Ok (existsb (λ v, match v with JStr x => negb (mem x allowed) | _ => true end) s).

(** [set(a) == set(b)] for two JSON lists. *)
Definition same_set (a b : list json) : res bool :=
  x ← py_set a; y ← py_set b;
  Ok (forallb (λ v, existsb (scalar_eq v) y) x && forallb (λ v, existsb (scalar_eq v) x) y).

(** [float(v)] of a number: an [int] beyond binary64 raises. *)
Definition to_float (v : json) : res spec_float :=
  let of_z z :=
    match binary_normalize 53 1024 z 0 false with
    | S754_infinity _ => Err OverflowError
    | f => Ok f
    end in
  match v with
  | JBool b => of_z (if b then 1 else 0)
  | JInt z => of_z z
  | JFloat f => Ok f
  | _ => Err TypeError
  end.

Definition is_finite (f : spec_float) : bool :=
  match f with S754_infinity _ | S754_nan => false | _ => true end.

(** The strings of a JSON list; used once every member is known to be one. *)
Definition strs (l : list json) : list string :=
  flat_map (λ v, match v with JStr s => [s] | _ => [] end) l.

(** ** 4. Lemmas shared by the components *)

Create HintDb py.
Create Rewrite HintDb py.

Lemma bind_Ok {A B} (m : res A) (f : A → res B) y :
  m ≫= f = Ok y ↔ ∃ x, m = Ok x ∧ f x = Ok y.
Proof. destruct m; split; naive_solver. Qed.

Lemma bind_Err {A B} (m : res A) (f : A → res B) e :
  m ≫= f = Err e ↔ m = Err e ∨ ∃ x, m = Ok x ∧ f x = Err e.
Proof. destruct m; split; naive_solver. Qed.

Lemma raise_if_Ok c e u : raise_if c e = Ok u ↔ c = false.
Proof. destruct c, u; split; naive_solver. Qed.

Lemma raise_if_Err c e e' : raise_if c e = Err e' ↔ c = true ∧ e' = e.
Proof. destruct c; split; naive_solver. Qed.

Lemma raise_if_validation c e e' :
  raise_if c e = Err e' → is_validation e = true → is_validation e' = true.
Proof. by intros [_ ->]%raise_if_Err. Qed.

Lemma or_else_Ok_false a b :
  or_else a b = Ok false ↔ a = Ok false ∧ b = Ok false.
Proof. destruct a as [[]|], b as [[]|]; split; naive_solver. Qed.

Lemma and_then_Ok_true a b :
  and_then a b = Ok true ↔ a = Ok true ∧ b = Ok true.
Proof. destruct a as [[]|], b as [[]|]; split; naive_solver. Qed.

Lemma and_then_Ok_false a b :
  and_then a b = Ok false ↔ a = Ok false ∨ (a = Ok true ∧ b = Ok false).
Proof. destruct a as [[]|], b as [[]|]; split; naive_solver. Qed.

Lemma mem_In x l : mem x l = true ↔ In x l.
Proof.
  unfold mem. rewrite existsb_exists. split.
  - intros (y & Hy & ->%String.eqb_eq). done.
  - intros H. exists x. by rewrite String.eqb_refl.
Qed.

Lemma mem_not_In x l : mem x l = false ↔ ~ In x l.
Proof. rewrite <- mem_In. destruct (mem x l); naive_solver. Qed.

Lemma mem_app x l k : mem x (l ++ k) = mem x l || mem x k.
Proof. apply existsb_app. Qed.

Lemma subset_In a b : subset a b = true ↔ ∀ x, In x a → In x b.
Proof.
  unfold subset. rewrite forallb_forall. by setoid_rewrite mem_In.
Qed.

Lemma set_eq_In a b : set_eq a b = true ↔ ∀ x, In x a ↔ In x b.
Proof.
  unfold set_eq. rewrite andb_true_iff, !subset_In. naive_solver.
Qed.

Lemma set_diff_nil a b : set_diff a b = [] ↔ subset a b = true.
Proof.
  unfold set_diff, subset. induction a as [|x a IH]; simpl; [done|].
  destruct (mem x b); simpl; naive_solver.
Qed.

Lemma in_set_Ok v s b :
  in_set v s = Ok b ↔
  hashable v = true ∧ b = match v with JStr x => mem x s | _ => false end.
Proof. unfold in_set. destruct (hashable v); split; naive_solver. Qed.

Lemma in_set_true v s : in_set v s = Ok true ↔ ∃ x, v = JStr x ∧ mem x s = true.
Proof.
  rewrite in_set_Ok. destruct v; simpl; split; naive_solver.
Qed.

Lemma not_in_set_false v s :
  not_in_set v s = Ok false ↔ ∃ x, v = JStr x ∧ mem x s = true.
Proof.
  unfold not_in_set. rewrite bind_Ok, <- in_set_true. split.
  - intros (b & Hb & Hn). destruct b; [done|discriminate].
  - intros ->. by exists true.
Qed.

Lemma item_Ok k m v : item k m = Ok v ↔ assoc k m = Some v.
Proof. unfold item. destruct (assoc k m); split; naive_solver. Qed.

Lemma for_each_Ok {A} (f : A → res unit) l u :
  for_each f l = Ok u ↔ Forall (λ x, f x = Ok tt) l.
Proof.
  destruct u. induction l as [|x l IH]; simpl.
  - split; [constructor|done].
  - rewrite bind_Ok, List.Forall_cons_iff, <- IH. split.
    + intros ([] & ? & ?); done.
    + intros (? & ?); by exists tt.
Qed.

Lemma any_res_false {A} (f : A → res bool) l :
  any_res f l = Ok false ↔ Forall (λ x, f x = Ok false) l.
Proof.
  induction l as [|x l IH]; simpl; [by split|].
  by rewrite or_else_Ok_false, List.Forall_cons_iff, IH.
Qed.

Lemma except_raise_Ok {A} (m : res A) p e a : except_raise m p e = Ok a ↔ m = Ok a.
Proof. unfold except_raise. destruct m as [|x]; [done|]. destruct (p x); split; done. Qed.

Lemma assoc_In {A} k (m : list (string * A)) v : assoc k m = Some v → In (k, v) m.
Proof.
  induction m as [|[k' w] m IH]; simpl; [done|].
  destruct (String.eqb_spec k k'); naive_solver.
Qed.

Lemma assoc_mem {A} k (m : list (string * A)) :
  mem k (keys m) = true ↔ ∃ v, assoc k m = Some v.
Proof.
  induction m as [|[k' w] m IH]; simpl; [split; naive_solver|].
  unfold mem in *; simpl. destruct (String.eqb_spec k k'); simpl; naive_solver.
Qed.

Lemma assoc_None {A} k (m : list (string * A)) :
  assoc k m = None ↔ mem k (keys m) = false.
Proof.
  destruct (mem k (keys m)) eqn:E.
  - apply assoc_mem in E as [v ->]. done.
  - split; [done|]. intros _. destruct (assoc k m) eqn:F; [|done].
    assert (mem k (keys m) = true) by (apply assoc_mem; eauto). congruence.
Qed.

Lemma set_item_id {A} k (v : A) m : assoc k m = Some v → set_item k v m = m.
Proof.
  induction m as [|[k' w] m IH]; simpl; [done|].
  destruct (String.eqb_spec k k') as [->|]; intros H; [by simplify_eq|].
  by rewrite IH.
Qed.

Lemma assoc_set_item {A} k k' (v : A) m :
  assoc k (set_item k' v m) = if String.eqb k k' then Some v else assoc k m.
Proof.
  induction m as [|[k2 w] m IH]; simpl.
  - by destruct (String.eqb k k').
  - destruct (String.eqb_spec k' k2) as [->|]; simpl.
    + by destruct (String.eqb_spec k k2).
    + destruct (String.eqb_spec k k2) as [->|]; [|done].
      by rewrite (proj2 (String.eqb_neq k2 k')).
Qed.

Lemma str_app_assoc (a b c : string) : (a +:+ b) +:+ c = a +:+ (b +:+ c).
Proof. induction a; simpl; congruence. Qed.

Lemma str_app_nil_r (a : string) : a +:+ "" = a.
Proof. induction a; simpl; congruence. Qed.

Lemma str_app_length (a b : string) :
  String.length (a +:+ b) = (String.length a + String.length b)%nat.
Proof. induction a; simpl; congruence. Qed.

Lemma chars_cons a b s :
  is_cont b = false → chars (String a (String b s)) = String a "" :: chars (String b s).
Proof.
  intros Hb.
  assert (∃ r cs, chars (String b s) = String b r :: cs) as (r & cs & E).
  { simpl. destruct (chars s) as [|[|c r] cs]; [by eauto..|].
    destruct (is_cont c); eauto. }
  change (chars (String a (String b s))) with
    (match chars (String b s) with
     | (String b r as c) :: cs =>
         if is_cont b then String a c :: cs else String a "" :: c :: cs
     | cs => String a "" :: cs
     end).
  by rewrite E, Hb.
Qed.

Lemma chars_concat s : str_concat (chars s) = s.
Proof.
  induction s as [|a s IH]; simpl; [done|].
  unfold str_concat in *. destruct (chars s) as [|[|b r] cs]; simpl in *; [by subst..|].
  destruct (is_cont b); simpl; by subst.
Qed.

Lemma str_forallb_app p a b : str_forallb p (a +:+ b) = str_forallb p a && str_forallb p b.
Proof. induction a; simpl; [done|]. by rewrite IHa, andb_assoc. Qed.

Lemma replace_char_app c n a b :
  replace_char c n (a +:+ b) = replace_char c n a +:+ replace_char c n b.
Proof.
  induction a as [|x a IH]; simpl; [done|].
  destruct (Ascii.eqb x c); simpl; rewrite IH; [by rewrite str_app_assoc|done].
Qed.

Lemma replace_char_id c n a :
  str_forallb (λ x, negb (Ascii.eqb x c)) a = true → replace_char c n a = a.
Proof.
  induction a as [|x a IH]; simpl; [done|].
  destruct (Ascii.eqb x c); simpl; [done|]. intros H. by rewrite IH.
Qed.

Lemma insert_by_perm {A} (le : A → A → bool) x l : Permutation (insert_by le x l) (x :: l).
Proof.
  induction l as [|y l IH]; simpl; [done|].
  destruct (le x y); [done|]. rewrite IH. apply perm_swap.
Qed.

Lemma sort_by_perm {A} (le : A → A → bool) l : Permutation (sort_by le l) l.
Proof.
  induction l as [|x l IH]; simpl; [done|]. by rewrite insert_by_perm, IH.
Qed.

Lemma sort_by_In {A} (le : A → A → bool) x l : In x (sort_by le l) ↔ In x l.
Proof.
  split; apply Permutation_in; [|symmetry]; apply sort_by_perm.
Qed.

Section sorting.
Context {A : Type} (le : A → A → bool).
Hypothesis le_total : ∀ x y, le x y = true ∨ le y x = true.
Hypothesis le_trans : ∀ x y z, le x y = true → le y z = true → le x z = true.

Lemma insert_by_sorted x l :
  StronglySorted (λ a b, le a b = true) l →
  StronglySorted (λ a b, le a b = true) (insert_by le x l).
Proof using le_total le_trans.
  induction 1 as [|y l Hl IH Hy]; simpl; [repeat constructor|].
  destruct (le x y) eqn:E.
  - constructor; [by constructor|]. constructor; [done|].
    eapply Forall_impl; [exact Hy|]. eauto.
  - constructor; [done|].
    assert (le y x = true) by (destruct (le_total x y); congruence).
    eapply Permutation_Forall; [symmetry; apply insert_by_perm|]. by constructor.
Qed.

Lemma sort_by_sorted l : StronglySorted (λ a b, le a b = true) (sort_by le l).
Proof using le_total le_trans.
  induction l; simpl; [constructor|]. by apply insert_by_sorted.
Qed.

(** Two sorted permutations of each other agree when [le] is antisymmetric
    on the members. *)
Lemma sorted_unique l k :
  (∀ x y, In x l → In y l → le x y = true → le y x = true → x = y) →
  StronglySorted (λ a b, le a b = true) l →
  StronglySorted (λ a b, le a b = true) k →
  Permutation l k → l = k.
Proof using Type.
  intros Hanti Hl. revert k.
  induction Hl as [|x l Hl IH Hx]; intros k Hk Hp.
  - by apply Permutation_nil in Hp.
  - destruct Hk as [|y k Hk Hy]; [by apply Permutation_sym, Permutation_nil in Hp|].
    assert (x = y) as ->.
    { assert (In y (x :: l)) as Hyl by (eapply Permutation_in; [by symmetry|by left]).
      assert (In x (y :: k)) as Hxk by (eapply Permutation_in; [done|by left]).
      destruct Hyl as [->|Hyl]; [done|]. destruct Hxk as [->|Hxk]; [done|].
      apply Hanti; [by left|by right| |].
      - by eapply (proj1 (List.Forall_forall _ _)) in Hx.
      - by eapply (proj1 (List.Forall_forall _ _)) in Hy. }
    f_equal. apply IH; [|done|by eapply Permutation_cons_inv].
    intros a b Ha Hb. apply Hanti; by right.
Qed.
End sorting.

Lemma dedup_strs_In x l : In x (dedup_strs l) ↔ In x l.
Proof.
  induction l as [|y l IH]; simpl; [done|].
  rewrite filter_In, IH, negb_true_iff, String.eqb_neq.
  destruct (String.eqb_spec x y); naive_solver.
Qed.

Lemma dedup_strs_NoDup l : List.NoDup (dedup_strs l).
Proof.
  induction l as [|y l IH]; simpl; constructor.
  - rewrite filter_In, String.eqb_refl. naive_solver.
  - by apply List.NoDup_filter.
Qed.

Lemma dedup_strs_length_le l : (length (dedup_strs l) ≤ length l)%nat.
Proof.
  induction l as [|x l IH]; simpl; [done|].
  pose proof (List.filter_length_le (λ y, negb (String.eqb x y)) (dedup_strs l)). lia.
Qed.

Lemma dedup_strs_id l : List.NoDup l → dedup_strs l = l.
Proof.
  induction 1 as [|x l Hx Hl IH]; simpl; [done|]. f_equal. rewrite IH.
  clear -Hx. induction l as [|y l IH]; simpl; [done|].
  rewrite (proj2 (String.eqb_neq x y)) by (simpl in Hx; naive_solver). simpl. f_equal.
  apply IH. simpl in Hx. naive_solver.
Qed.

Lemma dedup_strs_length l : length (dedup_strs l) = length l ↔ List.NoDup l.
Proof.
  split; [|intros H; by rewrite dedup_strs_id].
  intros H. induction l as [|x l IH]; [constructor|]. simpl in H.
  pose proof (List.filter_length_le (λ y, negb (String.eqb x y)) (dedup_strs l)) as Hf.
  pose proof (dedup_strs_length_le l). injection H as H.
  assert (length (dedup_strs l) = length l) as Hl by lia.
  assert (List.NoDup l) as Hn by auto. constructor; [|done].
  rewrite dedup_strs_id in H by done. intros Hin.
  pose proof (List.filter_length (λ y, negb (String.eqb x y)) l) as Hs.
  assert (0 < length (List.filter (λ y, negb (negb (String.eqb x y))) l))%nat.
  { destruct (List.filter _ l) eqn:E at 1; simpl; [|lia].
    assert (In x []) as []; rewrite <- E. apply filter_In. by rewrite String.eqb_refl. }
  lia.
Qed.

Lemma dedup_json_strs l : dedup_json (map JStr l) = map JStr (dedup_strs l).
Proof.
  induction l as [|x l IH]; simpl; [done|]. f_equal. rewrite IH.
  generalize (dedup_strs l). intros k. induction k as [|y k IHk]; simpl; [done|].
  destruct (String.eqb x y); simpl; by rewrite IHk.
Qed.

Lemma hashable_strs l : forallb hashable (map JStr l) = true.
Proof. induction l; done. Qed.

Lemma py_set_strs l : py_set (map JStr l) = Ok (map JStr (dedup_strs l)).
Proof. unfold py_set. by rewrite hashable_strs, dedup_json_strs. Qed.

Lemma has_duplicates_strs l : has_duplicates (map JStr l) = Ok false ↔ List.NoDup l.
Proof.
  unfold has_duplicates. rewrite py_set_strs. simpl. rewrite !length_map, <- dedup_strs_length.
  destruct (Nat.eqb_spec (length l) (length (dedup_strs l))); simpl; split; intros; congruence.
Qed.

Lemma map_JStr_inj a b : map JStr a = map JStr b → a = b.
Proof. revert b. induction a; intros [|]; simpl; intros; simplify_eq; f_equal; auto. Qed.

Lemma strs_map l : strs (map JStr l) = l.
Proof. induction l; simpl; [done|]. unfold strs in *. simpl. by f_equal. Qed.

(** A list whose members are all strings with property [P]. *)
Lemma Forall_strs (P : string → Prop) (l : list json) :
  Forall (λ v, ∃ s, v = JStr s ∧ P s) l → l = map JStr (strs l) ∧ Forall P (strs l).
Proof.
  induction 1 as [|v l (s & -> & Hs) Hl [IH1 IH2]]; [done|].
  unfold strs in *. simpl. rewrite <- IH1. by split; [|constructor].
Qed.

#[export] Hint Rewrite @bind_Ok raise_if_Ok or_else_Ok_false and_then_Ok_true
  not_in_set_false in_set_true item_Ok @for_each_Ok @any_res_false : py.
#[export] Hint Resolve dedup_strs_NoDup sort_by_perm set_item_id : py.

(** [inv_ok] takes a successful run of a validator apart: one equation per
    check that passed. *)
Ltac inv_ok1 :=
  match goal with
  | H : (_ ≫= _) = Ok _ |- _ => apply bind_Ok in H as (? & ? & H); cbv beta in H
  | H : raise_if _ _ = Ok _ |- _ =>
      apply raise_if_Ok in H;
      match type of H with ?c = false => tryif is_var c then subst c else idtac end
  | H : Ok _ = Ok _ |- _ => injection H as H; try subst
  | H : Err _ = Ok _ |- _ => discriminate H
  | H : Ok _ = Err _ |- _ => discriminate H
  | H : mret _ = Ok _ |- _ => injection H as H
  | H : or_else _ _ = Ok false |- _ => apply or_else_Ok_false in H as [? ?]
  | H : and_then _ _ = Ok true |- _ => apply and_then_Ok_true in H as [? ?]
  | H : not_in_set _ _ = Ok false |- _ => apply not_in_set_false in H as (? & ? & ?)
  | H : in_set _ _ = Ok true |- _ => apply in_set_true in H as (? & ? & ?)
  | H : item _ _ = Ok _ |- _ => apply item_Ok in H
  | H : for_each _ _ = Ok _ |- _ => apply for_each_Ok in H
  | H : except_raise _ _ _ = Ok _ |- _ => apply except_raise_Ok in H
  | H : (if ?c then Err _ else _) = Ok _ |- _ => destruct c eqn:?; [discriminate H|]
  end.
Ltac inv_ok := repeat inv_ok1; simplify_eq.

(** [bool_hyps] turns boolean facts in the context into propositions. *)
Ltac bool_hyps :=
  repeat match goal with
  | H : _ && _ = true |- _ => apply andb_true_iff in H as [? ?]
  | H : _ || _ = false |- _ => apply orb_false_iff in H as [? ?]
  | H : negb _ = true |- _ => apply negb_true_iff in H
  | H : negb _ = false |- _ => apply negb_false_iff in H
  | H : (_ <=? _) = true |- _ => apply Z.leb_le in H
  | H : (_ <? _) = true |- _ => apply Z.ltb_lt in H
  | H : (_ <? _) = false |- _ => apply Z.ltb_ge in H
  | H : (_ <=? _) = false |- _ => apply Z.leb_gt in H
  | H : (_ =? _) = true |- _ => apply Z.eqb_eq in H
  | H : (_ =? _) = false |- _ => apply Z.eqb_neq in H
  end.

#[global] Arguments mem : simpl never.

(** ** Validators that return their input

    [returns v m]: when [m] succeeds it returns exactly [v]. *)
Definition returns {A} (v : A) (m : res A) : Prop := ∀ r, m = Ok r → r = v.

Lemma returns_Ok {A} (v : A) : returns v (Ok v).
Proof. by intros r [= <-]. Qed.

Lemma returns_Err {A} (v : A) e : returns v (Err e).
Proof. done. Qed.

Lemma returns_bind {A B} (v : B) (m : res A) (f : A → res B) :
  (∀ a, m = Ok a → returns v (f a)) → returns v (m ≫= f).
Proof. intros H r Hr. apply bind_Ok in Hr as (a & Ha & Hr). by eapply H. Qed.

Lemma returns_if {A} (v : A) (b : bool) (x y : res A) :
  returns v x → returns v y → returns v (if b then x else y).
Proof. by destruct b. Qed.

Create HintDb returns.
#[export] Hint Resolve returns_Ok returns_Err returns_if : returns.

(** Walks to the end of a chain of checks without looking into them. *)
Ltac returns_input :=
  repeat first
    [ apply returns_Ok | apply returns_Err
    | apply returns_bind; intros ? ? | apply returns_if
    | match goal with |- returns _ (match ?x with _ => _ end) => destruct x end
    | progress eauto with returns ].

Lemma py_eq_str v s : py_eq v (JStr s) = true ↔ v = JStr s.
Proof.
  destruct v as [| | |f|t| |]; simpl; try (split; discriminate).
  - simpl. rewrite String.eqb_eq. naive_solver.
Qed.

Lemma py_eq_str_false v s : py_eq v (JStr s) = false ↔ v ≠ JStr s.
Proof. rewrite <- py_eq_str. by destruct (py_eq v (JStr s)). Qed.

(** ** What a computation may raise

    [errs P m]: every exception [m] can raise satisfies [P]. *)
Definition errs {A} (P : exn → Prop) (m : res A) : Prop := ∀ e, m = Err e → P e.

Lemma errs_Ok {A} P (a : A) : errs P (Ok a).
Proof. done. Qed.

Lemma errs_Err {A} (P : exn → Prop) e : P e → errs P (@Err A e).
Proof. by intros ? ? [= <-]. Qed.

Lemma errs_bind {A B} P (m : res A) (f : A → res B) :
  errs P m → (∀ a, m = Ok a → errs P (f a)) → errs P (m ≫= f).
Proof. intros Hm Hf e [H|(a & Ha & H)]%bind_Err; [by apply Hm|by eapply Hf]. Qed.

Lemma errs_if {A} P (b : bool) (x y : res A) :
  (b = true → errs P x) → (b = false → errs P y) → errs P (if b then x else y).
Proof. destruct b; auto. Qed.

Lemma errs_raise_if (P : exn → Prop) c e : P e → errs P (raise_if c e).
Proof. by intros H ? [_ ->]%raise_if_Err. Qed.

Lemma errs_item P k m : In k (keys m) → errs P (item k m).
Proof.
  intros Hk e. unfold item. destruct (assoc k m) eqn:E; [done|].
  apply assoc_None, mem_not_In in E. done.
Qed.

Lemma errs_or_else P a b : errs P a → errs P b → errs P (or_else a b).
Proof. intros Ha Hb. apply errs_bind; [done|]. intros [] _; [done|exact Hb]. Qed.

Lemma errs_for_each {A} P (f : A → res unit) l : (∀ x, errs P (f x)) → errs P (for_each f l).
Proof. intros H. induction l; simpl; [done|]. by apply errs_bind. Qed.

Lemma errs_map_res {A B} P (f : A → res B) l : (∀ x, errs P (f x)) → errs P (map_res f l).
Proof.
  intros H. induction l; simpl; [done|]. apply errs_bind; [done|]. intros ? _.
  by apply errs_bind.
Qed.

(** The exceptions a contract check can let through: its own
    [ValidationError]s, a [TypeError] on an unhashable member test, and an
    [OverflowError] on an integer no float holds. *)
Definition contract_error (e : exn) : Prop :=
  is_validation e = true ∨ e = TypeError ∨ e = OverflowError.

Lemma contract_validation e : is_validation e = true → contract_error e.
Proof. by left. Qed.

Lemma errs_in_set v s : errs contract_error (in_set v s).
Proof. unfold in_set. destruct (hashable v); [done|]. apply errs_Err. by right; left. Qed.

Lemma errs_not_in_set v s : errs contract_error (not_in_set v s).
Proof. apply errs_bind; [apply errs_in_set|done]. Qed.

Lemma errs_py_set l : errs contract_error (py_set l).
Proof. unfold py_set. destruct (forallb hashable l); [done|]. apply errs_Err. by right; left. Qed.

Lemma errs_has_duplicates l : errs contract_error (has_duplicates l).
Proof. apply errs_bind; [apply errs_py_set|done]. Qed.

Lemma errs_has_outside l s : errs contract_error (has_outside l s).
Proof. apply errs_bind; [apply errs_py_set|done]. Qed.

Create HintDb errs.
#[export] Hint Resolve errs_Ok errs_not_in_set errs_in_set errs_py_set errs_has_duplicates
  errs_has_outside contract_validation : errs.
#[export] Hint Extern 1 (is_validation _ = true) => reflexivity : errs.
#[export] Hint Extern 1 (contract_error TypeError) => (right; left; reflexivity) : errs.

(** Walks a chain of checks, discharging each by the [errs] database; a key
    lookup needs the field list the chain checked first. *)
Ltac errs_key :=
  match goal with
  | H : ∀ x, In x (keys ?m) ↔ In x _ |- In _ (keys ?m) =>
      apply H; apply mem_In; vm_compute; reflexivity
  end.
Ltac errs_step :=
  first
    [ apply errs_Ok
    | apply errs_Err; solve [eauto with errs]
    | apply errs_raise_if; solve [eauto with errs]
    | apply errs_item; first [assumption | errs_key]
    | solve [eauto 3 with errs]
    | apply errs_bind; [|intros ? ?]
    | apply errs_if; intros ?
    | apply errs_or_else
    | apply errs_for_each; intros ?
    | apply errs_map_res; intros ?
    | match goal with |- errs _ (match ?x with _ => _ end) => destruct x eqn:? end ].

(** ** Loops that thread a state and may raise *)
Fixpoint fold_res {A S} (f : S → A → res S) (s : S) (l : list A) : res S :=
  match l with
  | [] => Ok s
  | x :: r => t ← f s x; fold_res f t r
  end.

(** [iter(v)]: a list yields its members, a dict its keys, a string its code
    points; anything else raises. *)
Definition iterate (v : json) : res (list json) :=
  match v with
  | JList l => Ok l
  | JObj m => Ok (map JStr (keys m))
  | JStr s => Ok (map JStr (chars s))
  | _ => Err TypeError
  end.

(** A loop invariant: what each successful turn preserves holds at the end. *)
Lemma fold_res_inv {A S} (f : S → A → res S) (I : list A → S → Prop) l : ∀ done_ s t,
  I done_ s → fold_res f s l = Ok t →
  (∀ d s x s', I d s → f s x = Ok s' → I (d ++ [x]) s') → I (done_ ++ l) t.
Proof.
  induction l as [|x l IH]; intros d s t Hi H Hstep; simpl in H.
  - injection H as <-. by rewrite app_nil_r.
  - apply bind_Ok in H as (s' & Hs & H). rewrite (app_assoc d [x] l : d ++ x :: l = _).
    eapply IH; eauto.
Qed.

Lemma scalar_eq_str_l x y : scalar_eq (JStr x) y = true ↔ y = JStr x.
Proof. destruct y; simpl; try (split; discriminate). rewrite String.eqb_eq. naive_solver. Qed.

Lemma scalar_eq_str_r x y : scalar_eq y (JStr x) = true ↔ y = JStr x.
Proof.
  destruct y as [| | |f| | |]; simpl; try (split; discriminate).
  rewrite String.eqb_eq. naive_solver.
Qed.

Lemma dedup_json_sub v l : In v (dedup_json l) → In v l.
Proof.
  induction l as [|y l IH]; simpl; [done|]. rewrite filter_In. naive_solver.
Qed.

Lemma dedup_json_str x l : In (JStr x) (dedup_json l) ↔ In (JStr x) l.
Proof.
  split; [apply dedup_json_sub|]. induction l as [|y l IH]; simpl; [done|].
  intros [->|H]; [by left|]. destruct (scalar_eq y (JStr x)) eqn:E.
  - apply scalar_eq_str_r in E. by left.
  - right. apply filter_In. split; [auto|]. by rewrite E.
Qed.

Lemma py_set_Ok l k : py_set l = Ok k ↔ forallb hashable l = true ∧ k = dedup_json l.
Proof. unfold py_set. destruct (forallb hashable l); split; naive_solver. Qed.

Lemma dedup_json_nonstr v l :
  In v l → is_str v = false → ∃ w, In w (dedup_json l) ∧ is_str w = false.
Proof.
  induction l as [|y l IH]; simpl; [done|]. intros [->|H] Hv; [exists v; auto|].
  destruct (IH H Hv) as (w & Hw & Hws). destruct (scalar_eq y w) eqn:E.
  - exists y. split; [by left|]. destruct y; try done.
    apply scalar_eq_str_l in E as ->. discriminate.
  - exists w. split; [|done]. right. apply filter_In. by rewrite E.
Qed.

(** [set(l) == set(a)] for strings [a] makes [l] a list of the same strings. *)
Lemma same_set_strs l a :
  same_set l (map JStr a) = Ok true →
  l = map JStr (strs l) ∧ ∀ x, In x (strs l) ↔ In x a.
Proof.
  unfold same_set. rewrite py_set_strs. intros H. inv_ok.
  match goal with H : py_set l = _ |- _ => apply py_set_Ok in H as [Hh ->] end.
  bool_hyps. rewrite forallb_forall in *.
  assert (∀ v, In v l → ∃ s, v = JStr s ∧ In s a) as Hl.
  { intros v Hv. destruct (is_str v) eqn:Hs.
    - destruct v as [| | | |s| |]; try discriminate. exists s. split; [done|].
      apply dedup_json_str in Hv. apply H in Hv. apply existsb_exists in Hv as (y & Hy & E).
      apply scalar_eq_str_l in E as ->. apply in_map_iff in Hy as (? & [= ->] & Hy).
      by apply dedup_strs_In.
    - destruct (dedup_json_nonstr v l Hv Hs) as (w & Hw & Hws).
      apply H in Hw. apply existsb_exists in Hw as (y & Hy & E).
      apply in_map_iff in Hy as (? & <- & _). apply scalar_eq_str_r in E as ->. discriminate. }
  assert (l = map JStr (strs l) ∧ Forall (λ s, In s a) (strs l)) as [El Ha].
  { apply Forall_strs, List.Forall_forall. done. }
  split; [done|]. rewrite List.Forall_forall in Ha. intros x. split; [auto|].
  intros Hx. apply dedup_strs_In in Hx. apply (in_map JStr) in Hx. apply H0 in Hx.
  apply existsb_exists in Hx as (y & Hy & E). apply scalar_eq_str_l in E as ->.
  apply dedup_json_sub in Hy. rewrite El in Hy. apply in_map_iff in Hy as (? & [= ->] & Hy). done.
Qed.

(** [set(l) <= allowed] *)
Lemma has_outside_strs l a :
  has_outside l a = Ok false → l = map JStr (strs l) ∧ Forall (λ s, In s a) (strs l).
Proof.
  unfold has_outside. intros H. inv_ok.
  match goal with H : py_set l = _ |- _ => apply py_set_Ok in H as [Hh ->] end.
  assert (∀ w, In w (dedup_json l) → ∃ s, w = JStr s ∧ In s a) as Hd.
  { intros w Hw. destruct w as [| | | |s| |];
      try (assert (existsb (λ v, match v with JStr x => negb (mem x a) | _ => true end)
                     (dedup_json l) = true) by (apply existsb_exists; eauto); congruence).
    exists s. split; [done|]. apply mem_In. destruct (mem s a) eqn:E; [done|].
    assert (existsb (λ v, match v with JStr x => negb (mem x a) | _ => true end)
              (dedup_json l) = true); [|congruence].
    apply existsb_exists. exists (JStr s). by rewrite E. }
  apply Forall_strs, List.Forall_forall. intros v Hv. destruct (is_str v) eqn:Hs.
  - destruct v as [| | | |s| |]; try discriminate. apply Hd. by apply dedup_json_str.
  - destruct (dedup_json_nonstr v l Hv Hs) as (w & Hw & Hws).
    destruct (Hd w Hw) as (? & -> & _). discriminate.
Qed.

(** ** The order on strings *)
Lemma str_compare_lt_trans a : ∀ b c,
  String.compare a b ≠ Gt → String.compare b c ≠ Gt → String.compare a c ≠ Gt.
Proof.
  induction a as [|x a IH]; intros [|y b] [|z c]; simpl; try done.
  unfold Ascii.compare.
  destruct (N.compare_spec (N_of_ascii x) (N_of_ascii y)) as [E|E|E]; try done;
  destruct (N.compare_spec (N_of_ascii y) (N_of_ascii z)) as [F|F|F]; try done;
  destruct (N.compare_spec (N_of_ascii x) (N_of_ascii z)) as [G|G|G]; try done; try lia.
  apply IH.
Qed.

Lemma str_leb_compare a b : String.leb a b = true ↔ String.compare a b ≠ Gt.
Proof. unfold String.leb. destruct (String.compare a b); split; done. Qed.

Lemma str_leb_trans a b c : String.leb a b = true → String.leb b c = true → String.leb a c = true.
Proof. rewrite !str_leb_compare. apply str_compare_lt_trans. Qed.

Lemma str_leb_total a b : String.leb a b = true ∨ String.leb b a = true.
Proof. apply String.leb_total. Qed.

(** [sorted] of the same strings in any order is the same list. *)
Lemma perm_filter {A} (f : A → bool) l k :
  Permutation l k → Permutation (List.filter f l) (List.filter f k).
Proof.
  induction 1 as [|x l k _ IH|x y l|l k m _ IH1 _ IH2]; simpl; [done| | |by etransitivity].
  - by destruct (f x); [constructor|].
  - destruct (f x), (f y); try done. apply perm_swap.
Qed.

Lemma sorted_strs_perm l k : Permutation l k → sorted_strs l = sorted_strs k.
Proof.
  intros H. apply (sorted_unique String.leb).
  - intros x y _ _. apply String.leb_antisym.
  - apply sort_by_sorted; [apply str_leb_total|apply str_leb_trans].
  - apply sort_by_sorted; [apply str_leb_total|apply str_leb_trans].
  - unfold sorted_strs. by rewrite !sort_by_perm.
Qed.

Lemma map_res_Forall2 {A B} (f : A → res B) l ys :
  map_res f l = Ok ys ↔ Forall2 (λ x y, f x = Ok y) l ys.
Proof.
  revert ys. induction l as [|x l IH]; intros ys; simpl; split.
  - intros [= <-]. constructor.
  - by inversion 1.
  - intros H. inv_ok. constructor; [done|]. by apply IH.
  - inversion_clear 1 as [|? y ? k Hy Hk]. rewrite Hy. simpl. apply IH in Hk. by rewrite Hk.
Qed.

Lemma Forall2_perm {A B} (R : A → B → Prop) l l' k :
  Permutation l l' → Forall2 R l k → ∃ k', Permutation k k' ∧ Forall2 R l' k'.
Proof.
  intros Hp. revert k. induction Hp as [|x l l' Hp IH|x y l|l l' l'' _ IH1 _ IH2]; intros k Hk.
  - inversion_clear Hk. by exists [].
  - inversion_clear Hk as [|? z ? k0 Hz Hk0]. destruct (IH _ Hk0) as (k' & ? & ?).
    exists (z :: k'). split; [by constructor|by constructor].
  - inversion_clear Hk as [|? z ? k0 Hz Hk0]. inversion_clear Hk0 as [|? w ? k1 Hw Hk1].
    exists (w :: z :: k1). split; [apply perm_swap|by repeat constructor].
  - destruct (IH1 _ Hk) as (k1 & ? & H1). destruct (IH2 _ H1) as (k2 & ? & ?).
    exists k2. split; [by etransitivity|done].
Qed.
