(* ===== verification/PyTime.v ===== *)
(** * Timestamps

    The part of [datetime] the program relies on: [datetime.fromisoformat]
    on the format documented for Python 3.10, the oldest supported runtime
    ([YYYY-MM-DD[*HH[:MM[:SS[.fff[fff]]]][+HH:MM[:SS[.ffffff]]]]]; later
    runtimes accept a superset), comparison of aware instants, [isoformat],
    and [+ timedelta(days=n)] with its overflow. *)
From S2P Require Import Prelude.

Record datetime : Type := {
  year : Z; month : Z; day : Z;
  hour : Z; minute : Z; second : Z; microsecond : Z;
  utcoffset : option Z  (* microseconds east of UTC; None is a naive value *)
}.

Definition is_leap (y : Z) : bool :=
  (y mod 4 =? 0) && (negb (y mod 100 =? 0) || (y mod 400 =? 0)).

Definition days_in_month (y m : Z) : Z :=
  if m =? 2 then if is_leap y then 29 else 28
  else if (m =? 4) || (m =? 6) || (m =? 9) || (m =? 11) then 30 else 31.

Fixpoint days_before_month_nat (y : Z) (n : nat) : Z :=
  match n with
  | O => 0
  | S k => days_before_month_nat y k + days_in_month y (Z.of_nat n)
  end.

Definition days_before_year (y : Z) : Z :=
  let p := y - 1 in p * 365 + p / 4 - p / 100 + p / 400.

(** [date.toordinal]: 1 January of year 1 is day 1. *)
Definition toordinal (d : datetime) : Z :=
  days_before_year (year d) + days_before_month_nat (year d) (Z.to_nat (month d - 1)) + day d.

Definition us_per_day : Z := 86400 * 1000000.

Definition valid_fields (d : datetime) : bool :=
  (1 <=? year d) && (year d <=? 9999) && (1 <=? month d) && (month d <=? 12) &&
  (1 <=? day d) && (day d <=? days_in_month (year d) (month d)) &&
  (0 <=? hour d) && (hour d <=? 23) && (0 <=? minute d) && (minute d <=? 59) &&
  (0 <=? second d) && (second d <=? 59) &&
  (0 <=? microsecond d) && (microsecond d <=? 999999) &&
  match utcoffset d with
  | None => true
  | Some o => (- us_per_day <? o) && (o <? us_per_day)
  end.

Definition local_us (d : datetime) : Z :=
  toordinal d * us_per_day +
  (hour d * 3600 + minute d * 60 + second d) * 1000000 + microsecond d.

(** Aware datetimes compare as instants. *)
Definition instant (d : datetime) : Z :=
  local_us d - default 0 (utcoffset d).

Definition aware (d : datetime) : bool :=
  match utcoffset d with Some _ => true | None => false end.

(** [d + timedelta(days=n)], as an instant: a [timedelta] holds at most
    999999999 days and the result must stay in years 1 to 9999. *)
Definition max_ordinal : Z := 3652059.
Definition plus_days (d : datetime) (n : Z) : res Z :=
  if (n <? -999999999) || (999999999 <? n) then Err OverflowError
  else if (toordinal d + n <? 1) || (max_ordinal <? toordinal d + n) then Err OverflowError
  else Ok (instant d + n * us_per_day).

(** ** Reading *)
Definition digit_value (a : ascii) : Z := Z.of_N (N_of_ascii a) - 48.

Fixpoint parse_digits (n : nat) (s : string) : option (Z * string) :=
  match n with
  | O => Some (0, s)
  | S k =>
      match s with
      | String a r =>
          if is_digit a then
            '(v, rest) ← parse_digits k r;
            Some (digit_value a * 10 ^ Z.of_nat k + v, rest)
          else None
      | EmptyString => None
      end
  end.

Definition expect (c : ascii) (s : string) : option string :=
  match s with
  | String a r => if Ascii.eqb a c then Some r else None
  | EmptyString => None
  end.

(** [.fff] or [.ffffff]; the string that follows must not be a digit for the
    three-digit form, which is how the six-digit form is told apart. *)
Definition parse_fraction (s : string) : option (Z * string) :=
  match parse_digits 6 s with
  | Some r => Some r
  | None => '(v, rest) ← parse_digits 3 s; Some (v * 1000, rest)
  end.

(** [HH[:MM[:SS[.fff[fff]]]]] *)
Definition parse_clock (s : string) : option (Z * Z * Z * Z * string) :=
  '(h, s) ← parse_digits 2 s;
  match expect ":" s with
  | None => Some (h, 0, 0, 0, s)
  | Some s =>
      '(m, s) ← parse_digits 2 s;
      match expect ":" s with
      | None => Some (h, m, 0, 0, s)
      | Some s =>
          '(sec, s) ← parse_digits 2 s;
          match expect "." s with
          | None => Some (h, m, sec, 0, s)
          | Some s => '(us, s) ← parse_fraction s; Some (h, m, sec, us, s)
          end
      end
  end.

(** [+HH:MM[:SS[.ffffff]]] up to the end of the string. *)
Definition parse_offset (s : string) : option Z :=
  match s with
  | EmptyString => None
  | String sign s =>
      k ← (if Ascii.eqb sign "+" then Some 1
           else if Ascii.eqb sign "-" then Some (-1) else None);
      '(h, s) ← parse_digits 2 s;
      s ← expect ":" s;
      '(m, s) ← parse_digits 2 s;
      '(sec, us, s) ←
        match expect ":" s with
        | None => Some (0, 0, s)
        | Some s =>
            '(sec, s) ← parse_digits 2 s;
            match expect "." s with
            | None => Some (sec, 0, s)
            | Some s => '(us, s) ← parse_digits 6 s; Some (sec, us, s)
            end
        end;
      if String.eqb s "" then Some (k * ((h * 3600 + m * 60 + sec) * 1000000 + us)) else None
  end.

Definition parse_time (s : string) : option (Z * Z * Z * Z * option Z) :=
  '(h, m, sec, us, s) ← parse_clock s;
  if String.eqb s "" then Some (h, m, sec, us, None)
  else o ← parse_offset s; Some (h, m, sec, us, Some o).

(** [datetime.fromisoformat]; [None] is [ValueError].  Any one character may
    separate the date from the time. *)
Definition fromisoformat (s : string) : option datetime :=
  '(y, s) ← parse_digits 4 s;
  s ← expect "-" s;
  '(mo, s) ← parse_digits 2 s;
  s ← expect "-" s;
  '(d, s) ← parse_digits 2 s;
  '(h, mi, sec, us, off) ←
    match chars s with
    | [] => Some (0, 0, 0, 0, None)
    | _ :: cs => parse_time (str_concat cs)
    end;
  let r := {| year := y; month := mo; day := d; hour := h; minute := mi;
              second := sec; microsecond := us; utcoffset := off |} in
  if valid_fields r then Some r else None.

(** [datetime.fromisoformat(value.replace("Z", "+00:00"))] *)
Definition parse_rfc3339 (s : string) : option datetime :=
  fromisoformat (replace_char "Z" "+00:00" s).

(** ** Writing *)
Fixpoint print_digits (n : nat) (z : Z) : string :=
  match n with
  | O => ""
  | S k => String (ascii_of_N (Z.to_N (48 + z / 10 ^ Z.of_nat k)))
             (print_digits k (z mod 10 ^ Z.of_nat k))
  end.

(** [d.isoformat()] of a UTC value, then [.replace("+00:00", "Z")]: the
    format of [utc_now]. *)
Definition isoformat_utc (d : datetime) : string :=
  print_digits 4 (year d) +:+ "-" +:+ print_digits 2 (month d) +:+ "-" +:+
  print_digits 2 (day d) +:+ "T" +:+
  print_digits 2 (hour d) +:+ ":" +:+ print_digits 2 (minute d) +:+ ":" +:+
  print_digits 2 (second d) +:+
  (if microsecond d =? 0 then "" else "." +:+ print_digits 6 (microsecond d)) +:+ "Z".

(** ** Round trip *)

Lemma digit_ok d :
  0 ≤ d ≤ 9 →
  is_digit (ascii_of_N (Z.to_N (48 + d))) = true ∧
  digit_value (ascii_of_N (Z.to_N (48 + d))) = d.
Proof.
  intros H. unfold is_digit, in_range, digit_value.
  rewrite N_ascii_embedding by lia.
  change (N_of_ascii "0") with 48%N. change (N_of_ascii "9") with 57%N.
  rewrite andb_true_iff, !N.leb_le. lia.
Qed.

Lemma parse_print_digits n z rest :
  0 ≤ z < 10 ^ Z.of_nat n → parse_digits n (print_digits n z +:+ rest) = Some (z, rest).
Proof.
  revert z. induction n as [|n IH]; intros z Hz.
  - simpl in *. f_equal. f_equal. lia.
  - rewrite Nat2Z.inj_succ, Z.pow_succ_r in Hz by lia.
    assert (0 < 10 ^ Z.of_nat n) by (apply Z.pow_pos_nonneg; lia).
    assert (0 ≤ z / 10 ^ Z.of_nat n ≤ 9) as Hd.
    { split; [apply Z.div_pos; lia|].
      assert (z / 10 ^ Z.of_nat n < 10); [apply Z.div_lt_upper_bound|]; lia. }
    destruct (digit_ok _ Hd) as [Hdig Hval].
    cbn [print_digits parse_digits]. cbn [String.append].
    rewrite Hdig, Hval, IH by (apply Z.mod_pos_bound; lia). simpl.
    f_equal. f_equal. pose proof (Z.div_mod z (10 ^ Z.of_nat n)). lia.
Qed.

Lemma print_digits_forallb p n z :
  (∀ d, 0 ≤ d ≤ 9 → p (ascii_of_N (Z.to_N (48 + d))) = true) →
  0 ≤ z < 10 ^ Z.of_nat n → str_forallb p (print_digits n z) = true.
Proof.
  intros Hp. revert z. induction n as [|n IH]; intros z Hz; [done|].
  rewrite Nat2Z.inj_succ, Z.pow_succ_r in Hz by lia.
  assert (0 < 10 ^ Z.of_nat n) by (apply Z.pow_pos_nonneg; lia).
  cbn [print_digits str_forallb]. rewrite andb_true_iff. split.
  - apply Hp. split; [apply Z.div_pos; lia|].
    assert (z / 10 ^ Z.of_nat n < 10); [apply Z.div_lt_upper_bound|]; lia.
  - apply IH. apply Z.mod_pos_bound; lia.
Qed.

Lemma digit_not_Z d :
  0 ≤ d ≤ 9 → negb (Ascii.eqb (ascii_of_N (Z.to_N (48 + d))) "Z") = true.
Proof.
  intros H. rewrite negb_true_iff, Ascii.eqb_neq. intros E.
  apply (f_equal N_of_ascii) in E. rewrite N_ascii_embedding in E by lia.
  change (N_of_ascii "Z") with 90%N in E. lia.
Qed.

Lemma replace_print n z :
  0 ≤ z < 10 ^ Z.of_nat n →
  replace_char "Z" "+00:00" (print_digits n z) = print_digits n z.
Proof. intros. apply replace_char_id, print_digits_forallb; auto using digit_not_Z. Qed.

Lemma print_digits_cons n z r :
  0 ≤ z < 10 ^ Z.of_nat (S n) →
  ∃ b s, print_digits (S n) z +:+ r = String b s ∧ is_cont b = false.
Proof.
  intros Hz. rewrite Nat2Z.inj_succ, Z.pow_succ_r in Hz by lia.
  assert (0 < 10 ^ Z.of_nat n) by (apply Z.pow_pos_nonneg; lia).
  assert (0 ≤ z / 10 ^ Z.of_nat n < 10).
  { split; [apply Z.div_pos; lia|apply Z.div_lt_upper_bound; lia]. }
  eexists _, _. split; [reflexivity|].
  unfold is_cont. rewrite N_ascii_embedding by lia.
  rewrite andb_false_iff, N.leb_gt. lia.
Qed.

Lemma parse_offset_utc : parse_offset "+00:00" = Some 0.
Proof. reflexivity. Qed.

#[local] Opaque print_digits parse_digits.
#[local] Arguments parse_offset : simpl never.
#[local] Arguments valid_fields : simpl never.

Definition set_utc (d : datetime) : datetime :=
  {| year := year d; month := month d; day := day d; hour := hour d; minute := minute d;
     second := second d; microsecond := microsecond d; utcoffset := Some 0 |}.

Lemma days_in_month_le y m : days_in_month y m ≤ 31.
Proof. unfold days_in_month. repeat case_match; lia. Qed.

(** The text of a UTC value with a given fraction *)
Definition utc_body (d : datetime) (fraction : string) : string :=
  print_digits 4 (year d) +:+ "-" +:+ print_digits 2 (month d) +:+ "-" +:+
  print_digits 2 (day d) +:+ "T" +:+
  print_digits 2 (hour d) +:+ ":" +:+ print_digits 2 (minute d) +:+ ":" +:+
  print_digits 2 (second d) +:+ fraction +:+ "+00:00".

Lemma fromisoformat_body d fraction :
  valid_fields (set_utc d) = true →
  (fraction = "" ∧ microsecond d = 0) ∨ fraction = "." +:+ print_digits 6 (microsecond d) →
  fromisoformat (utc_body d fraction) = Some (set_utc d).
Proof.
  intros Hv Hf. pose proof Hv as Hv'. unfold valid_fields in Hv'. simpl in Hv'. bool_hyps.
  pose proof (days_in_month_le (year d) (month d)).
  unfold utc_body, fromisoformat.
  rewrite parse_print_digits by (simpl; lia). simpl.
  rewrite parse_print_digits by (simpl; lia). simpl.
  rewrite parse_print_digits by (simpl; lia).
  set (tail := print_digits 2 (hour d) +:+ _). cbn [mbind option_bind].
  assert (chars (String "T" tail) = "T" :: chars tail) as ->.
  { destruct (print_digits_cons 1 (hour d) (":" +:+ print_digits 2 (minute d) +:+ ":" +:+
      print_digits 2 (second d) +:+ fraction +:+ "+00:00")) as (b & s & E & Hb); [simpl; lia|].
    replace tail with (String b s) by (subst tail; symmetry; exact E). by apply chars_cons. }
  rewrite chars_concat. subst tail. unfold parse_time, parse_clock.
  rewrite parse_print_digits by (simpl; lia). simpl.
  rewrite parse_print_digits by (simpl; lia). simpl.
  rewrite parse_print_digits by (simpl; lia). simpl.
  destruct Hf as [[-> E]| ->].
  - simpl. rewrite parse_offset_utc. simpl. unfold set_utc in *.
    rewrite E in Hv |- *. by rewrite Hv.
  - cbn [String.append expect]. change (Ascii.eqb "." ".") with true. cbv iota.
    unfold parse_fraction. rewrite parse_print_digits by (simpl; lia). simpl.
    rewrite parse_offset_utc. simpl. unfold set_utc in Hv. by rewrite Hv.
Qed.

Lemma parse_rfc3339_isoformat d :
  valid_fields (set_utc d) = true → parse_rfc3339 (isoformat_utc d) = Some (set_utc d).
Proof.
  intros Hv. pose proof Hv as Hv'. unfold valid_fields in Hv'. simpl in Hv'. bool_hyps.
  pose proof (days_in_month_le (year d) (month d)).
  unfold parse_rfc3339, isoformat_utc.
  rewrite !replace_char_app, !replace_print by (simpl; lia).
  replace (replace_char "Z" "+00:00"
             (if microsecond d =? 0 then "" else "." +:+ print_digits 6 (microsecond d)))
    with (if microsecond d =? 0 then "" else "." +:+ print_digits 6 (microsecond d)); cycle 1.
  { destruct (microsecond d =? 0); [done|].
    by rewrite replace_char_app, replace_print by (simpl; lia). }
  apply (fromisoformat_body d); [done|].
  destruct (Z.eqb_spec (microsecond d) 0); [by left|by right].
Qed.

(** Timestamps round trip: what the program writes for a UTC instant,
    with or without a fraction, its reader reads back as the same fields, for
    every calendar-valid date of years 1 to 9999. *)
Theorem rfc3339_roundtrip d :
  valid_fields (set_utc d) = true → parse_rfc3339 (isoformat_utc d) = Some (set_utc d).
Proof. apply parse_rfc3339_isoformat. Qed.

Definition leap_instant : datetime :=
  {| year := 2024; month := 2; day := 29; hour := 23; minute := 59; second := 59;
     microsecond := 250; utcoffset := None |}.

Lemma rfc3339_roundtrip_witness :
  parse_rfc3339 (isoformat_utc leap_instant) = Some (set_utc leap_instant).
Proof. apply (rfc3339_roundtrip leap_instant). vm_compute. reflexivity. Defined.

Example leap_instant_text : isoformat_utc leap_instant = "2024-02-29T23:59:59.000250Z".
Proof. vm_compute. reflexivity. Qed.
