(* ===== verification/Urn.v ===== *)
(** * Canonical typed UUIDv4 URNs ([urn.py])

    [require_urn] is the one reader of identifiers; [make_urn] mints them
    from a UUID drawn by [uuid.uuid4].  [uuid.UUID] and [str(UUID)] are
    modelled as far as the reader uses them. *)
From S2P Require Import Prelude.

(** ** [uuid.UUID] *)
Definition hex_char (d : Z) : ascii :=
  ascii_of_N (Z.to_N (if d <? 10 then 48 + d else 87 + d)).

Fixpoint print_hex (n : nat) (z : Z) : string :=
  match n with
  | O => ""
  | S k => String (hex_char (z / 16 ^ Z.of_nat k)) (print_hex k (z mod 16 ^ Z.of_nat k))
  end.

Definition hex_value (a : ascii) : option Z :=
  let n := Z.of_N (N_of_ascii a) in
  if is_digit a then Some (n - 48)
  else if in_range "a" "f" a then Some (n - 87)
  else if in_range "A" "F" a then Some (n - 55)
  else None.

(** The digits of [int(s, 16)]: single underscores may separate digits. *)
Fixpoint hex_digits (s : string) (acc : Z) (after_digit : bool) : option Z :=
  match s with
  | EmptyString => if after_digit then Some acc else None
  | String a r =>
      if Ascii.eqb a "_" then if after_digit then hex_digits r acc false else None
      else match hex_value a with
           | Some d => hex_digits r (16 * acc + d) true
           | None => None
           end
  end.

(** [int(s, 16)] for a string without ["-"]. *)
Definition int16 (s : string) : option Z :=
  let s := strip s in
  let s := match s with
           | String a r => if Ascii.eqb a "+" then r else s
           | EmptyString => s
           end in
  match s with
  | String a (String b r) =>
      if Ascii.eqb a "0" && (Ascii.eqb b "x" || Ascii.eqb b "X")
      then if String.eqb r "" then None else hex_digits r 0 true
      else hex_digits s 0 false
  | _ => hex_digits s 0 false
  end.

Definition is_brace (c : string) : bool := String.eqb c "{" || String.eqb c "}".

(** [s.strip("{}").replace("-", "")] *)
Definition uuid_hex (s : string) : string :=
  replace_char "-" ""
    (str_concat (rev (drop_while is_brace (rev (drop_while is_brace (chars s)))))).

(** [uuid.UUID(s)] on a text without colons; [None] is [ValueError].  Digits
    of other scripts, which [int] also reads, are taken as a [ValueError]:
    a text with one is never canonical, so it is refused either way. *)
Definition parse_uuid (s : string) : option Z :=
  let h := uuid_hex s in
  if py_len h =? 32 then
    z ← int16 h; if (0 <=? z) && (z <? 2 ^ 128) then Some z else None
  else None.

(** [str(u)] *)
Definition uuid_str (z : Z) : string :=
  let h := print_hex 32 z in
  String.substring 0 8 h +:+ "-" +:+ String.substring 8 4 h +:+ "-" +:+
  String.substring 12 4 h +:+ "-" +:+ String.substring 16 4 h +:+ "-" +:+
  String.substring 20 12 h.

(** [u.version]: [None] unless the variant is the one of RFC 4122. *)
Definition uuid_version (z : Z) : option Z :=
  if Z.testbit z 63 && negb (Z.testbit z 62)
  then Some (Z.land (Z.shiftr z 76) 15) else None.

(** ** The two operations of the module *)
Definition kind_ok (s : string) : bool :=
  match s with
  | EmptyString => false
  | String a r =>
      is_lower a &&
      str_forallb (λ c, is_lower_alnum c || Ascii.eqb c "_" || Ascii.eqb c "-") r
  end.

(** [make_urn(kind)] with [u] the 128-bit value [uuid.uuid4] returned. *)
Definition make_urn (u : Z) (kind : string) : res string :=
  raise_if (negb (kind_ok kind)) (ValidationError ("invalid URN kind: " +:+ kind)) ;;
  Ok ("urn:imprint:" +:+ kind +:+ ":" +:+ uuid_str u).

Definition kind_matches (actual : string) (kind : option string) : bool :=
  match kind with None => true | Some k => String.eqb actual k end.

(** [kind or 'typed'] *)
Definition kind_or_typed (kind : option string) : string :=
  match kind with Some k => if String.eqb k "" then "typed" else k | None => "typed" end.

Definition require_urn (value : json) (kind : option string) (field : string) : res string :=
  match value with
  | JStr s =>
      match split_on ":" s with
      | [p0; p1; actual_kind; uuid_text] =>
          raise_if (negb (String.eqb p0 "urn" && String.eqb p1 "imprint"))
            (ValidationError (field +:+ " must be an Imprint URN")) ;;
          raise_if (negb (kind_ok actual_kind) || negb (kind_matches actual_kind kind))
            (ValidationError (field +:+ " must be a " +:+ kind_or_typed kind +:+ " URN")) ;;
          match parse_uuid uuid_text with
          | None => Err (ValidationError (field +:+ " has an invalid UUID"))
          | Some parsed =>
              raise_if (negb (match uuid_version parsed with Some v => v =? 4 | None => false end)
                        || negb (String.eqb (uuid_str parsed) uuid_text))
                (ValidationError (field +:+ " must contain canonical UUIDv4")) ;;
              Ok s
          end
      | _ => Err (ValidationError (field +:+ " must be an Imprint URN"))
      end
  | _ => Err (ValidationError (field +:+ " must be an Imprint URN"))
  end.

(** The identifiers the program admits: canonical text of a version 4 UUID
    under an admissible kind. *)
Definition is_uuid4 (u : string) : Prop :=
  ∃ z, 0 ≤ z < 2 ^ 128 ∧ u = uuid_str z ∧ uuid_version z = Some 4.

Definition is_urn (kind : option string) (s : string) : Prop :=
  ∃ k u, s = "urn:imprint:" +:+ k +:+ ":" +:+ u ∧
         kind_ok k = true ∧ kind_matches k kind = true ∧ is_uuid4 u.

(** ** Splitting and joining at a separator *)
Fixpoint join (sep : ascii) (l : list string) : string :=
  match l with
  | [] => ""
  | [x] => x
  | x :: r => x +:+ String sep (join sep r)
  end.

Lemma split_on_nonempty c s : split_on c s ≠ [].
Proof. destruct s as [|a s]; simpl; [done|]. repeat case_match; done. Qed.

Lemma join_split c s : join c (split_on c s) = s.
Proof.
  induction s as [|a s IH]; [done|]. simpl.
  pose proof (split_on_nonempty c s).
  destruct (Ascii.eqb_spec a c) as [->|]; destruct (split_on c s) as [|x [|y l]];
    simpl in *; congruence.
Qed.

Lemma split_on_none c s :
  str_forallb (λ a, negb (Ascii.eqb a c)) s = true → split_on c s = [s].
Proof.
  induction s as [|a s IH]; simpl; [done|]. intros H. bool_hyps.
  rewrite H, IH; done.
Qed.

Lemma split_on_cons c s r :
  str_forallb (λ a, negb (Ascii.eqb a c)) s = true →
  split_on c (s +:+ String c r) = s :: split_on c r.
Proof.
  induction s as [|a s IH]; simpl; [by rewrite Ascii.eqb_refl|].
  intros H. bool_hyps. by rewrite H, IH.
Qed.

Lemma str_forallb_impl (p q : ascii → bool) s :
  (∀ a, p a = true → q a = true) → str_forallb p s = true → str_forallb q s = true.
Proof.
  intros Hpq. induction s; simpl; [done|]. rewrite !andb_true_iff. naive_solver.
Qed.

(** ** Lower-case hexadecimal *)
Definition is_ascii (a : ascii) : bool := (N_of_ascii a <? 128)%N.

Lemma chars_ascii s :
  str_forallb is_ascii s = true → chars s = map (λ a, String a "") (list_ascii_of_string s).
Proof.
  induction s as [|a [|b s] IH]; simpl; [done..|]. intros H. bool_hyps.
  change (chars (String a (String b s)) = String a "" :: String b "" ::
    map (λ a, String a "") (list_ascii_of_string s)).
  rewrite chars_cons.
  - rewrite IH; [done|]. simpl. by rewrite andb_true_iff.
  - unfold is_cont, is_ascii in *. rewrite andb_false_iff, N.leb_gt.
    left. by apply N.ltb_lt.
Qed.

Lemma drop_while_id {A} (p : A → bool) l : forallb (λ x, negb (p x)) l = true → drop_while p l = l.
Proof. destruct l as [|x l]; simpl; [done|]. intros H. bool_hyps. by rewrite H. Qed.

Lemma trim_id (p : string → bool) l :
  forallb (λ x, negb (p x)) l = true →
  rev (drop_while p (rev (drop_while p l))) = l.
Proof.
  intros H. rewrite (drop_while_id p l H), drop_while_id, rev_involutive; [done|].
  apply forallb_forall. intros x Hx%in_rev. by eapply forallb_forall in H.
Qed.

Lemma forallb_singles (p : string → bool) q s :
  (∀ a, q a = true → p (String a "") = true) → str_forallb q s = true →
  forallb p (map (λ a, String a "") (list_ascii_of_string s)) = true.
Proof.
  intros Hpq. induction s; simpl; [done|]. rewrite !andb_true_iff. naive_solver.
Qed.

Lemma ascii_cases (P : ascii → bool) :
  forallb P (map ascii_of_nat (seq 0 256)) = true → ∀ a, P a = true.
Proof.
  intros H a. rewrite forallb_forall in H. apply H. rewrite <- (ascii_nat_embedding a).
  apply in_map, in_seq. pose proof (nat_ascii_bounded a). lia.
Qed.

Definition hex_dash (a : ascii) : bool := is_hex a || Ascii.eqb a "-".

Lemma hex_dash_plain a : hex_dash a = true →
  is_ascii a && negb (is_space (String a "")) && negb (is_brace (String a "")) &&
  negb (Ascii.eqb a ":") = true.
Proof.
  assert (∀ a, negb (hex_dash a) || (is_ascii a && negb (is_space (String a "")) &&
    negb (is_brace (String a "")) && negb (Ascii.eqb a ":")) = true) as H.
  { apply ascii_cases. vm_compute. reflexivity. }
  specialize (H a). intros E. by rewrite E in H.
Qed.

Lemma hex_no_dash a : is_hex a = true → negb (Ascii.eqb a "-") = true.
Proof.
  assert (∀ a, negb (is_hex a) || negb (Ascii.eqb a "-") = true) as H.
  { apply ascii_cases. vm_compute. reflexivity. }
  specialize (H a). intros E. by rewrite E in H.
Qed.

Lemma hex_not_prefix a : is_hex a = true →
  Ascii.eqb a "+" = false ∧ Ascii.eqb a "x" = false ∧ Ascii.eqb a "X" = false.
Proof.
  assert (∀ a, negb (is_hex a) || negb (Ascii.eqb a "+" || Ascii.eqb a "x" || Ascii.eqb a "X")
    = true) as H by (apply ascii_cases; vm_compute; reflexivity).
  specialize (H a). intros E. rewrite E in H. simpl in H. bool_hyps. done.
Qed.

Lemma hex_char_spec d : 0 ≤ d < 16 →
  is_hex (hex_char d) = true ∧ hex_value (hex_char d) = Some d ∧
  Ascii.eqb (hex_char d) "_" = false.
Proof.
  intros H. assert (In d (map Z.of_nat (seq 0 16))) as Hin.
  { rewrite in_map_iff. exists (Z.to_nat d). rewrite in_seq. lia. }
  simpl in Hin. repeat destruct Hin as [<-|Hin]; done.
Qed.

Lemma hex_split n z :
  0 ≤ z < 16 ^ Z.of_nat (S n) →
  0 ≤ z / 16 ^ Z.of_nat n < 16 ∧ 0 ≤ z mod 16 ^ Z.of_nat n < 16 ^ Z.of_nat n ∧
  z = z / 16 ^ Z.of_nat n * 16 ^ Z.of_nat n + z mod 16 ^ Z.of_nat n.
Proof.
  rewrite Nat2Z.inj_succ, Z.pow_succ_r by lia. intros Hz.
  assert (0 < 16 ^ Z.of_nat n) by (apply Z.pow_pos_nonneg; lia).
  split; [split; [apply Z.div_pos; lia|apply Z.div_lt_upper_bound; lia]|].
  split; [apply Z.mod_pos_bound; lia|]. pose proof (Z.div_mod z (16 ^ Z.of_nat n)). lia.
Qed.

Lemma print_hex_is_hex n z :
  0 ≤ z < 16 ^ Z.of_nat n → str_forallb is_hex (print_hex n z) = true.
Proof.
  revert z. induction n as [|n IH]; intros z Hz; [done|].
  apply hex_split in Hz as (Hd & Hm & _). cbn [print_hex str_forallb].
  apply hex_char_spec in Hd as (-> & _). by rewrite IH.
Qed.

Lemma print_hex_length n z : String.length (print_hex n z) = n.
Proof. revert z. induction n; intros; simpl; [done|]. by rewrite IHn. Qed.

Lemma hex_digits_print n z acc b :
  0 ≤ z < 16 ^ Z.of_nat n → (n = 0%nat → b = true) →
  hex_digits (print_hex n z) acc b = Some (acc * 16 ^ Z.of_nat n + z).
Proof.
  revert z acc b. induction n as [|n IH]; intros z acc b Hz Hb.
  - rewrite Hb by done. simpl in *. f_equal. lia.
  - apply hex_split in Hz as (Hd & Hm & E). cbn [print_hex hex_digits].
    apply hex_char_spec in Hd as (_ & -> & ->). rewrite IH by done.
    rewrite Nat2Z.inj_succ, Z.pow_succ_r by lia. f_equal. rewrite E at 3. ring.
Qed.

Lemma strip_plain s :
  str_forallb (λ a, is_ascii a && negb (is_space (String a ""))) s = true → strip s = s.
Proof.
  intros H. unfold strip. rewrite trim_id; [apply chars_concat|].
  rewrite chars_ascii.
  - eapply forallb_singles; [|exact H]. simpl. intros a Ha. by apply andb_true_iff in Ha as [_ Ha].
  - eapply str_forallb_impl; [|exact H]. simpl. intros a Ha. by bool_hyps.
Qed.

Lemma int16_print z :
  0 ≤ z < 2 ^ 128 → int16 (print_hex 32 z) = Some z.
Proof.
  intros Hz. pose proof (print_hex_is_hex 32 z Hz) as Hh.
  unfold int16. rewrite strip_plain; cycle 1.
  { eapply str_forallb_impl; [|exact Hh]. intros a Ha.
    pose proof (hex_dash_plain a) as H. unfold hex_dash in H. rewrite Ha in H. simpl in H.
    specialize (H eq_refl). bool_hyps. rewrite andb_true_iff, negb_true_iff. done. }
  pose proof (hex_digits_print 32 z 0 false Hz ltac:(done)) as Hd.
  destruct (print_hex 32 z) as [|a [|b r]] eqn:E;
    [by apply (f_equal String.length) in E; rewrite print_hex_length in E..|].
  simpl in Hh. bool_hyps.
  destruct (hex_not_prefix a) as (-> & _ & _); [done|].
  destruct (hex_not_prefix b) as (_ & -> & ->); [done|].
  rewrite orb_false_r, andb_false_r. exact Hd.
Qed.

Lemma str_len_S (s : string) n : String.length s = S n → ∃ a r, s = String a r ∧ String.length r = n.
Proof. destruct s as [|a r]; simpl; [done|]. intros [= <-]. eauto. Qed.

Lemma uuid_str_shape z :
  0 ≤ z < 2 ^ 128 →
  str_forallb hex_dash (uuid_str z) = true ∧ replace_char "-" "" (uuid_str z) = print_hex 32 z.
Proof.
  intros Hz. pose proof (print_hex_is_hex 32 z Hz) as Hh.
  pose proof (print_hex_length 32 z) as Hl. unfold uuid_str.
  generalize dependent (print_hex 32 z). intros h Hh Hl.
  assert (∀ n m, str_forallb is_hex (String.substring n m h) = true) as Hsub.
  { clear Hl. intros n. revert h Hh. induction n as [|n IH]; intros [|a h] Hh [|m]; simpl; try done.
    - simpl in Hh. bool_hyps. rewrite H. simpl. clear H.
      revert h H0. induction m as [|m IHm]; intros [|b h] H0; simpl; try done.
      simpl in H0. bool_hyps. by rewrite H, IHm.
    - simpl in Hh. bool_hyps. by apply IH.
    - simpl in Hh. bool_hyps. by apply IH. }
  split.
  - rewrite !str_forallb_app, !andb_true_iff.
    repeat split; try (eapply str_forallb_impl; [|apply Hsub]; intros a Ha;
      unfold hex_dash; by rewrite Ha).
  - assert (∀ n m, replace_char "-" "" (String.substring n m h) = String.substring n m h) as Hid.
    { intros n m. apply replace_char_id. eapply str_forallb_impl; [apply hex_no_dash|apply Hsub]. }
    rewrite !replace_char_app, !Hid.
    do 32 (apply str_len_S in Hl as (? & ? & -> & Hl)).
    match type of Hl with String.length ?t = _ => destruct t; [reflexivity|discriminate] end.
Qed.

Lemma parse_uuid_str z : 0 ≤ z < 2 ^ 128 → parse_uuid (uuid_str z) = Some z.
Proof.
  intros Hz. destruct (uuid_str_shape z Hz) as [Hs Hr].
  assert (∀ a, hex_dash a = true → is_ascii a = true) as Ha.
  { intros a H%hex_dash_plain. by bool_hyps. }
  unfold parse_uuid, uuid_hex.
  rewrite trim_id; cycle 1.
  { rewrite chars_ascii by (by eapply str_forallb_impl).
    eapply forallb_singles; [|exact Hs]. intros a H%hex_dash_plain. bool_hyps.
    by apply negb_true_iff. }
  rewrite chars_concat, Hr. unfold py_len.
  pose proof (print_hex_is_hex 32 z Hz) as Hh.
  rewrite chars_ascii, length_map.
  - replace (length (list_ascii_of_string (print_hex 32 z))) with 32%nat.
    + rewrite int16_print by done. cbn [mbind option_bind].
      change (Z.of_nat 32 =? 32) with true. cbv iota.
      by rewrite (proj2 (andb_true_iff _ _))
        by (rewrite Z.leb_le, Z.ltb_lt; lia).
    + rewrite <- (print_hex_length 32 z) at 1.
      generalize (print_hex 32 z). intros s. induction s; simpl; congruence.
  - eapply str_forallb_impl; [|exact Hh]. intros a H. apply Ha. unfold hex_dash. by rewrite H.
Qed.

Lemma kind_no_colon k :
  kind_ok k = true → str_forallb (λ a, negb (Ascii.eqb a ":")) k = true.
Proof.
  assert (∀ a, negb (is_lower_alnum a || Ascii.eqb a "_" || Ascii.eqb a "-")
     || negb (Ascii.eqb a ":") = true) as H by (apply ascii_cases; vm_compute; reflexivity).
  assert (∀ a, negb (is_lower a) || negb (Ascii.eqb a ":") = true) as H0
    by (apply ascii_cases; vm_compute; reflexivity).
  destruct k as [|a k]; simpl; [done|]. rewrite !andb_true_iff. intros [Ha Hk]. split.
  - specialize (H0 a). by rewrite Ha in H0.
  - eapply str_forallb_impl; [|exact Hk]. intros b Hb. specialize (H b). by rewrite Hb in H.
Qed.

Lemma uuid_no_colon z :
  0 ≤ z < 2 ^ 128 → str_forallb (λ a, negb (Ascii.eqb a ":")) (uuid_str z) = true.
Proof.
  intros Hz. eapply str_forallb_impl; [|apply (uuid_str_shape z Hz)].
  intros a H%hex_dash_plain. bool_hyps. by apply negb_true_iff.
Qed.

Lemma split_urn k z :
  kind_ok k = true → 0 ≤ z < 2 ^ 128 →
  split_on ":" ("urn:imprint:" +:+ k +:+ ":" +:+ uuid_str z) = ["urn"; "imprint"; k; uuid_str z].
Proof.
  intros Hk Hz.
  change ("urn:imprint:" +:+ k +:+ ":" +:+ uuid_str z)
    with ("urn" +:+ String ":" ("imprint" +:+ String ":" (k +:+ String ":" (uuid_str z)))).
  rewrite !split_on_cons by (done || by apply kind_no_colon).
  by rewrite split_on_none by (by apply uuid_no_colon).
Qed.

Lemma require_urn_is_urn v kind field s :
  require_urn v kind field = Ok s → v = JStr s ∧ is_urn kind s.
Proof.
  intros H. destruct v as [| | | |t| |]; [discriminate H..| |discriminate H|discriminate H].
  unfold require_urn in H. pose proof (join_split ":" t) as Hj.
  destruct (split_on ":" t) as [|p0 [|p1 [|k [|u [|]]]]];
    [discriminate H..| |discriminate H].
  inv_ok. destruct (parse_uuid u) as [z|] eqn:Hz; [|discriminate]. inv_ok. bool_hyps.
  unfold parse_uuid in Hz. destruct (_ =? 32); [|discriminate].
  apply bind_Some in Hz as (w & _ & Hz). destruct (_ && _) eqn:Hw; [|discriminate].
  simplify_eq. bool_hyps.
  repeat match goal with H : String.eqb _ _ = true |- _ => apply String.eqb_eq in H; subst end.
  split; [reflexivity|]. exists k, (uuid_str z).
  split; [reflexivity|]. split; [assumption|]. split; [assumption|]. exists z.
  destruct (uuid_version z) as [n|]; [|discriminate]. bool_hyps. subst.
  split; [split; assumption|]. split; reflexivity.
Qed.

(** What the reader accepts is exactly [is_urn], and it returns its input. *)
Lemma require_urn_iff v kind field s :
  require_urn v kind field = Ok s ↔ v = JStr s ∧ is_urn kind s.
Proof.
  split; [apply require_urn_is_urn|].
  intros (-> & k & u & -> & Hk & Hm & z & Hz & -> & Hv).
  unfold require_urn. rewrite split_urn by done.
  change (String.eqb "urn" "urn" && String.eqb "imprint" "imprint") with true.
  rewrite Hk, Hm, parse_uuid_str, Hv, String.eqb_refl by done. done.
Qed.

Lemma make_urn_accepted u kind s field :
  0 ≤ u < 2 ^ 128 → uuid_version u = Some 4 →
  make_urn u kind = Ok s → require_urn (JStr s) (Some kind) field = Ok s.
Proof.
  intros Hu Hv H. unfold make_urn in H. inv_ok. bool_hyps.
  apply require_urn_iff. split; [done|]. exists kind, (uuid_str u).
  simpl. rewrite String.eqb_refl. split_and!; [done..|]. by exists u.
Qed.

(** The reader never raises anything but [ValidationError]. *)
Lemma require_urn_error v kind field e :
  require_urn v kind field = Err e → is_validation e = true.
Proof.
  intros H. unfold require_urn in H.
  destruct v as [| | | |t| |]; try (injection H as <-; reflexivity).
  destruct (split_on ":" t) as [|p0 [|p1 [|k [|u [|]]]]]; try (injection H as <-; reflexivity).
  apply bind_Err in H as [H|(? & _ & H)]; [by eapply raise_if_validation|].
  apply bind_Err in H as [H|(? & _ & H)]; [by eapply raise_if_validation|].
  destruct (parse_uuid u); [|injection H as <-; reflexivity].
  apply bind_Err in H as [H|(? & _ & H)]; [by eapply raise_if_validation|].
  discriminate H.
Qed.

#[global] Opaque require_urn.

(** ** Properties *)

(** The one reader of identifiers decides the grammar exactly.  It
    accepts precisely the texts [urn:imprint:<kind>:<uuid>] with an admissible
    kind, the requested one when there is one, and the canonical lower-case
    text of a version 4 UUID; it returns its input unchanged, and the only
    error it raises is a validation error. *)
Theorem urn_grammar v kind field :
  (∀ s, require_urn v kind field = Ok s ↔ v = JStr s ∧ is_urn kind s) ∧
  (∀ e, require_urn v kind field = Err e → is_validation e = true).
Proof. split; intros; [apply require_urn_iff|by eapply require_urn_error]. Qed.

(** What the program mints it reads back: an identifier minted from a
    version 4 UUID is accepted, unchanged, where its kind is required. *)
Theorem minted_urn_accepted u kind s field :
  0 ≤ u < 2 ^ 128 → uuid_version u = Some 4 →
  make_urn u kind = Ok s → require_urn (JStr s) (Some kind) field = Ok s.
Proof. apply make_urn_accepted. Qed.

Lemma minted_urn_accepted_witness :
  require_urn (JStr "urn:imprint:reason:12345678-9abc-4def-8123-456789abcdef") (Some "reason") "id"
  = Ok "urn:imprint:reason:12345678-9abc-4def-8123-456789abcdef".
Proof.
  apply (minted_urn_accepted 0x123456789abc4def8123456789abcdef "reason").
  - split; [discriminate|reflexivity].
  - reflexivity.
  - reflexivity.
Defined.

Lemma urn_grammar_witness :
  is_urn (Some "case") "urn:imprint:case:12345678-9abc-4def-8123-456789abcdef".
Proof.
  apply (proj1 (urn_grammar (JStr "urn:imprint:case:12345678-9abc-4def-8123-456789abcdef")
                  (Some "case") "id")).
  vm_compute. reflexivity.
Defined.
