(* ===== verification/Contracts.v ===== *)
(** * Shared contract checks ([constants.py], first half of
    [ontology/contracts.py])

    The field, text, URN, time, confidence and rationale checks every
    ontology validator is built from, and the provenance contract: the rule
    that keeps inferred material from gaining authority. *)
From S2P Require Import Prelude PyTime Urn.

(** ** Frozen public constants *)
Definition STORE_SCHEMA_VERSION := "3.0.0".
Definition RECORD_SCHEMA_VERSION := "3.0.0".
Definition ONTOLOGY_SCHEMA_VERSION := "3.1.0".
Definition DEFAULT_CONTEXT_BUDGET : Z := 32 * 1024.
Definition MAX_EVENT_BYTES : Z := 1024 * 1024.
Definition PROVENANCE := ["captured"; "extracted"; "inferred"; "ratified"].
Definition AUTHORITY_TIERS :=
  ["captured_judgment"; "imported_floor"; "observed_candidate"; "inferred_candidate";
   "ratified_knowledge"].
Definition CALL_TYPES := ["accept"; "reject"; "correct"; "prefer"; "refuse"].
Definition REASON_STATUSES := ["absent"; "pending"; "supplied"; "later_added"].

(** [v == "s"] *)
Definition str_is (v : json) (s : string) : bool :=
  match v with JStr t => String.eqb t s | _ => false end.

(** [isinstance(v, Mapping)], then its items. *)
Definition as_obj (v : json) (e : exn) : res obj :=
  match v with JObj m => Ok m | _ => Err e end.
Definition as_list (v : json) (e : exn) : res (list json) :=
  match v with JList l => Ok l | _ => Err e end.

(** [if v is not None: check] *)
Definition unless_null (v : json) (check : res unit) : res unit :=
  if is_null v then Ok tt else check.

(** ** Field checks *)
Definition require_exact_fields (value : obj) (expected : list string) (field : string) : res unit :=
  let unknown := set_diff (keys value) expected in
  let missing := set_diff expected (keys value) in
  match unknown, missing with
  | _ :: _, _ =>
      Err (ValidationErrorNames ("unknown " +:+ field +:+ " fields: ") (sorted_strs unknown))
  | [], _ :: _ =>
      Err (ValidationErrorNames ("missing " +:+ field +:+ " fields: ") (sorted_strs missing))
  | [], [] => Ok tt
  end.

Definition require_text (value : json) (field : string) (nullable : bool) : res json :=
  match value with
  | JNull => if nullable then Ok JNull
             else Err (ValidationError (field +:+ " must be a non-empty string"))
  | JStr s => if blank s then Err (ValidationError (field +:+ " must be a non-empty string"))
              else Ok value
  | _ => Err (ValidationError (field +:+ " must be a non-empty string"))
  end.

Definition require_time (value : json) (field : string) : res datetime :=
  match value with
  | JStr s =>
      match parse_rfc3339 s with
      | None => Err (ValidationError (field +:+ " must be an RFC3339 timestamp"))
      | Some d =>
          raise_if (negb (aware d)) (ValidationError (field +:+ " must include a timezone")) ;;
          Ok d
      end
  | _ => Err (ValidationError (field +:+ " must be an RFC3339 timestamp"))
  end.

Definition require_confidence (value : json) (field : string) : res spec_float :=
  let bad := ValidationError (field +:+ " must be a number between 0 and 1") in
  raise_if (is_bool value || negb (is_number value)) bad ;;
  result ← to_float value;
  raise_if (negb (is_finite result) || negb (unit_interval (JFloat result))) bad ;;
  Ok result.

Definition validate_reason (reason status : json) (prefix : string) : res unit :=
  b ← not_in_set status ["absent"; "pending"; "supplied"; "later_added"];
  raise_if b (ValidationError (prefix +:+ "_status is invalid")) ;;
  let given := str_is status "supplied" || str_is status "later_added" in
  match reason with
  | JNull =>
      raise_if given (ValidationError (prefix +:+ " cannot be null when " +:+ prefix +:+
        "_status is " +:+ match status with JStr s => s | _ => "" end))
  | _ =>
      require_text reason prefix false ;;
      raise_if (negb given) (ValidationError (prefix +:+ " and " +:+ prefix +:+ "_status disagree"))
  end.

(** ** The provenance contract *)
Definition PROVENANCE_FIELDS :=
  ["status"; "authority_tier"; "actor_class"; "actor_id"; "mechanism";
   "evidence_ids"; "model"; "ratifier_id"].
Definition ACTOR_CLASSES := ["operator"; "software"; "model"; "importer"].

Definition authority_check (status tier actor_class actor model ratifier : json)
    (evidence_ids : list json) : res unit :=
  let no_evidence := match evidence_ids with [] => true | _ => false end in
  if str_is status "captured" then
    raise_if (negb (str_is tier "captured_judgment") || negb (str_is actor_class "operator")
              || negb (is_null model) || negb (is_null ratifier))
      (ValidationError "captured provenance must remain operator-authored captured judgment")
  else if str_is status "extracted" then
    raise_if (negb (str_is tier "imported_floor" || str_is tier "observed_candidate")
              || negb (is_null ratifier) || no_evidence)
      (ValidationError "extracted provenance requires evidence and non-ratified authority")
  else if str_is status "inferred" then
    raise_if (negb (str_is tier "inferred_candidate")
              || negb (str_is actor_class "model" || str_is actor_class "software")
              || no_evidence || negb (is_null ratifier))
      (ValidationError "inferred provenance must remain an evidenced candidate") ;;
    raise_if (str_is actor_class "model" && is_null model)
      (ValidationError "model inference must identify its model")
  else if str_is status "ratified" then
    raise_if (negb (str_is tier "ratified_knowledge") || is_null ratifier
              || negb (str_is actor_class "operator") || no_evidence)
      (ValidationError "ratified provenance requires operator ratification and evidence") ;;
    raise_if (negb (py_eq ratifier actor))
      (ValidationError "ratified provenance actor and ratifier must be the same operator")
  else Ok tt.

Definition validate_provenance_contract (value : json) : res obj :=
  m ← as_obj value (ValidationError "provenance must be an object");
  require_exact_fields m PROVENANCE_FIELDS "provenance" ;;
  status ← item "status" m;
  tier ← item "authority_tier" m;
  actor_class ← item "actor_class" m;
  b ← or_else (not_in_set status PROVENANCE) (not_in_set tier AUTHORITY_TIERS);
  raise_if b (ValidationError "unsupported provenance status or authority tier") ;;
  b ← not_in_set actor_class ACTOR_CLASSES;
  raise_if b (ValidationError "unsupported provenance actor_class") ;;
  actor ← item "actor_id" m;
  require_urn actor None "provenance.actor_id" ;;
  mechanism ← item "mechanism" m;
  require_text mechanism "provenance.mechanism" false ;;
  evidence ← item "evidence_ids" m;
  let not_unique := ValidationError "provenance.evidence_ids must be a unique list" in
  evidence_ids ← as_list evidence not_unique;
  dup ← has_duplicates evidence_ids;
  raise_if dup not_unique ;;
  for_each (λ i, require_urn i None "provenance.evidence_ids" ;; Ok tt) evidence_ids ;;
  model ← item "model" m;
  ratifier ← item "ratifier_id" m;
  unless_null model (require_text model "provenance.model" false ;; Ok tt) ;;
  unless_null ratifier (require_urn ratifier None "provenance.ratifier_id" ;; Ok tt) ;;
  authority_check status tier actor_class actor model ratifier evidence_ids ;;
  Ok m.

(** ** What the checks accept *)
Definition text (v : json) : Prop := ∃ s, v = JStr s ∧ blank s = false.

Lemma require_exact_fields_Ok m e f u :
  require_exact_fields m e f = Ok u ↔ ∀ x, In x (keys m) ↔ In x e.
Proof.
  unfold require_exact_fields. rewrite <- set_eq_In. unfold set_eq.
  rewrite andb_true_iff, <- !set_diff_nil. destruct u.
  destruct (set_diff (keys m) e), (set_diff e (keys m)); naive_solver.
Qed.

Lemma require_text_Ok v f n r :
  require_text v f n = Ok r ↔ r = v ∧ (text v ∨ (v = JNull ∧ n = true)).
Proof.
  unfold require_text, text. destruct v; try (split; naive_solver).
  - destruct n; split; naive_solver.
  - destruct (blank s) eqn:E; split; try naive_solver.
    intros (_ & [(? & [= <-] & ?)|[? _]]); congruence.
Qed.

Lemma require_text_false v f r : require_text v f false = Ok r ↔ r = v ∧ text v.
Proof. rewrite require_text_Ok. naive_solver. Qed.

Lemma as_obj_Ok v e m : as_obj v e = Ok m ↔ v = JObj m.
Proof. destruct v; split; naive_solver. Qed.

Lemma as_list_Ok v e l : as_list v e = Ok l ↔ v = JList l.
Proof. destruct v; split; naive_solver. Qed.

Lemma str_is_true v s : str_is v s = true ↔ v = JStr s.
Proof.
  destruct v; simpl; split; try naive_solver.
  - by intros ->%String.eqb_eq.
  - intros [= ->]. by rewrite String.eqb_refl.
Qed.

Lemma is_null_true v : is_null v = true ↔ v = JNull.
Proof. destruct v; split; naive_solver. Qed.

Lemma require_time_Ok v f d :
  require_time v f = Ok d ↔ ∃ s, v = JStr s ∧ parse_rfc3339 s = Some d ∧ aware d = true.
Proof.
  destruct v; simpl; try (split; naive_solver).
  destruct (parse_rfc3339 s) as [d'|] eqn:E; cycle 1.
  { split; [done|]. intros (? & [= <-] & ? & _). congruence. }
  destruct (aware d') eqn:A; simpl; split.
  - intros [= <-]. eauto.
  - intros (? & [= <-] & ? & _). congruence.
  - done.
  - intros (? & [= <-] & ? & ?). congruence.
Qed.

Lemma require_urn_Ok v k f s : require_urn v k f = Ok s ↔ v = JStr s ∧ is_urn k s.
Proof. apply require_urn_iff. Qed.

(** A list of URNs without repetition, as [evidence_ids] and its like are
    checked: the loop accepts exactly the lists of distinct URNs. *)
Definition urn_list (k : option string) (l : list json) (ss : list string) : Prop :=
  l = map JStr ss ∧ List.NoDup ss ∧ Forall (is_urn k) ss.

Lemma urn_members k f l :
  Forall (λ v, require_urn v k f ≫= (λ _, Ok tt) = Ok tt) l ↔
  ∃ ss, l = map JStr ss ∧ Forall (is_urn k) ss.
Proof.
  split.
  - intros H. exists (strs l). apply Forall_strs. eapply Forall_impl; [exact H|].
    intros v Hv. simpl in Hv. inv_ok. apply require_urn_Ok in H0 as [-> ?]. eauto.
  - intros (ss & -> & H). induction H as [|s ss Hs _ IH]; simpl; constructor; [|done].
    by rewrite (proj2 (require_urn_Ok (JStr s) k f s)).
Qed.

Lemma urn_list_intro k l ss :
  l = map JStr ss → has_duplicates l = Ok false → Forall (is_urn k) ss → urn_list k l ss.
Proof. intros -> H%has_duplicates_strs Hf. done. Qed.

Lemma urn_list_elim k l ss :
  urn_list k l ss → l = map JStr ss ∧ has_duplicates l = Ok false ∧ Forall (is_urn k) ss.
Proof. intros (-> & Hn & Hf). by rewrite has_duplicates_strs. Qed.

Lemma unless_null_Ok v c u : unless_null v c = Ok u ↔ v = JNull ∨ (v ≠ JNull ∧ c = Ok tt).
Proof. destruct v, u; simpl; split; naive_solver. Qed.

#[export] Hint Rewrite require_exact_fields_Ok require_text_false require_time_Ok
  as_obj_Ok as_list_Ok require_urn_Ok str_is_true is_null_true : py.

Definition opt_str (o : option string) : json :=
  match o with Some s => JStr s | None => JNull end.

Lemma opt_str_check (P : string → Prop) v c u :
  (c = Ok tt ↔ ∃ s, v = JStr s ∧ P s) →
  unless_null v c = Ok u ↔ ∃ o, v = opt_str o ∧ ∀ s, o = Some s → P s.
Proof.
  intros Hc. rewrite unless_null_Ok, Hc. split.
  - intros [->|(_ & s & -> & Hs)]; [by exists None|]. exists (Some s). naive_solver.
  - intros ([s|] & -> & H); naive_solver.
Qed.

Lemma text_check v f : (require_text v f false ;; Ok tt) = Ok tt ↔ text v.
Proof.
  rewrite bind_Ok. setoid_rewrite require_text_false. unfold text. naive_solver.
Qed.

Lemma urn_check v k f : (require_urn v k f ;; Ok tt) = Ok tt ↔ ∃ s, v = JStr s ∧ is_urn k s.
Proof. rewrite bind_Ok. setoid_rewrite require_urn_Ok. naive_solver. Qed.

(** [inv_contract] extends [inv_ok] with the checks of this file. *)
Ltac inv_contract1 :=
  match goal with
  | H : as_obj _ _ = Ok _ |- _ => apply as_obj_Ok in H; try subst
  | H : as_list _ _ = Ok _ |- _ => apply as_list_Ok in H; try subst
  | H : require_exact_fields _ _ _ = Ok _ |- _ => rewrite require_exact_fields_Ok in H
  | H : require_text _ _ false = Ok _ |- _ => apply require_text_false in H as [-> (? & -> & ?)]
  | H : require_urn _ _ _ = Ok _ |- _ => apply require_urn_Ok in H as [-> ?]
  | H : require_time _ _ = Ok _ |- _ => apply require_time_Ok in H as (? & -> & ? & ?)
  | H : mem _ _ = true |- _ => apply mem_In in H
  | H : str_is _ _ = true |- _ => apply str_is_true in H; try subst
  | H : is_null _ = true |- _ => apply is_null_true in H; try subst
  | H : unless_null _ (require_text _ _ false ≫= _) = Ok _ |- _ =>
      apply (proj1 (opt_str_check (λ s, blank s = false) _ _ _ (text_check _ _)))
        in H as (? & -> & ?)
  | H : unless_null _ (require_urn _ ?k _ ≫= _) = Ok _ |- _ =>
      apply (proj1 (opt_str_check (is_urn k) _ _ _ (urn_check _ _ _))) in H as (? & -> & ?)
  | H : Forall (λ v, require_urn v _ _ ≫= _ = _) _ |- _ => apply urn_members in H as (? & -> & ?)
  end.
Ltac inv_checks := repeat first [inv_ok1 | inv_contract1].
Ltac inv_contract := inv_checks; simplify_eq.

(** ** The abstract specification of provenance

    Who may say what: the four admissible combinations of status, tier,
    actor class, evidence, model and ratifier. *)
Inductive authority_rule (actor : string) :
    string → string → string → list string → option string → option string → Prop :=
| rule_captured ev :
    authority_rule actor "captured" "captured_judgment" "operator" ev None None
| rule_extracted tier cls ev model :
    tier = "imported_floor" ∨ tier = "observed_candidate" → ev ≠ [] →
    authority_rule actor "extracted" tier cls ev model None
| rule_inferred cls ev model :
    cls = "model" ∨ cls = "software" → ev ≠ [] → (cls = "model" → model ≠ None) →
    authority_rule actor "inferred" "inferred_candidate" cls ev model None
| rule_ratified ev model :
    ev ≠ [] →
    authority_rule actor "ratified" "ratified_knowledge" "operator" ev model (Some actor).

Record provenance_spec (m : obj) (status tier cls actor : string) (ev : list string)
    (model ratifier : option string) : Prop := {
  ps_fields : ∀ x, In x (keys m) ↔ In x PROVENANCE_FIELDS;
  ps_status : assoc "status" m = Some (JStr status);
  ps_tier : assoc "authority_tier" m = Some (JStr tier);
  ps_class : assoc "actor_class" m = Some (JStr cls) ∧ In cls ACTOR_CLASSES;
  ps_actor : assoc "actor_id" m = Some (JStr actor) ∧ is_urn None actor;
  ps_mechanism : ∃ s, assoc "mechanism" m = Some (JStr s) ∧ blank s = false;
  ps_evidence : ∃ l, assoc "evidence_ids" m = Some (JList l) ∧ urn_list None l ev;
  ps_model : assoc "model" m = Some (opt_str model) ∧ ∀ s, model = Some s → blank s = false;
  ps_ratifier : assoc "ratifier_id" m = Some (opt_str ratifier) ∧
                ∀ s, ratifier = Some s → is_urn None s;
  ps_rule : authority_rule actor status tier cls ev model ratifier
}.

Lemma authority_check_Ok status tier cls actor model ratifier ev u :
  In status PROVENANCE →
  authority_check (JStr status) (JStr tier) (JStr cls) (JStr actor)
    (opt_str model) (opt_str ratifier) (map JStr ev) = Ok u ↔
  authority_rule actor status tier cls ev model ratifier.
Proof.
  intros Hs. destruct u. split.
  - intros H. simpl in Hs. unfold authority_check in H.
    destruct Hs as [<-|[<-|[<-|[<-|[]]]]]; simpl in H; inv_ok; bool_hyps;
      repeat match goal with
      | H : String.eqb _ _ = true |- _ => apply String.eqb_eq in H; subst
      | H : _ || _ = true |- _ => apply orb_true_iff in H
      | H : is_null (opt_str ?o) = _ |- _ => destruct o; simpl in H; try discriminate H
      | H : match map JStr ?l with _ => _ end = false |- _ =>
          destruct l; simpl in H; [discriminate H|clear H]
      end; simpl in *; rewrite ?orb_true_iff, ?String.eqb_eq in *; subst.
    + constructor.
    + by constructor.
    + constructor; [done..|]. intros ->. by destruct model.
    + by constructor.
  - intros H. destruct H as [ev|tier cls ev model [->| ->] Hev|cls ev model [->| ->] Hev Hm|ev model Hev];
      unfold authority_check; simpl; try (destruct ev; [done|]); simpl; try done.
    + destruct model; [done|]. by destruct (Hm eq_refl).
    + by rewrite String.eqb_refl.
Qed.

Lemma validate_provenance_sound v r :
  validate_provenance_contract v = Ok r →
  v = JObj r ∧ ∃ status tier cls actor ev model ratifier,
    provenance_spec r status tier cls actor ev model ratifier.
Proof.
  intros H. unfold validate_provenance_contract in H. inv_contract.
  rewrite has_duplicates_strs in *. rewrite authority_check_Ok in * by done.
  split; [done|]. do 7 eexists. constructor; try done; unfold urn_list; eauto 10.
Qed.

Lemma validate_provenance_complete m status tier cls actor ev model ratifier :
  provenance_spec m status tier cls actor ev model ratifier →
  validate_provenance_contract (JObj m) = Ok m.
Proof.
  intros [Hf Hs Ht [Hc Hcl] [Ha Hau] (mech & Hm & Hmb) (l & He & Hl) [Hmo Hmt] [Hr Hru] Hrule].
  assert (In status PROVENANCE ∧ In tier AUTHORITY_TIERS) as [Hst Hti].
  { unfold PROVENANCE, AUTHORITY_TIERS. destruct Hrule; simpl; naive_solver. }
  unfold validate_provenance_contract. simpl.
  rewrite (proj2 (require_exact_fields_Ok m _ _ tt)) by done.
  unfold item. rewrite Hs, Ht, Hc, Ha, Hm, He, Hmo, Hr. simpl.
  unfold not_in_set, in_set. simpl. rewrite !(proj2 (mem_In _ _)) by done. simpl.
  rewrite (proj2 (require_urn_Ok (JStr actor) None _ actor)) by done. simpl.
  rewrite Hmb. simpl. destruct (urn_list_elim _ _ _ Hl) as (-> & -> & Hu). simpl.
  rewrite (proj2 (for_each_Ok _ _ tt)) by (by apply urn_members; eauto). simpl.
  rewrite (proj2 (opt_str_check (λ s, blank s = false) _ _ tt (text_check _ _))) by eauto.
  rewrite (proj2 (opt_str_check (is_urn None) _ _ tt (urn_check _ _ _))) by eauto.
  simpl. by rewrite (proj2 (authority_check_Ok _ _ _ _ _ _ _ tt Hst)).
Qed.

(** ** What the checks raise *)
Lemma errs_as_obj v e : contract_error e → errs contract_error (as_obj v e).
Proof. intros H. destruct v; simpl; auto using errs_Ok, errs_Err. Qed.

Lemma errs_as_list v e : contract_error e → errs contract_error (as_list v e).
Proof. intros H. destruct v; simpl; auto using errs_Ok, errs_Err. Qed.

Lemma errs_exact m l f : errs contract_error (require_exact_fields m l f).
Proof.
  unfold require_exact_fields.
  destruct (set_diff (keys m) l), (set_diff l (keys m)); auto using errs_Ok, errs_Err with errs.
Qed.

Lemma errs_text v f n : errs contract_error (require_text v f n).
Proof. unfold require_text. repeat errs_step. Qed.

Lemma errs_time v f : errs contract_error (require_time v f).
Proof. unfold require_time. repeat errs_step. Qed.

Lemma errs_urn v k f : errs contract_error (require_urn v k f).
Proof. intros e H%require_urn_error. by left. Qed.

Lemma errs_to_float v : is_number v = true → errs contract_error (to_float v).
Proof.
  intros Hv e. unfold to_float. destruct v; try discriminate;
    repeat case_match; intros [= <-]; by right; right.
Qed.

#[export] Hint Resolve errs_as_obj errs_as_list errs_exact errs_text errs_time errs_urn : errs.

(** The exact-field check feeds the later lookups. *)
Ltac errs_fields :=
  match goal with H : require_exact_fields ?m _ _ = Ok _ |- _ =>
    rewrite require_exact_fields_Ok in H end.
Ltac errs_walk := repeat (errs_step; try errs_fields).

Lemma errs_confidence v f : errs contract_error (require_confidence v f).
Proof.
  unfold require_confidence. apply errs_bind; [errs_walk|]. intros ? H%raise_if_Ok.
  bool_hyps. apply errs_bind; [by apply errs_to_float|]. intros. errs_walk.
Qed.

Lemma errs_unless_null v c : errs contract_error c → errs contract_error (unless_null v c).
Proof. intros. unfold unless_null. errs_walk; done. Qed.
#[export] Hint Resolve errs_confidence errs_unless_null : errs.

Lemma errs_reason r s p : errs contract_error (validate_reason r s p).
Proof. unfold validate_reason. errs_walk. Qed.

Lemma errs_authority a b c d e f l : errs contract_error (authority_check a b c d e f l).
Proof. unfold authority_check. errs_walk. Qed.
#[export] Hint Resolve errs_reason errs_authority : errs.

Lemma errs_provenance v : errs contract_error (validate_provenance_contract v).
Proof.
  unfold validate_provenance_contract. errs_walk; apply errs_unless_null; errs_walk.
Qed.
#[export] Hint Resolve errs_provenance : errs.

(** C29: The provenance contract is exactly its specification: an object is
    accepted, and returned unchanged, if and only if it has the eight fields
    with well-formed values and its status, tier, actor class, evidence, model
    and ratifier follow one of the four authority rules. *)
Theorem provenance_contract_iff v r :
  validate_provenance_contract v = Ok r ↔
  v = JObj r ∧ ∃ status tier cls actor ev model ratifier,
    provenance_spec r status tier cls actor ev model ratifier.
Proof.
  split; [apply validate_provenance_sound|].
  intros (-> & ? & ? & ? & ? & ? & ? & ? & H). by eapply validate_provenance_complete.
Qed.
