(* ===== verification/Judgment.v ===== *)
(** * Judgment and calibration payloads ([ontology/judgment.py])

    One validator per node type of the judgment partition, each returning its
    payload unchanged or raising. *)
From S2P Require Import Prelude PyTime Urn Contracts.

Definition CASE_FIELDS := ["description"; "source_refs"; "artifact_refs"].
Definition CALL_FIELDS := ["call_type"].
Definition ALTERNATIVE_FIELDS := ["description"; "disposition"].
Definition VERDICT_FIELDS :=
  ["raw_operator_text"; "call_id"; "chosen_alternative_ids"; "rejected_alternative_ids";
   "reason"; "reason_status"].
Definition PATTERN_FIELDS := ["statement"; "case_ids"; "reason"; "reason_status"].
Definition CALIBRATION_FIELDS :=
  ["prediction"; "predicted_at"; "confidence"; "outcome_id"; "resolved_at";
   "assessment"; "reason"; "reason_status"].
Definition STATEMENT_FIELDS := ["statement"].
Definition ENRICHED_STATEMENT_FIELDS := ["statement"; "reason"; "reason_status"].
Definition DOMAIN_STATEMENT_FIELDS := ["statement"; "domain_id"].
Definition DOMAIN_ENRICHED_STATEMENT_FIELDS :=
  ["statement"; "reason"; "reason_status"; "domain_id"].
Definition DOMAIN_FIELDS := ["domain_id"; "public_label"; "description"; "selected"; "frozen"].
Definition DISPOSITIONS := ["chosen"; "rejected"].
Definition ASSESSMENTS := ["pending"; "confirmed"; "disconfirmed"; "mixed"].

Definition field_text (k : string) (m : obj) (label : string) : res unit :=
  v ← item k m; require_text v label false ;; Ok tt.

Definition _urn_list (value : json) (kind field : string) (nonempty : bool) : res (list json) :=
  let not_unique := ValidationError (field +:+ " must be a unique list") in
  l ← as_list value not_unique;
  dup ← has_duplicates l;
  raise_if dup not_unique ;;
  raise_if (nonempty && match l with [] => true | _ => false end)
    (ValidationError (field +:+ " must not be empty")) ;;
  for_each (λ i, require_urn i (Some kind) field ;; Ok tt) l ;;
  Ok l.

Definition nonempty_str (v : json) : bool :=
  match v with JStr s => negb (String.eqb s "") | _ => false end.

Definition _case (value provenance : obj) : res obj :=
  require_exact_fields value CASE_FIELDS "Case payload" ;;
  field_text "description" value "Case.description" ;;
  refs ← item "source_refs" value;
  _urn_list refs "evidence" "Case.source_refs" true ;;
  artifacts ← item "artifact_refs" value;
  l ← as_list artifacts (ValidationError "Case.artifact_refs must be strings");
  raise_if (negb (forallb nonempty_str l)) (ValidationError "Case.artifact_refs must be strings") ;;
  Ok value.

Definition _call (value provenance : obj) : res obj :=
  require_exact_fields value CALL_FIELDS "Call payload" ;;
  call_type ← item "call_type" value;
  b ← not_in_set call_type CALL_TYPES;
  raise_if b (ValidationError "Call.call_type is invalid") ;;
  Ok value.

Definition _alternative (value provenance : obj) : res obj :=
  require_exact_fields value ALTERNATIVE_FIELDS "Alternative payload" ;;
  field_text "description" value "Alternative.description" ;;
  disposition ← item "disposition" value;
  b ← not_in_set disposition DISPOSITIONS;
  raise_if b (ValidationError "Alternative.disposition is invalid") ;;
  Ok value.

Definition reason_fields (value : obj) : res unit :=
  reason ← item "reason" value;
  status ← item "reason_status" value;
  validate_reason reason status "reason".

(** [set(a) & set(b)] is non-empty, for lists of hashable members. *)
Definition intersects (a b : list json) : bool :=
  existsb (λ x, existsb (scalar_eq x) b) a.

Definition _verdict (value provenance : obj) : res obj :=
  require_exact_fields value VERDICT_FIELDS "Verdict payload" ;;
  field_text "raw_operator_text" value "Verdict.raw_operator_text" ;;
  call_id ← item "call_id" value;
  require_urn call_id (Some "call") "Verdict.call_id" ;;
  chosen_ids ← item "chosen_alternative_ids" value;
  chosen ← _urn_list chosen_ids "alternative" "Verdict.chosen_alternative_ids" false;
  rejected_ids ← item "rejected_alternative_ids" value;
  rejected ← _urn_list rejected_ids "alternative" "Verdict.rejected_alternative_ids" false;
  raise_if (intersects chosen rejected)
    (ValidationError "a Verdict cannot both choose and reject an Alternative") ;;
  reason_fields value ;;
  status ← item "status" provenance;
  (if str_is status "captured" then
     actor ← item "actor_id" provenance;
     raise_if (is_null actor) (ValidationError "captured Verdict requires an operator actor")
   else Ok tt) ;;
  Ok value.

Definition _pattern (value provenance : obj) : res obj :=
  require_exact_fields value PATTERN_FIELDS "Pattern payload" ;;
  field_text "statement" value "Pattern.statement" ;;
  ids ← item "case_ids" value;
  case_ids ← _urn_list ids "case" "Pattern.case_ids" true;
  raise_if (Nat.ltb (length case_ids) 2)
    (ValidationError "Pattern requires at least two distinct Case inputs") ;;
  reason_fields value ;;
  status ← item "status" provenance;
  b ← not_in_set status ["inferred"; "ratified"];
  raise_if b (ValidationError "Pattern must be inferred or ratified, never raw captured truth") ;;
  Ok value.

Definition _knowledge_statement (value provenance : obj) : res obj :=
  (if set_eq (keys value) STATEMENT_FIELDS || set_eq (keys value) ENRICHED_STATEMENT_FIELDS ||
      set_eq (keys value) DOMAIN_STATEMENT_FIELDS ||
      set_eq (keys value) DOMAIN_ENRICHED_STATEMENT_FIELDS
   then Ok tt
   else require_exact_fields value ENRICHED_STATEMENT_FIELDS "knowledge payload") ;;
  field_text "statement" value "knowledge.statement" ;;
  (if has_key "domain_id" value then
     d ← item "domain_id" value;
     require_text d "knowledge.domain_id" false ;;
     raise_if (negb match d with JStr s => safe_id s | _ => false end)
       (ValidationError "knowledge.domain_id must be a safe lowercase identifier")
   else Ok tt) ;;
  (if has_key "reason" value then reason_fields value else Ok tt) ;;
  status ← item "status" provenance;
  raise_if (str_is status "captured")
    (ValidationError "derived knowledge must be extracted, inferred, or ratified") ;;
  Ok value.

Definition _domain (value provenance : obj) : res obj :=
  require_exact_fields value DOMAIN_FIELDS "Domain payload" ;;
  field_text "domain_id" value "Domain.domain_id" ;;
  field_text "public_label" value "Domain.public_label" ;;
  field_text "description" value "Domain.description" ;;
  selected ← item "selected" value;
  frozen ← item "frozen" value;
  raise_if (negb (is_bool selected) || negb (is_bool frozen))
    (ValidationError "Domain.selected and Domain.frozen must be booleans") ;;
  Ok value.

Definition _calibration (value provenance : obj) : res obj :=
  require_exact_fields value CALIBRATION_FIELDS "CalibrationTrial payload" ;;
  field_text "prediction" value "CalibrationTrial.prediction" ;;
  predicted ← item "predicted_at" value;
  require_time predicted "CalibrationTrial.predicted_at" ;;
  confidence ← item "confidence" value;
  require_confidence confidence "CalibrationTrial.confidence" ;;
  assessment ← item "assessment" value;
  b ← not_in_set assessment ASSESSMENTS;
  raise_if b (ValidationError "CalibrationTrial.assessment is invalid") ;;
  reason_fields value ;;
  outcome ← item "outcome_id" value;
  resolved ← item "resolved_at" value;
  (if str_is assessment "pending" then
     raise_if (negb (is_null outcome) || negb (is_null resolved))
       (ValidationError "pending CalibrationTrial cannot have a resolution")
   else
     require_urn outcome (Some "outcome") "CalibrationTrial.outcome_id" ;;
     require_time resolved "CalibrationTrial.resolved_at" ;; Ok tt) ;;
  Ok value.

Definition PAYLOAD_VALIDATORS : list (string * (obj → obj → res obj)) :=
  [("Case", _case); ("Verdict", _verdict); ("Call", _call); ("Alternative", _alternative);
   ("Pattern", _pattern); ("CalibrationTrial", _calibration);
   ("Principle", _knowledge_statement); ("Belief", _knowledge_statement);
   ("Value", _knowledge_statement); ("Rule", _knowledge_statement); ("Domain", _domain)].

Definition validate_payload (node_type : string) (value : json) (provenance : obj) : res obj :=
  match assoc node_type PAYLOAD_VALIDATORS with
  | None => Err (ValidationError "unsupported ontology node_type")
  | Some validator =>
      m ← as_obj value (ValidationError (node_type +:+ " payload must be an object"));
      validator m provenance
  end.

(** ** Every accepted payload is returned as given *)
Lemma validate_payload_returns t m p : returns m (validate_payload t (JObj m) p).
Proof.
  unfold validate_payload. destruct (assoc t PAYLOAD_VALIDATORS) as [f|] eqn:E; [|done].
  apply assoc_In in E. simpl in E.
  repeat destruct E as [[= <- <-]|E]; [..|done];
    unfold _case, _verdict, _call, _alternative, _pattern, _calibration, _knowledge_statement,
      _domain; apply returns_bind; intros ? [= ->]; returns_input.
Qed.

(** ** What the validators raise *)
Lemma errs_field_text k m l : In k (keys m) → errs contract_error (field_text k m l).
Proof. intros. unfold field_text. errs_walk. Qed.

Lemma errs_urn_list v k f b : errs contract_error (_urn_list v k f b).
Proof. unfold _urn_list. errs_walk. Qed.

Lemma errs_reason_fields m :
  In "reason" (keys m) → In "reason_status" (keys m) → errs contract_error (reason_fields m).
Proof. intros. unfold reason_fields. errs_walk. Qed.
#[export] Hint Resolve errs_urn_list : errs.
#[export] Hint Extern 2 (errs _ (field_text _ _ _)) => (apply errs_field_text; errs_key) : errs.
#[export] Hint Extern 2 (errs _ (reason_fields _)) => (apply errs_reason_fields; errs_key) : errs.

Section payload_errors.
Context (p : obj) (status_known : In "status" (keys p)) (actor_known : In "actor_id" (keys p)).

Lemma errs_verdict m : errs contract_error (_verdict m p).
Proof using All. unfold _verdict. errs_walk. Qed.

Lemma errs_pattern m : errs contract_error (_pattern m p).
Proof using All. unfold _pattern. errs_walk. Qed.

Lemma errs_knowledge_statement m : errs contract_error (_knowledge_statement m p).
Proof using All.
  unfold _knowledge_statement. apply errs_bind; [errs_walk|]. intros u Hu.
  assert (In "statement" (keys m)) as Hs.
  { match type of Hu with (if ?b then _ else _) = _ => destruct b eqn:E end.
    - repeat (apply orb_true_iff in E as [E|E]); rewrite set_eq_In in E;
        apply E; apply mem_In; reflexivity.
    - rewrite require_exact_fields_Ok in Hu. errs_key. }
  assert (has_key "reason" m = true → In "reason" (keys m) ∧ In "reason_status" (keys m)) as Hr.
  { intros H%mem_In. split; [done|].
    match type of Hu with (if ?b then _ else _) = _ => destruct b eqn:E end.
    - repeat (apply orb_true_iff in E as [E|E]); rewrite set_eq_In in E;
        first [by apply E in H; simpl in H; naive_solver
              |apply E; apply mem_In; reflexivity].
    - rewrite require_exact_fields_Ok in Hu. errs_key. }
  apply errs_bind; [by apply errs_field_text|intros _ _].
  apply errs_bind; [|intros _ _].
  { apply errs_if; [|errs_walk]. intros Hd%mem_In. errs_walk. }
  apply errs_bind; [|intros _ _].
  { apply errs_if; [|errs_walk]. intros H. destruct (Hr H). by apply errs_reason_fields. }
  errs_walk.
Qed.

Lemma errs_payload t v : errs contract_error (validate_payload t v p).
Proof using All.
  unfold validate_payload. destruct (assoc t PAYLOAD_VALIDATORS) as [f|] eqn:E; [|errs_walk].
  apply errs_bind; [errs_walk|]. intros m _. apply assoc_In in E. simpl in E.
  repeat destruct E as [[= <- <-]|E]; [..|done];
    first [apply errs_verdict|apply errs_pattern|apply errs_knowledge_statement
          |unfold _case, _call, _alternative, _calibration, _domain; errs_walk].
Qed.
End payload_errors.
