(* ===== verification/Operator.v ===== *)
(** * Operator-ontology payloads and consent ([ontology/operator.py])

    Self-model assertions, observations, cues, lexicon terms, intervention
    rules, consent grants and derivation traces, and the valid-time consent
    decision [consent_authorizes]. *)
From S2P Require Import Prelude PyTime Urn Contracts.

Definition OPERATOR_NODE_TYPES :=
  ["SelfModelAssertion"; "Observation"; "Cue"; "LexiconTerm"; "InterventionRule";
   "ConsentGrant"; "DerivationTrace"].
Definition OBSERVATION_SOURCE_CLASSES :=
  ["operator_explicit"; "conversation"; "transcript"; "screenpipe"; "financial_record";
   "behavioral_telemetry"; "business_system"; "customer_result"; "external_connector";
   "approved_import"].
Definition CONSENT_PURPOSES :=
  ["self_modeling"; "behavioral_observation"; "outcome_learning"; "business_analysis";
   "retrieval"; "export"].
Definition CONSENT_OPERATIONS := ["ingest"; "store"; "derive"; "retrieve"; "export"].
Definition PROVENANCE_STATUSES := ["captured"; "extracted"; "inferred"; "ratified"].
Definition REVIEW_STATES := ["proposed"; "deferred"; "confirmed"; "corrected"; "rejected"].
Definition POLARITIES := ["asset"; "constraint"; "mixed"; "neutral"].

(** [[a-z0-9]+(?:[.-][a-z0-9]+)+] under [fullmatch]: non-empty alphanumeric
    runs joined by single separators, with at least one separator. *)
Fixpoint namespace_tail (s : string) (in_run : bool) (seps : nat) : bool :=
  match s with
  | EmptyString => in_run && Nat.leb 1 seps
  | String a r =>
      if is_lower_alnum a then namespace_tail r true seps
      else if Ascii.eqb a "." || Ascii.eqb a "-"
           then in_run && namespace_tail r false (S seps)
           else false
  end.
Definition namespaced (s : string) : bool := namespace_tail s false 0.

(** ** Field checks of the module *)
Definition _object (value : json) (field : string) : res obj :=
  as_obj value (ValidationError (field +:+ " must be an object")).

Definition _keys (value : obj) (expected : list string) (field : string) : res unit :=
  require_exact_fields value expected field.

Definition _text (value : json) (field : string) (nullable : bool) : res json :=
  require_text value field nullable.

Definition _urn (value : json) (field : string) (kind : option string) : res string :=
  require_urn value kind field.

Definition _urns (value : json) (field : string) (nonempty : bool) : res (list string) :=
  let bad := ValidationError
    (field +:+ " must be " +:+ (if nonempty then "a non-empty" else "a") +:+ " list") in
  l ← as_list value bad;
  raise_if (nonempty && match l with [] => true | _ => false end) bad ;;
  result ← map_res (λ item, _urn item (field +:+ "[]") None) l;
  raise_if (negb (Nat.eqb (length result) (length (dedup_strs result))))
    (ValidationError (field +:+ " must not contain duplicates")) ;;
  Ok result.

Definition _time (value : json) (field : string) : res datetime := require_time value field.

Definition _time_opt (value : json) (field : string) : res (option datetime) :=
  if is_null value then Ok None else d ← require_time value field; Ok (Some d).

Definition _extensions (value : json) : res unit :=
  m ← _object value "extensions";
  raise_if (existsb (λ kv, negb (namespaced kv.1) || negb (is_obj kv.2)) m)
    (ValidationError "extensions require namespaced object keys").

Definition _extension_value (value : json) (field : string) : res string :=
  match value with
  | JStr s =>
      raise_if (negb (namespaced s))
        (ValidationError (field +:+ " must be a namespaced extension value")) ;; Ok s
  | _ => Err (ValidationError (field +:+ " must be a namespaced extension value"))
  end.

(** Generic extension structure is finite JSON data with non-empty keys. *)
Fixpoint _json_value (value : json) (field : string) {struct value} : res unit :=
  match value with
  | JNull | JStr _ | JBool _ | JInt _ => Ok tt
  | JFloat f =>
      raise_if (negb (is_finite f)) (ValidationError (field +:+ " must contain finite JSON values"))
  | JList l =>
      (fix go (l : list json) : res unit :=
         match l with [] => Ok tt | x :: r => _json_value x (field +:+ "[]") ;; go r end) l
  | JObj m =>
      (fix go (m : list (string * json)) : res unit :=
         match m with
         | [] => Ok tt
         | (k, x) :: r =>
             raise_if (String.eqb k "")
               (ValidationError (field +:+ " JSON object keys must be non-empty strings")) ;;
             _json_value x (field +:+ "." +:+ k) ;; go r
         end) m
  end.

Definition field_value (k : string) (m : obj) (check : json → string → res unit) : res unit :=
  v ← item k m; check v k.
Definition text_check_ (v : json) (f : string) : res unit := _text v f false ;; Ok tt.
Definition text_opt_check (v : json) (f : string) : res unit := _text v f true ;; Ok tt.
Definition urn_check_ (v : json) (f : string) : res unit := _urn v f None ;; Ok tt.
Definition operator_check (v : json) (f : string) : res unit := _urn v f (Some "operator") ;; Ok tt.
Definition urns_check (v : json) (f : string) : res unit := _urns v f true ;; Ok tt.
Definition time_check (v : json) (f : string) : res unit := _time v f ;; Ok tt.
Definition extension_check (v : json) (f : string) : res unit := _extension_value v f ;; Ok tt.

(** [if value[k] not in allowed: raise ValidationError(msg)] *)
Definition member_check (k : string) (m : obj) (allowed : list string) (msg : string) : res unit :=
  v ← item k m; b ← not_in_set v allowed; raise_if b (ValidationError msg).

Definition version_check (m : obj) : res unit :=
  v ← item "ontology_schema_version" m;
  raise_if (negb (str_is v ONTOLOGY_SCHEMA_VERSION))
    (ValidationError "unsupported operator ontology version").

Definition _confidence (value : json) : res unit :=
  m ← _object value "confidence";
  _keys m ["score"; "assessor_id"; "method"; "basis_evidence_ids"; "assessed_at";
           "calibration_trial_id"; "uncertainty_note"] "confidence" ;;
  score ← item "score" m;
  raise_if (is_bool score || negb (is_number score) || negb (unit_interval score))
    (ValidationError "confidence.score must be between 0 and 1") ;;
  v ← item "assessor_id" m; _text v "confidence.assessor_id" false ;;
  member_check "method" m ["operator_assessment"; "model_estimate"; "calibrated_model";
                           "statistical"; "approved_import"] "invalid confidence.method" ;;
  v ← item "basis_evidence_ids" m; _urns v "confidence.basis_evidence_ids" true ;;
  v ← item "assessed_at" m; _time v "confidence.assessed_at" ;;
  v ← item "calibration_trial_id" m;
  unless_null v (_urn v "confidence.calibration_trial_id" None ;; Ok tt) ;;
  v ← item "uncertainty_note" m; _text v "confidence.uncertainty_note" true ;;
  Ok tt.

Definition before (a b : datetime) : bool := instant a <? instant b.

Definition opt_before (a b : option datetime) : bool :=
  match a, b with Some a, Some b => before a b | _, _ => false end.

Definition _freshness (value : json) : res unit :=
  m ← _object value "freshness";
  _keys m ["valid_from"; "valid_to"; "last_reviewed_at"; "revalidate_after";
           "evidence_window_start"; "evidence_window_end"; "status"] "freshness" ;;
  v ← item "valid_from" m; valid_from ← _time v "freshness.valid_from";
  v ← item "valid_to" m; valid_to ← _time_opt v "freshness.valid_to";
  v ← item "last_reviewed_at" m; reviewed ← _time_opt v "freshness.last_reviewed_at";
  v ← item "revalidate_after" m; revalidate ← _time_opt v "freshness.revalidate_after";
  v ← item "evidence_window_start" m; window_start ← _time v "freshness.evidence_window_start";
  v ← item "evidence_window_end" m; window_end ← _time v "freshness.evidence_window_end";
  raise_if (opt_before valid_to (Some valid_from))
    (ValidationError "freshness.valid_to precedes valid_from") ;;
  raise_if (before window_end window_start)
    (ValidationError "freshness evidence window is reversed") ;;
  raise_if (opt_before revalidate reviewed)
    (ValidationError "freshness.revalidate_after precedes last review") ;;
  member_check "status" m ["current"; "review_due"; "stale"; "superseded"]
    "invalid freshness.status".

Definition _review_rule (review_state : json) (provenance : obj) : res unit :=
  b ← not_in_set review_state REVIEW_STATES;
  raise_if b (ValidationError "invalid review_state") ;;
  _keys provenance ["status"; "actor_class"; "actor_id"; "model_id"; "prompt_id"] "provenance" ;;
  status ← item "status" provenance;
  b ← not_in_set status PROVENANCE_STATUSES;
  raise_if b (ValidationError "invalid provenance.status") ;;
  actor_class ← item "actor_class" provenance; _text actor_class "provenance.actor_class" false ;;
  v ← item "actor_id" provenance; _text v "provenance.actor_id" false ;;
  model_id ← item "model_id" provenance; _text model_id "provenance.model_id" true ;;
  prompt_id ← item "prompt_id" provenance; _text prompt_id "provenance.prompt_id" true ;;
  raise_if (str_is status "captured" || str_is status "extracted")
    (ValidationError "self-model readings must enter as inferred proposals") ;;
  raise_if (str_is status "inferred" &&
            negb (str_is review_state "proposed" || str_is review_state "deferred" ||
                  str_is review_state "rejected"))
    (ValidationError "an inferred reading cannot be confirmed") ;;
  raise_if (str_is status "inferred" && (is_null model_id || is_null prompt_id))
    (ValidationError "inferred readings require model_id and prompt_id") ;;
  (if str_is status "ratified" then
     raise_if (negb (str_is review_state "confirmed" || str_is review_state "corrected"))
       (ValidationError "ratified readings must be confirmed or corrected") ;;
     raise_if (negb (str_is actor_class "operator"))
       (ValidationError "only the operator can ratify a self-model reading")
   else Ok tt).

(** ** Payload validators *)
Definition SELF_MODEL_FIELDS :=
  ["ontology_schema_version"; "operator_id"; "function_class"; "dimension"; "subtype";
   "statement"; "polarity"; "scope"; "source_phase"; "derivation_trace_id";
   "evidence_ids"; "confidence"; "freshness"; "review_state"; "structure";
   "provenance"; "extensions"].

(** [_review_rule(value["review_state"], _object(value["provenance"], "provenance"))] *)
Definition review_check (m : obj) : res unit :=
  review ← item "review_state" m;
  p ← item "provenance" m;
  provenance ← _object p "provenance";
  _review_rule review provenance.

Definition field_check (k : string) (m : obj) (check : json → res unit) : res unit :=
  v ← item k m; check v.

Definition object_check (v : json) (f : string) : res unit := _object v f ;; Ok tt.

Definition validate_self_model_assertion (payload : json) : res obj :=
  value ← _object payload "SelfModelAssertion";
  _keys value SELF_MODEL_FIELDS "SelfModelAssertion" ;;
  version_check value ;;
  field_value "operator_id" value operator_check ;;
  field_value "function_class" value extension_check ;;
  field_value "dimension" value extension_check ;;
  field_value "subtype" value extension_check ;;
  field_value "statement" value text_check_ ;;
  member_check "polarity" value POLARITIES "invalid polarity" ;;
  field_value "scope" value text_check_ ;;
  field_value "source_phase" value extension_check ;;
  field_value "derivation_trace_id" value urn_check_ ;;
  field_value "evidence_ids" value urns_check ;;
  field_check "confidence" value _confidence ;;
  field_check "freshness" value _freshness ;;
  review_check value ;;
  field_value "structure" value object_check ;;
  field_value "structure" value _json_value ;;
  field_check "extensions" value _extensions ;;
  Ok value.

Definition OBSERVATION_FIELDS :=
  ["ontology_schema_version"; "operator_id"; "source_class"; "observation_kind";
   "subject_id"; "description"; "observed_at"; "window_start"; "window_end"; "evidence_ids";
   "confidence"; "consent_grant_id"; "attributes"; "extensions"].

Definition consentgrant_check (v : json) (f : string) : res unit :=
  _urn v f (Some "consentgrant") ;; Ok tt.

Definition _validate_observation (payload : json) : res obj :=
  value ← _object payload "Observation";
  _keys value OBSERVATION_FIELDS "Observation" ;;
  version_check value ;;
  field_value "operator_id" value operator_check ;;
  member_check "source_class" value OBSERVATION_SOURCE_CLASSES
    "invalid observation source_class" ;;
  member_check "observation_kind" value
    ["behavior"; "outcome"; "communication"; "state"; "business_event"]
    "invalid observation_kind" ;;
  field_value "subject_id" value urn_check_ ;;
  field_value "description" value text_check_ ;;
  v ← item "observed_at" value; observed ← _time v "observed_at";
  v ← item "window_start" value; start ← _time v "window_start";
  v ← item "window_end" value; finish ← _time v "window_end";
  raise_if (before finish start || negb (negb (before observed start) && negb (before finish observed)))
    (ValidationError "observation times are inconsistent") ;;
  field_value "evidence_ids" value urns_check ;;
  field_check "confidence" value _confidence ;;
  field_value "consent_grant_id" value consentgrant_check ;;
  field_value "attributes" value object_check ;;
  field_check "extensions" value _extensions ;;
  Ok value.

Definition CUE_FIELDS :=
  ["ontology_schema_version"; "operator_id"; "cue_kind"; "description"; "context";
   "interpretation"; "observation_id"; "evidence_ids"; "confidence"; "extensions"].

Definition _validate_cue (payload : json) : res obj :=
  value ← _object payload "Cue";
  _keys value CUE_FIELDS "Cue" ;;
  version_check value ;;
  field_value "operator_id" value operator_check ;;
  member_check "cue_kind" value
    ["perceptual"; "anomaly"; "relational"; "emotional"; "environmental"; "temporal"; "business"]
    "invalid cue_kind" ;;
  field_value "description" value text_check_ ;;
  field_value "context" value text_check_ ;;
  field_value "interpretation" value text_opt_check ;;
  field_value "observation_id" value urn_check_ ;;
  field_value "evidence_ids" value urns_check ;;
  field_check "confidence" value _confidence ;;
  field_check "extensions" value _extensions ;;
  Ok value.

(** [isinstance(x, str) and x.strip()] *)
Definition text_str (v : json) : bool :=
  match v with JStr s => negb (blank s) | _ => false end.

(** [if not isinstance(v, list) or any(not isinstance(x, str) or not x.strip() for x in v)] *)
Definition texts_check (k : string) (m : obj) (msg : string) : res unit :=
  v ← item k m;
  l ← as_list v (ValidationError msg);
  raise_if (negb (forallb text_str l)) (ValidationError msg).

Definition LEXICON_FIELDS :=
  ["ontology_schema_version"; "operator_id"; "term"; "definition"; "term_kind";
   "aliases"; "scope"; "evidence_ids"; "provenance_status"; "extensions"].

Definition _validate_lexicon (payload : json) : res obj :=
  value ← _object payload "LexiconTerm";
  _keys value LEXICON_FIELDS "LexiconTerm" ;;
  version_check value ;;
  field_value "operator_id" value operator_check ;;
  field_value "term" value text_check_ ;;
  field_value "definition" value text_check_ ;;
  member_check "term_kind" value
    ["private_vocabulary"; "distinction"; "metaphor"; "shorthand"; "label"]
    "invalid term_kind" ;;
  texts_check "aliases" value "aliases must be non-empty strings" ;;
  field_value "scope" value text_check_ ;;
  field_value "evidence_ids" value urns_check ;;
  member_check "provenance_status" value PROVENANCE_STATUSES "invalid provenance_status" ;;
  field_check "extensions" value _extensions ;;
  Ok value.

(** [f"action_steps[{index}]"] *)
Fixpoint print_nat_fuel (fuel : nat) (n : N) : string :=
  let digit := String (ascii_of_N (48 + n mod 10)%N) "" in
  match fuel with
  | O => digit
  | S k => if (n <? 10)%N then digit else print_nat_fuel k (n / 10)%N +:+ digit
  end.
Definition print_nat (n : nat) : string := print_nat_fuel n (N.of_nat n).

(** The loop over [enumerate(action_steps)]: [order] must equal [index + 1]. *)
Fixpoint action_steps (index : nat) (steps : list json) : res unit :=
  match steps with
  | [] => Ok tt
  | step :: rest =>
      let label := "action_steps[" +:+ print_nat index +:+ "]" in
      o ← _object step label;
      _keys o ["order"; "instruction"; "success_criterion"] label ;;
      order ← item "order" o;
      raise_if (negb (py_eq order (JInt (Z.of_nat index + 1))))
        (ValidationError "action_steps order must be contiguous from one") ;;
      v ← item "instruction" o; _text v "action step instruction" false ;;
      v ← item "success_criterion" o; _text v "action step success_criterion" false ;;
      action_steps (S index) rest
  end.

Definition INTERVENTION_FIELDS :=
  ["ontology_schema_version"; "operator_id"; "instruction"; "trigger_ids";
   "protects_standard_ids"; "action_steps"; "contraindications"; "review_state";
   "evidence_ids"; "freshness"; "provenance"; "extensions"].

Definition _validate_intervention (payload : json) : res obj :=
  value ← _object payload "InterventionRule";
  _keys value INTERVENTION_FIELDS "InterventionRule" ;;
  version_check value ;;
  field_value "operator_id" value operator_check ;;
  field_value "instruction" value text_check_ ;;
  field_value "trigger_ids" value urns_check ;;
  field_value "protects_standard_ids" value urns_check ;;
  v ← item "action_steps" value;
  steps ← as_list v (ValidationError "action_steps must be a non-empty list");
  raise_if (match steps with [] => true | _ => false end)
    (ValidationError "action_steps must be a non-empty list") ;;
  action_steps 0 steps ;;
  texts_check "contraindications" value "contraindications must be strings" ;;
  field_value "evidence_ids" value urns_check ;;
  field_check "freshness" value _freshness ;;
  review_check value ;;
  field_check "extensions" value _extensions ;;
  Ok value.

Definition CONSENT_FIELDS :=
  ["ontology_schema_version"; "operator_id"; "source_class"; "purposes";
   "sensitivity"; "allowed_operations"; "retention"; "effective_from"; "effective_to";
   "granted_by"; "granted_at"; "revoked_at"; "revocation_reason"; "extensions"].

(** [if not isinstance(v, list) or not v or set(v) - allowed: raise] *)
Definition subset_check (k : string) (m : obj) (allowed : list string) (msg : string)
    : res (list json) :=
  v ← item k m;
  l ← as_list v (ValidationError msg);
  raise_if (match l with [] => true | _ => false end) (ValidationError msg) ;;
  outside ← has_outside l allowed;
  raise_if outside (ValidationError msg) ;;
  Ok l.

(** [isinstance(days, int) and not isinstance(days, bool) and days >= 1] *)
Definition positive_days (v : json) : bool :=
  match v with JInt n => 1 <=? n | _ => false end.

Definition retention_check (value : obj) : res unit :=
  v ← item "retention" value;
  retention ← _object v "retention";
  _keys retention ["mode"; "days"; "delete_on_revoke"] "retention" ;;
  member_check "mode" retention ["session"; "days"; "until_revoked"; "indefinite"]
    "invalid retention.mode" ;;
  mode ← item "mode" retention;
  days ← item "days" retention;
  (if str_is mode "days" then
     raise_if (negb (positive_days days))
       (ValidationError "day retention requires a positive day count")
   else
     raise_if (negb (is_null days))
       (ValidationError "retention.days is only valid for day retention")) ;;
  delete ← item "delete_on_revoke" retention;
  raise_if (negb (is_bool delete))
    (ValidationError "retention.delete_on_revoke must be boolean").

Definition _validate_consent (payload : json) : res obj :=
  value ← _object payload "ConsentGrant";
  _keys value CONSENT_FIELDS "ConsentGrant" ;;
  version_check value ;;
  v ← item "operator_id" value; operator_id ← _urn v "operator_id" (Some "operator");
  member_check "source_class" value OBSERVATION_SOURCE_CLASSES "invalid consent source_class" ;;
  purposes ← subset_check "purposes" value CONSENT_PURPOSES "invalid consent purposes";
  dup ← has_duplicates purposes;
  raise_if dup (ValidationError "consent purposes must not contain duplicates") ;;
  member_check "sensitivity" value ["standard"; "sensitive"; "highly_sensitive"]
    "invalid consent sensitivity" ;;
  subset_check "allowed_operations" value CONSENT_OPERATIONS "invalid allowed_operations" ;;
  retention_check value ;;
  v ← item "effective_from" value; effective_from ← _time v "effective_from";
  v ← item "effective_to" value; effective_to ← _time_opt v "effective_to";
  v ← item "granted_at" value; granted_at ← _time v "granted_at";
  v ← item "revoked_at" value; revoked_at ← _time_opt v "revoked_at";
  raise_if (opt_before effective_to (Some effective_from))
    (ValidationError "consent effective interval is reversed") ;;
  raise_if (opt_before revoked_at (Some granted_at))
    (ValidationError "consent cannot be revoked before it was granted") ;;
  v ← item "granted_by" value; granted_by ← _urn v "granted_by" (Some "operator");
  raise_if (negb (String.eqb granted_by operator_id))
    (ValidationError "only the operator can grant capture consent") ;;
  v ← item "revocation_reason" value; reason ← _text v "revocation_reason" true;
  raise_if (xorb (match revoked_at with None => true | Some _ => false end) (is_null reason))
    (ValidationError "revoked_at and revocation_reason must be supplied together") ;;
  field_check "extensions" value _extensions ;;
  Ok value.

Definition TRACE_FIELDS :=
  ["ontology_schema_version"; "operator_id"; "element_version_id"; "source_phase";
   "derived_from_rule"; "computed_at"; "input_ids"; "input_snapshot_sha256";
   "model_id"; "prompt_id"; "extensions"].

Definition sha256_str (v : json) : bool :=
  match v with JStr s => is_sha256_hex s | _ => false end.

Definition _validate_trace (payload : json) : res obj :=
  value ← _object payload "DerivationTrace";
  _keys value TRACE_FIELDS "DerivationTrace" ;;
  version_check value ;;
  field_value "operator_id" value operator_check ;;
  field_value "element_version_id" value urn_check_ ;;
  field_value "source_phase" value extension_check ;;
  field_value "derived_from_rule" value text_check_ ;;
  field_value "computed_at" value time_check ;;
  field_value "input_ids" value urns_check ;;
  v ← item "input_snapshot_sha256" value;
  raise_if (negb (sha256_str v))
    (ValidationError "input_snapshot_sha256 must be lowercase SHA-256") ;;
  field_value "model_id" value text_check_ ;;
  field_value "prompt_id" value text_check_ ;;
  field_check "extensions" value _extensions ;;
  Ok value.

Definition OPERATOR_PAYLOAD_VALIDATORS : list (string * (json → res obj)) :=
  [("SelfModelAssertion", validate_self_model_assertion); ("Observation", _validate_observation);
   ("Cue", _validate_cue); ("LexiconTerm", _validate_lexicon);
   ("InterventionRule", _validate_intervention); ("ConsentGrant", _validate_consent);
   ("DerivationTrace", _validate_trace)].

Definition validate_operator_payload (node_type : string) (payload : json) : res obj :=
  match assoc node_type OPERATOR_PAYLOAD_VALIDATORS with
  | None => Err (ValidationError "unsupported operator ontology node type")
  | Some validator => validator payload
  end.

(** ** The consent decision *)

(** [x in l] for a list [l] *)
Definition list_has (x : string) (v : json) : bool :=
  match v with JList l => existsb (py_eq (JStr x)) l | _ => false end.

(** [start + timedelta(days=retention["days"])] under day retention *)
Definition retention_limit (mode days : json) (start : datetime) : res (option Z) :=
  if str_is mode "days" then
    match days with
    | JInt n => t ← plus_days start n; Ok (Some t)
    | _ => Err TypeError
    end
  else Ok None.

(** The body of the [try] block. *)
Definition consent_decision (grant : json) (source_class purpose operation at_ : string) : res bool :=
  checked ← _validate_consent grant;
  instant_ ← _time (JStr at_) "at";
  v ← item "effective_from" checked; start ← _time v "effective_from";
  v ← item "effective_to" checked; end_ ← _time_opt v "effective_to";
  v ← item "revoked_at" checked; revoked ← _time_opt v "revoked_at";
  v ← item "retention" checked; retention ← _object v "retention";
  mode ← item "mode" retention;
  days ← item "days" retention;
  retention_end ← retention_limit mode days start;
  source ← item "source_class" checked;
  purposes ← item "purposes" checked;
  operations ← item "allowed_operations" checked;
  Ok (str_is source source_class
      && list_has purpose purposes
      && list_has operation operations
      && (instant start <=? instant instant_)
      && match end_ with None => true | Some e => before instant_ e end
      && match retention_end with None => true | Some t => instant instant_ <? t end
      && match revoked with None => true | Some r => before instant_ r end).

Definition consent_authorizes (grant : option json)
    (source_class purpose operation at_ : string) : res bool :=
  if negb (mem source_class OBSERVATION_SOURCE_CLASSES) || negb (mem purpose CONSENT_PURPOSES)
     || negb (mem operation CONSENT_OPERATIONS)
  then Ok false
  else match grant with
       | None => Ok false
       | Some g =>
           match consent_decision g source_class purpose operation at_ with
           | Ok b => Ok b
           | Err e => if is_validation e || match e with TypeError => true | _ => false end
                      then Ok false else Err e
           end
       end.

(** ** Every accepted payload is returned as given *)
Lemma validate_operator_payload_returns t m :
  returns m (validate_operator_payload t (JObj m)).
Proof.
  unfold validate_operator_payload. destruct (assoc t OPERATOR_PAYLOAD_VALIDATORS) as [f|] eqn:E; [|done].
  apply assoc_In in E. simpl in E.
  repeat destruct E as [[= <- <-]|E]; [..|done];
    unfold validate_self_model_assertion, _validate_observation, _validate_cue,
      _validate_lexicon, _validate_intervention, _validate_consent, _validate_trace;
    apply returns_bind; intros ? [= ->]; returns_input.
Qed.

(** ** What the validators raise *)
Lemma errs_object v f : errs contract_error (_object v f).
Proof. unfold _object. errs_walk. Qed.

Lemma errs_operator_urn v f k : errs contract_error (_urn v f k).
Proof. apply errs_urn. Qed.

Lemma errs_operator_time v f : errs contract_error (_time v f).
Proof. apply errs_time. Qed.

Lemma errs_operator_text v f n : errs contract_error (_text v f n).
Proof. apply errs_text. Qed.

Lemma errs_keys m l f : errs contract_error (_keys m l f).
Proof. apply errs_exact. Qed.

Lemma errs_time_opt v f : errs contract_error (_time_opt v f).
Proof. unfold _time_opt. errs_walk. Qed.
#[export] Hint Resolve errs_object errs_operator_urn errs_operator_time errs_operator_text
  errs_keys errs_time_opt : errs.

Lemma errs_urns v f b : errs contract_error (_urns v f b).
Proof. unfold _urns. errs_walk. Qed.

Lemma errs_extensions v : errs contract_error (_extensions v).
Proof. unfold _extensions. errs_walk. Qed.

Lemma errs_extension_value v f : errs contract_error (_extension_value v f).
Proof. unfold _extension_value. errs_walk. Qed.
#[export] Hint Resolve errs_urns errs_extensions errs_extension_value : errs.

Lemma errs_json_value v : ∀ f, errs contract_error (_json_value v f).
Proof.
  induction v as [| | |x| |l IH|m IH] using json_ind'; intros f; try done.
  - simpl. errs_walk.
  - simpl. induction IH as [|v l Hv _ IHl]; [done|]. by apply errs_bind.
  - simpl. induction IH as [|[k v] m Hv _ IHm]; [done|].
    apply errs_bind; [errs_walk|]. intros. apply errs_bind; [apply Hv|]. done.
Qed.
#[export] Hint Resolve errs_json_value : errs.

Lemma errs_field_value k m (check : json → string → res unit) :
  In k (keys m) → (∀ v f, errs contract_error (check v f)) →
  errs contract_error (field_value k m check).
Proof. intros. unfold field_value. errs_walk; auto. Qed.

Lemma errs_field_check k m (check : json → res unit) :
  In k (keys m) → (∀ v, errs contract_error (check v)) →
  errs contract_error (field_check k m check).
Proof. intros. unfold field_check. errs_walk; auto. Qed.

Lemma errs_member k m l msg : In k (keys m) → errs contract_error (member_check k m l msg).
Proof. intros. unfold member_check. errs_walk. Qed.

Lemma errs_version m :
  In "ontology_schema_version" (keys m) → errs contract_error (version_check m).
Proof. intros. unfold version_check. errs_walk. Qed.
#[export] Hint Extern 2 (errs _ (field_value _ _ _)) =>
  (apply errs_field_value; [errs_key|intros; cbv beta delta
     [text_check_ text_opt_check urn_check_ operator_check urns_check time_check
      extension_check object_check consentgrant_check]; errs_walk]) : errs.
#[export] Hint Extern 2 (errs _ (field_check _ _ _)) =>
  (apply errs_field_check; [errs_key|intros; solve [eauto 3 with errs]]) : errs.
#[export] Hint Extern 2 (errs _ (member_check _ _ _ _)) => (apply errs_member; errs_key) : errs.
#[export] Hint Extern 2 (errs _ (version_check _)) => (apply errs_version; errs_key) : errs.

(** [_keys] is [require_exact_fields]: its success gives the field list. *)
Ltac operator_walk :=
  repeat (errs_step; try match goal with H : _keys ?m _ _ = Ok _ |- _ =>
    unfold _keys in H; rewrite require_exact_fields_Ok in H end).

Lemma errs_operator_confidence v : errs contract_error (_confidence v).
Proof. unfold _confidence, unless_null. operator_walk. Qed.

Lemma errs_freshness v : errs contract_error (_freshness v).
Proof. unfold _freshness. operator_walk. Qed.

Lemma errs_review_rule r p : errs contract_error (_review_rule r p).
Proof. unfold _review_rule. operator_walk. Qed.
#[export] Hint Resolve errs_operator_confidence errs_freshness errs_review_rule : errs.

Lemma errs_review_check m :
  In "review_state" (keys m) → In "provenance" (keys m) → errs contract_error (review_check m).
Proof. intros. unfold review_check. operator_walk. Qed.
#[export] Hint Extern 2 (errs _ (review_check _)) => (apply errs_review_check; errs_key) : errs.

Lemma errs_texts k m msg : In k (keys m) → errs contract_error (texts_check k m msg).
Proof. intros. unfold texts_check. operator_walk. Qed.
#[export] Hint Extern 2 (errs _ (texts_check _ _ _)) => (apply errs_texts; errs_key) : errs.

Lemma errs_subset k m l msg : In k (keys m) → errs contract_error (subset_check k m l msg).
Proof. intros. unfold subset_check. operator_walk. Qed.
#[export] Hint Extern 2 (errs _ (subset_check _ _ _ _)) => (apply errs_subset; errs_key) : errs.

Lemma errs_retention m : In "retention" (keys m) → errs contract_error (retention_check m).
Proof. intros. unfold retention_check. operator_walk. Qed.
#[export] Hint Extern 2 (errs _ (retention_check _)) => (apply errs_retention; errs_key) : errs.

Lemma errs_action_steps l : ∀ i, errs contract_error (action_steps i l).
Proof. induction l as [|x l IH]; intros i; cbn [action_steps]; operator_walk. Qed.
#[export] Hint Resolve errs_action_steps : errs.

Lemma errs_consent v : errs contract_error (_validate_consent v).
Proof. unfold _validate_consent. operator_walk. Qed.

Lemma errs_operator_payload t v : errs contract_error (validate_operator_payload t v).
Proof.
  unfold validate_operator_payload.
  destruct (assoc t OPERATOR_PAYLOAD_VALIDATORS) as [f|] eqn:E; [|errs_walk].
  apply assoc_In in E. simpl in E. repeat destruct E as [[= <- <-]|E]; [..|done];
    first [apply errs_consent
          |unfold validate_self_model_assertion, _validate_observation, _validate_cue,
             _validate_lexicon, _validate_intervention, _validate_trace; operator_walk].
Qed.

(** ** Review states of self-model readings *)
Inductive review_spec (inner : obj) : string → string → Prop :=
| review_inferred rv : In rv ["proposed"; "deferred"; "rejected"] →
    assoc "model_id" inner ≠ Some JNull → assoc "prompt_id" inner ≠ Some JNull →
    review_spec inner "inferred" rv
| review_ratified rv : In rv ["confirmed"; "corrected"] →
    assoc "actor_class" inner = Some (JStr "operator") → review_spec inner "ratified" rv.

Lemma review_check_sound m u :
  review_check m = Ok u →
  ∃ rv inner st, assoc "review_state" m = Some (JStr rv) ∧ assoc "provenance" m = Some (JObj inner) ∧
    assoc "status" inner = Some (JStr st) ∧ review_spec inner st rv.
Proof.
  unfold review_check, _review_rule, _object, _keys, _text. intros H. inv_checks.
  do 3 eexists. split_and!; [eassumption..|].
  repeat match goal with
  | H : require_text _ _ true = Ok _ |- _ => apply require_text_Ok in H as [-> _]
  | H : In ?s PROVENANCE_STATUSES |- _ => simpl in H; repeat destruct H as [<-|H]; [..|done]
  end; simpl in *; inv_checks; bool_hyps; try discriminate;
    rewrite ?orb_true_iff, ?String.eqb_eq in *.
  - apply review_inferred; [simpl; naive_solver|..]; intros E; simplify_eq; discriminate.
  - apply review_ratified; [simpl; naive_solver|]. congruence.
Qed.

Lemma self_model_payload_review t m r :
  t = "SelfModelAssertion" ∨ t = "InterventionRule" →
  validate_operator_payload t (JObj m) = Ok r → review_check m = Ok tt.
Proof.
  intros [-> | ->] H; cbn in H;
    [unfold validate_self_model_assertion in H | unfold _validate_intervention in H];
    unfold _object in H; cbn [mbind res_bind as_obj] in H; repeat inv_ok1;
    match goal with H : review_check _ = Ok ?u |- _ => by destruct u end.
Qed.

(** ** What consent authorises *)

(** An optional timestamp field that, when present, bounds the instant. *)
Definition before_field (k : string) (m : obj) (t : Z) : Prop :=
  assoc k m = Some JNull ∨
  ∃ s d, assoc k m = Some (JStr s) ∧ parse_rfc3339 s = Some d ∧ aware d = true ∧ t < instant d.

Record consent_spec (g : obj) (source purpose operation at_ : string) : Prop := {
  cs_valid : _validate_consent (JObj g) = Ok g;
  cs_source : assoc "source_class" g = Some (JStr source);
  cs_purpose : ∃ l, assoc "purposes" g = Some (JList l) ∧ In (JStr purpose) l;
  cs_operation : ∃ l, assoc "allowed_operations" g = Some (JList l) ∧ In (JStr operation) l;
  cs_time : ∃ now s start, parse_rfc3339 at_ = Some now ∧ aware now = true ∧
    assoc "effective_from" g = Some (JStr s) ∧ parse_rfc3339 s = Some start ∧ aware start = true ∧
    instant start ≤ instant now ∧
    before_field "effective_to" g (instant now) ∧
    before_field "revoked_at" g (instant now) ∧
    ∃ r mode days, assoc "retention" g = Some (JObj r) ∧ assoc "mode" r = Some mode ∧
      assoc "days" r = Some days ∧
      (mode ≠ JStr "days" ∨
       ∃ n t, days = JInt n ∧ plus_days start n = Ok t ∧ instant now < t)
}.

Lemma time_opt_Ok v f o :
  _time_opt v f = Ok o ↔
  (v = JNull ∧ o = None) ∨
  ∃ s d, v = JStr s ∧ parse_rfc3339 s = Some d ∧ aware d = true ∧ o = Some d.
Proof.
  unfold _time_opt. destruct (is_null v) eqn:N.
  - apply is_null_true in N as ->. naive_solver.
  - rewrite bind_Ok. setoid_rewrite require_time_Ok. destruct v; naive_solver.
Qed.

Lemma before_field_check k m v f o t :
  assoc k m = Some v → _time_opt v f = Ok o →
  match o with None => true | Some d => t <? instant d end = true ↔ before_field k m t.
Proof.
  intros Hk Ho%time_opt_Ok. unfold before_field. rewrite Hk.
  destruct Ho as [[-> ->]|(s & d & -> & Hp & Ha & ->)].
  - naive_solver.
  - rewrite Z.ltb_lt. split; [intros; right; eauto 10|].
    intros [?|(s' & d' & ? & ? & ? & ?)]; simplify_eq; congruence || done.
Qed.

Lemma list_has_spec x v : list_has x v = true ↔ ∃ l, v = JList l ∧ In (JStr x) l.
Proof.
  destruct v as [| | | | |l|]; simpl; try (split; naive_solver).
  rewrite existsb_exists. split.
  - intros (y & Hy & He). exists l. split; [done|].
    destruct y as [| | |[]|s| |]; try discriminate He.
    simpl in He. apply String.eqb_eq in He. by subst.
  - intros (? & [= <-] & H). exists (JStr x). split; [done|]. apply String.eqb_refl.
Qed.

Lemma retention_limit_spec mode days start now :
  (∃ o, retention_limit mode days start = Ok o ∧
        match o with None => true | Some t => now <? t end = true) ↔
  mode ≠ JStr "days" ∨ ∃ n t, days = JInt n ∧ plus_days start n = Ok t ∧ now < t.
Proof.
  unfold retention_limit. destruct (str_is mode "days") eqn:E.
  - apply str_is_true in E as ->. destruct days as [| |n| | | |]; try (split; naive_solver).
    destruct (plus_days start n) as [t|] eqn:P; simpl; split.
    + intros (o & [= <-] & H%Z.ltb_lt). naive_solver.
    + intros [?|(? & ? & ? & ? & ?)]; simplify_eq. eexists. split; [done|].
      apply Z.ltb_lt. congruence.
    + naive_solver.
    + intros [?|(? & ? & ? & ? & ?)]; simplify_eq. congruence.
  - split; [|intros; by exists None]. left. intros ->. discriminate E.
Qed.

Lemma consent_decision_true g source purpose operation at_ :
  consent_decision (JObj g) source purpose operation at_ = Ok true ↔
  consent_spec g source purpose operation at_.
Proof.
  unfold consent_decision. split.
  - intros H. apply bind_Ok in H as (c & Hc & H).
    assert (c = g) as -> by (by eapply (validate_operator_payload_returns "ConsentGrant")).
    unfold _time, _object in H. inv_checks. bool_hyps. unfold before in *.
    match goal with H : require_time (JStr at_) _ = _ |- _ =>
      apply require_time_Ok in H as (? & [= <-] & ? & ?) end.
    repeat match goal with
    | H : str_is _ _ = true |- _ => apply str_is_true in H as ->
    | H : list_has _ _ = true |- _ => apply list_has_spec in H as (? & -> & ?)
    end.
    constructor; eauto.
    do 3 eexists. split_and!; try eassumption.
    1-2: eapply before_field_check; eassumption.
    do 3 eexists. split_and!; try eassumption. apply (retention_limit_spec _ _ _ (instant _)). eauto.
  - intros [Hv Hs (ps & Hp & Hpi) (os & Ho & Hoi)
      (now & s & start & Hn & Hna & He & Hst & Hsa & Hle & Hto & Hrev & r & mode & days & Hr & Hm & Hd & Hret)].
    rewrite Hv. cbn [mbind res_bind]. unfold _time, _object.
    rewrite (proj2 (require_time_Ok (JStr at_) _ now)) by eauto. unfold item.
    rewrite He. cbn [mbind res_bind]. rewrite (proj2 (require_time_Ok (JStr s) _ start)) by eauto.
    cbn [mbind res_bind].
    assert (∀ k f, before_field k g (instant now) → ∃ v o, assoc k g = Some v ∧ _time_opt v f = Ok o
      ∧ match o with None => true | Some d => instant now <? instant d end = true) as Hb.
    { intros k f [E|(s' & d & E & Hpd & Had & Hlt)].
      - exists JNull, None. done.
      - exists (JStr s'), (Some d). split_and!; [done| |by apply Z.ltb_lt].
        apply time_opt_Ok. naive_solver. }
    destruct (Hb _ "effective_to" Hto) as (v1 & o1 & -> & E1 & B1). cbn [mbind res_bind].
    rewrite E1. cbn [mbind res_bind].
    destruct (Hb _ "revoked_at" Hrev) as (v2 & o2 & -> & E2 & B2). cbn [mbind res_bind].
    rewrite E2, Hr. cbn [mbind res_bind as_obj]. rewrite Hm, Hd. cbn [mbind res_bind].
    apply retention_limit_spec in Hret as (o3 & -> & B3). cbn [mbind res_bind].
    rewrite Hs, Hp, Ho. cbn [mbind res_bind]. unfold before. rewrite B1, B2, B3.
    rewrite (proj2 (list_has_spec purpose _)), (proj2 (list_has_spec operation _)) by eauto.
    rewrite (proj2 (Z.leb_le _ _)) by done. simpl. by rewrite String.eqb_refl.
Qed.

Lemma errs_retention_limit mode days start :
  mode ≠ JStr "days" ∨ positive_days days = true →
  errs (λ e, e = OverflowError) (retention_limit mode days start).
Proof.
  intros H e. unfold retention_limit. destruct (str_is mode "days") eqn:E; [|done].
  apply str_is_true in E. destruct H as [?|H]; [done|]. destruct days; try discriminate H.
  intros [Hd|(? & _ & ?)]%bind_Err; [|discriminate]. unfold plus_days in Hd.
  repeat case_match; simplify_eq; done.
Qed.

Lemma consent_fields v g :
  _validate_consent v = Ok g →
  (∀ x, In x (keys g) ↔ In x CONSENT_FIELDS) ∧
  ∃ r, assoc "retention" g = Some (JObj r) ∧
    (∀ x, In x (keys r) ↔ In x ["mode"; "days"; "delete_on_revoke"]) ∧
    ∀ mode days, assoc "mode" r = Some mode → assoc "days" r = Some days →
      mode ≠ JStr "days" ∨ positive_days days = true.
Proof.
  unfold _validate_consent, retention_check, _object, _keys. intros H. repeat inv_ok1.
  repeat match goal with
  | H : require_exact_fields _ _ _ = _ |- _ => rewrite require_exact_fields_Ok in H
  | H : as_obj _ _ = _ |- _ => apply as_obj_Ok in H; subst
  end.
  split; [done|]. eexists. split_and!; [eassumption..|]. intros mode days Hm Hd. simplify_eq.
  match goal with H : (if str_is ?v _ then _ else _) = _ |- _ => destruct (str_is v "days") eqn:E end.
  - inv_ok. bool_hyps. by right.
  - left. intros ->. discriminate E.
Qed.

(** A valid grant has every field [consent_decision] reads, so nothing but
    [contract_error]s leaves it. *)
Lemma errs_consent_decision g source purpose operation at_ :
  errs contract_error (consent_decision g source purpose operation at_).
Proof.
  unfold consent_decision. apply errs_bind; [apply errs_consent|].
  intros c (Hc & r & Hr & Hk & Hd)%consent_fields.
  do 7 (apply errs_bind; [errs_walk|]; intros ? ?). apply errs_bind; [errs_walk|]; intros v Hv.
  apply item_Ok in Hv. rewrite Hr in Hv. injection Hv as <-. cbn [_object as_obj mbind res_bind].
  apply errs_bind; [errs_walk|]; intros mode Hm%item_Ok.
  apply errs_bind; [errs_walk|]; intros days Hdays%item_Ok.
  apply errs_bind; [|intros; errs_walk].
  intros e He%errs_retention_limit; [|by apply Hd]. by right; right.
Qed.

(** C32: The consent decision is exactly its specification.  A grant authorises
    a source, purpose and operation at an instant if and only if the grant is
    a valid [ConsentGrant] that names all three, the instant is at or after
    [effective_from] and strictly before the end of the interval, the end of
    its day retention and its revocation, each where present. *)
Theorem consent_authorizes_iff g source purpose operation at_ :
  consent_authorizes (Some (JObj g)) source purpose operation at_ = Ok true ↔
  In source OBSERVATION_SOURCE_CLASSES ∧ In purpose CONSENT_PURPOSES ∧
  In operation CONSENT_OPERATIONS ∧ consent_spec g source purpose operation at_.
Proof.
  rewrite <- consent_decision_true, <- !mem_In. unfold consent_authorizes.
  destruct (mem source _), (mem purpose _), (mem operation _); simpl;
    try (split; naive_solver).
  destruct (consent_decision _ _ _ _ _) as [b|e]; [naive_solver|].
  case_match; split; naive_solver.
Qed.

(** Consent fails closed up to one exception: whatever the grant, the
    decision is a boolean or an [OverflowError] of the retention date
    arithmetic, never another escaping error. *)
Theorem consent_authorizes_closed grant source purpose operation at_ :
  (∃ b, consent_authorizes grant source purpose operation at_ = Ok b) ∨
  consent_authorizes grant source purpose operation at_ = Err OverflowError.
Proof.
  unfold consent_authorizes. case_match; [by left; eexists|].
  destruct grant as [g|]; [|by left; eexists].
  pose proof (errs_consent_decision g source purpose operation at_) as He.
  destruct (consent_decision _ _ _ _ _) as [b|e]; [by left; eexists|].
  destruct (He e eq_refl) as [-> | [-> | ->]]; simpl; eauto.
Qed.

(** A revoked grant authorises nothing from its revocation onward. *)
Theorem consent_revocation_final g source purpose operation at_ now revoked d :
  assoc "revoked_at" g = Some (JStr revoked) → parse_rfc3339 revoked = Some d →
  parse_rfc3339 at_ = Some now → instant d ≤ instant now →
  consent_authorizes (Some (JObj g)) source purpose operation at_ ≠ Ok true.
Proof.
  intros Hr Hd Hn Hle H. unfold consent_authorizes in H.
  repeat case_match; simplify_eq.
  match goal with H : consent_decision _ _ _ _ _ = Ok true |- _ =>
    apply consent_decision_true in H as [_ _ _ _ (? & ? & ? & ? & _ & _ & _ & _ & _ & _ & Hb & _)] end.
  simplify_eq. destruct Hb as [?|(s & d' & ? & ? & _ & ?)]; simplify_eq. lia.
Qed.

(** ** A concrete grant *)
Definition urn_of (kind : string) : string :=
  "urn:imprint:" +:+ kind +:+ ":00000000-0000-4000-8000-000000000001".

Definition example_grant (mode days revoked_at reason : json) : obj :=
  [("ontology_schema_version", JStr "3.1.0"); ("operator_id", JStr (urn_of "operator"));
   ("source_class", JStr "conversation"); ("purposes", JList [JStr "self_modeling"]);
   ("sensitivity", JStr "standard"); ("allowed_operations", JList [JStr "store"]);
   ("retention", JObj [("mode", mode); ("days", days); ("delete_on_revoke", JBool false)]);
   ("effective_from", JStr "2024-01-01T00:00:00Z"); ("effective_to", JNull);
   ("granted_by", JStr (urn_of "operator")); ("granted_at", JStr "2024-01-01T00:00:00Z");
   ("revoked_at", revoked_at); ("revocation_reason", reason); ("extensions", JObj [])].

Lemma consent_revocation_final_witness :
  let g := example_grant (JStr "indefinite") JNull (JStr "2024-06-01T00:00:00Z") (JStr "withdrawn") in
  consent_authorizes (Some (JObj g)) "conversation" "self_modeling" "store" "2024-05-31T00:00:00Z"
    = Ok true ∧
  consent_authorizes (Some (JObj g)) "conversation" "self_modeling" "store" "2024-06-01T00:00:00Z"
    ≠ Ok true.
Proof.
  split; [vm_compute; reflexivity|].
  eapply consent_revocation_final; [reflexivity|vm_compute; reflexivity..|].
  vm_compute. discriminate.
Defined.

(** The exception is reachable.  A well-formed grant with day retention of
    three million days makes the decision raise [OverflowError] instead of
    denying access. *)
Theorem consent_retention_overflow :
  let g := JObj (example_grant (JStr "days") (JInt 3000000) JNull JNull) in
  is_ok (_validate_consent g) = true ∧
  consent_authorizes (Some g) "conversation" "self_modeling" "store" "2024-05-31T00:00:00Z"
    = Err OverflowError.
Proof. split; vm_compute; reflexivity. Qed.
