(* ===== verification/World.v ===== *)
(** * The business/world partition ([ontology/world.py])

    Declared business theory, observed business events and outcomes: payload
    validators, the rule separating declared from observed provenance, and
    the typed relation signatures. *)
From S2P Require Import Prelude PyTime Urn Contracts Operator.

Definition DECLARED_BUSINESS_TYPES :=
  ["Customer"; "Segment"; "Problem"; "Desire"; "Situation"; "Claim"; "Promise";
   "Expectation"; "Mechanism"; "RequiredBehavior"; "Offer"; "Price"; "Channel";
   "Objection"; "Proof"; "Intervention"].
Definition OBSERVED_BUSINESS_TYPES :=
  ["SupportAction"; "Purchase"; "Usage"; "Result"; "Refund"; "Retention"; "Referral"].
Definition GENERAL_EVIDENCE_TYPES := ["Observation"; "Outcome"].
Definition WORLD_NODE_TYPES :=
  DECLARED_BUSINESS_TYPES ++ OBSERVED_BUSINESS_TYPES ++ GENERAL_EVIDENCE_TYPES.
Definition ATTRIBUTION_STATUSES :=
  ["unknown"; "associated"; "contributory"; "causal"; "contested"].

Definition _PRIMARY_FIELDS : list (string * list string) :=
  [("Customer", ["name"]); ("Segment", ["name"; "definition"]); ("Problem", ["description"]);
   ("Desire", ["description"]); ("Situation", ["description"]); ("Claim", ["statement"]);
   ("Promise", ["statement"]); ("Expectation", ["statement"]); ("Mechanism", ["description"]);
   ("RequiredBehavior", ["description"]); ("Offer", ["name"]); ("Price", ["amount"; "currency"]);
   ("Channel", ["name"]); ("Objection", ["statement"]); ("Proof", ["description"]);
   ("Intervention", ["description"]); ("SupportAction", ["action"]);
   ("Purchase", ["amount"; "currency"]); ("Usage", ["action"]);
   ("Result", ["metric"; "value"; "unit"]); ("Refund", ["amount"; "currency"; "reason"]);
   ("Retention", ["status"]); ("Referral", ["referred_party"])].
Definition _BUSINESS_COMMON := ["evidence_mode"; "effective_at"; "source_refs"; "attributes"].

(** ** Field checks of the module *)
Definition world_time (value : json) (field : string) : res datetime :=
  match value with
  | JStr s =>
      match parse_rfc3339 s with
      | None => Err (ValidationError (field +:+ " must be an RFC3339 timestamp"))
      | Some d =>
          raise_if (negb (aware d)) (ValidationError (field +:+ " must include timezone")) ;; Ok d
      end
  | _ => Err (ValidationError (field +:+ " must be an RFC3339 timestamp"))
  end.

Definition world_text (value : json) (field : string) : res unit :=
  require_text value field false ;; Ok tt.

Definition _sources (value : json) : res (list json) :=
  let bad := ValidationError "source_refs must be a non-empty list" in
  l ← as_list value bad;
  raise_if (match l with [] => true | _ => false end) bad ;;
  for_each (λ i, require_urn i None "URN" ;; Ok tt) l ;;
  dup ← has_duplicates l;
  raise_if dup (ValidationError "source_refs cannot contain duplicates") ;;
  Ok l.

Definition _number (value : json) (field : string) : res spec_float :=
  raise_if (is_bool value || negb (is_number value))
    (ValidationError (field +:+ " must be numeric")) ;;
  to_float value.

(** The messages list the missing fields before the unknown ones; the model
    keeps the names of both. *)
Definition _assert_closed (payload : obj) (expected : list string) : res unit :=
  let unknown := set_diff (keys payload) expected in
  let missing := set_diff expected (keys payload) in
  match missing, unknown with
  | [], [] => Ok tt
  | _, _ => Err (ValidationErrorNames "missing fields, unknown fields"
                   (sorted_strs missing ++ sorted_strs unknown))
  end.

Definition world_object (k : string) (m : obj) : res unit :=
  v ← item k m;
  raise_if (negb (is_obj v)) (ValidationError (k +:+ " must be an object")).

(** ** Provenance of declared and observed records *)
Definition _validate_world_provenance (mode : string) (provenance : obj) : res unit :=
  let status := get "status" provenance in
  if String.eqb mode "declared" then
    raise_if (negb (str_is (get "actor_class" provenance) "operator"))
      (ValidationError "declared business theory requires an operator actor") ;;
    b ← not_in_set status ["captured"; "ratified"];
    raise_if b (ValidationError "declared business theory must be captured or ratified")
  else
    b ← not_in_set status ["extracted"; "inferred"; "ratified"];
    raise_if b (ValidationError "observed business evidence has incompatible provenance") ;;
    raise_if (str_is status "inferred" &&
              negb (str_is (get "authority_tier" provenance) "observed_candidate"))
      (ValidationError "inferred observations require observed_candidate authority").

Definition primary_field_check (payload : obj) (field : string) : res unit :=
  value ← item field payload;
  if String.eqb field "amount" || String.eqb field "value" then
    if String.eqb field "value" && (is_str value || is_bool value)
    then world_text value field
    else _number value field ;; Ok tt
  else world_text value field.

Definition _validate_primary_fields (node_type : string) (payload : obj) : res unit :=
  match assoc node_type _PRIMARY_FIELDS with
  | None => Err (KeyError node_type)
  | Some fields => for_each (primary_field_check payload) fields
  end.

(** ** Payload validators *)
Definition OUTCOME_FIELDS :=
  ["ontology_schema_version"; "operator_id"; "evidence_mode"; "subject_id"; "description";
   "metric"; "value"; "unit"; "window_start";
   "window_end"; "source_class"; "attribution_status"; "observed_at"; "source_refs";
   "consent_grant_id"; "attributes"].

Definition _validate_outcome (payload provenance : obj) : res obj :=
  _assert_closed payload OUTCOME_FIELDS ;;
  v ← item "ontology_schema_version" payload;
  raise_if (negb (str_is v ONTOLOGY_SCHEMA_VERSION))
    (ValidationError "unsupported ontology_schema_version") ;;
  v ← item "operator_id" payload; require_urn v (Some "operator") "URN" ;;
  v ← item "evidence_mode" payload;
  raise_if (negb (str_is v "observed"))
    (ValidationError "Outcome must use evidence_mode=observed") ;;
  v ← item "subject_id" payload; require_urn v None "URN" ;;
  v ← item "description" payload; world_text v "description" ;;
  v ← item "metric" payload; world_text v "metric" ;;
  v ← item "value" payload; raise_if (is_null v) (ValidationError "value cannot be null") ;;
  v ← item "unit" payload; world_text v "unit" ;;
  v ← item "window_start" payload; start ← world_time v "window_start";
  v ← item "window_end" payload; finish ← world_time v "window_end";
  raise_if (before finish start) (ValidationError "outcome window_end precedes window_start") ;;
  member_check "source_class" payload OBSERVATION_SOURCE_CLASSES
    "unsupported outcome source_class" ;;
  member_check "attribution_status" payload ATTRIBUTION_STATUSES
    "unsupported attribution_status" ;;
  v ← item "observed_at" payload; world_time v "observed_at" ;;
  v ← item "source_refs" payload; _sources v ;;
  v ← item "consent_grant_id" payload; require_urn v (Some "consentgrant") "URN" ;;
  world_object "attributes" payload ;;
  _validate_world_provenance "observed" provenance ;;
  Ok payload.

Definition WORLD_OBSERVATION_FIELDS :=
  ["evidence_mode"; "subject_id"; "source_class"; "observed_at"; "window_start";
   "window_end"; "metric"; "value"; "unit"; "source_refs"; "consent_grant_id"; "attributes"].

(** The module also defines an observation validator of its own, which its
    dispatcher does not call. *)
Definition world_validate_observation (payload provenance : obj) : res obj :=
  _assert_closed payload WORLD_OBSERVATION_FIELDS ;;
  v ← item "evidence_mode" payload;
  raise_if (negb (str_is v "observed"))
    (ValidationError "Observation must use evidence_mode=observed") ;;
  v ← item "subject_id" payload; require_urn v None "URN" ;;
  member_check "source_class" payload OBSERVATION_SOURCE_CLASSES
    "unsupported observation source_class" ;;
  v ← item "observed_at" payload; world_time v "observed_at" ;;
  v ← item "window_start" payload; start ← world_time v "window_start";
  v ← item "window_end" payload; finish ← world_time v "window_end";
  raise_if (before finish start)
    (ValidationError "observation window_end precedes window_start") ;;
  v ← item "metric" payload; world_text v "metric" ;;
  v ← item "value" payload; raise_if (is_null v) (ValidationError "value cannot be null") ;;
  v ← item "unit" payload; world_text v "unit" ;;
  v ← item "source_refs" payload; _sources v ;;
  v ← item "consent_grant_id" payload; require_urn v (Some "consentgrant") "URN" ;;
  world_object "attributes" payload ;;
  _validate_world_provenance "observed" provenance ;;
  Ok payload.

Definition validate_business_record (node_type : string) (payload provenance : obj) : res obj :=
  match assoc node_type _PRIMARY_FIELDS with
  | None => Err (KeyError node_type)
  | Some primary =>
      _assert_closed payload (_BUSINESS_COMMON ++ primary) ;;
      let required_mode :=
        if mem node_type DECLARED_BUSINESS_TYPES then "declared" else "observed" in
      mode ← item "evidence_mode" payload;
      raise_if (negb (str_is mode required_mode))
        (ValidationError (node_type +:+ " must use evidence_mode=" +:+ required_mode)) ;;
      v ← item "effective_at" payload; world_time v "effective_at" ;;
      v ← item "source_refs" payload; _sources v ;;
      world_object "attributes" payload ;;
      _validate_primary_fields node_type payload ;;
      _validate_world_provenance required_mode provenance ;;
      Ok payload
  end.

Definition validate_world_payload (node_type : string) (payload provenance : json) : res obj :=
  raise_if (negb (mem node_type WORLD_NODE_TYPES))
    (ValidationError "unsupported world node type") ;;
  let bad := ValidationError "world payload and provenance must be objects" in
  m ← as_obj payload bad;
  p ← as_obj provenance bad;
  if String.eqb node_type "Observation" then
    _validate_world_provenance "observed" p ;;
    validate_operator_payload "Observation" payload
  else if String.eqb node_type "Outcome" then _validate_outcome m p
  else validate_business_record node_type m p.

(** ** Relations *)
Definition OBSERVED_EVIDENCE := GENERAL_EVIDENCE_TYPES ++ OBSERVED_BUSINESS_TYPES.

Definition RELATION_SIGNATURES : list (string * (list string * list string)) :=
  [("targets", (["Offer"; "Claim"; "Intervention"], ["Customer"; "Segment"]));
   ("experiences", (["Customer"; "Segment"], ["Problem"]));
   ("desires", (["Customer"; "Segment"], ["Desire"]));
   ("occurs_in", (["Problem"; "Desire"], ["Situation"]));
   ("promises", (["Claim"; "Offer"], ["Promise"]));
   ("expects", (["Promise"; "Offer"], ["Expectation"]));
   ("requires", (["Expectation"; "Mechanism"; "Offer"], ["RequiredBehavior"]));
   ("supported_by", (["Claim"; "Promise"; "Mechanism"], ["Proof"]));
   ("delivered_through", (["Offer"; "Intervention"], ["Channel"]));
   ("priced_as", (["Offer"], ["Price"]));
   ("purchased_via", (["Purchase"], ["Offer"; "Channel"]));
   ("used", (["Usage"], ["Offer"; "Mechanism"; "Intervention"]));
   ("produced", (["Usage"; "SupportAction"; "Intervention"], ["Result"; "Outcome"]));
   ("refunded_because", (["Refund"], ["Problem"; "Objection"; "Outcome"]));
   ("retained_by", (["Retention"], ["Offer"; "SupportAction"; "Result"; "Outcome"]));
   ("referred_by", (["Referral"], ["Customer"; "Retention"; "Result"; "Outcome"]));
   ("observes", (["Observation"], set_diff WORLD_NODE_TYPES ["Observation"]));
   ("tested_by", (DECLARED_BUSINESS_TYPES, OBSERVED_EVIDENCE));
   ("confirms", (OBSERVED_EVIDENCE, DECLARED_BUSINESS_TYPES));
   ("weakens", (OBSERVED_EVIDENCE, DECLARED_BUSINESS_TYPES));
   ("contradicts", (OBSERVED_EVIDENCE, DECLARED_BUSINESS_TYPES));
   ("extends", (OBSERVED_EVIDENCE, DECLARED_BUSINESS_TYPES))].

Definition RELATION_PAYLOAD_FIELDS := ["evidence_mode"; "why"; "evidence_ids"; "attributes"].

Definition validate_world_relation (source_type relation target_type : string)
    (payload provenance : json) : res obj :=
  match assoc relation RELATION_SIGNATURES with
  | None => Err (ValidationError "unsupported world relation")
  | Some (sources, targets) =>
      raise_if (negb (mem source_type sources) || negb (mem target_type targets))
        (ValidationError ("invalid endpoint signature for " +:+ relation)) ;;
      let bad := ValidationError "relation payload and provenance must be objects" in
      m ← as_obj payload bad;
      p ← as_obj provenance bad;
      _assert_closed m RELATION_PAYLOAD_FIELDS ;;
      mode ← item "evidence_mode" m;
      let required_mode :=
        if mem source_type (OBSERVED_BUSINESS_TYPES ++ GENERAL_EVIDENCE_TYPES)
        then "observed" else "declared" in
      raise_if (negb (str_is mode required_mode))
        (ValidationError (relation +:+ " from " +:+ source_type +:+
                          " requires evidence_mode=" +:+ required_mode)) ;;
      v ← item "why" m; world_text v "why" ;;
      v ← item "evidence_ids" m; _sources v ;;
      world_object "attributes" m ;;
      _validate_world_provenance required_mode p ;;
      Ok m
  end.

(** ** Every accepted payload is returned as given *)
Lemma validate_world_payload_returns t m p :
  returns m (validate_world_payload t (JObj m) p).
Proof.
  unfold validate_world_payload, _validate_outcome, validate_business_record.
  apply returns_bind; intros _ _. apply returns_bind; intros ? [= ->].
  apply returns_bind; intros pm Hp. apply returns_if.
  - apply returns_bind; intros _ _. apply validate_operator_payload_returns.
  - returns_input.
Qed.

(** ** Declared and observed provenance under the shared contract

    [_validate_world_provenance] asks inferred observations for the tier
    [observed_candidate]; the provenance contract gives inferred material the
    tier [inferred_candidate], so the two together leave extracted and
    ratified observations. *)
Lemma world_provenance_observed p s tier cls a ev mo ra u :
  provenance_spec p s tier cls a ev mo ra →
  _validate_world_provenance "observed" p = Ok u → s = "extracted" ∨ s = "ratified".
Proof.
  intros [_ Hs Ht _ _ _ _ _ _ Hr] H. unfold _validate_world_provenance, get in H.
  rewrite Hs, Ht in H. simpl in H.
  destruct Hr as [|????? |? ? ? ?|]; simpl in H; try discriminate; auto.
Qed.

Lemma world_provenance_declared p s tier cls a ev mo ra u :
  provenance_spec p s tier cls a ev mo ra →
  _validate_world_provenance "declared" p = Ok u →
  cls = "operator" ∧ (s = "captured" ∨ s = "ratified").
Proof.
  intros [_ Hs _ [Hc _] _ _ _ _ _ Hr] H. unfold _validate_world_provenance, get in H.
  rewrite Hs, Hc in H. simpl in H.
  destruct (String.eqb_spec cls "operator") as [->|]; [|done].
  split; [done|]. destruct Hr as [|????? |? ? ? ?|]; simpl in H; try discriminate; auto.
Qed.

Definition mode_of (t : string) : string :=
  if mem t DECLARED_BUSINESS_TYPES then "declared" else "observed".

Lemma world_payload_provenance t m p r :
  validate_world_payload t (JObj m) (JObj p) = Ok r →
  _validate_world_provenance (mode_of t) p = Ok tt.
Proof.
  unfold validate_world_payload. intros H. inv_contract.
  destruct (String.eqb_spec t "Observation") as [->|].
  { inv_ok. by match goal with H : _validate_world_provenance _ _ = Ok ?u |- _ => destruct u end. }
  destruct (String.eqb_spec t "Outcome") as [->|].
  { unfold _validate_outcome in H. repeat inv_ok1.
    by match goal with H : _validate_world_provenance _ _ = Ok ?u |- _ => destruct u end. }
  unfold validate_business_record in H. destruct (assoc t _PRIMARY_FIELDS); [|discriminate].
  repeat inv_ok1.
  by match goal with H : _validate_world_provenance _ _ = Ok ?u |- _ => destruct u end.
Qed.

Lemma world_relation_provenance s rel t m p r :
  validate_world_relation s rel t (JObj m) (JObj p) = Ok r →
  _validate_world_provenance
    (if mem s (OBSERVED_BUSINESS_TYPES ++ GENERAL_EVIDENCE_TYPES) then "observed" else "declared") p
  = Ok tt ∧ assoc "evidence_mode" m =
    Some (JStr (if mem s (OBSERVED_BUSINESS_TYPES ++ GENERAL_EVIDENCE_TYPES) then "observed"
                else "declared")).
Proof.
  unfold validate_world_relation. intros H.
  destruct (assoc rel RELATION_SIGNATURES) as [[]|]; [|discriminate].
  inv_contract. bool_hyps.
  match goal with H : str_is _ _ = true |- _ => apply str_is_true in H as -> end.
  match goal with H : _validate_world_provenance _ _ = Ok ?u |- _ => destruct u end. done.
Qed.

(** ** What the validators raise *)
Lemma errs_world_time v f : errs contract_error (world_time v f).
Proof. unfold world_time. errs_walk. Qed.

Lemma errs_world_text v f : errs contract_error (world_text v f).
Proof. unfold world_text. errs_walk. Qed.

Lemma errs_sources v : errs contract_error (_sources v).
Proof. unfold _sources. errs_walk. Qed.

Lemma errs_number v f : errs contract_error (_number v f).
Proof.
  unfold _number. apply errs_bind; [errs_walk|]. intros ? H%raise_if_Ok. bool_hyps.
  by apply errs_to_float.
Qed.

Lemma errs_closed m l : errs contract_error (_assert_closed m l).
Proof.
  unfold _assert_closed.
  destruct (set_diff l (keys m)), (set_diff (keys m) l); auto using errs_Ok, errs_Err with errs.
Qed.

Lemma errs_world_provenance s p : errs contract_error (_validate_world_provenance s p).
Proof. unfold _validate_world_provenance. errs_walk. Qed.

Lemma errs_world_object k m : In k (keys m) → errs contract_error (world_object k m).
Proof. intros. unfold world_object. errs_walk. Qed.
#[export] Hint Resolve errs_world_time errs_world_text errs_sources errs_number errs_closed
  errs_world_provenance errs_operator_payload : errs.
#[export] Hint Extern 2 (errs _ (world_object _ _)) => (apply errs_world_object; errs_key) : errs.

Lemma assert_closed_Ok m l u : _assert_closed m l = Ok u ↔ ∀ x, In x (keys m) ↔ In x l.
Proof.
  unfold _assert_closed. rewrite <- set_eq_In. unfold set_eq.
  rewrite andb_true_iff, <- !set_diff_nil. destruct u.
  destruct (set_diff l (keys m)), (set_diff (keys m) l); naive_solver.
Qed.

Ltac world_walk :=
  repeat (errs_step; try match goal with H : _assert_closed ?m _ = Ok _ |- _ =>
    rewrite assert_closed_Ok in H end).

Lemma errs_primary_field m k : In k (keys m) → errs contract_error (primary_field_check m k).
Proof. intros. unfold primary_field_check. world_walk. Qed.

Lemma errs_business_record t m p :
  In t (keys _PRIMARY_FIELDS) → errs contract_error (validate_business_record t m p).
Proof.
  intros [fs Hfs]%mem_In%assoc_mem. unfold validate_business_record, _validate_primary_fields.
  rewrite Hfs. apply errs_bind; [apply errs_closed|]. intros u Hm.
  rewrite assert_closed_Ok in Hm.
  assert (∀ k, In k _BUSINESS_COMMON ∨ In k fs → In k (keys m)) as Hk.
  { intros k Hk. apply Hm, in_app_iff. tauto. }
  assert (∀ k, mem k _BUSINESS_COMMON = true → In k (keys m)) as Hc.
  { intros k H%mem_In. auto. }
  assert (errs contract_error (for_each (primary_field_check m) fs)).
  { assert (Forall (λ k, In k (keys m)) fs) as Hall
      by (apply List.Forall_forall; auto).
    clear -Hall. induction Hall; simpl; [done|].
    apply errs_bind; [by apply errs_primary_field|done]. }
  unfold world_object. clear Hm. world_walk;
    first [assumption|apply errs_item, Hc; reflexivity].
Qed.

Lemma errs_world_payload t v p : errs contract_error (validate_world_payload t v p).
Proof.
  unfold validate_world_payload. apply errs_bind; [errs_walk|]. intros ? Ht%raise_if_Ok.
  apply negb_false_iff, mem_In in Ht.
  apply errs_bind; [errs_walk|]. intros m _. apply errs_bind; [errs_walk|]. intros q _.
  destruct (String.eqb_spec t "Observation") as [_|Ho]; [errs_walk|].
  destruct (String.eqb_spec t "Outcome") as [_|Hu].
  - unfold _validate_outcome. world_walk.
  - apply errs_business_record. unfold WORLD_NODE_TYPES in Ht. rewrite !in_app_iff in Ht.
    simpl in *. naive_solver.
Qed.

Lemma errs_world_relation s r t v p :
  In r (keys RELATION_SIGNATURES) → errs contract_error (validate_world_relation s r t v p).
Proof.
  intros [[a b] E]%mem_In%assoc_mem. unfold validate_world_relation. rewrite E. world_walk.
Qed.
