(* ===== verification/Ontology.v ===== *)
(** * Node and relation contracts (second half of [ontology/contracts.py])

    The closed registries of node and relation types, the dispatch of a node's
    payload to its validator, and the two contracts that every semantic write
    goes through. *)
From S2P Require Import Prelude PyTime Urn Contracts Judgment Operator World.

Definition KNOWLEDGE_NODE_TYPES := ["Principle"; "Belief"; "Value"; "Rule"; "Domain"].
Definition JUDGMENT_NODE_TYPES :=
  ["Case"; "Verdict"; "Call"; "Alternative"; "Pattern"] ++ KNOWLEDGE_NODE_TYPES.
Definition GENERAL_NODE_TYPES := ["Outcome"; "CalibrationTrial"].
Definition NODE_TYPES :=
  JUDGMENT_NODE_TYPES ++ GENERAL_NODE_TYPES ++ OPERATOR_NODE_TYPES ++ WORLD_NODE_TYPES.

(** ** The relation registry

    [None] stands for any registered node type. *)
Abbreviation endpoint := (option (list string)).
Abbreviation signature := (endpoint * endpoint)%type.

Definition DERIVED_KNOWLEDGE := set_diff KNOWLEDGE_NODE_TYPES ["Domain"].

Definition JUDGMENT_RELATIONS : list (string * signature) :=
  [("verdict_about_case", (Some ["Verdict"], Some ["Case"]));
   ("made_call", (Some ["Verdict"], Some ["Call"]));
   ("supported_by", (Some ["Verdict"], Some ["Evidence"]));
   ("chose_alternative", (Some ["Verdict"], Some ["Alternative"]));
   ("rejected_alternative", (Some ["Verdict"], Some ["Alternative"]));
   ("rendered_in", (Some ["Verdict"], Some ["Case"]));
   ("makes_call", (Some ["Verdict"], Some ["Call"]));
   ("chose", (Some ["Verdict"], Some ["Alternative"]));
   ("rejected", (Some ["Verdict"], Some ["Alternative"]));
   ("derived_from", (Some ["Pattern"], Some ["Case"]));
   ("expressed", (Some ["Verdict"], Some DERIVED_KNOWLEDGE));
   ("protects", (Some ["Principle"; "Rule"], Some ["Value"]));
   ("depends_on", (Some DERIVED_KNOWLEDGE, Some KNOWLEDGE_NODE_TYPES));
   ("extracted_from", (Some DERIVED_KNOWLEDGE, Some ["Case"; "Verdict"]));
   ("inferred_from", (Some DERIVED_KNOWLEDGE, Some ["Case"; "Verdict"; "Pattern"]));
   ("similar_to", (Some KNOWLEDGE_NODE_TYPES, Some KNOWLEDGE_NODE_TYPES));
   ("led_to", (Some ["Verdict"; "Case"], Some ["Outcome"]));
   ("tested_by", (Some ["Pattern"], Some ["CalibrationTrial"]));
   ("resolved_by", (Some ["CalibrationTrial"], Some ["Outcome"]));
   ("supports", (None, None));
   ("weakens", (None, None));
   ("contradicts", (None, None));
   ("supersedes", (None, None));
   ("authorized_by", (Some ["Observation"; "Outcome"], Some ["ConsentGrant"]));
   ("proposal_succeeded_by", (Some ["Proposal"], Some NODE_TYPES))].

Definition merge_endpoint (old new : endpoint) : endpoint :=
  match old, new with
  | Some a, Some b => Some (a ++ b)
  | _, _ => None
  end.

(** The loop that folds the world signatures into the registry. *)
Definition merge_signature (registry : list (string * signature))
    (entry : string * (list string * list string)) : list (string * signature) :=
  let '(relation, (sources, targets)) := entry in
  match assoc relation registry with
  | None => set_item relation (Some sources, Some targets) registry
  | Some (old_sources, old_targets) =>
      set_item relation (merge_endpoint old_sources (Some sources),
                         merge_endpoint old_targets (Some targets)) registry
  end.

Definition RELATION_REGISTRY : list (string * signature) :=
  fold_left merge_signature RELATION_SIGNATURES JUDGMENT_RELATIONS.

Definition endpoint_allows (e : endpoint) (node_type : string) : bool :=
  match e with None => true | Some l => mem node_type l end.

Definition _NODE_FIELDS :=
  ["record_schema_version"; "node_id"; "node_type"; "operator_id"; "payload"; "provenance"].
Definition _RELATION_FIELDS :=
  ["record_schema_version"; "relation_id"; "relation_type"; "source_id"; "source_type";
   "target_id"; "target_type"; "operator_id"; "evidence_mode"; "why"; "provenance"].
Definition _EVIDENCE_MODES :=
  ["captured"; "extracted"; "declared"; "observed"; "inferred"; "ratified"].

(** [s.replace("trial", "_trial")] *)
Fixpoint replace_trial (s : string) : string :=
  match s with
  | EmptyString => EmptyString
  | String "t" (String "r" (String "i" (String "a" (String "l" r)))) =>
      "_trial" +:+ replace_trial r
  | String a r => String a (replace_trial r)
  end.

(** [node_type.lower().replace("trial", "_trial")] *)
Definition node_kind (node_type : string) : string := replace_trial (lower node_type).

(** ** Dispatch *)
Definition validate_node_payload (node_type : string) (payload : json) (provenance : obj) : res obj :=
  if mem node_type (JUDGMENT_NODE_TYPES ++ ["CalibrationTrial"])
  then validate_payload node_type payload provenance
  else if String.eqb node_type "Outcome"
  then validate_world_payload node_type payload (JObj provenance)
  else if String.eqb node_type "Observation"
  then validate_operator_payload node_type payload
  else if mem node_type OPERATOR_NODE_TYPES
  then validate_operator_payload node_type payload
  else if mem node_type WORLD_NODE_TYPES
  then validate_world_payload node_type payload (JObj provenance)
  else Err (ValidationError "unsupported ontology node_type").

(** [v in registry], then the key as a string. *)
Definition registered (v : json) (names : list string) (e : exn) : res string :=
  b ← not_in_set v names;
  raise_if b e ;;
  match v with JStr s => Ok s | _ => Err e end.

(** Captured and ratified authority belongs to the contract's operator. *)
Definition authority_owner_check (provenance value : obj) (e : exn) : res unit :=
  status ← item "status" provenance;
  actor ← item "actor_id" provenance;
  operator ← item "operator_id" value;
  raise_if ((str_is status "captured" || str_is status "ratified") && negb (py_eq actor operator)) e.

Definition allowed_reviews : list (string * list string) :=
  [("inferred", ["proposed"; "deferred"; "rejected"]); ("ratified", ["confirmed"; "corrected"])].

Definition self_model_check (payload provenance : obj) : res unit :=
  p ← item "provenance" payload;
  inner ← as_obj p TypeError;
  inner_status ← item "status" inner;
  status ← item "status" provenance;
  raise_if (negb (py_eq inner_status status))
    (ValidationError "self-model payload provenance must match outer semantic provenance") ;;
  let conflict := ValidationError "self-model review state conflicts with semantic authority" in
  name ← registered status (keys allowed_reviews) conflict;
  review ← item "review_state" payload;
  b ← not_in_set review (match assoc name allowed_reviews with Some l => l | None => [] end);
  raise_if b conflict.

Definition payload_operator_check (payload value : obj) : res unit :=
  if has_key "operator_id" payload then
    inner ← item "operator_id" payload;
    outer ← item "operator_id" value;
    raise_if (negb (py_eq inner outer))
      (ValidationError "payload operator_id must match the semantic node operator_id")
  else Ok tt.

Definition validate_node_contract (value : json) : res obj :=
  m ← as_obj value (ValidationError "node contract must be an object");
  require_exact_fields m _NODE_FIELDS "node" ;;
  version ← item "record_schema_version" m;
  raise_if (negb (str_is version ONTOLOGY_SCHEMA_VERSION))
    (ValidationError "unsupported ontology schema version") ;;
  v ← item "node_type" m;
  node_type ← registered v NODE_TYPES (ValidationError "unsupported ontology node_type");
  v ← item "node_id" m; require_urn v (Some (node_kind node_type)) "node_id" ;;
  v ← item "operator_id" m; require_urn v (Some "operator") "operator_id" ;;
  v ← item "provenance" m; provenance ← validate_provenance_contract v;
  authority_owner_check provenance m
    (ValidationError "captured or ratified semantic authority must belong to the contract operator") ;;
  raw ← item "payload" m;
  raise_if (negb (is_obj raw)) (ValidationError "payload must be an object") ;;
  payload ← validate_node_payload node_type raw provenance;
  payload_operator_check payload m ;;
  (if mem node_type ["SelfModelAssertion"; "InterventionRule"]
   then self_model_check payload provenance else Ok tt) ;;
  Ok (set_item "provenance" (JObj provenance) (set_item "payload" (JObj payload) m)).

(** ** Relations *)
Definition allowed_statuses : list (string * list string) :=
  [("captured", ["captured"]); ("extracted", ["extracted"]);
   ("declared", ["captured"; "ratified"]);
   ("observed", ["extracted"; "inferred"; "ratified"]);
   ("inferred", ["inferred"; "ratified"]); ("ratified", ["ratified"])].

Definition endpoint_check (relation_type source_type target_type : string) : res unit :=
  match assoc relation_type RELATION_REGISTRY with
  | None => Err (KeyError relation_type)
  | Some (allowed_sources, allowed_targets) =>
      raise_if (negb (endpoint_allows allowed_sources source_type))
        (ValidationError "relation source_type is invalid") ;;
      raise_if (negb (endpoint_allows allowed_targets target_type))
        (ValidationError "relation target_type is invalid")
  end.

Definition relation_status_check (relation_type mode : string) (provenance : obj) : res unit :=
  status ← item "status" provenance;
  raise_if (String.eqb relation_type "extracted_from" && negb (str_is status "extracted"))
    (ValidationError "extracted_from requires extracted provenance") ;;
  raise_if (String.eqb relation_type "inferred_from" &&
            negb (str_is status "inferred" || str_is status "ratified"))
    (ValidationError "inferred_from requires inferred or operator-ratified provenance").

Definition similar_check (relation_type source_type target_type : string) (m : obj) : res unit :=
  if String.eqb relation_type "similar_to" then
    raise_if (negb (String.eqb source_type target_type))
      (ValidationError "similar_to endpoints must have the same node type") ;;
    source ← item "source_id" m; target ← item "target_id" m;
    raise_if (py_eq source target) (ValidationError "similar_to cannot relate a node to itself")
  else Ok tt.

Definition world_relation_check (relation_type source_type target_type : string)
    (m provenance : obj) : res unit :=
  match assoc relation_type RELATION_SIGNATURES with
  | Some (sources, targets) =>
      if mem source_type sources && mem target_type targets then
        mode ← item "evidence_mode" m;
        why ← item "why" m;
        evidence ← item "evidence_ids" provenance;
        validate_world_relation source_type relation_type target_type
          (JObj [("evidence_mode", mode); ("why", why); ("evidence_ids", evidence);
                 ("attributes", JObj [])])
          (JObj provenance) ;;
        Ok tt
      else Ok tt
  | None => Ok tt
  end.

Definition validate_relation_contract (value : json) : res obj :=
  m ← as_obj value (ValidationError "relation contract must be an object");
  require_exact_fields m _RELATION_FIELDS "relation" ;;
  version ← item "record_schema_version" m;
  raise_if (negb (str_is version ONTOLOGY_SCHEMA_VERSION))
    (ValidationError "unsupported ontology schema version") ;;
  v ← item "relation_type" m;
  relation_type ← registered v (keys RELATION_REGISTRY)
    (ValidationError "unsupported ontology relation_type");
  let endpoints := ValidationError "relation endpoints must use registered node types" in
  v ← item "source_type" m; source_type ← registered v NODE_TYPES endpoints;
  v ← item "target_type" m; target_type ← registered v NODE_TYPES endpoints;
  endpoint_check relation_type source_type target_type ;;
  v ← item "relation_id" m; require_urn v (Some "relation") "relation_id" ;;
  v ← item "source_id" m; require_urn v (Some (node_kind source_type)) "source_id" ;;
  v ← item "target_id" m; require_urn v (Some (node_kind target_type)) "target_id" ;;
  v ← item "operator_id" m; require_urn v (Some "operator") "operator_id" ;;
  v ← item "evidence_mode" m;
  mode ← registered v _EVIDENCE_MODES (ValidationError "unsupported relation evidence_mode");
  v ← item "why" m; require_text v "why" false ;;
  v ← item "provenance" m; provenance ← validate_provenance_contract v;
  authority_owner_check provenance m
    (ValidationError "captured or ratified relation authority must belong to the contract operator") ;;
  evidence ← item "evidence_ids" provenance;
  raise_if (negb (truthy evidence)) (ValidationError "relations require provenance evidence") ;;
  relation_status_check relation_type mode provenance ;;
  similar_check relation_type source_type target_type m ;;
  status ← item "status" provenance;
  b ← not_in_set status (match assoc mode allowed_statuses with Some l => l | None => [] end);
  raise_if b (ValidationError "relation evidence_mode conflicts with provenance status") ;;
  world_relation_check relation_type source_type target_type m provenance ;;
  Ok (set_item "provenance" (JObj provenance) m).

Lemma validate_node_payload_returns t m p :
  returns m (validate_node_payload t (JObj m) p).
Proof.
  unfold validate_node_payload.
  repeat apply returns_if;
    auto using returns_Err, validate_payload_returns, validate_operator_payload_returns,
      validate_world_payload_returns.
Qed.

Lemma registered_Ok v names e s : registered v names e = Ok s ↔ v = JStr s ∧ In s names.
Proof.
  unfold registered. split.
  - intros H. inv_contract. done.
  - intros [-> Hs%mem_In]. unfold not_in_set, in_set. simpl. by rewrite Hs.
Qed.

Definition self_model_types := ["SelfModelAssertion"; "InterventionRule"].

Record node_spec (m : obj) (t op : string) (p payload : obj) : Prop := {
  ns_fields : ∀ x, In x (keys m) ↔ In x _NODE_FIELDS;
  ns_version : assoc "record_schema_version" m = Some (JStr ONTOLOGY_SCHEMA_VERSION);
  ns_type : assoc "node_type" m = Some (JStr t) ∧ In t NODE_TYPES;
  ns_id : ∃ id, assoc "node_id" m = Some (JStr id) ∧ is_urn (Some (node_kind t)) id;
  ns_operator : assoc "operator_id" m = Some (JStr op) ∧ is_urn (Some "operator") op;
  ns_provenance : assoc "provenance" m = Some (JObj p) ∧ validate_provenance_contract (JObj p) = Ok p;
  ns_owner : ∀ s, assoc "status" p = Some (JStr s) → s = "captured" ∨ s = "ratified" →
             assoc "actor_id" p = Some (JStr op);
  ns_payload : assoc "payload" m = Some (JObj payload) ∧
               validate_node_payload t (JObj payload) p = Ok payload;
  ns_payload_operator : ∀ v, assoc "operator_id" payload = Some v → v = JStr op;
  ns_self_model : In t self_model_types →
    ∃ inner s review, assoc "provenance" payload = Some (JObj inner) ∧
      assoc "status" inner = Some (JStr s) ∧ assoc "status" p = Some (JStr s) ∧
      assoc "review_state" payload = Some (JStr review) ∧
      ∃ allowed, assoc s allowed_reviews = Some allowed ∧ In review allowed
}.

Lemma authority_owner_check_Ok p m e u status actor op :
  assoc "status" p = Some (JStr status) → assoc "actor_id" p = Some (JStr actor) →
  assoc "operator_id" m = Some (JStr op) →
  authority_owner_check p m e = Ok u ↔
  (status = "captured" ∨ status = "ratified" → actor = op).
Proof.
  intros Hs Ha Ho. destruct u. unfold authority_owner_check, item. rewrite Hs, Ha, Ho. simpl.
  rewrite raise_if_Ok, andb_false_iff, orb_false_iff, negb_false_iff, !String.eqb_eq, !String.eqb_neq.
  destruct (String.eqb_spec actor op); naive_solver.
Qed.

Lemma payload_operator_check_Ok payload m u op :
  assoc "operator_id" m = Some (JStr op) →
  payload_operator_check payload m = Ok u ↔
  ∀ v, assoc "operator_id" payload = Some v → v = JStr op.
Proof.
  intros Ho. destruct u. unfold payload_operator_check, has_key.
  destruct (assoc "operator_id" payload) as [v|] eqn:E.
  - rewrite (proj2 (assoc_mem _ _)) by eauto. unfold item. rewrite E, Ho. cbn [mbind res_bind].
    rewrite raise_if_Ok, negb_false_iff, py_eq_str. naive_solver.
  - apply assoc_None in E as ->. naive_solver.
Qed.

Lemma self_model_check_Ok payload p u s :
  assoc "status" p = Some (JStr s) →
  self_model_check payload p = Ok u ↔
  ∃ inner review, assoc "provenance" payload = Some (JObj inner) ∧
    assoc "status" inner = Some (JStr s) ∧
    assoc "review_state" payload = Some (JStr review) ∧
    ∃ allowed, assoc s allowed_reviews = Some allowed ∧ In review allowed.
Proof.
  intros Hs. destruct u. unfold self_model_check. split.
  - intros H. inv_contract. bool_hyps.
    match goal with H : registered _ _ _ = _ |- _ => apply registered_Ok in H as [? Hin] end.
    simplify_eq. apply mem_In, assoc_mem in Hin as [l Hl]. rewrite Hl in *.
    rewrite py_eq_str in *. subst. eauto 10.
  - intros (inner & review & Hp & Hi & Hr & l & Hl & Hin). unfold item.
    rewrite Hp. cbn [mbind res_bind as_obj]. rewrite Hi, Hs, Hr. cbn [mbind res_bind].
    rewrite (proj2 (py_eq_str (JStr s) s) eq_refl). cbn [mbind res_bind raise_if negb].
    rewrite (proj2 (registered_Ok (JStr s) _ _ s)); cycle 1.
    { split; [done|]. apply mem_In, assoc_mem. eauto. }
    cbn [mbind res_bind]. rewrite Hl. unfold not_in_set, in_set. simpl.
    by rewrite (proj2 (mem_In _ _) Hin).
Qed.

Lemma node_contract_intro m t op p payload :
  node_spec m t op p payload → validate_node_contract (JObj m) = Ok m.
Proof.
  intros [Hf Hv [Ht Htin] (id & Hid & Hidu) [Ho Hou] [Hp Hpv] Howner [Hpl Hplv] Hpo Hself].
  unfold validate_node_contract. cbn [mbind res_bind as_obj].
  rewrite (proj2 (require_exact_fields_Ok m _ _ tt) Hf). unfold item.
  rewrite Hv, Ht, Hid, Ho, Hp, Hpl. cbn [mbind res_bind].
  change (negb (str_is (JStr ONTOLOGY_SCHEMA_VERSION) ONTOLOGY_SCHEMA_VERSION)) with false.
  cbn [raise_if mbind res_bind].
  rewrite (proj2 (registered_Ok (JStr t) _ _ t)) by done. cbn [mbind res_bind].
  rewrite (proj2 (require_urn_Ok (JStr id) _ _ id)) by done. cbn [mbind res_bind].
  rewrite (proj2 (require_urn_Ok (JStr op) _ _ op)) by done. cbn [mbind res_bind].
  rewrite Hpv. cbn [mbind res_bind].
  destruct (validate_provenance_sound _ _ Hpv) as (_ & status & tier & cls & actor & ev & mo & ra & Hs).
  rewrite (proj2 (authority_owner_check_Ok p m _ tt status actor op
             (ps_status _ _ _ _ _ _ _ _ Hs) (proj1 (ps_actor _ _ _ _ _ _ _ _ Hs)) Ho)); cycle 1.
  { intros Hc. specialize (Howner _ (ps_status _ _ _ _ _ _ _ _ Hs) Hc).
    rewrite (proj1 (ps_actor _ _ _ _ _ _ _ _ Hs)) in Howner. by injection Howner. }
  cbn [mbind res_bind is_obj negb raise_if]. rewrite Hplv. cbn [mbind res_bind].
  rewrite (proj2 (payload_operator_check_Ok payload m tt op Ho) Hpo). cbn [mbind res_bind].
  assert ((if mem t ["SelfModelAssertion"; "InterventionRule"]
           then self_model_check payload p else Ok tt) = Ok tt) as ->.
  { destruct (mem t _) eqn:E; [|done]. apply mem_In in E.
    destruct (Hself E) as (inner & s & review & H1 & H2 & H3 & H4 & H5).
    rewrite (self_model_check_Ok payload p tt s H3). eauto 10. }
  cbn [mbind res_bind]. f_equal. rewrite (set_item_id "payload") by done. by apply set_item_id.
Qed.

Lemma node_contract_elim v r :
  validate_node_contract v = Ok r →
  v = JObj r ∧ ∃ t op p payload, node_spec r t op p payload.
Proof.
  intros H. unfold validate_node_contract in H. inv_contract.
  match goal with H : registered _ _ _ = _ |- _ => apply registered_Ok in H as [-> ?] end.
  match goal with
  | Hp : validate_provenance_contract ?v = Ok ?p, Hv : validate_node_payload _ ?w _ = Ok ?pl |- _ =>
      pose proof (validate_provenance_sound _ _ Hp) as (-> & s & ? & ? & actor & ? & ? & ? & Hs);
      destruct w as [| | | | | |w]; try discriminate;
      pose proof (validate_node_payload_returns _ _ _ _ Hv); subst w
  end.
  pose proof (ps_status _ _ _ _ _ _ _ _ Hs) as Hst.
  pose proof (proj1 (ps_actor _ _ _ _ _ _ _ _ Hs)) as Hac.
  rewrite (set_item_id "payload") by done. rewrite set_item_id by done.
  split; [done|]. do 4 eexists. constructor; eauto.
  - bool_hyps. by match goal with H : str_is _ _ = true |- _ => apply str_is_true in H as -> end.
  - intros s' Hs' Hc. rewrite Hst in Hs'. injection Hs' as <-.
    rewrite Hac. f_equal. f_equal.
    match goal with H : authority_owner_check _ _ _ = _ |- _ =>
      by apply (proj1 (authority_owner_check_Ok _ _ _ _ _ _ _ Hst Hac ltac:(eassumption)) H) end.
  - match goal with H : payload_operator_check _ _ = _ |- _ =>
      apply (proj1 (payload_operator_check_Ok _ _ _ _ ltac:(eassumption)) H) end.
  - intros Hin%mem_In.
    match goal with H : (if _ then _ else _) = _ |- _ =>
      unfold self_model_types in Hin; rewrite Hin in H;
      destruct (proj1 (self_model_check_Ok _ _ _ _ Hst) H) as (inner & rv & Hrest) end.
    exists inner, s, rv. naive_solver.
Qed.

(** ** What a relation contract guarantees *)
Record relation_spec (m : obj) (rel src tgt mode : string) (p : obj) : Prop := {
  rs_fields : ∀ x, In x (keys m) ↔ In x _RELATION_FIELDS;
  rs_type : assoc "relation_type" m = Some (JStr rel);
  rs_endpoints : assoc "source_type" m = Some (JStr src) ∧ assoc "target_type" m = Some (JStr tgt) ∧
                 In src NODE_TYPES ∧ In tgt NODE_TYPES;
  rs_signature : ∃ sources targets, assoc rel RELATION_REGISTRY = Some (sources, targets) ∧
                 endpoint_allows sources src = true ∧ endpoint_allows targets tgt = true;
  rs_ids : ∃ a b op, assoc "source_id" m = Some (JStr a) ∧ is_urn (Some (node_kind src)) a ∧
           assoc "target_id" m = Some (JStr b) ∧ is_urn (Some (node_kind tgt)) b ∧
           assoc "operator_id" m = Some (JStr op) ∧ is_urn (Some "operator") op ∧
           (rel = "similar_to" → src = tgt ∧ a ≠ b) ∧
           (∀ s, assoc "status" p = Some (JStr s) → s = "captured" ∨ s = "ratified" →
                 assoc "actor_id" p = Some (JStr op));
  rs_mode : assoc "evidence_mode" m = Some (JStr mode) ∧ In mode _EVIDENCE_MODES;
  rs_provenance : assoc "provenance" m = Some (JObj p) ∧ validate_provenance_contract (JObj p) = Ok p;
  rs_status : ∃ s allowed ev, assoc "status" p = Some (JStr s) ∧
              assoc mode allowed_statuses = Some allowed ∧ In s allowed ∧
              assoc "evidence_ids" p = Some (JList (map JStr ev)) ∧ ev ≠ [] ∧
              (rel = "extracted_from" → s = "extracted") ∧
              (rel = "inferred_from" → s = "inferred" ∨ s = "ratified");
  rs_world : world_relation_check rel src tgt m p = Ok tt
}.

Lemma endpoint_check_Ok rel src tgt u :
  endpoint_check rel src tgt = Ok u ↔
  ∃ sources targets, assoc rel RELATION_REGISTRY = Some (sources, targets) ∧
    endpoint_allows sources src = true ∧ endpoint_allows targets tgt = true.
Proof.
  unfold endpoint_check. destruct (assoc rel RELATION_REGISTRY) as [[a b]|]; [|naive_solver].
  destruct u. rewrite bind_Ok. setoid_rewrite raise_if_Ok. setoid_rewrite negb_false_iff.
  naive_solver.
Qed.

Lemma relation_status_check_sound rel mode p s u :
  assoc "status" p = Some (JStr s) → relation_status_check rel mode p = Ok u →
  (rel = "extracted_from" → s = "extracted") ∧
  (rel = "inferred_from" → s = "inferred" ∨ s = "ratified").
Proof.
  intros Hs H. unfold relation_status_check in H. inv_ok. split; intros ->; simpl in *; bool_hyps.
  - by apply String.eqb_eq.
  - rewrite <- !String.eqb_eq. by apply orb_true_iff.
Qed.

Lemma similar_check_sound rel src tgt m a b u :
  assoc "source_id" m = Some (JStr a) → assoc "target_id" m = Some (JStr b) →
  similar_check rel src tgt m = Ok u → rel = "similar_to" → src = tgt ∧ a ≠ b.
Proof.
  intros Ha Hb H ->. unfold similar_check in H. simpl in H. inv_ok. bool_hyps.
  split; [by apply String.eqb_eq|]. intros ->.
  match goal with H : py_eq _ _ = false |- _ => by apply py_eq_str_false in H end.
Qed.

#[local] Opaque RELATION_REGISTRY RELATION_SIGNATURES NODE_TYPES endpoint_check.

Lemma relation_contract_elim v r :
  validate_relation_contract v = Ok r →
  v = JObj r ∧ ∃ rel src tgt mode p, relation_spec r rel src tgt mode p.
Proof.
  intros H. unfold validate_relation_contract in H. inv_checks.
  repeat match goal with H : registered _ _ _ = _ |- _ => apply registered_Ok in H as [-> ?] end.
  match goal with Hp : validate_provenance_contract _ = Ok ?q |- _ =>
    pose proof (validate_provenance_sound _ _ Hp) as (-> & s & ? & ? & actor & ev & ? & ? & Hs);
    rename q into p; rename Hp into Hprov end.
  destruct Hs as [_ Hst _ _ [Hac _] _ (l & Hev & -> & _) _ _ _].
  rewrite set_item_id by done. split; [done|].
  match goal with H : assoc "status" p = Some (JStr ?t), H' : In ?t _ |- _ =>
    rewrite Hst in H; injection H as <-; rename H' into Hin end.
  match goal with H : assoc "evidence_ids" p = _ |- _ =>
    rewrite Hev in H; injection H as <- end.
  match goal with H : context [assoc ?k allowed_statuses] |- _ =>
    destruct (assoc k allowed_statuses) as [allowed|] eqn:Hallowed; [|destruct Hin] end.
  match goal with H : relation_status_check _ _ _ = _ |- _ =>
    destruct (relation_status_check_sound _ _ _ _ _ Hst H) end.
  match goal with H : endpoint_check _ _ _ = _ |- _ => apply endpoint_check_Ok in H end.
  do 5 eexists. constructor; eauto.
  - do 3 eexists. split_and!; try eassumption.
    { eapply similar_check_sound; eassumption. }
    intros t Ht Hc. rewrite Hst in Ht. injection Ht as <-. rewrite Hac. do 2 f_equal.
    eapply (authority_owner_check_Ok _ _ _ _ _ _ _ Hst Hac); eassumption.
  - exists s, allowed, ev. split_and!; try assumption.
    intros ->. match goal with H : negb (truthy _) = false |- _ => discriminate H end.
  - match goal with H : world_relation_check _ _ _ _ _ = Ok ?u |- _ => by destruct u end.
Qed.

(** ** What the contracts raise *)
Lemma errs_registered v l e : contract_error e → errs contract_error (registered v l e).
Proof. intros. unfold registered. errs_walk; by apply errs_Err || by apply errs_raise_if. Qed.

Lemma errs_node_payload t v p :
  In "status" (keys p) → In "actor_id" (keys p) →
  errs contract_error (validate_node_payload t v p).
Proof.
  intros. unfold validate_node_payload.
  repeat (apply errs_if; intros _);
    auto using errs_payload, errs_operator_payload, errs_world_payload, errs_Err with errs.
Qed.

Lemma errs_authority_owner p m e :
  In "status" (keys p) → In "actor_id" (keys p) → In "operator_id" (keys m) →
  contract_error e → errs contract_error (authority_owner_check p m e).
Proof. intros. unfold authority_owner_check. errs_walk. Qed.

Lemma provenance_keys p r k :
  validate_provenance_contract p = Ok r → In k PROVENANCE_FIELDS → In k (keys r).
Proof.
  intros (_ & s & ti & c & a & ev & mo & ra & [Hf _ _ _ _ _ _ _ _ _])%validate_provenance_sound Hk.
  by apply Hf.
Qed.

Lemma errs_self_model t m p payload :
  In t self_model_types → In "status" (keys p) →
  validate_node_payload t (JObj m) p = Ok payload → errs contract_error (self_model_check payload p).
Proof.
  intros Ht Hp Hv.
  assert (payload = m) as -> by (by eapply validate_node_payload_returns).
  assert (validate_operator_payload t (JObj m) = Ok m) as Ho.
  { simpl in Ht. destruct Ht as [<-|[<-|[]]]; exact Hv. }
  apply self_model_payload_review, review_check_sound in Ho; [|simpl in Ht; naive_solver].
  destruct Ho as (rv & inner & st & Hr & Hi & Hst & _).
  assert (∀ k v, assoc k m = Some v → In k (keys m)) as Hk.
  { intros k v E. apply mem_In, assoc_mem. eauto. }
  unfold self_model_check. apply errs_bind; [apply errs_item; eauto|]. intros x Hx.
  apply item_Ok in Hx. rewrite Hi in Hx. injection Hx as <-. simpl.
  apply errs_bind; [apply errs_item, mem_In, assoc_mem; eauto|]. intros.
  apply errs_bind; [by apply errs_item|]. intros. apply errs_bind; [errs_walk|]. intros.
  apply errs_bind; [apply errs_registered; auto with errs|]. intros.
  apply errs_bind; [apply errs_item; eauto|]. intros. errs_walk.
Qed.

Lemma errs_node_contract v : errs contract_error (validate_node_contract v).
Proof.
  unfold validate_node_contract. apply errs_bind; [errs_walk|]. intros m _.
  apply errs_bind; [errs_walk|]. intros ? Hm. rewrite require_exact_fields_Ok in Hm.
  do 2 (apply errs_bind; [errs_walk|]; intros ? ?).
  apply errs_bind; [errs_walk|]; intros ? ?.
  apply errs_bind; [apply errs_registered; auto with errs|]; intros t ?.
  do 4 (apply errs_bind; [errs_walk|]; intros ? ?).
  apply errs_bind; [errs_walk|]; intros pv ?.
  apply errs_bind; [errs_walk|]; intros p Hp.
  assert (∀ k, In k PROVENANCE_FIELDS → In k (keys p)) as Hk
    by (intros; by eapply provenance_keys).
  apply errs_bind; [apply errs_authority_owner; try errs_key; try (apply Hk; simpl; tauto);
                    auto with errs|]; intros ? _.
  apply errs_bind; [errs_walk|]; intros raw ?.
  apply errs_bind; [errs_walk|]; intros ? Hraw.
  apply errs_bind; [apply errs_node_payload; apply Hk; simpl; tauto|]; intros payload Hpl.
  apply errs_bind.
  { unfold payload_operator_check. apply errs_if; [|errs_walk]. intros Hin%mem_In. errs_walk. }
  intros ? _. apply errs_bind; [|intros; errs_walk].
  apply errs_if; [|errs_walk]. intros Ht%mem_In. inv_ok1. bool_hyps.
  destruct raw; try discriminate. eapply errs_self_model; eauto. apply Hk. simpl. tauto.
Qed.

#[local] Transparent endpoint_check.
Lemma errs_endpoint rel src tgt :
  In rel (keys RELATION_REGISTRY) → errs contract_error (endpoint_check rel src tgt).
Proof.
  intros [[a b] E]%mem_In%assoc_mem. unfold endpoint_check. rewrite E. errs_walk.
Qed.

#[local] Opaque endpoint_check.

Lemma errs_world_check rel src tgt m p :
  In "evidence_mode" (keys m) → In "why" (keys m) → In "evidence_ids" (keys p) →
  errs contract_error (world_relation_check rel src tgt m p).
Proof.
  intros. unfold world_relation_check.
  destruct (assoc rel RELATION_SIGNATURES) as [[a b]|] eqn:E; [|apply errs_Ok].
  apply errs_if; intros _; [|apply errs_Ok].
  do 3 (apply errs_bind; [by apply errs_item|]; intros ? _).
  apply errs_bind; [|done]. apply errs_world_relation, mem_In, assoc_mem. eauto.
Qed.

Lemma errs_relation_contract v : errs contract_error (validate_relation_contract v).
Proof.
  unfold validate_relation_contract. apply errs_bind; [errs_walk|]. intros m _.
  apply errs_bind; [errs_walk|]. intros ? Hm. rewrite require_exact_fields_Ok in Hm.
  do 3 (apply errs_bind; [errs_walk|]; intros ? ?).
  apply errs_bind; [apply errs_registered; auto with errs|]; intros rel Hrel.
  apply registered_Ok in Hrel as [_ Hrel].
  do 2 (apply errs_bind; [errs_walk|]; intros ? _;
        apply errs_bind; [apply errs_registered; auto with errs|]; intros ? _).
  apply errs_bind; [by apply errs_endpoint|]; intros ? _.
  do 9 (apply errs_bind; [errs_walk|]; intros ? _).
  apply errs_bind; [apply errs_registered; auto with errs|]; intros ? _.
  do 3 (apply errs_bind; [errs_walk|]; intros ? _).
  apply errs_bind; [errs_walk|]; intros p Hp.
  assert (∀ k, In k PROVENANCE_FIELDS → In k (keys p)) as Hk
    by (intros; by eapply provenance_keys).
  assert (In "status" (keys p)) by (apply Hk; simpl; tauto).
  apply errs_bind; [apply errs_authority_owner; try errs_key; try (apply Hk; simpl; tauto);
                    auto with errs|]; intros ? _.
  apply errs_bind; [apply errs_item, Hk; simpl; tauto|]; intros ? _.
  apply errs_bind; [errs_walk|]; intros ? _.
  apply errs_bind; [unfold relation_status_check; errs_walk|]; intros ? _.
  apply errs_bind; [unfold similar_check; errs_walk|]; intros ? _.
  do 3 (apply errs_bind; [errs_walk|]; intros ? _).
  apply errs_bind; [|intros; apply errs_Ok].
  apply errs_world_check; first [errs_key|apply Hk; simpl; tauto].
Qed.

(** ** Properties of the contracts *)

(** C30: The node contract is exactly its specification: a node is accepted,
    and returned unchanged, if and only if its fields, version, type, URNs,
    provenance and payload are valid, captured or ratified authority belongs
    to the node's operator, the payload names the same operator, and a
    self-model node's review state agrees with its status. *)
Theorem node_contract_iff v r :
  validate_node_contract v = Ok r ↔
  v = JObj r ∧ ∃ t op p payload, node_spec r t op p payload.
Proof.
  split; [apply node_contract_elim|].
  intros (-> & ? & ? & ? & ? & H). by eapply node_contract_intro.
Qed.

Lemma accepted_provenance v r :
  validate_node_contract v = Ok r →
  ∃ t op p payload, node_spec r t op p payload ∧ assoc "provenance" r = Some (JObj p) ∧
  ∃ s tier cls actor ev mo ra, provenance_spec p s tier cls actor ev mo ra ∧
  (s = "captured" ∨ s = "ratified" → actor = op).
Proof.
  intros (_ & t & op & p & payload & Hn)%node_contract_elim.
  exists t, op, p, payload. split_and!; [done|apply (ns_provenance _ _ _ _ _ Hn)|].
  destruct (validate_provenance_sound _ _ (proj2 (ns_provenance _ _ _ _ _ Hn)))
    as (_ & s & tier & cls & actor & ev & mo & ra & Hp).
  exists s, tier, cls, actor, ev, mo, ra. split; [done|]. intros Hc.
  pose proof (ns_owner _ _ _ _ _ Hn _ (ps_status _ _ _ _ _ _ _ _ Hp) Hc) as Ha.
  rewrite (proj1 (ps_actor _ _ _ _ _ _ _ _ Hp)) in Ha. by injection Ha.
Qed.

(** Nothing but the operator gains authority.  In an accepted node whose
    author is software, a model or an importer, the status is extracted or
    inferred, the tier is a candidate or imported one, there is evidence and
    no ratifier; captured and ratified tiers belong to the node's own
    operator. *)
Theorem node_authority_never_escalates v r :
  validate_node_contract v = Ok r →
  ∃ op p s tier cls actor ev mo ra,
    assoc "operator_id" r = Some (JStr op) ∧ assoc "provenance" r = Some (JObj p) ∧
    provenance_spec p s tier cls actor ev mo ra ∧
    (cls ≠ "operator" →
       In s ["extracted"; "inferred"] ∧
       In tier ["imported_floor"; "observed_candidate"; "inferred_candidate"] ∧
       ev ≠ [] ∧ ra = None) ∧
    (In tier ["captured_judgment"; "ratified_knowledge"] →
       cls = "operator" ∧ actor = op ∧ (tier = "ratified_knowledge" → ra = Some op)).
Proof.
  intros (t & op & p & payload & Hn & Hp & s & tier & cls & actor & ev & mo & ra & Hs & Ho)%accepted_provenance.
  exists op, p, s, tier, cls, actor, ev, mo, ra.
  split_and!; [apply (ns_operator _ _ _ _ _ Hn)|done|done|..];
    destruct (ps_rule _ _ _ _ _ _ _ _ Hs) as [|tier cls ev mo [-> | ->] ?|cls ev mo ? ?|];
    simpl in *; naive_solver.
Qed.

(** A self-model reading is never raw.  An accepted [SelfModelAssertion]
    or [InterventionRule] is either an inferred proposal still open, deferred
    or rejected, or a reading its own operator ratified by confirming or
    correcting it. *)
Theorem self_model_authority v r t :
  validate_node_contract v = Ok r → assoc "node_type" r = Some (JStr t) →
  In t self_model_types →
  ∃ p payload review, assoc "provenance" r = Some (JObj p) ∧
    assoc "payload" r = Some (JObj payload) ∧ assoc "review_state" payload = Some (JStr review) ∧
    ((assoc "status" p = Some (JStr "inferred") ∧ In review ["proposed"; "deferred"; "rejected"]) ∨
     (assoc "status" p = Some (JStr "ratified") ∧ In review ["confirmed"; "corrected"] ∧
      assoc "operator_id" r = assoc "actor_id" p ∧ assoc "ratifier_id" p = assoc "actor_id" p)).
Proof.
  intros (t' & op & p & payload & Hn & Hp & s & tier & cls & actor & ev & mo & ra & Hs & Ho)%accepted_provenance
    Ht Hin.
  rewrite (proj1 (ns_type _ _ _ _ _ Hn)) in Ht. injection Ht as ->.
  destruct (ns_self_model _ _ _ _ _ Hn Hin) as (inner & s' & review & _ & _ & Hst & Hr & al & Hal & Hri).
  rewrite (ps_status _ _ _ _ _ _ _ _ Hs) in Hst. injection Hst as <-.
  exists p, payload, review. split_and!; [done|apply (ns_payload _ _ _ _ _ Hn)|done|].
  rewrite (ps_status _ _ _ _ _ _ _ _ Hs), (proj1 (ps_actor _ _ _ _ _ _ _ _ Hs)),
    (proj1 (ps_ratifier _ _ _ _ _ _ _ _ Hs)), (proj1 (ns_operator _ _ _ _ _ Hn)).
  pose proof (ps_rule _ _ _ _ _ _ _ _ Hs) as Hrule.
  destruct Hrule; simpl in Hal; simplify_eq; [left|right]; split_and!; auto.
  - by rewrite Ho by auto.
Qed.

Lemma world_node_provenance t m p payload :
  In t (DECLARED_BUSINESS_TYPES ++ OBSERVED_BUSINESS_TYPES ++ ["Outcome"]) →
  validate_node_payload t (JObj m) p = Ok payload →
  _validate_world_provenance (mode_of t) p = Ok tt.
Proof.
  intros Ht H. apply (world_payload_provenance t m p payload).
  simpl in Ht. repeat destruct Ht as [<-|Ht]; [exact H..|done].
Qed.

(** Declared theory and observed evidence stay apart.  An accepted
    declared business node was captured or ratified by the operator; an
    accepted observed business node or outcome is extracted or ratified.  The
    branch that would admit an inferred observation is unreachable: it asks
    for a tier the provenance contract does not give inferred material. *)
Theorem business_records_provenance v r t :
  validate_node_contract v = Ok r → assoc "node_type" r = Some (JStr t) →
  In t (DECLARED_BUSINESS_TYPES ++ OBSERVED_BUSINESS_TYPES ++ ["Outcome"]) →
  ∃ p s cls, assoc "provenance" r = Some (JObj p) ∧ assoc "status" p = Some (JStr s) ∧
    assoc "actor_class" p = Some (JStr cls) ∧
    if mem t DECLARED_BUSINESS_TYPES
    then cls = "operator" ∧ In s ["captured"; "ratified"]
    else In s ["extracted"; "ratified"].
Proof.
  intros (t' & op & p & payload & Hn & Hp & s & tier & cls & actor & ev & mo & ra & Hs & Ho)%accepted_provenance
    Ht Hin.
  rewrite (proj1 (ns_type _ _ _ _ _ Hn)) in Ht. injection Ht as ->.
  exists p, s, cls. split_and!; [done|apply Hs|apply Hs|].
  pose proof (world_node_provenance _ _ _ _ Hin (proj2 (ns_payload _ _ _ _ _ Hn))) as Hw.
  unfold mode_of in Hw. destruct (mem t DECLARED_BUSINESS_TYPES).
  - apply (world_provenance_declared _ _ _ _ _ _ _ _ _ Hs) in Hw. simpl. naive_solver.
  - apply (world_provenance_observed _ _ _ _ _ _ _ _ _ Hs) in Hw. simpl. naive_solver.
Qed.

(** C31: The relation contract is sound: an accepted relation is returned
    unchanged, has registered endpoint types that its signature allows, URNs
    of the endpoints' kinds, evidence, a mode that fits its status, distinct
    endpoints of one type for [similar_to], an owner for captured or ratified
    authority, and passes the world relation check. *)
Theorem relation_contract_sound v r :
  validate_relation_contract v = Ok r →
  v = JObj r ∧ ∃ rel src tgt mode p, relation_spec r rel src tgt mode p.
Proof. apply relation_contract_elim. Qed.

(** Evidence channels do not mix: an accepted relation that matches a
    world signature from an observed source is in observed mode and extracted
    or ratified, and one from a declared source is in declared mode and
    captured or ratified by the operator. *)
Theorem world_relation_channels v r rel src tgt sources targets :
  validate_relation_contract v = Ok r →
  assoc "relation_type" r = Some (JStr rel) → assoc "source_type" r = Some (JStr src) →
  assoc "target_type" r = Some (JStr tgt) →
  assoc rel RELATION_SIGNATURES = Some (sources, targets) →
  mem src sources = true → mem tgt targets = true →
  ∃ p s cls, assoc "provenance" r = Some (JObj p) ∧ assoc "status" p = Some (JStr s) ∧
    assoc "actor_class" p = Some (JStr cls) ∧
    if mem src (OBSERVED_BUSINESS_TYPES ++ GENERAL_EVIDENCE_TYPES)
    then assoc "evidence_mode" r = Some (JStr "observed") ∧ In s ["extracted"; "ratified"]
    else assoc "evidence_mode" r = Some (JStr "declared") ∧ cls = "operator" ∧
         In s ["captured"; "ratified"].
Proof.
  intros (_ & rel' & src' & tgt' & mode & p & Hspec)%relation_contract_elim Hr Hs Ht Hsig Hms Hmt.
  destruct Hspec as [_ Hr' (Hs' & Ht' & _ & _) _ _ [Hmode _] [Hp Hpv] _ Hw].
  rewrite Hr in Hr'. rewrite Hs in Hs'. rewrite Ht in Ht'.
  injection Hr' as <-. injection Hs' as <-. injection Ht' as <-.
  destruct (validate_provenance_sound _ _ Hpv) as (_ & s & tier & cls & a & ev & mo & ra & Hps).
  exists p, s, cls. split_and!; [done|apply Hps|apply Hps|].
  unfold world_relation_check in Hw. rewrite Hsig, Hms, Hmt in Hw. simpl in Hw.
  apply bind_Ok in Hw as (md & Hmd%item_Ok & Hw). rewrite Hmode in Hmd. injection Hmd as <-.
  apply bind_Ok in Hw as (why & _ & Hw). apply bind_Ok in Hw as (evs & _ & Hw).
  apply bind_Ok in Hw as (? & Hw & _). apply world_relation_provenance in Hw as [Hw Hm].
  simpl in Hm. injection Hm as ->.
  destruct (mem src _).
  - apply (world_provenance_observed _ _ _ _ _ _ _ _ _ Hps) in Hw. simpl. naive_solver.
  - apply (world_provenance_declared _ _ _ _ _ _ _ _ _ Hps) in Hw. simpl. naive_solver.
Qed.

(** The two contracts fail only in the ways they document: an error is a
    [ValidationError], a [TypeError] from an unhashable value in a membership
    test, or an [OverflowError] from an integer no float holds.  In
    particular no missing key surfaces as a [KeyError]. *)
Theorem contract_errors v e :
  validate_node_contract v = Err e ∨ validate_relation_contract v = Err e →
  is_validation e = true ∨ e = TypeError ∨ e = OverflowError.
Proof. intros [H|H]; [by eapply errs_node_contract|by eapply errs_relation_contract]. Qed.

#[local] Transparent RELATION_REGISTRY NODE_TYPES RELATION_SIGNATURES.

(** Lifecycle relations cannot be written through the contract: the
    registry lists [proposal_succeeded_by], and [supported_by] towards
    [Evidence], but no accepted relation uses them, since neither [Proposal]
    nor [Evidence] is a registered node type. *)
Theorem lifecycle_relations_closed :
  has_key "proposal_succeeded_by" RELATION_REGISTRY = true ∧
  ~ ∃ v r, validate_relation_contract v = Ok r ∧
      (assoc "relation_type" r = Some (JStr "proposal_succeeded_by") ∨
       assoc "source_type" r = Some (JStr "Proposal") ∨
       assoc "target_type" r = Some (JStr "Evidence")).
Proof.
  split; [vm_compute; reflexivity|].
  intros (v & r & (_ & rel & src & tgt & mode & p & Hspec)%relation_contract_elim & H).
  destruct Hspec as [_ Hr (Hs & Ht & Hsin%mem_In & Htin%mem_In) (a & b & Hsig & Ha & Hb) _ _ _ _ _].
  destruct H as [H|[H|H]].
  - rewrite Hr in H. injection H as ->.
    assert (assoc "proposal_succeeded_by" RELATION_REGISTRY = Some (Some ["Proposal"], Some NODE_TYPES))
      as E by (vm_compute; reflexivity).
    rewrite E in Hsig. injection Hsig as <- _. cbn [endpoint_allows] in Ha. apply mem_In in Ha.
    destruct Ha as [<-|[]]. vm_compute in Hsin. discriminate Hsin.
  - rewrite Hs in H. injection H as ->. vm_compute in Hsin. discriminate Hsin.
  - rewrite Ht in H. injection H as ->. vm_compute in Htin. discriminate Htin.
Qed.

(** ** Concrete records *)
Definition provenance_record (status tier cls : string) (evidence : list string)
    (model ratifier : json) : obj :=
  [("status", JStr status); ("authority_tier", JStr tier); ("actor_class", JStr cls);
   ("actor_id", JStr (urn_of "operator")); ("mechanism", JStr "review");
   ("evidence_ids", JList (map JStr evidence)); ("model", model); ("ratifier_id", ratifier)].

Definition inferred_record :=
  provenance_record "inferred" "inferred_candidate" "model" [urn_of "evidence"] (JStr "m1") JNull.
Definition ratified_record :=
  provenance_record "ratified" "ratified_knowledge" "operator" [urn_of "evidence"] JNull
    (JStr (urn_of "operator")).
Definition extracted_record :=
  provenance_record "extracted" "observed_candidate" "software" [urn_of "evidence"] JNull JNull.

Definition node_record (t : string) (payload provenance : obj) : json :=
  JObj [("record_schema_version", JStr "3.1.0"); ("node_id", JStr (urn_of (node_kind t)));
        ("node_type", JStr t); ("operator_id", JStr (urn_of "operator"));
        ("payload", JObj payload); ("provenance", JObj provenance)].

Definition principle_node : json :=
  node_record "Principle" [("statement", JStr "Measure twice")] inferred_record.

Definition result_node (provenance : obj) : json :=
  node_record "Result"
    [("evidence_mode", JStr "observed"); ("effective_at", JStr "2024-01-01T00:00:00Z");
     ("source_refs", JList [JStr (urn_of "evidence")]); ("attributes", JObj []);
     ("metric", JStr "signups"); ("value", JInt 12); ("unit", JStr "count")] provenance.

Definition self_model_node : json :=
  node_record "SelfModelAssertion"
    [("ontology_schema_version", JStr "3.1.0"); ("operator_id", JStr (urn_of "operator"));
     ("function_class", JStr "vendor.function"); ("dimension", JStr "vendor.dimension");
     ("subtype", JStr "vendor.subtype"); ("statement", JStr "Prefers short drafts");
     ("polarity", JStr "asset"); ("scope", JStr "writing"); ("source_phase", JStr "vendor.phase");
     ("derivation_trace_id", JStr (urn_of "trace"));
     ("evidence_ids", JList [JStr (urn_of "evidence")]);
     ("confidence", JObj [("score", JInt 1); ("assessor_id", JStr "a");
       ("method", JStr "operator_assessment");
       ("basis_evidence_ids", JList [JStr (urn_of "evidence")]);
       ("assessed_at", JStr "2024-01-01T00:00:00Z"); ("calibration_trial_id", JNull);
       ("uncertainty_note", JNull)]);
     ("freshness", JObj [("valid_from", JStr "2024-01-01T00:00:00Z"); ("valid_to", JNull);
       ("last_reviewed_at", JNull); ("revalidate_after", JNull);
       ("evidence_window_start", JStr "2024-01-01T00:00:00Z");
       ("evidence_window_end", JStr "2024-01-02T00:00:00Z"); ("status", JStr "current")]);
     ("review_state", JStr "confirmed"); ("structure", JObj []);
     ("provenance", JObj [("status", JStr "ratified"); ("actor_class", JStr "operator");
       ("actor_id", JStr "op"); ("model_id", JNull); ("prompt_id", JNull)]);
     ("extensions", JObj [])] ratified_record.

Definition relation_record (rel src tgt mode : string) (provenance : obj) : json :=
  JObj [("record_schema_version", JStr "3.1.0"); ("relation_id", JStr (urn_of "relation"));
        ("relation_type", JStr rel); ("source_id", JStr (urn_of (node_kind src)));
        ("source_type", JStr src); ("target_id", JStr (urn_of (node_kind tgt)));
        ("target_type", JStr tgt); ("operator_id", JStr (urn_of "operator"));
        ("evidence_mode", JStr mode); ("why", JStr "measured"); ("provenance", JObj provenance)].

Definition confirms_relation : json :=
  relation_record "confirms" "Result" "Claim" "observed" extracted_record.

Definition raw (v : json) : obj := match v with JObj m => m | _ => [] end.

#[local] Transparent endpoint_check require_urn.

Lemma node_authority_never_escalates_witness :
  ∃ op p s tier cls actor ev mo ra,
    assoc "operator_id" (raw principle_node) = Some (JStr op) ∧
    assoc "provenance" (raw principle_node) = Some (JObj p) ∧
    provenance_spec p s tier cls actor ev mo ra ∧
    (cls ≠ "operator" →
       In s ["extracted"; "inferred"] ∧
       In tier ["imported_floor"; "observed_candidate"; "inferred_candidate"] ∧
       ev ≠ [] ∧ ra = None) ∧
    (In tier ["captured_judgment"; "ratified_knowledge"] →
       cls = "operator" ∧ actor = op ∧ (tier = "ratified_knowledge" → ra = Some op)).
Proof.
  apply (node_authority_never_escalates principle_node). vm_compute. reflexivity.
Defined.

Lemma self_model_authority_witness :
  ∃ p payload review, assoc "provenance" (raw self_model_node) = Some (JObj p) ∧
    assoc "payload" (raw self_model_node) = Some (JObj payload) ∧
    assoc "review_state" payload = Some (JStr review) ∧
    ((assoc "status" p = Some (JStr "inferred") ∧ In review ["proposed"; "deferred"; "rejected"]) ∨
     (assoc "status" p = Some (JStr "ratified") ∧ In review ["confirmed"; "corrected"] ∧
      assoc "operator_id" (raw self_model_node) = assoc "actor_id" p ∧
      assoc "ratifier_id" p = assoc "actor_id" p)).
Proof.
  apply (self_model_authority self_model_node _ "SelfModelAssertion");
    [vm_compute; reflexivity|reflexivity|by left].
Defined.

Lemma business_records_provenance_witness :
  is_ok (validate_node_contract (result_node inferred_record)) = false ∧
  ∃ p s cls, assoc "provenance" (raw (result_node extracted_record)) = Some (JObj p) ∧
    assoc "status" p = Some (JStr s) ∧ assoc "actor_class" p = Some (JStr cls) ∧
    if mem "Result" DECLARED_BUSINESS_TYPES
    then cls = "operator" ∧ In s ["captured"; "ratified"]
    else In s ["extracted"; "ratified"].
Proof.
  split; [vm_compute; reflexivity|].
  apply (business_records_provenance (result_node extracted_record) _ "Result");
    [vm_compute; reflexivity|reflexivity|]. simpl. tauto.
Defined.

Lemma relation_contract_sound_witness :
  confirms_relation = JObj (raw confirms_relation) ∧
  ∃ rel src tgt mode p, relation_spec (raw confirms_relation) rel src tgt mode p.
Proof. apply (relation_contract_sound confirms_relation). vm_compute. reflexivity. Defined.

Lemma world_relation_channels_witness :
  ∃ p s cls, assoc "provenance" (raw confirms_relation) = Some (JObj p) ∧
    assoc "status" p = Some (JStr s) ∧ assoc "actor_class" p = Some (JStr cls) ∧
    if mem "Result" (OBSERVED_BUSINESS_TYPES ++ GENERAL_EVIDENCE_TYPES)
    then assoc "evidence_mode" (raw confirms_relation) = Some (JStr "observed") ∧
         In s ["extracted"; "ratified"]
    else assoc "evidence_mode" (raw confirms_relation) = Some (JStr "declared") ∧
         cls = "operator" ∧ In s ["captured"; "ratified"].
Proof.
  eapply (world_relation_channels confirms_relation _ "confirms" "Result" "Claim");
    vm_compute; reflexivity.
Defined.

Lemma contract_errors_witness :
  is_validation TypeError = true ∨ TypeError = TypeError ∨ TypeError = OverflowError.
Proof.
  apply (contract_errors
    (JObj (set_item "node_type" (JList []) (raw principle_node)))).
  left. vm_compute. reflexivity.
Defined.
