(* ===== verification/Codec.v ===== *)
(** * Canonical bytes and digests ([ontology/schema.py])

    [canonical_bytes] and [payload_sha256], with the two standard-library
    routines they use written out: the SHA-256 compression function and the
    JSON writer with sorted keys and compact separators.  The writer covers
    floats with the shortest decimal that reads back to the same binary64. *)
From S2P Require Import Prelude PyTime Urn Contracts.

(** ** SHA-256 (FIPS 180-4), on 32-bit words kept in [N] *)
Module Sha256.
Open Scope N_scope.

Definition MASK : N := 4294967295.
Definition w32 (n : N) : N := N.land n MASK.
Definition add32 (a b : N) : N := w32 (a + b).
Definition not32 (a : N) : N := N.lxor a MASK.
Definition rotr (n a : N) : N := N.lor (N.shiftr a n) (w32 (N.shiftl a (32 - n))).

(** The standard derives its constants from primes: the first 32 bits of the
    fractional parts of their square and cube roots. *)
Definition divides_none (smaller : list N) (n : N) : bool :=
  forallb (λ p, negb (n mod p =? 0)) smaller.

Fixpoint primes_from (fuel : nat) (n : N) (found : list N) : list N :=
  match fuel with
  | O => rev found
  | S k => primes_from k (n + 1) (if divides_none found n then n :: found else found)
  end.

(** The first 64 primes end at 311. *)
Definition primes : list N := primes_from 310 2 [].

(** The largest [r] below [2 ^ bits] above [acc] whose cube is at most [n]. *)
Fixpoint cube_root (bits : nat) (acc n : N) : N :=
  match bits with
  | O => acc
  | S k =>
      let r := acc + 2 ^ N.of_nat k in
      cube_root k (if r * r * r <=? n then r else acc) n
  end.

Definition K : list N :=
  Eval vm_compute in map (λ p, w32 (cube_root 36 0 (p * 2 ^ 96))) primes.

Definition H0 : list N :=
  Eval vm_compute in map (λ p, w32 (N.sqrt (p * 2 ^ 64))) (firstn 8 primes).

Definition nth_word (k : nat) (l : list N) : N := List.nth k l 0.

(** The schedule, newest word first: [w t] from the words 2, 7, 15, 16 back. *)
Fixpoint schedule (n : nat) (recent : list N) : list N :=
  match n with
  | O => recent
  | S k =>
      let a := nth_word 1 recent in
      let b := nth_word 6 recent in
      let c := nth_word 14 recent in
      let d := nth_word 15 recent in
      let s0 := N.lxor (N.lxor (rotr 7 c) (rotr 18 c)) (N.shiftr c 3) in
      let s1 := N.lxor (N.lxor (rotr 17 a) (rotr 19 a)) (N.shiftr a 10) in
      schedule k (add32 (add32 s1 b) (add32 s0 d) :: recent)
  end.

Definition round (st : list N) (kw : N * N) : list N :=
  match st with
  | [a; b; c; d; e; f; g; h] =>
      let s1 := N.lxor (N.lxor (rotr 6 e) (rotr 11 e)) (rotr 25 e) in
      let ch := N.lxor (N.land e f) (N.land (not32 e) g) in
      let t1 := add32 (add32 (add32 h s1) (add32 ch (fst kw))) (snd kw) in
      let s0 := N.lxor (N.lxor (rotr 2 a) (rotr 13 a)) (rotr 22 a) in
      let maj := N.lxor (N.lxor (N.land a b) (N.land a c)) (N.land b c) in
      [add32 t1 (add32 s0 maj); a; b; c; add32 d t1; e; f; g]
  | _ => st
  end.

Definition compress (st block : list N) : list N :=
  let ws := rev (schedule 48 (rev block)) in
  let out := fold_left round (combine K ws) st in
  map (λ p, add32 (fst p) (snd p)) (combine st out).

Fixpoint bytes_of (s : string) : list N :=
  match s with
  | EmptyString => []
  | String a r => N_of_ascii a :: bytes_of r
  end.

Fixpoint be_bytes (n : nat) (v : N) : list N :=
  match n with
  | O => []
  | S k => N.shiftr v (8 * N.of_nat k) mod 256 :: be_bytes k v
  end.

Definition pad (l : list N) : list N :=
  let len := N.of_nat (length l) in
  let zeros := (119 - len mod 64) mod 64 in
  l ++ [128] ++ List.repeat 0 (N.to_nat zeros) ++ be_bytes 8 (8 * len).

Fixpoint words (l : list N) : list N :=
  match l with
  | a :: b :: c :: d :: r => (a * 2 ^ 24 + b * 2 ^ 16 + c * 2 ^ 8 + d) :: words r
  | _ => []
  end.

Fixpoint blocks (fuel : nat) (l : list N) : list (list N) :=
  match fuel, l with
  | S k, _ :: _ => firstn 16 l :: blocks k (skipn 16 l)
  | _, _ => []
  end.

Definition digest (s : string) : list N :=
  let ws := words (pad (bytes_of s)) in
  fold_left compress (blocks (length ws) ws) H0.

Close Scope N_scope.
End Sha256.

(** [hashlib.sha256(s.encode()).hexdigest()] *)
Definition sha256 (s : string) : string :=
  str_concat (map (λ w, print_hex 8 (Z.of_N w)) (Sha256.digest s)).

(** ** Decimal text *)
Fixpoint print_pos_fuel (fuel : nat) (n : N) : string :=
  let digit := String (ascii_of_N (48 + n mod 10)%N) "" in
  match fuel with
  | O => digit
  | S k => if (n <? 10)%N then digit else print_pos_fuel k (n / 10)%N +:+ digit
  end.
Definition print_N (n : N) : string := print_pos_fuel (N.to_nat (N.size n)) n.
Definition print_int (z : Z) : string :=
  if z <? 0 then "-" +:+ print_N (Z.to_N (- z)) else print_N (Z.to_N z).

(** [repr] of a finite positive float [m * 2^e].  [decimal m e k] gives the two
    decimals [d * 10^k] around the value, the nearer first. *)
Definition ratio_num (m e : Z) : Z := if e <? 0 then m else m * 2 ^ e.
Definition ratio_den (e : Z) : Z := if e <? 0 then 2 ^ (- e) else 1.

Definition scaled (m e k : Z) : Z * Z :=
  if k <? 0 then (ratio_num m e * 10 ^ (- k), ratio_den e)
  else (ratio_num m e, ratio_den e * 10 ^ k).

Definition decimals (m e k : Z) : list Z :=
  let '(n, d) := scaled m e k in
  let q := n / d in
  let r := n mod d in
  if 2 * r <? d then [q; q + 1]
  else if d <? 2 * r then [q + 1; q]
  else if Z.even q then [q; q + 1] else [q + 1; q].

(** The binary64 nearest to [d * 10^k], ties to even. *)
Definition round_ratio (n d : Z) : spec_float :=
  let s := Z.max 0 (64 + Z.log2_up d - Z.log2 n) in
  let q := (n * 2 ^ s) / d in
  let sticky := if (n * 2 ^ s) mod d =? 0 then 0 else 1 in
  binary_normalize 53 1024 (2 * q + sticky) (- s - 1) false.
Definition read_decimal (d k : Z) : spec_float :=
  if k <? 0 then round_ratio d (10 ^ (- k)) else round_ratio (d * 10 ^ k) 1.

Definition same_float (a b : spec_float) : bool :=
  match a, b with
  | S754_finite s m e, S754_finite t n f => Bool.eqb s t && (Pos.eqb m n) && (e =? f)
  | _, _ => false
  end.

(** The fewest digits that read back: [n] digits from 1 to 17. *)
Fixpoint shortest (fuel : nat) (f : spec_float) (m e top : Z) (n : Z) : option (Z * Z) :=
  match fuel with
  | O => None
  | S fu =>
      let k := top - n in
      match List.filter (λ d, (0 <? d) && same_float (read_decimal d k) f) (decimals m e k) with
      | d :: _ => Some (d, k)
      | [] => shortest fu f m e top (n + 1)
      end
  end.

Fixpoint pos_exponent (fuel : nat) (n d : Z) (k : Z) : Z :=
  match fuel with
  | O => k
  | S fu => if n <? d * 10 ^ k then k else pos_exponent fu n d (k + 1)
  end.
(** The least [k] with [m * 2^e < 10^k]. *)
Definition magnitude (m e : Z) : Z :=
  let n := ratio_num m e in
  let d := ratio_den e in
  if n <? d then
    (fix down (fuel : nat) (k : Z) : Z :=
       match fuel with
       | O => k
       | S fu => if n * 10 ^ (1 - k) <? d then down fu (k - 1) else k
       end) 330%nat 0
  else pos_exponent 310 n d 1.

Fixpoint strip_zeros (fuel : nat) (d k : Z) : Z * Z :=
  match fuel with
  | O => (d, k)
  | S fu => if d mod 10 =? 0 then strip_zeros fu (d / 10) (k + 1) else (d, k)
  end.

Definition zeros (n : Z) : string := str_concat (List.repeat "0" (Z.to_nat n)).

(** Layout of [d * 10^k]: positional for exponents from -4 up to 16. *)
Definition layout (d k : Z) : string :=
  let digits := print_int d in
  let len := Z.of_nat (String.length digits) in
  let point := len + k in
  if (-4 <? point) && (point <=? 16) then
    if point <=? 0 then "0." +:+ zeros (- point) +:+ digits
    else if len <=? point then digits +:+ zeros (point - len) +:+ ".0"
    else String.substring 0 (Z.to_nat point) digits +:+ "." +:+
         String.substring (Z.to_nat point) (Z.to_nat (len - point)) digits
  else
    let ex := point - 1 in
    let mant := String.substring 0 1 digits +:+
      (if len =? 1 then "" else "." +:+ String.substring 1 (Z.to_nat (len - 1)) digits) in
    mant +:+ "e" +:+ (if ex <? 0 then "-" else "+") +:+
    (let t := print_int (Z.abs ex) in if Z.abs ex <? 10 then "0" +:+ t else t).

Definition float_text (f : spec_float) : string :=
  match f with
  | S754_zero s => if s then "-0.0" else "0.0"
  | S754_infinity s => if s then "-Infinity" else "Infinity"
  | S754_nan => "NaN"
  | S754_finite s m e =>
      let top := magnitude (Z.pos m) e in
      match shortest 17 (S754_finite false m e) (Z.pos m) e top 1 with
      | Some (d, k) =>
          let '(d', k') := strip_zeros 20 d k in
          (if s then "-" else "") +:+ layout d' k'
      | None => "NaN"
      end
  end.

(** ** JSON text *)
Definition escape_char (a : ascii) : string :=
  let n := N_of_ascii a in
  if (n =? 34)%N then "\" +:+ String a ""
  else if (n =? 92)%N then "\\"
  else if (n =? 10)%N then "\n"
  else if (n =? 13)%N then "\r"
  else if (n =? 9)%N then "\t"
  else if (n =? 12)%N then "\f"
  else if (n =? 8)%N then "\b"
  else if (n <? 32)%N then "\u" +:+ print_hex 4 (Z.of_N n)
  else String a "".

Fixpoint escape (s : string) : string :=
  match s with
  | EmptyString => ""
  | String a r => escape_char a +:+ escape r
  end.

Definition quote : string := byte 34.
Definition json_string (s : string) : string := quote +:+ escape s +:+ quote.

Fixpoint commas (l : list string) : string :=
  match l with
  | [] => ""
  | [x] => x
  | x :: r => x +:+ "," +:+ commas r
  end.

(** [json.dumps(v, sort_keys=True, separators=(",", ":"), ensure_ascii=False)] *)
Fixpoint dumps (v : json) : string :=
  match v with
  | JNull => "null"
  | JBool b => if b then "true" else "false"
  | JInt z => print_int z
  | JFloat f => float_text f
  | JStr s => json_string s
  | JList l => "[" +:+ commas (map dumps l) +:+ "]"
  | JObj m =>
      let fields := map (λ kv, (kv.1, dumps kv.2)) m in
      "{" +:+ commas (map (λ kv, json_string kv.1 +:+ ":" +:+ kv.2)
                        (sort_by (λ a b, String.leb a.1 b.1) fields)) +:+ "}"
  end.

Definition canonical_bytes (v : json) : string := dumps v.
Definition payload_sha256 (v : json) : string := sha256 (canonical_bytes v).

Example sha256_empty :
  sha256 "" = "e3b0c44298fc1c149afbf4c8996fb92427ae41e4649b934ca495991b7852b855".
Proof. vm_compute. reflexivity. Qed.

Example sha256_abc :
  sha256 "abc" = "ba7816bf8f01cfea414140de5dae2223b00361a396177a9cb410ff61f20015ad".
Proof. vm_compute. reflexivity. Qed.

Example sha256_two_blocks :
  sha256 "abcdbcdecdefdefgefghfghighijhijkijkljklmklmnlmnomnopnopq" =
  "248d6a61d20638b8e5c026930c3e6039a33ce45964ff2167f6ecedd419db06c1".
Proof. vm_compute. reflexivity. Qed.

Example dumps_floats :
  map dumps [JFloat (S754_finite false 7205759403792794 (-56)%Z); JFloat (S754_finite false 4503599627370496 (-52)%Z);
             JFloat (S754_finite true 1 (-1074)%Z); JFloat (S754_finite false 6755399441055744 (-51)%Z)]
  = ["0.1"; "1.0"; "-5e-324"; "3.0"].
Proof. vm_compute. reflexivity. Qed.

#[global] Opaque sha256 canonical_bytes.
