(* ===== verification/Floats.v ===== *)
(** * Rounding decimals to binary64, and the digits that read back

    [Codec.read_decimal] takes a decimal to the nearest [float] with the
    integer arithmetic of [SpecFloat]; [Codec.shortest] looks for the fewest
    digits that come back.  Here: what [round_ratio] computes, that it depends
    on the ratio alone, that a ratio nearer than half a gap rounds to the float
    it is near to, and that seventeen digits are always enough. *)
From Stdlib Require Import ZArith SpecFloat Zdiv.
From S2P Require Import Prelude Codec.

Abbreviation PREC := 53.
Abbreviation EMAX := 1024.

(** ** Shifting right *)
Lemma iter_pos_nat {A} (f : A → A) p x : SpecFloat.iter_pos f p x = Nat.iter (Pos.to_nat p) f x.
Proof.
  revert x. induction p as [p IH|p IH|]; intros x; cbn [SpecFloat.iter_pos].
  - rewrite !IH, Pos2Nat.inj_xI, <- Nat.iter_succ_r, <- Nat.iter_add. f_equal. lia.
  - rewrite !IH, Pos2Nat.inj_xO, <- Nat.iter_add. f_equal. lia.
  - done.
Qed.

Lemma shr_1_spec m r s : 0 ≤ m →
  shr_1 {| shr_m := m; shr_r := r; shr_s := s |} = {| shr_m := m / 2; shr_r := Z.odd m; shr_s := r || s |}.
Proof.
  intros Hm. destruct m as [|p|p]; [done| |lia]. rewrite <- Z.div2_div. by destruct p.
Qed.

(** [n + 1] shifts of an integer: the quotient, the bit below it, and whether
    anything is left below that *)
Lemma shr_iter n m : 0 ≤ m →
  Nat.iter (S n) shr_1 {| shr_m := m; shr_r := false; shr_s := false |} =
  {| shr_m := m / 2 ^ (Z.of_nat n + 1); shr_r := Z.odd (m / 2 ^ Z.of_nat n);
     shr_s := negb (m mod 2 ^ Z.of_nat n =? 0) |}.
Proof.
  intros Hm. induction n as [|n IH].
  - cbn [Nat.iter nat_rect]. rewrite shr_1_spec by done. simpl. by rewrite Z.div_1_r, Z.mod_1_r.
  - rewrite Nat.iter_succ, IH, shr_1_spec by (apply Z.div_pos; lia).
    rewrite Nat2Z.inj_succ, <- Z.add_1_r. f_equal.
    + rewrite Z.div_div by lia. f_equal. rewrite (Z.pow_add_r 2 (Z.of_nat n + 1) 1) by lia. done.
    + set (a := 2 ^ Z.of_nat n). assert (0 < a) by (subst a; lia).
      assert (2 ^ (Z.of_nat n + 1) = a * 2) as -> by (subst a; rewrite Z.pow_add_r by lia; lia).
      rewrite Z.rem_mul_r by lia. pose proof (Zmod_odd (m / a)) as Ho. rewrite Ho.
      pose proof (Z.mod_pos_bound m a).
      destruct (Z.odd (m / a)); cbn [orb negb]; [symmetry; apply negb_true_iff, Z.eqb_neq; lia|].
      by replace (m mod a + a * 0) with (m mod a) by lia.
Qed.

Lemma digits2_log2 p : Zpos (digits2_pos p) = Z.log2 (Zpos p) + 1.
Proof.
  induction p as [p IH|p IH|]; cbn [digits2_pos]; [| |done]; rewrite Pos2Z.inj_succ, IH.
  - change (Zpos p~1) with (2 * Zpos p + 1). rewrite Z.log2_succ_double by lia. lia.
  - change (Zpos p~0) with (2 * Zpos p). rewrite Z.log2_double by lia. lia.
Qed.

(** ** What a ratio rounds to *)

(** Where [t] lies between multiples of [w] *)
Definition locate (t w : Z) : location :=
  if t mod w =? 0 then loc_Exact else loc_Inexact (2 * (t mod w) ?= w).

Definition finish (m : Z) (l : location) (e : Z) : spec_float :=
  let '(mrs, e2) := shr_fexp PREC EMAX (round_nearest_even m l) e loc_Exact in
  match shr_m mrs with
  | Z0 => S754_zero false
  | Zpos p => if e2 <=? EMAX - PREC then S754_finite false p e2 else S754_infinity false
  | Zneg _ => S754_nan
  end.

(** The integer and the sticky bit of [t / w], shifted [n + 1] times, tell
    where [t] lies between multiples of [w * 2^n]. *)
Lemma sticky_locate t w n :
  0 < t → 0 < w → (1 ≤ n)%nat →
  let m := 2 * (t / w) + (if t mod w =? 0 then 0 else 1) in
  let mrs := Nat.iter (S n) shr_1 {| shr_m := m; shr_r := false; shr_s := false |} in
  shr_m mrs = t / (w * 2 ^ Z.of_nat n) ∧ loc_of_shr_record mrs = locate t (w * 2 ^ Z.of_nat n).
Proof.
  intros Ht Hw Hn m mrs. set (st := if t mod w =? 0 then 0 else 1) in *.
  assert (0 ≤ t / w) as Hq by (apply Z.div_pos; lia).
  assert (0 ≤ st ≤ 1) as Hst by (subst st; destruct (_ =? _); lia).
  subst mrs. rewrite shr_iter by lia. destruct n as [|n]; [lia|].
  set (a := 2 ^ Z.of_nat n). assert (0 < a) as Ha by (subst a; lia).
  assert (2 ^ Z.of_nat (S n) = 2 * a) as E1.
  { rewrite Nat2Z.inj_succ, Z.pow_succ_r by lia. done. }
  assert (2 ^ (Z.of_nat (S n) + 1) = 2 * (2 * a)) as E2.
  { rewrite Z.pow_add_r by lia. rewrite E1. lia. }
  rewrite E1, E2. cbn [shr_m].
  assert (m / 2 = t / w) as Hm2.
  { subst m. symmetry. apply (Z.div_unique _ _ _ st); lia. }
  assert (m / (2 * a) = t / (w * a)) as Hma by (rewrite <- !Z.div_div by lia; by rewrite Hm2).
  split.
  - rewrite <- (Z.div_div m 2 (2 * a)), Hm2, Z.div_div by lia. done.
  - assert ((m mod (2 * a) =? 0) = (t mod (w * a) =? 0)) as Hs.
    { rewrite (Z.rem_mul_r m 2 a), (Z.rem_mul_r t w a) by lia. rewrite Hm2.
      assert (m mod 2 = st) as -> by (subst m; rewrite Z.add_comm, Z.mul_comm, Z.mod_add, Z.mod_small; lia).
      pose proof (Z.mod_pos_bound (t / w) a Ha). pose proof (Z.mod_pos_bound t w Hw).
      subst st. destruct (Z.eqb_spec (t mod w) 0) as [E|E].
      - rewrite E. destruct (Z.eqb_spec ((t / w) mod a) 0) as [->|]; [by rewrite !Z.mul_0_r|].
        transitivity false; [apply Z.eqb_neq|symmetry; apply Z.eqb_neq]; nia.
      - transitivity false; [apply Z.eqb_neq|symmetry; apply Z.eqb_neq]; nia. }
    rewrite Hma, Hs. unfold locate.
    assert (t mod (w * (2 * a)) = t mod (w * a) + (w * a) * (t / (w * a) mod 2)) as ->.
    { replace (w * (2 * a)) with (w * a * 2) by lia. apply Z.rem_mul_r; lia. }
    rewrite Zmod_odd. pose proof (Z.mod_pos_bound t (w * a)) as Hr.
    destruct (Z.odd (t / (w * a))).
    + destruct (Z.eqb_spec (t mod (w * a)) 0) as [E|E]; cbn [loc_of_shr_record negb].
      * destruct (Z.eqb_spec (t mod (w * a) + w * a * 1) 0); [nia|].
        rewrite E. replace (2 * (0 + w * a * 1)) with (w * (2 * a)) by lia. by rewrite Z.compare_refl.
      * destruct (Z.eqb_spec (t mod (w * a) + w * a * 1) 0); [nia|].
        symmetry. f_equal. apply Z.compare_gt_iff. nia.
    + rewrite Z.mul_0_r, Z.add_0_r. destruct (Z.eqb_spec (t mod (w * a)) 0) as [E|E]; cbn [loc_of_shr_record negb]; [done|].
      symmetry. f_equal. apply Z.compare_lt_iff. nia.
Qed.

(** The scale [round_ratio] works with: the quotient has 64 bits. *)
Definition scale (n d : Z) : Z := Z.max 0 (64 + Z.log2_up d - Z.log2 n).

Lemma scale_large n d : 0 < n → 0 < d → 2 ^ 64 * d ≤ n * 2 ^ scale n d.
Proof.
  intros Hn Hd. unfold scale. destruct (Z.log2_spec n Hn) as [Hl _].
  assert (d ≤ 2 ^ Z.log2_up d) as Hu by (apply Z.log2_log2_up_spec; lia).
  pose proof (Z.log2_nonneg n). pose proof (Z.log2_up_nonneg d).
  etransitivity; [apply Z.mul_le_mono_nonneg_l; [lia|exact Hu]|].
  rewrite <- Z.pow_add_r by lia.
  transitivity (2 ^ (Z.log2 n + Z.max 0 (64 + Z.log2_up d - Z.log2 n))); [apply Z.pow_le_mono_r; lia|].
  rewrite Z.pow_add_r by lia. apply Z.mul_le_mono_nonneg_r; lia.
Qed.

(** The exponent of a ratio between [2^(l-1)] and [2^l] *)
Definition exponent (l : Z) : Z := Z.max (l - PREC) (-1074).

Lemma shifted M ex l :
  0 < M → Z.log2 M + 1 + ex = l → 0 < exponent l - ex →
  binary_normalize PREC EMAX M ex false =
  let mrs := Nat.iter (Z.to_nat (exponent l - ex)) shr_1 {| shr_m := M; shr_r := false; shr_s := false |} in
  finish (shr_m mrs) (loc_of_shr_record mrs) (exponent l).
Proof.
  intros HM Hl He. destruct M as [|p|p]; try lia. unfold binary_normalize, binary_round.
  rewrite digits2_log2, Hl. change (fexp PREC EMAX l) with (exponent l). unfold shl_align.
  destruct (exponent l - ex) as [|k|k] eqn:E; try lia. unfold binary_round_aux.
  assert (shr_fexp PREC EMAX (Zpos p) ex loc_Exact =
    (Nat.iter (Pos.to_nat k) shr_1 {| shr_m := Zpos p; shr_r := false; shr_s := false |}, exponent l)) as ->.
  { unfold shr_fexp, Zdigits2. rewrite digits2_log2, Hl. change (fexp PREC EMAX l) with (exponent l). rewrite E.
    unfold shr. rewrite iter_pos_nat. f_equal. lia. }
  rewrite Z2Nat.inj_pos. done.
Qed.

Lemma round_ratio_at n d :
  0 < n → 0 < d →
  let s := scale n d in let l := Z.log2 (n * 2 ^ s / d) + 1 - s in let w := d * 2 ^ (exponent l + s) in
  2 ^ (l - 1 + s) * d ≤ n * 2 ^ s < 2 ^ (l + s) * d ∧ 64 ≤ l - 1 + s ∧ 0 < exponent l + s ∧
  round_ratio n d = finish (n * 2 ^ s / w) (locate (n * 2 ^ s) w) (exponent l).
Proof.
  intros Hn Hd s l w. pose proof (scale_large n d Hn Hd) as Hs. fold s in Hs.
  set (t := n * 2 ^ s) in *. assert (0 ≤ s) by (subst s; unfold scale; lia).
  assert (2 ^ 64 ≤ t / d) as Hq by (apply Z.div_le_lower_bound; lia).
  assert (64 ≤ Z.log2 (t / d)) as Hlog by (rewrite <- (Z.log2_pow2 64) by lia; by apply Z.log2_le_mono).
  destruct (Z.log2_spec (t / d)) as [Hlo Hhi]; [lia|].
  assert (l + s = Z.succ (Z.log2 (t / d))) as E1 by (subst l; lia).
  assert (l - 1 + s = Z.log2 (t / d)) as E2 by lia. rewrite E1, E2. clear E2.
  assert (64 ≤ Z.log2 (t / d) ∧ 0 < exponent l + s) as [Hl He] by (unfold exponent; lia).
  split; [|split; [done|split; [done|]]].
  { split.
    - rewrite Z.mul_comm. etransitivity; [apply Z.mul_le_mono_nonneg_l; [lia|exact Hlo]|]. apply Z.mul_div_le; lia.
    - pose proof (Z.mul_succ_div_gt t d Hd). nia. }
  unfold round_ratio. fold (scale n d). fold s. fold t. cbv zeta.
  set (st := if t mod d =? 0 then 0 else 1). assert (0 ≤ st ≤ 1) by (subst st; destruct (_ =? _); lia).
  assert (Z.log2 (2 * (t / d) + st) = Z.log2 (t / d) + 1) as Hm.
  { destruct (Z.eq_dec st 0) as [->|]; [rewrite Z.add_0_r, Z.log2_double by lia; lia|].
    assert (st = 1) as -> by lia. rewrite Z.log2_succ_double by lia. lia. }
  rewrite (shifted _ (- s - 1) l); [|lia|lia|lia]. cbv zeta.
  assert (0 < t) as Ht by (subst t; nia).
  destruct (sticky_locate t d (Z.to_nat (exponent l + s)) Ht Hd ltac:(lia)) as [Em El]. fold st in Em, El.
  rewrite Z2Nat.id in Em, El by lia. fold w in Em, El.
  replace (Z.to_nat (exponent l - (- s - 1))) with (S (Z.to_nat (exponent l + s))) by lia.
  by rewrite Em, El.
Qed.

(** Two names of one ratio have the same quotient, and lie at the same place. *)
Lemma same_ratio t w t' w' :
  0 < w → 0 < w' → t * w' = t' * w → t / w = t' / w' ∧ locate t w = locate t' w'.
Proof.
  intros Hw Hw' E. pose proof (Z.mod_pos_bound t w Hw) as Hr. pose proof (Z.div_mod t w) as Hq.
  set (q := t / w) in *. set (r := t mod w) in *. specialize (Hq ltac:(lia)).
  assert ((t' - q * w') * w = r * w') as Er by nia.
  assert (0 ≤ t' - q * w' < w') as Hr' by nia.
  assert (q = t' / w') as Eq by (apply (Z.div_unique t' w' q (t' - q * w')); lia).
  split; [done|]. unfold locate. fold r.
  assert (t' mod w' = t' - q * w') as -> by (rewrite Z.mod_eq by lia; rewrite <- Eq; lia).
  destruct (Z.eqb_spec r 0) as [E0|E0], (Z.eqb_spec (t' - q * w') 0) as [E1|E1]; [done|nia|nia|].
  f_equal. destruct (Z.compare_spec (2 * r) w), (Z.compare_spec (2 * (t' - q * w')) w'); try done; exfalso; nia.
Qed.

Lemma pow_split a b : 0 ≤ a → 0 ≤ b → 2 ^ (a + b) = 2 ^ a * 2 ^ b.
Proof. intros. by rewrite Z.pow_add_r by lia. Qed.

(** What [round_ratio] computes, at any scale *)
Lemma round_ratio_is n d l g :
  0 < n → 0 < d → 0 ≤ g → 0 ≤ l - 1 + g → 0 ≤ exponent l + g →
  2 ^ (l - 1 + g) * d ≤ n * 2 ^ g < 2 ^ (l + g) * d →
  let w := d * 2 ^ (exponent l + g) in
  round_ratio n d = finish (n * 2 ^ g / w) (locate (n * 2 ^ g) w) (exponent l).
Proof.
  intros Hn Hd Hg Hlg Heg Hb w. destruct (round_ratio_at n d Hn Hd) as (Hb' & Hl' & He' & ->).
  set (s := scale n d) in *. set (l' := Z.log2 (n * 2 ^ s / d) + 1 - s) in *.
  assert (0 ≤ s) as Hs by (subst s; unfold scale; lia).
  assert (l' = l) as El.
  { assert (∀ a b x y, 0 ≤ x → 0 ≤ y → 0 ≤ a - 1 + x → 0 ≤ b + y →
       2 ^ (a - 1 + x) * d ≤ n * 2 ^ x → n * 2 ^ y < 2 ^ (b + y) * d → a ≤ b) as H.
    { intros a b x y Hx Hy Ha Hby H1 H2. destruct (Z.le_gt_cases a b) as [|Hab]; [done|]. exfalso.
      assert (2 ^ (b + y + x) ≤ 2 ^ (a - 1 + x + y)) as H3 by (apply Z.pow_le_mono_r; lia).
      rewrite (pow_split (b + y)), (pow_split (a - 1 + x)) in H3 by lia.
      assert (0 < 2 ^ x) by lia. assert (0 < 2 ^ y) by lia.
      assert (n * 2 ^ y * 2 ^ x < 2 ^ (b + y) * d * 2 ^ x) by nia.
      assert (2 ^ (a - 1 + x) * d * 2 ^ y ≤ n * 2 ^ x * 2 ^ y) by nia. nia. }
    apply Z.le_antisymm; [apply (H l' l s g)|apply (H l l' g s)]; try lia. }
  rewrite El in *.
  destruct (same_ratio (n * 2 ^ s) (d * 2 ^ (exponent l + s)) (n * 2 ^ g) w) as [-> ->]; try done.
  - nia.
  - subst w. nia.
  - subst w. replace (n * 2 ^ s * (d * 2 ^ (exponent l + g))) with (n * d * (2 ^ (exponent l + g) * 2 ^ s)) by lia.
    replace (n * 2 ^ g * (d * 2 ^ (exponent l + s))) with (n * d * (2 ^ (exponent l + s) * 2 ^ g)) by lia.
    rewrite <- !pow_split by lia. do 2 f_equal. lia.
Qed.

(** It depends on the ratio alone. *)
Lemma round_ratio_scale c n d : 0 < c → 0 < n → 0 < d → round_ratio (c * n) (c * d) = round_ratio n d.
Proof.
  intros Hc Hn Hd. destruct (round_ratio_at n d Hn Hd) as (Hb & Hl & He & ->).
  set (s := scale n d) in *. set (l := Z.log2 (n * 2 ^ s / d) + 1 - s) in *.
  assert (0 ≤ s) by (subst s; unfold scale; lia).
  rewrite (round_ratio_is (c * n) (c * d) l s) by nia. cbv zeta. symmetry.
  destruct (same_ratio (n * 2 ^ s) (d * 2 ^ (exponent l + s)) (c * n * 2 ^ s) (c * d * 2 ^ (exponent l + s)))
    as [-> ->]; [nia|nia|lia|done].
Qed.

(** ** Near a float *)

(** The finite floats of binary64 *)
Definition binary64 (m e : Z) : Prop :=
  1 ≤ m < 2 ^ 53 ∧ -1074 ≤ e ≤ 971 ∧ (2 ^ 52 ≤ m ∨ e = -1074).

Lemma exponent_float m e : binary64 m e → exponent (Z.log2 m + 1 + e) = e.
Proof.
  intros (Hm & He & Hc). unfold exponent. destruct (Z.log2_spec m) as [Hlo Hhi]; [lia|].
  assert (Z.log2 m < 53) by (apply Z.log2_lt_pow2; lia).
  destruct Hc as [Hc| ->]; [|lia]. assert (52 ≤ Z.log2 m) by (apply Z.log2_le_pow2; lia). lia.
Qed.

Lemma finish_float m e x l :
  binary64 (Zpos m) e → round_nearest_even x l = Zpos m → finish x l e = S754_finite false m e.
Proof.
  intros H Hx. unfold finish. rewrite Hx. unfold shr_fexp, Zdigits2. rewrite digits2_log2.
  change (fexp PREC EMAX (Z.log2 (Zpos m) + 1 + e)) with (exponent (Z.log2 (Zpos m) + 1 + e)).
  rewrite exponent_float, Z.sub_diag by done. cbn [shr shr_record_of_loc shr_m].
  destruct H as (_ & He & _). by rewrite (proj2 (Z.leb_le _ _)) by lia.
Qed.

Lemma locate_gt t w q r : t = q * w + r → 0 < w → r < w → w < 2 * r → t / w = q ∧ locate t w = loc_Inexact Gt.
Proof.
  intros -> Hw H1 H2. assert ((q * w + r) / w = q) as E by (symmetry; apply (Z.div_unique _ _ _ r); lia).
  split; [done|]. unfold locate. assert ((q * w + r) mod w = r) as -> by (rewrite Z.mod_eq, E; lia).
  destruct (Z.eqb_spec r 0); [lia|]. f_equal. by apply Z.compare_gt_iff.
Qed.

(** Nearer than half a gap: from below, the gap under a power of two is half
    as wide. *)
Definition near (n d m e : Z) : Prop :=
  let g := 1076 in let u := 2 ^ (e - 2 + g) * d in
  (4 * m - (if m =? 2 ^ 52 then 1 else 2)) * u < n * 2 ^ g < (4 * m + 2) * u.

Lemma near_rounds n d m e :
  0 < n → 0 < d → binary64 (Zpos m) e → near n d (Zpos m) e → round_ratio n d = S754_finite false m e.
Proof.
  intros Hn Hd Hb. pose proof Hb as (Hm & He & Hc). unfold near. cbv zeta.
  set (M := Zpos m) in *. set (N := n * 2 ^ 1076). set (u := 2 ^ (e - 2 + 1076) * d). intros [Hlo Hhi].
  assert (0 < u) as Hu by (subst u; nia).
  assert (∀ k, 0 ≤ k → 2 ^ (k + (e - 2 + 1076)) * d = 2 ^ k * u) as Hpow.
  { intros k Hk. subst u. rewrite pow_split by lia. lia. }
  assert (∀ k a b, 0 ≤ k → a = k + (e - 2 + 1076) → b = 2 ^ k → d * 2 ^ a = b * u) as Hw.
  { intros k a b Hk -> ->. rewrite <- Hpow by done. lia. }
  destruct (Z.le_gt_cases (4 * M * u) N) as [Hge|Hlt].
  - (* at or above the float *)
    pose proof (exponent_float M e Hb) as Ee. destruct (Z.log2_spec M) as [Hl1 Hl2]; [lia|].
    pose proof (Z.log2_nonneg M) as Hl0. set (b := Z.log2 M) in *.
    rewrite (round_ratio_is n d (b + 1 + e) 1076); fold N; rewrite ?Ee; try lia.
    + rewrite (Hw 2 (e + 1076) 4) by lia.
      assert (N / (4 * u) = M) as Eq by (symmetry; apply (Z.div_unique _ _ _ (N - 4 * u * M)); lia).
      apply finish_float; [done|]. rewrite Eq. unfold locate.
      assert (N mod (4 * u) = N - 4 * u * M) as -> by (rewrite Z.mod_eq, Eq by lia; lia).
      destruct (Z.eqb_spec (N - 4 * u * M) 0); [done|].
      assert ((2 * (N - 4 * u * M) ?= 4 * u) = Lt) as -> by (apply Z.compare_lt_iff; lia). done.
    + split.
      * replace (b + 1 + e - 1 + 1076) with (b + 2 + (e - 2 + 1076)) by lia. rewrite Hpow by lia.
        rewrite pow_split by lia. nia.
      * replace (b + 1 + e + 1076) with (Z.succ b + 2 + (e - 2 + 1076)) by lia. rewrite Hpow by lia.
        rewrite pow_split by lia. nia.
  - destruct (decide (M = 2 ^ 52 ∧ e ≠ -1074)) as [[EM He']|Hgen].
    + (* below a power of two *)
      rewrite EM in *. rewrite Z.eqb_refl in Hlo.
      assert (exponent (52 + e) = e - 1) as Ee by (unfold exponent; lia).
      rewrite (round_ratio_is n d (52 + e) 1076); fold N; rewrite ?Ee; try lia.
      * rewrite (Hw 1 (e - 1 + 1076) 2) by lia.
        destruct (locate_gt N (2 * u) (2 * 2 ^ 52 - 1) (N - (2 * 2 ^ 52 - 1) * (2 * u))) as [-> ->]; try lia.
        unfold finish. cbn [round_nearest_even]. unfold shr_fexp, Zdigits2.
        replace (2 * 2 ^ 52 - 1 + 1) with (2 ^ 53) by lia.
        change (2 ^ 53) with (Zpos (2 ^ 53)). cbv iota. rewrite digits2_log2.
        change (Z.log2 (Zpos (2 ^ 53)) + 1) with 54.
        assert (fexp PREC EMAX (54 + (e - 1)) - (e - 1) = 1) as -> by (unfold fexp, emin; lia).
        cbn [shr SpecFloat.iter_pos shr_record_of_loc]. change (Zpos (2 ^ 53)) with (2 * 2 ^ 52).
        rewrite shr_1_spec by lia. cbn [shr_m]. rewrite Z.mul_comm, Z.div_mul by lia. rewrite <- EM. subst M.
        rewrite (proj2 (Z.leb_le _ _)) by lia. f_equal. lia.
      * split.
        -- replace (52 + e - 1 + 1076) with (53 + (e - 2 + 1076)) by lia. rewrite Hpow by lia. nia.
        -- replace (52 + e + 1076) with (54 + (e - 2 + 1076)) by lia. rewrite Hpow by lia. nia.
    + (* below the float *)
      assert ((4 * M - 2) * u < N) as Hlo' by (destruct (M =? 2 ^ 52); nia).
      assert (N = (M - 1) * (4 * u) + (N - (M - 1) * (4 * u))) as EN by lia.
      destruct (Z.eq_dec M 1) as [E1|E1].
      * assert (e = -1074) as -> by lia. assert (exponent (-1074) = -1074) as Ee by done.
        rewrite (round_ratio_is n d (-1074) 1076); fold N; rewrite ?Ee; try lia.
        rewrite (Hw 2 (-1074 + 1076) 4) by lia.
        destruct (locate_gt N (4 * u) (M - 1) (N - (M - 1) * (4 * u))) as [-> ->]; try lia.
        apply finish_float; [done|]. cbn. lia.
      * destruct (Z.log2_spec (M - 1)) as [Hl1 Hl2]; [lia|]. pose proof (Z.log2_nonneg (M - 1)) as Hl0.
        assert (exponent (Z.log2 (M - 1) + 1 + e) = e) as Ee.
        { unfold exponent. assert (Z.log2 (M - 1) < 53) by (apply Z.log2_lt_pow2; lia).
          destruct (Z.eq_dec e (-1074)) as [->|]; [lia|]. assert (2 ^ 52 ≤ M - 1) by lia.
          assert (52 ≤ Z.log2 (M - 1)) by (apply Z.log2_le_pow2; lia). lia. }
        set (b := Z.log2 (M - 1)) in *.
        rewrite (round_ratio_is n d (b + 1 + e) 1076); fold N; rewrite ?Ee; try lia.
        -- rewrite (Hw 2 (e + 1076) 4) by lia.
           destruct (locate_gt N (4 * u) (M - 1) (N - (M - 1) * (4 * u))) as [-> ->]; try lia.
           apply finish_float; [done|]. cbn. lia.
        -- split.
           ++ replace (b + 1 + e - 1 + 1076) with (b + 2 + (e - 2 + 1076)) by lia. rewrite Hpow by lia.
              rewrite pow_split by lia. nia.
           ++ replace (b + 1 + e + 1076) with (Z.succ b + 2 + (e - 2 + 1076)) by lia. rewrite Hpow by lia.
              rewrite pow_split by lia. nia.
Qed.

(** ** Seventeen digits *)
Definition pow_pos (k : Z) : Z := 10 ^ Z.max k 0.

Lemma read_decimal_ratio d k : read_decimal d k = round_ratio (d * pow_pos k) (pow_pos (- k)).
Proof.
  unfold read_decimal, pow_pos. destruct (Z.ltb_spec k 0) as [Hk|Hk].
  - rewrite (Z.max_r k), (Z.max_l (- k)) by lia. by rewrite Z.pow_0_r, Z.mul_1_r.
  - rewrite (Z.max_l k), (Z.max_r (- k)) by lia. by rewrite Z.pow_0_r.
Qed.

(** A digit more with a power of ten less is the same number. *)
Lemma read_decimal_ten d k : 0 < d → read_decimal (d * 10) (k - 1) = read_decimal d k.
Proof.
  intros Hd. rewrite !read_decimal_ratio. unfold pow_pos. destruct (Z.le_gt_cases k 0) as [Hk|Hk].
  - rewrite (Z.max_r (k - 1)), (Z.max_r k), (Z.max_l (- (k - 1))), (Z.max_l (- k)) by lia.
    replace (- (k - 1)) with (Z.succ (- k)) by lia. rewrite Z.pow_succ_r by lia.
    replace (d * 10 * 10 ^ 0) with (10 * (d * 10 ^ 0)) by lia. apply round_ratio_scale; lia.
  - rewrite (Z.max_l (k - 1)), (Z.max_l k), (Z.max_r (- (k - 1))), (Z.max_r (- k)) by lia.
    f_equal. replace k with (Z.succ (k - 1)) at 2 by lia. rewrite Z.pow_succ_r by lia. lia.
Qed.

Lemma read_decimal_tens d k j : 0 < d → 0 ≤ j → read_decimal (d * 10 ^ j) (k - j) = read_decimal d k.
Proof.
  intros Hd Hj. revert k. pattern j. apply natlike_ind; [| |done]; clear j Hj.
  - intros k. by rewrite Z.mul_1_r, Z.sub_0_r.
  - intros j Hj IH k. rewrite Z.pow_succ_r by done. rewrite <- (IH k).
    replace (d * (10 * 10 ^ j)) with (d * 10 ^ j * 10) by lia.
    replace (k - Z.succ j) with (k - j - 1) by lia. apply read_decimal_ten. nia.
Qed.

Lemma scaled_ratio m e k : scaled m e k = (ratio_num m e * pow_pos (- k), ratio_den e * pow_pos k).
Proof.
  unfold scaled, pow_pos. destruct (Z.ltb_spec k 0) as [Hk|Hk].
  - rewrite (Z.max_r k), (Z.max_l (- k)) by lia. by rewrite Z.pow_0_r, Z.mul_1_r.
  - rewrite (Z.max_l k), (Z.max_r (- k)) by lia. by rewrite Z.pow_0_r, Z.mul_1_r.
Qed.

Lemma ratio_pos m e : 0 < m → 0 < ratio_num m e ∧ 0 < ratio_den e.
Proof. intros Hm. unfold ratio_num, ratio_den. destruct (Z.ltb_spec e 0); split; nia. Qed.

(** The first of the two decimals is the nearer. *)
Lemma decimals_first m e k :
  0 < m → ∃ x l, decimals m e k = x :: l ∧
    2 * Z.abs (x * (ratio_den e * pow_pos k) - ratio_num m e * pow_pos (- k)) ≤ ratio_den e * pow_pos k.
Proof.
  intros Hm. destruct (ratio_pos m e Hm) as [Hn Hd]. unfold decimals. rewrite scaled_ratio.
  assert (0 < pow_pos k) as Hp by (unfold pow_pos; lia).
  set (n := ratio_num m e * pow_pos (- k)). set (d := ratio_den e * pow_pos k).
  assert (0 < d) as Hd0 by (subst d; nia).
  pose proof (Z.div_mod n d ltac:(lia)) as Hq. pose proof (Z.mod_pos_bound n d Hd0) as Hr.
  set (q := n / d) in *. set (r := n mod d) in *.
  destruct (Z.ltb_spec (2 * r) d); [|destruct (Z.ltb_spec d (2 * r)); [|destruct (Z.even q)]];
    do 2 eexists; (split; [reflexivity|]); nia.
Qed.

Lemma pos_exponent_low fuel n d k : 1 ≤ k → d * 10 ^ (k - 1) ≤ n →
  1 ≤ pos_exponent fuel n d k ∧ d * 10 ^ (pos_exponent fuel n d k - 1) ≤ n.
Proof.
  revert k. induction fuel as [|fuel IH]; intros k Hk Hn; simpl; [done|].
  destruct (Z.ltb_spec n (d * 10 ^ k)); [done|]. apply IH; [lia|]. by replace (k + 1 - 1) with k by lia.
Qed.

(** The power of ten at or below the value, scaled to seventeen digits *)
Lemma magnitude_low m e :
  binary64 m e →
  10 ^ 16 * (ratio_den e * pow_pos (magnitude m e - 17)) ≤ ratio_num m e * pow_pos (- (magnitude m e - 17)).
Proof.
  intros (Hm & He & _). destruct (ratio_pos m e) as [Hn Hd]; [lia|]. unfold magnitude.
  set (n := ratio_num m e) in *. set (d := ratio_den e) in *. destruct (Z.ltb_spec n d) as [Hlt|Hge].
  - set (down := fix down (fuel : nat) (k : Z) : Z := match fuel with
      | O => k | S fu => if n * 10 ^ (1 - k) <? d then down fu (k - 1) else k end).
    assert (∀ fuel k, k ≤ 0 → k - Z.of_nat fuel ≤ -323 → down fuel k ≤ 0 ∧ d ≤ n * 10 ^ (1 - down fuel k)) as H.
    { assert (d ≤ n * 10 ^ 324) as Hsmall.
      { assert (d ≤ 2 ^ 1074) by (subst d; unfold ratio_den; destruct (e <? 0) eqn:?;
          [apply Z.pow_le_mono_r; lia|lia]).
        assert (2 ^ 1074 ≤ 10 ^ 324) by (apply Z.leb_le; vm_compute; reflexivity). nia. }
      induction fuel as [|fuel IH]; intros k Hk Hf; simpl.
      - split; [done|]. etransitivity; [exact Hsmall|]. apply Z.mul_le_mono_nonneg_l; [lia|].
        apply Z.pow_le_mono_r; lia.
      - destruct (Z.ltb_spec (n * 10 ^ (1 - k)) d); [apply IH; lia|done]. }
    destruct (H 330%nat 0) as [Ht Hlow]; [lia..|]. set (top := down 330%nat 0) in *.
    unfold pow_pos. rewrite (Z.max_r (top - 17)), (Z.max_l (- (top - 17))) by lia.
    replace (- (top - 17)) with (16 + (1 - top)) by lia. rewrite Z.pow_add_r by lia. nia.
  - destruct (pos_exponent_low 310 n d 1) as [Ht Hlow]; [lia|simpl; lia|].
    set (top := pos_exponent 310 n d 1) in *. unfold pow_pos. destruct (Z.le_gt_cases 17 top).
    + rewrite (Z.max_l (top - 17)), (Z.max_r (- (top - 17))) by lia.
      replace (top - 1) with (16 + (top - 17)) in Hlow by lia. rewrite Z.pow_add_r in Hlow by lia. lia.
    + rewrite (Z.max_r (top - 17)), (Z.max_l (- (top - 17))) by lia.
      assert (10 ^ 16 = 10 ^ (top - 1) * 10 ^ (- (top - 17))) as -> by (rewrite <- Z.pow_add_r by lia; f_equal; lia).
      rewrite Z.pow_0_r. assert (0 < 10 ^ (- (top - 17))) by lia. nia.
Qed.

Lemma float_ratio m e : -1074 ≤ e → ratio_num m e * 2 ^ 1076 = 4 * m * 2 ^ (e - 2 + 1076) * ratio_den e.
Proof.
  intros He. unfold ratio_num, ratio_den. destruct (Z.ltb_spec e 0).
  - replace 1076 with (2 + (e - 2 + 1076) + - e) at 1 by lia. rewrite !Z.pow_add_r by lia. lia.
  - replace (e - 2 + 1076) with (e + 1074) by lia. rewrite Z.pow_add_r by lia.
    change (2 ^ 1076) with (4 * 2 ^ 1074). lia.
Qed.

Lemma seventeen_read_back m e x l :
  binary64 (Zpos m) e → decimals (Zpos m) e (magnitude (Zpos m) e - 17) = x :: l →
  0 < x ∧ read_decimal x (magnitude (Zpos m) e - 17) = S754_finite false m e.
Proof.
  intros Hb Hx. pose proof (magnitude_low _ _ Hb) as Hlow. pose proof Hb as (Hm & He & _).
  set (k := magnitude (Zpos m) e - 17) in *.
  destruct (decimals_first (Zpos m) e k) as (x' & l' & Hx' & Hnear); [lia|]. rewrite Hx in Hx'.
  injection Hx' as <- <-. destruct (ratio_pos (Zpos m) e) as [Hn Hd]; [lia|].
  pose proof (float_ratio (Zpos m) e ltac:(lia)) as Hr.
  assert (0 < pow_pos k ∧ 0 < pow_pos (- k)) as [HP HQ] by (unfold pow_pos; lia).
  set (P := pow_pos k) in *. set (Q := pow_pos (- k)) in *. set (num := ratio_num (Zpos m) e) in *.
  set (den := ratio_den e) in *.
  assert (0 < x) as Hpos by nia. split; [done|]. rewrite read_decimal_ratio. fold P Q.
  apply near_rounds; [nia|done|done|]. unfold near. cbv zeta.
  set (G := 2 ^ 1076) in *. assert (0 < G) by (subst G; lia). set (H2 := 2 ^ (e - 2 + 1076)) in *.
  assert (0 < H2) by (subst H2; lia). set (M := Zpos m) in *.
  (* the same with the denominator multiplied in *)
  assert (num * Q * G = 4 * M * (H2 * Q) * den) as E1.
  { replace (num * Q * G) with (num * G * Q) by lia. rewrite Hr. lia. }
  assert (2 * Z.abs (x * P * G - 4 * M * (H2 * Q)) ≤ P * G) as E2.
  { assert (2 * Z.abs ((x * P * G - 4 * M * (H2 * Q)) * den) ≤ P * G * den) as E3; [|nia].
    replace ((x * P * G - 4 * M * (H2 * Q)) * den) with ((x * (den * P) - num * Q) * G) by lia.
    rewrite Z.abs_mul, (Z.abs_eq G) by lia. nia. }
  assert (10 ^ 16 * (P * G) ≤ 4 * M * (H2 * Q)) as E4.
  { assert (10 ^ 16 * (P * G) * den ≤ 4 * M * (H2 * Q) * den); [|nia]. rewrite <- E1. nia. }
  set (U := H2 * Q) in *. assert (0 < U) by (subst U; nia). set (PG := P * G) in *. set (X := x * P * G) in *.
  clear -E2 E4 H1 Hm. destruct (Z.eqb_spec M (2 ^ 52)) as [->|].
  - lia.
  - nia.
Qed.

Lemma same_float_true a m e : same_float a (S754_finite false m e) = true → a = S754_finite false m e.
Proof.
  destruct a as [| | |s n f]; try done. simpl. intros H. bool_hyps.
  f_equal; [by apply Bool.eqb_prop|by apply Pos.eqb_eq|done].
Qed.

Lemma shortest_Some fuel m e top : ∀ n d k,
  shortest fuel (S754_finite false m e) (Zpos m) e top n = Some (d, k) →
  0 < d ∧ read_decimal d k = S754_finite false m e.
Proof.
  induction fuel as [|fuel IH]; intros n d k; [done|]. cbn [shortest].
  destruct (List.filter _ _) as [|x l] eqn:E; [apply IH|]. intros [= -> <-].
  assert (In d (d :: l)) as Hd by by left. rewrite <- E in Hd. apply filter_In in Hd as [_ Hd]. bool_hyps.
  split; [lia|by apply same_float_true].
Qed.

Lemma same_float_refl m e : same_float (S754_finite false m e) (S754_finite false m e) = true.
Proof. simpl. by rewrite Pos.eqb_refl, Z.eqb_refl. Qed.

(** Every finite float has a decimal of at most seventeen digits, and the one
    [shortest] finds reads back. *)
Lemma float_digits m e :
  binary64 (Zpos m) e →
  ∃ d k, shortest 17 (S754_finite false m e) (Zpos m) e (magnitude (Zpos m) e) 1 = Some (d, k) ∧
    0 < d ∧ read_decimal d k = S754_finite false m e.
Proof.
  intros Hb. set (top := magnitude (Zpos m) e).
  assert (∀ fuel n, n + Z.of_nat fuel = 18 → (0 < fuel)%nat →
    ∃ d k, shortest fuel (S754_finite false m e) (Zpos m) e top n = Some (d, k)) as H.
  { induction fuel as [|fuel IH]; intros n Hn Hf; [lia|]. cbn [shortest].
    destruct (List.filter _ _) as [|x l] eqn:E; [|by do 2 eexists].
    destruct fuel as [|fuel]; [|apply IH; lia]. exfalso. assert (n = 17) as -> by lia.
    destruct (decimals_first (Zpos m) e (top - 17)) as (x & l & Hx & _); [lia|].
    destruct (seventeen_read_back m e x l Hb Hx) as [H1 H2]. fold top in H2. rewrite Hx in E. simpl in E.
    by rewrite H2, same_float_refl, (proj2 (Z.ltb_lt _ _) H1) in E. }
  destruct (H 17%nat 1) as (d & k & Hs); [done|lia|]. exists d, k. split; [done|]. by apply shortest_Some in Hs.
Qed.

(** The floats of binary64, as [SpecFloat] has them *)
Lemma valid_binary64 s m e : valid_binary PREC EMAX (S754_finite s m e) = true → binary64 (Zpos m) e.
Proof.
  unfold valid_binary, bounded, canonical_mantissa. rewrite digits2_log2.
  change (fexp PREC EMAX (Z.log2 (Zpos m) + 1 + e)) with (exponent (Z.log2 (Zpos m) + 1 + e)). unfold exponent.
  intros [H1%Z.eqb_eq H2%Z.leb_le]%andb_true_iff. destruct (Z.log2_spec (Zpos m)) as [Hlo Hhi]; [lia|].
  unfold binary64. split; [|split; [lia|]].
  - split; [lia|]. eapply Z.lt_le_trans; [exact Hhi|]. apply Z.pow_le_mono_r; lia.
  - destruct (Z.eq_dec e (-1074)) as [|]; [by right|]. left. etransitivity; [|exact Hlo]. apply Z.pow_le_mono_r; lia.
Qed.

(** Dropping trailing zeros *)
Lemma strip_zeros_spec fuel : ∀ d k, 0 < d →
  let '(d', k') := strip_zeros fuel d k in 0 < d' ∧ read_decimal d' k' = read_decimal d k.
Proof.
  induction fuel as [|fuel IH]; intros d k Hd; cbn [strip_zeros]; [done|].
  destruct (Z.eqb_spec (d mod 10) 0) as [E|]; [|done].
  assert (d = d / 10 * 10) as Ed by (pose proof (Z.div_mod d 10); lia).
  assert (0 < d / 10) as Hq by lia. specialize (IH (d / 10) (k + 1) Hq).
  destruct (strip_zeros fuel (d / 10) (k + 1)) as [d' k']. destruct IH as [H1 H2]. split; [done|].
  rewrite H2. rewrite Ed at 2. replace k with (k + 1 - 1) at 2 by lia. symmetry. by apply read_decimal_ten.
Qed.
