(* ===== verification/Json.v ===== *)
(** * Reading JSON ([json.loads] on the text columns and spool files)

    The reader of the standard library as the program uses it on text, and
    the round trip with the canonical writer: what [canonical_bytes] writes,
    [loads] reads back with its keys in order.  A text whose numbers or
    strings Python could not hold (lone surrogates) is taken as malformed, and
    the recursion and digit limits of the interpreter are not modelled. *)
From S2P Require Import Prelude PyTime Urn Contracts Codec Floats.

Definition is_ws (a : ascii) : bool :=
  let n := N_of_ascii a in ((n =? 32) || (n =? 9) || (n =? 10) || (n =? 13))%N.

Fixpoint skip_ws (s : string) : string :=
  match s with
  | String a r => if is_ws a then skip_ws r else s
  | EmptyString => ""
  end.

(** ** Strings *)
Definition chr_byte (z : Z) : string := String (ascii_of_N (Z.to_N z)) "".

(** The UTF-8 form of a code point. *)
Definition utf8 (z : Z) : string :=
  if z <? 128 then chr_byte z
  else if z <? 2048 then chr_byte (192 + z / 64) +:+ chr_byte (128 + z mod 64)
  else if z <? 65536 then
    chr_byte (224 + z / 4096) +:+ chr_byte (128 + (z / 64) mod 64) +:+ chr_byte (128 + z mod 64)
  else
    chr_byte (240 + z / 262144) +:+ chr_byte (128 + (z / 4096) mod 64) +:+
    chr_byte (128 + (z / 64) mod 64) +:+ chr_byte (128 + z mod 64).

Definition hex4 (a b c d : ascii) : option Z :=
  match hex_value a, hex_value b, hex_value c, hex_value d with
  | Some w, Some x, Some y, Some z => Some (4096 * w + 256 * x + 16 * y + z)
  | _, _, _, _ => None
  end.

Definition simple_escape (a : ascii) : option string :=
  let n := N_of_ascii a in
  if (n =? 34)%N || (n =? 92)%N || (n =? 47)%N then Some (String a "")
  else if (n =? 110)%N then Some (byte 10)
  else if (n =? 114)%N then Some (byte 13)
  else if (n =? 116)%N then Some (byte 9)
  else if (n =? 102)%N then Some (byte 12)
  else if (n =? 98)%N then Some (byte 8)
  else None.

Definition prepend (p : string) (o : option (string * string)) : option (string * string) :=
  match o with Some (s, rest) => Some (p +:+ s, rest) | None => None end.

Definition is_high (z : Z) : bool := (55296 <=? z) && (z <? 56320).
Definition is_low (z : Z) : bool := (56320 <=? z) && (z <? 57344).
Definition is_letter_u (a : ascii) : bool := (N_of_ascii a =? 117)%N.
Definition is_backslash (a : ascii) : bool := (N_of_ascii a =? 92)%N.
Definition is_quote (a : ascii) : bool := (N_of_ascii a =? 34)%N.

(** The text after an opening quote, up to its closing quote. *)
Fixpoint parse_string (s : string) : option (string * string) :=
  match s with
  | EmptyString => None
  | String a r =>
      if is_quote a then Some ("", r)
      else if is_backslash a then
        match r with
        | EmptyString => None
        | String b r1 =>
            if is_letter_u b then
              match r1 with
              | String h1 (String h2 (String h3 (String h4 r2))) =>
                  match hex4 h1 h2 h3 h4 with
                  | None => None
                  | Some z =>
                      if is_high z then
                        match r2 with
                        | String c1 (String c2 (String l1 (String l2 (String l3 (String l4 r3))))) =>
                            if is_backslash c1 && is_letter_u c2 then
                              match hex4 l1 l2 l3 l4 with
                              | Some y => if is_low y
                                          then prepend (utf8 (65536 + (z - 55296) * 1024 + (y - 56320)))
                                                 (parse_string r3)
                                          else None
                              | None => None
                              end
                            else None
                        | _ => None
                        end
                      else if is_low z then None
                      else prepend (utf8 z) (parse_string r2)
                  end
              | _ => None
              end
            else match simple_escape b with
                 | Some t => prepend t (parse_string r1)
                 | None => None
                 end
        end
      else if (N_of_ascii a <? 32)%N then None
      else prepend (String a "") (parse_string r)
  end.

(** ** Numbers *)
Fixpoint span_digits (s : string) : string * string :=
  match s with
  | String a r => if is_digit a then let '(d, t) := span_digits r in (String a d, t) else ("", s)
  | EmptyString => ("", "")
  end.

Fixpoint digits_value (s : string) (acc : Z) : Z :=
  match s with
  | EmptyString => acc
  | String a r => digits_value r (10 * acc + (Z.of_N (N_of_ascii a) - 48))
  end.

Definition char_is (a : ascii) (n : N) : bool := (N_of_ascii a =? n)%N.

(** [[.] digits], when there is one *)
Definition parse_frac (s : string) : string * string :=
  match s with
  | String a r => if char_is a 46 then
                    let '(d, t) := span_digits r in if String.eqb d "" then ("", s) else (d, t)
                  else ("", s)
  | EmptyString => ("", "")
  end.

(** [[eE][-+]? digits], when there is one *)
Definition parse_exp (s : string) : option Z * string :=
  match s with
  | String a r =>
      if char_is a 101 || char_is a 69 then
        let '(sign, r1) := match r with
                           | String b r1 => if char_is b 45 then (-1, r1)
                                            else if char_is b 43 then (1, r1) else (1, r)
                           | EmptyString => (1, r)
                           end in
        let '(d, t) := span_digits r1 in
        if String.eqb d "" then (None, s) else (Some (sign * digits_value d 0), t)
      else (None, s)
  | EmptyString => (None, "")
  end.

Definition signed_float (neg : bool) (f : spec_float) : spec_float := if neg then SFopp f else f.

Definition decimal_float (neg : bool) (d k : Z) : spec_float :=
  signed_float neg (if d =? 0 then S754_zero false else read_decimal d k).

Definition parse_unsigned (neg : bool) (s : string) : option (json * string) :=
  let '(int_part, r) :=
    match s with
    | String a r => if char_is a 48 then (String a "", r) else span_digits s
    | EmptyString => ("", "")
    end in
  if String.eqb int_part "" then None
  else
    let '(frac, r1) := parse_frac r in
    let '(ex, r2) := parse_exp r1 in
    match frac, ex with
    | EmptyString, None =>
        let n := digits_value int_part 0 in Some (JInt (if neg then - n else n), r2)
    | _, _ =>
        Some (JFloat (decimal_float neg (digits_value (int_part +:+ frac) 0)
                        (default 0 ex - Z.of_nat (String.length frac))), r2)
    end.

Fixpoint strip_text (p s : string) : option string :=
  match p, s with
  | EmptyString, _ => Some s
  | String a p', String b s' => if Ascii.eqb a b then strip_text p' s' else None
  | String _ _, EmptyString => None
  end.

Definition parse_number (s : string) : option (json * string) :=
  match s with
  | String a r => if char_is a 45 then parse_unsigned true r else parse_unsigned false s
  | EmptyString => None
  end.

Definition literals : list (string * json) :=
  [("null", JNull); ("true", JBool true); ("false", JBool false); ("NaN", JFloat S754_nan);
   ("Infinity", JFloat (S754_infinity false)); ("-Infinity", JFloat (S754_infinity true))].

Fixpoint parse_literal (l : list (string * json)) (s : string) : option (json * string) :=
  match l with
  | [] => None
  | (t, v) :: rest => match strip_text t s with Some r => Some (v, r) | None => parse_literal rest s end
  end.

Definition parse_scalar (s : string) : option (json * string) :=
  match parse_literal literals s with Some r => Some r | None => parse_number s end.

(** ** Values *)
Fixpoint parse_value (fuel : nat) (s : string) : option (json * string) :=
  match fuel with
  | O => None
  | S n =>
      match s with
      | EmptyString => None
      | String a r =>
          if is_quote a then
            match parse_string r with Some (t, rest) => Some (JStr t, rest) | None => None end
          else if char_is a 123 then
            match skip_ws r with
            | String b r1 => if char_is b 125 then Some (JObj [], r1)
                             else parse_members n (String b r1) []
            | EmptyString => None
            end
          else if char_is a 91 then
            match skip_ws r with
            | String b r1 => if char_is b 93 then Some (JList [], r1)
                             else parse_elements n (String b r1) []
            | EmptyString => None
            end
          else parse_scalar s
      end
  end
with parse_elements (fuel : nat) (s : string) (acc : list json) : option (json * string) :=
  match fuel with
  | O => None
  | S n =>
      match parse_value n s with
      | None => None
      | Some (v, rest) =>
          match skip_ws rest with
          | String a r =>
              if char_is a 93 then Some (JList (acc ++ [v]), r)
              else if char_is a 44 then parse_elements n (skip_ws r) (acc ++ [v])
              else None
          | EmptyString => None
          end
      end
  end
with parse_members (fuel : nat) (s : string) (acc : obj) : option (json * string) :=
  match fuel with
  | O => None
  | S n =>
      match s with
      | String q r =>
          if is_quote q then
            match parse_string r with
            | None => None
            | Some (key, rest) =>
                match skip_ws rest with
                | String c r1 =>
                    if char_is c 58 then
                      match parse_value n (skip_ws r1) with
                      | None => None
                      | Some (v, rest) =>
                          match skip_ws rest with
                          | String a r2 =>
                              if char_is a 125 then Some (JObj (set_item key v acc), r2)
                              else if char_is a 44 then
                                parse_members n (skip_ws r2) (set_item key v acc)
                              else None
                          | EmptyString => None
                          end
                      end
                    else None
                | EmptyString => None
                end
            end
          else None
      | EmptyString => None
      end
  end.

(** [json.loads(s)]; [None] is [JSONDecodeError]. *)
Definition loads (s : string) : option json :=
  match parse_value (S (String.length s)) (skip_ws s) with
  | Some (v, rest) => if String.eqb (skip_ws rest) "" then Some v else None
  | None => None
  end.

(** ** What the writer's text reads back as *)

(** Keys in order, at every depth. *)
Fixpoint canon (v : json) : json :=
  match v with
  | JList l => JList (map canon l)
  | JObj m => JObj (sort_by (λ a b, String.leb a.1 b.1) (map (λ kv, (kv.1, canon kv.2)) m))
  | _ => v
  end.

(** The values the program holds: no two fields of an object share a key, and
    floats are binary64. *)
Fixpoint plain (v : json) : Prop :=
  match v with
  | JFloat f => valid_binary 53 1024 f = true
  | JList l => (fix all l := match l with [] => True | x :: r => plain x ∧ all r end) l
  | JObj m => List.NoDup (keys m) ∧
      (fix all (m : obj) := match m with [] => True | kv :: r => plain kv.2 ∧ all r end) m
  | _ => True
  end.

(** *** Strings *)
Lemma parse_escape_char a t :
  parse_string (escape_char a +:+ t) = prepend (String a "") (parse_string t).
Proof. destruct a as [[] [] [] [] [] [] [] []]; reflexivity. Qed.

Lemma parse_escape s t : parse_string (escape s +:+ quote +:+ t) = Some (s, t).
Proof.
  induction s as [|a s IH]; [reflexivity|].
  simpl (escape _). rewrite str_app_assoc, parse_escape_char, IH. reflexivity.
Qed.

(** *** Numbers *)
Inductive ends_number : string → Prop :=
| ends_text : ends_number ""
| ends_item c r : In c [","; "]"; "}"; "010"]%char → ends_number (String c r).

Ltac inv_ends :=
  match goal with H : ends_number _ |- _ => destruct H as [|? ? [<-|[<-|[<-|[<-|[]]]]]] end.

Lemma span_digits_app s u d t :
  ends_number u → span_digits s = (d, t) → span_digits (s +:+ u) = (d, t +:+ u).
Proof.
  intros Hu. revert d t. induction s as [|a s IH]; intros d t H; simpl in *.
  - injection H as <- <-. by inv_ends.
  - destruct (is_digit a); [|by injection H as <- <-].
    destruct (span_digits s) as [d' t'] eqn:E. injection H as <- <-. by rewrite (IH _ _ eq_refl).
Qed.

Lemma parse_frac_app s u d t :
  ends_number u → parse_frac s = (d, t) → parse_frac (s +:+ u) = (d, t +:+ u).
Proof.
  intros Hu H. destruct s as [|a s]; simpl in *.
  - injection H as <- <-. by inv_ends.
  - destruct (char_is a 46); [|by injection H as <- <-].
    destruct (span_digits s) as [d' t'] eqn:E. rewrite (span_digits_app _ _ _ _ Hu E).
    destruct (String.eqb d' ""); by injection H as <- <-.
Qed.

Definition exp_sign (s : string) : Z * string :=
  match s with
  | String b r => if char_is b 45 then (-1, r) else if char_is b 43 then (1, r) else (1, s)
  | EmptyString => (1, s)
  end.

Lemma exp_sign_app s u z t : ends_number u → exp_sign s = (z, t) → exp_sign (s +:+ u) = (z, t +:+ u).
Proof.
  intros Hu H. destruct s as [|b s]; simpl in *; [injection H as <- <-; by inv_ends|].
  destruct (char_is b 45); [by injection H as <- <-|].
  destruct (char_is b 43); by injection H as <- <-.
Qed.

Lemma parse_exp_app s u x t :
  ends_number u → parse_exp s = (x, t) → parse_exp (s +:+ u) = (x, t +:+ u).
Proof.
  intros Hu H. destruct s as [|a s]; [injection H as <- <-; by inv_ends|].
  change (String a s +:+ u) with (String a (s +:+ u)). unfold parse_exp in *.
  destruct (char_is a 101 || char_is a 69); [|by injection H as <- <-].
  fold (exp_sign s) in H. fold (exp_sign (s +:+ u)).
  destruct (exp_sign s) as [z r1] eqn:E. rewrite (exp_sign_app _ _ _ _ Hu E).
  destruct (span_digits r1) as [d r2] eqn:F. rewrite (span_digits_app _ _ _ _ Hu F).
  destruct (String.eqb d ""); by injection H as <- <-.
Qed.

Lemma parse_unsigned_app b s u v t :
  ends_number u → parse_unsigned b s = Some (v, t) → parse_unsigned b (s +:+ u) = Some (v, t +:+ u).
Proof.
  intros Hu H. unfold parse_unsigned in *.
  set (start := λ s, match s with
    | String a r => if char_is a 48 then (String a "", r) else span_digits s
    | EmptyString => ("", "") end).
  change (match s with String a r => _ | EmptyString => _ end) with (start s) in H.
  change (match s +:+ u with String a r => _ | EmptyString => _ end) with (start (s +:+ u)).
  assert (∀ i r, start s = (i, r) → i ≠ "" → start (s +:+ u) = (i, r +:+ u)) as Hs.
  { intros i r E Hne. destruct s as [|a s]; simpl in E; [by injection E as <- <-|].
    change (String a s +:+ u) with (String a (s +:+ u)). unfold start.
    destruct (char_is a 48); [by injection E as <- <-|].
    exact (span_digits_app (String a s) _ _ _ Hu E). }
  destruct (start s) as [i r] eqn:E. destruct (String.eqb_spec i "") as [|Hne]; [discriminate|].
  rewrite (Hs _ _ eq_refl Hne). apply String.eqb_neq in Hne. rewrite Hne.
  destruct (parse_frac r) as [frac r1] eqn:F. rewrite (parse_frac_app _ _ _ _ Hu F).
  destruct (parse_exp r1) as [ex r2] eqn:G. rewrite (parse_exp_app _ _ _ _ Hu G).
  destruct frac, ex; by injection H as <- <-.
Qed.

Lemma parse_number_app s u v t :
  ends_number u → parse_number s = Some (v, t) → parse_number (s +:+ u) = Some (v, t +:+ u).
Proof.
  intros Hu H. destruct s as [|a s]; [done|]. simpl in *.
  destruct (char_is a 45); [by apply parse_unsigned_app|].
  exact (parse_unsigned_app false (String a s) u v t Hu H).
Qed.

Lemma strip_text_app p s u t : strip_text p s = Some t → strip_text p (s +:+ u) = Some (t +:+ u).
Proof.
  revert s. induction p as [|a p IH]; intros s H; simpl in *; [by injection H as ->|].
  destruct s as [|b s]; [done|]. simpl. destruct (Ascii.eqb a b); [by apply IH|done].
Qed.

(** A literal that a text only just misses is not completed by what follows. *)
Lemma strip_text_ends p s u :
  ends_number u → str_forallb (λ a, negb (mem (String a "") [","; "]"; "}"; byte 10])) p = true →
  strip_text p s = None → strip_text p (s +:+ u) = None.
Proof.
  intros Hu. revert s. induction p as [|a p IH]; intros s Hp H; simpl in *; [done|].
  apply andb_true_iff in Hp as [Ha Hp]. destruct s as [|b s].
  - destruct Hu as [|c r Hc]; [done|]. simpl. destruct (Ascii.eqb_spec a c) as [->|]; [|done].
    by destruct Hc as [<-|[<-|[<-|[<-|[]]]]].
  - simpl. destruct (Ascii.eqb a b); [by apply IH|done].
Qed.

Lemma parse_literal_app l s u v t :
  ends_number u →
  forallb (λ p, str_forallb (λ a, negb (mem (String a "") [","; "]"; "}"; byte 10])) p.1) l = true →
  (parse_literal l s = Some (v, t) → parse_literal l (s +:+ u) = Some (v, t +:+ u)) ∧
  (parse_literal l s = None → parse_literal l (s +:+ u) = None).
Proof.
  intros Hu. induction l as [|[p w] l IH]; simpl; [done|]. intros [Hp Hl]%andb_true_iff.
  destruct (strip_text p s) as [r|] eqn:E.
  - rewrite (strip_text_app _ _ u _ E). split; [by intros [= -> ->]|done].
  - rewrite (strip_text_ends _ _ _ Hu Hp E). by apply IH.
Qed.

Lemma parse_scalar_app s u v t :
  ends_number u → parse_scalar s = Some (v, t) → parse_scalar (s +:+ u) = Some (v, t +:+ u).
Proof.
  intros Hu H. unfold parse_scalar in *.
  destruct (parse_literal_app literals s u v t Hu eq_refl) as [H1 H2].
  destruct (parse_literal literals s) as [[w r]|] eqn:E.
  - injection H as -> ->. by rewrite H1.
  - rewrite H2 by done. by apply parse_number_app.
Qed.

(** What a scalar may start with. *)
Lemma scalar_head a s r :
  parse_scalar (String a s) = Some r →
  is_ws a = false ∧ is_quote a = false ∧ char_is a 123 = false ∧ char_is a 91 = false.
Proof.
  destruct a as [[] [] [] [] [] [] [] []]; try (intros _; repeat split; reflexivity);
    intros H; discriminate H.
Qed.

(** *** Decimal text of integers *)
Lemma digits_value_app a b acc : digits_value (a +:+ b) acc = digits_value b (digits_value a acc).
Proof. revert acc. induction a as [|x a IH]; intros acc; simpl; [done|apply IH]. Qed.

Lemma span_digits_all s u :
  str_forallb is_digit s = true → ends_number u → span_digits (s +:+ u) = (s, u).
Proof.
  intros Hs Hu. apply (span_digits_app s u s ""); [done|].
  induction s as [|a s IH]; simpl in *; [done|]. apply andb_true_iff in Hs as [-> Hs].
  by rewrite (IH Hs).
Qed.

Lemma digit_char_spec n : (n < 10)%N →
  is_digit (ascii_of_N (48 + n)) = true ∧ Z.of_N (N_of_ascii (ascii_of_N (48 + n))) - 48 = Z.of_N n ∧
  (n ≠ 0%N → char_is (ascii_of_N (48 + n)) 48 = false) ∧ char_is (ascii_of_N (48 + n)) 45 = false.
Proof.
  intros Hn. unfold is_digit, in_range, char_is. rewrite N_ascii_embedding by lia.
  change (N_of_ascii "0") with 48%N. change (N_of_ascii "9") with 57%N.
  rewrite andb_true_iff, !N.leb_le, !N.eqb_neq. lia.
Qed.

Record digits_of (s : string) (n : N) : Prop := {
  do_digits : str_forallb is_digit s = true;
  do_value : digits_value s 0 = Z.of_N n;
  do_head : ∃ a r, s = String a r ∧ char_is a 45 = false ∧ (n ≠ 0%N → char_is a 48 = false)
}.

Lemma print_pos_fuel_spec fuel n :
  (n < 10 ^ (N.of_nat fuel + 1))%N → digits_of (print_pos_fuel fuel n) n.
Proof.
  revert n. assert (∀ n, (n < 10)%N → digits_of (String (ascii_of_N (48 + n mod 10)) "") n) as Hd.
  { intros n Hn. rewrite N.mod_small by done. destruct (digit_char_spec n Hn) as (H1 & H2 & H3 & H4).
    constructor; simpl; [by rewrite H1|lia|]. do 2 eexists. split; [reflexivity|]. by split. }
  induction fuel as [|k IH]; intros n Hn; simpl.
  - apply Hd. by rewrite N.pow_1_r in Hn.
  - destruct (N.ltb_spec n 10) as [Hl|Hl]; [by apply Hd|].
    assert (n / 10 < 10 ^ (N.of_nat k + 1))%N as Hq.
    { apply N.Div0.div_lt_upper_bound. rewrite Nat2N.inj_succ, N.add_succ_l, N.pow_succ_r' in Hn. lia. }
    destruct (IH _ Hq) as [H1 H2 (a & r & E & Ha & Hz)].
    destruct (digit_char_spec (n mod 10)) as (D1 & D2 & _); [by apply N.mod_lt|].
    constructor.
    + rewrite str_forallb_app, H1. simpl. by rewrite D1.
    + rewrite digits_value_app, H2. simpl. pose proof (N.div_mod' n 10). lia.
    + exists a, (r +:+ String (ascii_of_N (48 + n mod 10)) ""). rewrite E. split_and!; [done..|].
      intros _. apply Hz. intros E0%N.div_small_iff; lia.
Qed.

Lemma print_N_spec n : digits_of (print_N n) n.
Proof.
  apply print_pos_fuel_spec. rewrite N2Nat.id.
  destruct (N.eq_dec n 0%N) as [->|Hn]; [reflexivity|].
  pose proof (N.size_gt n). eapply N.lt_le_trans; [exact H|].
  etransitivity; [apply (N.pow_le_mono_l 2 10); lia|]. apply N.pow_le_mono_r; lia.
Qed.

Lemma print_N_0 : print_N 0%N = "0".
Proof. reflexivity. Qed.

Lemma ends_frac_exp u : ends_number u → parse_frac u = ("", u) ∧ parse_exp u = (None, u).
Proof. intros Hu. by inv_ends. Qed.

Lemma parse_unsigned_int b n u :
  ends_number u →
  parse_unsigned b (print_N n +:+ u) = Some (JInt (if b then - Z.of_N n else Z.of_N n), u).
Proof.
  intros Hu. destruct (ends_frac_exp u Hu) as [Hf He].
  destruct (N.eq_dec n 0%N) as [->|Hn].
  - rewrite print_N_0. unfold parse_unsigned. simpl. rewrite Hf, He. by destruct b.
  - destruct (print_N_spec n) as [H1 H2 (a & r & E & Ha & Hz)]. unfold parse_unsigned.
    rewrite E in *. change (String a r +:+ u) with (String a (r +:+ u)). cbv beta iota.
    rewrite (Hz Hn). change (String a (r +:+ u)) with (String a r +:+ u).
    rewrite (span_digits_all _ _ H1 Hu). simpl (String.eqb _ _). cbv iota.
    by rewrite Hf, He, H2.
Qed.

Lemma literal_digit a r : is_digit a = true →
  parse_literal literals (String a r) = None ∧ parse_literal literals (String "-" (String a r)) = None.
Proof. intros H. destruct a as [[] [] [] [] [] [] [] []]; try discriminate H; by split. Qed.

Lemma char_is_digit_0 a : char_is a 48 = true → is_digit a = true.
Proof. by destruct a as [[] [] [] [] [] [] [] []]. Qed.

Lemma parse_int z u : ends_number u → parse_scalar (print_int z +:+ u) = Some (JInt z, u).
Proof.
  intros Hu. unfold parse_scalar.
  assert (∀ n, ∃ a r, print_N n +:+ u = String a r ∧ char_is a 45 = false ∧ is_digit a = true) as Hd.
  { intros n. destruct (print_N_spec n) as [H1 _ (a & r & E & Ha & _)]. rewrite E in *.
    exists a, (r +:+ u). split_and!; [done|done|]. simpl in H1. by apply andb_true_iff in H1 as [? _]. }
  pose proof literal_digit as Hl.
  unfold print_int. destruct (Z.ltb_spec z 0) as [Hz|Hz].
  - destruct (Hd (Z.to_N (- z))) as (a & r & E & _ & Ha).
    change (("-" +:+ print_N (Z.to_N (- z))) +:+ u) with (String "-" (print_N (Z.to_N (- z)) +:+ u)).
    rewrite E, (proj2 (Hl a r Ha)). rewrite <- E. simpl (parse_number _).
    rewrite parse_unsigned_int by done. do 2 f_equal. f_equal. lia.
  - destruct (Hd (Z.to_N z)) as (a & r & E & Ha' & Ha).
    pose proof (parse_unsigned_int false (Z.to_N z) u Hu) as Hp.
    rewrite E in *. rewrite (proj1 (Hl a r Ha)). simpl (parse_number _). rewrite Ha', Hp.
    do 2 f_equal. f_equal. lia.
Qed.

(** *** Decimal text of floats *)
Definition stops (u : string) : Prop := u = "" ∨ ∃ c r, u = String c r ∧ is_digit c = false.

Lemma span_digits_stop s u : str_forallb is_digit s = true → stops u → span_digits (s +:+ u) = (s, u).
Proof.
  intros Hs Hu. induction s as [|a s IH]; simpl in *.
  - destruct Hu as [->|(c & r & -> & Hc)]; simpl; [done|]. by rewrite Hc.
  - apply andb_true_iff in Hs as [-> Hs]. by rewrite (IH Hs).
Qed.

(** Digits that an integer part may have: [0] alone, or no zero in front *)
Definition whole (i : string) : Prop :=
  i = "0" ∨ ∃ a r, i = String a r ∧ char_is a 48 = false ∧ str_forallb is_digit i = true.

Lemma whole_split i v :
  whole i → stops v →
  match i +:+ v with
  | String a r => if char_is a 48 then (String a "", r) else span_digits (i +:+ v)
  | EmptyString => ("", "")
  end = (i, v) ∧ String.eqb i "" = false.
Proof.
  intros [->|(a & r & -> & Ha & Hd)] Hv; [done|]. split; [|done].
  pose proof (span_digits_stop (String a r) v Hd Hv) as H.
  change (String a r +:+ v) with (String a (r +:+ v)) in *. cbv beta iota. by rewrite Ha.
Qed.

Lemma parse_parts b i fr x u t :
  whole i → str_forallb is_digit fr = true → fr ≠ "" → stops u → parse_exp u = (x, t) →
  parse_unsigned b (i +:+ "." +:+ fr +:+ u) =
    Some (JFloat (decimal_float b (digits_value (i +:+ fr) 0) (default 0 x - Z.of_nat (String.length fr))), t).
Proof.
  intros Hi Hf Hne Hu Hx. unfold parse_unsigned.
  destruct (whole_split i ("." +:+ fr +:+ u) Hi) as [-> ->]; [right; by do 2 eexists|].
  assert (parse_frac ("." +:+ fr +:+ u) = (fr, u)) as ->.
  { simpl. rewrite span_digits_stop by done. by destruct (String.eqb_spec fr ""). }
  rewrite Hx. by destruct fr.
Qed.

(** The same without a fraction, before an exponent *)
Lemma parse_mantissa b i z u t :
  whole i → stops u → parse_frac u = ("", u) → parse_exp u = (Some z, t) →
  parse_unsigned b (i +:+ u) = Some (JFloat (decimal_float b (digits_value i 0) z), t).
Proof.
  intros Hi Hu Hf Hx. unfold parse_unsigned.
  destruct (whole_split i u Hi Hu) as [-> ->].
  rewrite Hf, Hx. cbn [default]. by rewrite str_app_nil_r, Z.sub_0_r.
Qed.

Definition exponent_text (ex : Z) : string :=
  "e" +:+ (if ex <? 0 then "-" else "+") +:+ (let t := print_int (Z.abs ex) in if Z.abs ex <? 10 then "0" +:+ t else t).

Lemma print_int_pos z : 0 ≤ z → print_int z = print_N (Z.to_N z).
Proof. intros H. unfold print_int. destruct (Z.ltb_spec z 0); [lia|done]. Qed.

Lemma parse_exponent_text ex : parse_exp (exponent_text ex) = (Some ex, "") ∧ stops (exponent_text ex) ∧
  parse_frac (exponent_text ex) = ("", exponent_text ex).
Proof.
  split; [|split; [right; by do 2 eexists|done]].
  set (t := if Z.abs ex <? 10 then "0" +:+ print_int (Z.abs ex) else print_int (Z.abs ex)).
  destruct (print_N_spec (Z.to_N (Z.abs ex))) as [H1 H2 (a & r & E & _ & _)].
  assert (str_forallb is_digit t = true ∧ digits_value t 0 = Z.abs ex ∧ t ≠ "") as (Ht & Hv & Hn).
  { subst t. rewrite print_int_pos by lia. destruct (Z.abs ex <? 10).
    - split; [by simpl|]. split; [|done]. change (digits_value ("0" +:+ print_N (Z.to_N (Z.abs ex))) 0)
        with (digits_value (print_N (Z.to_N (Z.abs ex))) 0). rewrite H2. lia.
    - split; [done|]. split; [rewrite H2; lia|]. by rewrite E. }
  pose proof (span_digits_stop t "" Ht (or_introl eq_refl)) as Hs. rewrite str_app_nil_r in Hs.
  unfold exponent_text. fold t. cbv zeta. destruct (Z.ltb_spec ex 0); simpl; rewrite Hs;
    (destruct (String.eqb_spec t "") as [|]; [done|]); rewrite Hv; do 2 f_equal; lia.
Qed.

Lemma substring_split p n s :
  String.length s = (p + n)%nat → String.substring 0 p s +:+ String.substring p n s = s ∧
  String.length (String.substring p n s) = n ∧ String.length (String.substring 0 p s) = p.
Proof.
  revert p n. induction s as [|a s IH]; intros p n Hl; simpl in Hl.
  - destruct p, n; simpl in *; try lia. done.
  - destruct p as [|p]; [destruct n as [|n]; [lia|]|]; simpl.
    + destruct (IH 0%nat n) as (H1 & H2 & _); [lia|]. simpl in H1.
      assert (String.substring 0 0 s = "") as E by by destruct s. rewrite E in H1. simpl in H1. rewrite H2, H1. done.
    + destruct (IH p n) as (H1 & H2 & H3); [lia|]. by rewrite H1, H2, H3.
Qed.

Lemma digits_zeros n : str_forallb is_digit (zeros n) = true ∧
  (∀ acc, digits_value (zeros n) acc = acc * 10 ^ Z.of_nat (Z.to_nat n)) ∧ String.length (zeros n) = Z.to_nat n.
Proof.
  unfold zeros. induction (Z.to_nat n) as [|k (H1 & H2 & H3)]; [by split_and!; [..|intros; simpl; lia|]|].
  cbn [List.repeat str_concat]. split_and!; [by simpl| |simpl; by rewrite H3].
  intros acc. change (str_concat ("0" :: List.repeat "0" k)) with ("0" +:+ str_concat (List.repeat "0" k)).
  rewrite digits_value_app, H2. change (digits_value "0" acc) with (10 * acc + 0). rewrite Nat2Z.inj_succ, Z.pow_succ_r by lia. lia.
Qed.

Lemma digits_value_digits s acc : digits_value s acc = acc * 10 ^ Z.of_nat (String.length s) + digits_value s 0.
Proof.
  revert acc. induction s as [|a s IH]; intros acc; cbn [digits_value String.length]; [simpl; lia|].
  rewrite IH, (IH (10 * 0 + _)), Nat2Z.inj_succ, Z.pow_succ_r by lia. lia.
Qed.

Lemma whole_app a b : whole a → a ≠ "0" → str_forallb is_digit b = true → whole (a +:+ b).
Proof.
  intros [->|(x & r & -> & Hx & Hd)] Hn Hb; [done|]. right. exists x, (r +:+ b). split_and!; [done..|].
  by rewrite str_forallb_app, Hd.
Qed.

Lemma whole_prefix p n s : (0 < p)%nat → String.length s = (p + n)%nat → whole s → whole (String.substring 0 p s).
Proof.
  intros Hp Hl Hw. destruct (substring_split p n s Hl) as (E & _ & _). destruct Hw as [->|(a & r & -> & Ha & Hd)].
  - destruct p as [|[|p]]; simpl in *; [lia|by left|lia].
  - right. destruct p as [|p]; [lia|]. exists a, (String.substring 0 p r). split_and!; [done|done|].
    rewrite <- E, str_forallb_app in Hd. by apply andb_true_iff in Hd as [? _].
Qed.

(** A positive decimal reads back from its layout, whatever its form. *)
Lemma parse_layout b d k :
  0 < d → parse_unsigned b (layout d k) = Some (JFloat (signed_float b (read_decimal d k)), "").
Proof.
  intros Hd. unfold layout. rewrite print_int_pos by lia.
  destruct (print_N_spec (Z.to_N d)) as [D1 D2 (c & r & E & _ & Hc)].
  assert (Z.of_N (Z.to_N d) = d) as Ed by lia. rewrite Ed in D2. specialize (Hc ltac:(lia)).
  set (t := print_N (Z.to_N d)) in *.
  assert (whole t) as Hw by (right; exists c, r; by rewrite <- E).
  assert (0 < String.length t)%nat as Hlen by (rewrite E; simpl; lia).
  assert (∀ b d k, 0 < d → decimal_float b d k = signed_float b (read_decimal d k)) as Hdf.
  { intros b' d' k' H. unfold decimal_float. destruct (Z.eqb_spec d' 0); [lia|done]. }
  set (len := Z.of_nat (String.length t)). set (point := len + k). cbv zeta.
  fold (exponent_text (point - 1)).
  destruct ((-4 <? point) && (point <=? 16)) eqn:Hform; [apply andb_true_iff in Hform as [H1 H2]|].
  - destruct (Z.leb_spec point 0) as [Hp|Hp]; [|destruct (Z.leb_spec len point) as [Hk|Hk]].
    + (* 0.000digits *)
      destruct (digits_zeros (- point)) as (Z1 & Z2 & Z3).
      pose proof (parse_parts b "0" (zeros (- point) +:+ t) None "" "") as H. rewrite str_app_nil_r in H.
      change ("0" +:+ "." +:+ zeros (- point) +:+ t) with ("0." +:+ zeros (- point) +:+ t) in H.
      rewrite H; [|by left|by rewrite str_forallb_app, Z1|by rewrite E; destruct (zeros (- point))|by left|done].
      do 3 f_equal. rewrite <- Hdf by done. f_equal.
      * change (digits_value ("0" +:+ zeros (- point) +:+ t) 0) with (digits_value (zeros (- point) +:+ t) 0).
        by rewrite digits_value_app, Z2.
      * rewrite str_app_length, Z3. simpl. subst point len. lia.
    + (* digits000.0 *)
      destruct (digits_zeros (point - len)) as (Z1 & Z2 & Z3).
      pose proof (parse_parts b (t +:+ zeros (point - len)) "0" None "" "") as H. rewrite str_app_nil_r in H.
      rewrite str_app_assoc in H. change ("." +:+ "0") with ".0" in H.
      rewrite H; [|apply whole_app; [done|by rewrite E; intros [= ->]|done]|done|done|by left|done].
      do 3 f_equal. rewrite digits_value_app, digits_value_app, D2, Z2. rewrite Z2Nat.id by lia.
      change (digits_value "0" (d * 10 ^ (point - len))) with (10 * (d * 10 ^ (point - len)) + 0).
      replace (point - len) with k by (subst point; lia). assert (0 ≤ k) by (subst point; lia).
      rewrite Hdf by nia. f_equal. rewrite <- (read_decimal_tens d k (k + 1)) by lia.
      rewrite Z.pow_add_r by lia. f_equal; simpl; lia.
    + (* dig.its *)
      destruct (substring_split (Z.to_nat point) (Z.to_nat (len - point)) t) as (S1 & S2 & S3); [lia|].
      pose proof (parse_parts b (String.substring 0 (Z.to_nat point) t)
        (String.substring (Z.to_nat point) (Z.to_nat (len - point)) t) None "" "") as H.
      rewrite str_app_nil_r in H.
      assert (str_forallb is_digit (String.substring (Z.to_nat point) (Z.to_nat (len - point)) t) = true) as Hfr.
      { rewrite <- S1, str_forallb_app in D1. by apply andb_true_iff in D1 as [_ ?]. }
      rewrite H; [|apply (whole_prefix _ (Z.to_nat (len - point))); [lia|lia|done]|done| |by left|done].
      * rewrite S1, S2, D2, Hdf by done.
        by replace (default 0 None - Z.of_nat (Z.to_nat (len - point))) with k by (simpl; lia).
      * intros E0. rewrite E0 in S2. simpl in S2. lia.
  - destruct (parse_exponent_text (point - 1)) as (X1 & X2 & X3).
    destruct (Z.eqb_spec len 1) as [El|El].
    + (* de+xx *)
      destruct (substring_split 1 0 t) as (S1 & S2 & S3); [lia|].
      assert (String.substring 1 0 t = "") as E0 by by destruct (String.substring 1 0 t).
      rewrite E0, str_app_nil_r in S1. rewrite S1, str_app_nil_r.
      rewrite (parse_mantissa b t (point - 1) _ "") by done. rewrite D2, Hdf by done. by replace (point - 1) with k by lia.
    + (* d.ddde+xx *)
      destruct (substring_split 1 (Z.to_nat (len - 1)) t) as (S1 & S2 & S3); [lia|].
      assert (str_forallb is_digit (String.substring 1 (Z.to_nat (len - 1)) t) = true) as Hfr.
      { rewrite <- S1, str_forallb_app in D1. by apply andb_true_iff in D1 as [_ ?]. }
      rewrite !str_app_assoc.
      rewrite (parse_parts b _ _ (Some (point - 1)) _ "");
        [|apply (whole_prefix _ (Z.to_nat (len - 1))); [lia|lia|done]|done| |done|done].
      * rewrite S1, S2, D2, Hdf by done.
        by replace (default 0 (Some (point - 1)) - Z.of_nat (Z.to_nat (len - 1))) with k by (simpl; lia).
      * intros E0. rewrite E0 in S2. simpl in S2. lia.
Qed.

Lemma layout_head d k : 0 < d → ∃ a r, layout d k = String a r ∧ is_digit a = true.
Proof.
  intros Hd. pose proof (parse_layout false d k Hd) as H. destruct (layout d k) as [|a r]; [discriminate|].
  exists a, r. split; [done|]. unfold parse_unsigned in H.
  destruct (char_is a 48) eqn:E; [by apply char_is_digit_0|]. cbn [span_digits] in H.
  destruct (is_digit a); [done|discriminate].
Qed.

(** Every float of binary64 reads back from its text. *)
Lemma float_reads f : valid_binary 53 1024 f = true → parse_scalar (float_text f) = Some (JFloat f, "").
Proof.
  destruct f as [[]|[]| |s m e]; try (intros _; reflexivity). intros Hv. pose proof (valid_binary64 _ _ _ Hv) as Hb.
  unfold float_text. destruct (float_digits m e Hb) as (d & k & -> & Hd & Hr).
  pose proof (strip_zeros_spec 20 d k Hd) as Hs. destruct (strip_zeros 20 d k) as [d' k']. destruct Hs as [Hd' Hr'].
  destruct (layout_head d' k' Hd') as (a & r & E & Ha).
  pose proof (parse_layout s d' k' Hd') as Hp. rewrite Hr', Hr in Hp. unfold parse_scalar. rewrite E in *.
  destruct (literal_digit a r Ha) as [L1 L2]. destruct s.
  - change ("-" +:+ String a r) with (String "-" (String a r)). rewrite L2. exact Hp.
  - change ("" +:+ String a r) with (String a r). rewrite L1. simpl (parse_number _).
    assert (char_is a 45 = false) as -> by by destruct a as [[] [] [] [] [] [] [] []]. exact Hp.
Qed.

(** *** Values *)
Lemma sort_by_map {A B} (f : A → B) (le : B → B → bool) (l : list A) :
  sort_by le (map f l) = map f (sort_by (λ a b, le (f a) (f b)) l).
Proof.
  unfold sort_by. induction l as [|x l IH]; simpl; [done|]. rewrite IH.
  generalize (fold_right (insert_by (λ a b, le (f a) (f b))) [] l) as k. intros k.
  induction k as [|y k IHk]; simpl; [done|]. destruct (le (f x) (f y)); simpl; [done|by f_equal].
Qed.

(** The fields in the order they are written. *)
Definition ordered (m : obj) : obj := sort_by (λ a b, String.leb a.1 b.1) m.

Lemma dumps_obj m :
  dumps (JObj m) = "{" +:+ commas (map (λ kv, json_string kv.1 +:+ ":" +:+ dumps kv.2) (ordered m)) +:+ "}".
Proof. simpl. by rewrite sort_by_map, map_map. Qed.

Lemma canon_obj m : canon (JObj m) = JObj (map (λ kv, (kv.1, canon kv.2)) (ordered m)).
Proof. simpl. by rewrite sort_by_map. Qed.

(** The first character of a value's text. *)
Lemma dumps_head v : plain v → ∃ a r, dumps v = String a r ∧ is_ws a = false ∧
  char_is a 93 = false ∧ char_is a 125 = false.
Proof.
  assert (∀ s r, parse_scalar s = Some r → ∃ a t, s = String a t ∧ is_ws a = false ∧
            char_is a 93 = false ∧ char_is a 125 = false) as Hs.
  { intros [|a t] r H; [discriminate H|]. exists a, t. split; [done|].
    destruct (scalar_head _ _ _ H) as (Hw & _).
    destruct a as [[] [] [] [] [] [] [] []]; try (split_and!; reflexivity);
      try discriminate Hw; discriminate H. }
  destruct v as [|b|z|f|s|l|m]; intros Hp.
  - do 2 eexists. split; [reflexivity|]. split_and!; reflexivity.
  - destruct b; do 2 eexists; (split; [reflexivity|]); split_and!; reflexivity.
  - apply (Hs _ (JInt z, "")). pose proof (parse_int z "" ends_text) as H.
    by rewrite str_app_nil_r in H.
  - by apply (Hs _ (JFloat f, "")), float_reads.
  - do 2 eexists. split; [reflexivity|]. split_and!; reflexivity.
  - do 2 eexists. split; [reflexivity|]. split_and!; reflexivity.
  - rewrite dumps_obj. do 2 eexists. split; [reflexivity|]. split_and!; reflexivity.
Qed.

Lemma parse_value_scalar n s v u :
  parse_scalar s = Some (v, "") → ends_number u →
  parse_value (S n) (s +:+ u) = Some (v, u).
Proof.
  intros H Hu. pose proof (parse_scalar_app s u v "" Hu H) as Hp.
  destruct s as [|a s]; [discriminate H|].
  destruct (scalar_head _ _ _ H) as (_ & H1 & H2 & H3).
  change (String a s +:+ u) with (String a (s +:+ u)) in *. simpl. by rewrite H1, H2, H3.
Qed.

Lemma skip_ws_head a r : is_ws a = false → skip_ws (String a r) = String a r.
Proof. intros H. simpl. by rewrite H. Qed.

Lemma skip_ws_dumps v u : plain v → skip_ws (dumps v +:+ u) = dumps v +:+ u.
Proof. intros H. destruct (dumps_head v H) as (a & r & -> & Hw & _). by apply skip_ws_head. Qed.

Definition reads (v : json) : Prop := ∀ n u, ends_number u →
  (String.length (dumps v) ≤ n)%nat → parse_value n (dumps v +:+ u) = Some (canon v, u).

Lemma parse_elements_spec l : ∀ n acc u,
  l ≠ [] → Forall plain l → Forall reads l → (String.length (commas (map dumps l)) < n)%nat →
  parse_elements n (commas (map dumps l) +:+ "]" +:+ u) acc = Some (JList (acc ++ map canon l), u).
Proof.
  induction l as [|v l IH]; intros n acc u Hne Hp Hr Hn; [done|].
  destruct n as [|n]; [simpl in Hn; lia|].
  inversion_clear Hp as [|? ? Hv Hp']. inversion_clear Hr as [|? ? Rv Hr'].
  destruct l as [|w l].
  - simpl in *. rewrite Rv by (try lia; constructor; simpl; tauto). reflexivity.
  - set (rest := commas (map dumps (w :: l))) in *.
    change (commas (map dumps (v :: w :: l))) with (dumps v +:+ "," +:+ rest) in *.
    rewrite !str_app_length in Hn. simpl in Hn.
    rewrite !str_app_assoc. change ("," +:+ rest +:+ "]" +:+ u) with (String "," (rest +:+ "]" +:+ u)).
    cbn [parse_elements]. rewrite Rv by (try lia; constructor; simpl; tauto).
    rewrite skip_ws_head by reflexivity.
    change (char_is "," 93) with false. change (char_is "," 44) with true. cbv iota.
    assert (skip_ws (rest +:+ "]" +:+ u) = rest +:+ "]" +:+ u) as ->.
    { inversion_clear Hp' as [|? ? Hw _]. subst rest. destruct l; simpl; rewrite ?str_app_assoc;
        by apply skip_ws_dumps. }
    subst rest. rewrite IH by (done || lia). by rewrite <- app_assoc.
Qed.

Lemma set_item_fresh {A} k (v : A) m : ~ In k (keys m) → set_item k v m = m ++ [(k, v)].
Proof.
  induction m as [|[k' w] m IH]; simpl; [done|]. intros H.
  destruct (String.eqb_spec k k') as [->|]; [tauto|]. by rewrite IH by tauto.
Qed.

Definition field_text (kv : string * json) : string := json_string kv.1 +:+ ":" +:+ dumps kv.2.

Lemma field_text_app kv u :
  field_text kv +:+ u = String "034"%char (escape kv.1 +:+ quote +:+ String ":" (dumps kv.2 +:+ u)).
Proof. unfold field_text, json_string. by rewrite !str_app_assoc. Qed.

Lemma field_text_length kv : (2 + String.length (dumps kv.2) < String.length (field_text kv))%nat.
Proof.
  unfold field_text, json_string. rewrite !str_app_length.
  change (String.length quote) with 1%nat. change (String.length ":") with 1%nat. lia.
Qed.

Lemma parse_members_spec m : ∀ n acc u,
  m ≠ [] → Forall (λ kv, plain kv.2) m → Forall (λ kv, reads kv.2) m →
  List.NoDup (keys acc ++ keys m) →
  (String.length (commas (map field_text m)) < n)%nat →
  parse_members n (commas (map field_text m) +:+ "}" +:+ u) acc =
    Some (JObj (acc ++ map (λ kv, (kv.1, canon kv.2)) m), u).
Proof.
  induction m as [|[k v] m IH]; intros n acc u Hne Hp Hr Hd Hn; [done|].
  destruct n as [|n]; [simpl in Hn; lia|].
  inversion_clear Hp as [|? ? Hv Hp']. inversion_clear Hr as [|? ? Rv Hr']. simpl in Hv, Rv.
  assert (~ In k (keys acc)) as Hk.
  { intros H. simpl in Hd. apply NoDup_remove_2 in Hd. apply Hd, in_app_iff. by left. }
  assert (String.length (field_text (k, v)) < n ∨ m = [] ∧ String.length (field_text (k, v)) < S n)%nat as Hlen.
  { destruct m as [|kv m]; [by right|]. left.
    change (commas (map field_text ((k, v) :: kv :: m))) with
      (field_text (k, v) +:+ "," +:+ commas (map field_text (kv :: m))) in Hn.
    rewrite !str_app_length in Hn. change (String.length ",") with 1%nat in Hn. lia. }
  assert (String.length (dumps v) < n)%nat as Hn'.
  { pose proof (field_text_length (k, v)) as Hf. simpl (_.2) in Hf. lia. }
  assert (∀ t, ends_number t →
    parse_members (S n) (field_text (k, v) +:+ t) acc =
      match skip_ws t with
      | String a r2 =>
          if char_is a 125 then Some (JObj (acc ++ [(k, canon v)]), r2)
          else if char_is a 44 then parse_members n (skip_ws r2) (acc ++ [(k, canon v)])
          else None
      | EmptyString => None
      end) as Hstep.
  { intros t Ht. rewrite field_text_app. cbn [parse_members fst snd].
    change (is_quote "034") with true. cbv iota. rewrite parse_escape.
    rewrite skip_ws_head by reflexivity. change (char_is ":" 58) with true. cbv iota.
    rewrite skip_ws_dumps, Rv by (done || lia). by rewrite set_item_fresh. }
  destruct m as [|kv m].
  - simpl (commas _). rewrite Hstep by (constructor; simpl; tauto). reflexivity.
  - set (rest := commas (map field_text (kv :: m))) in *.
    change (commas (map field_text ((k, v) :: kv :: m))) with (field_text (k, v) +:+ "," +:+ rest) in *.
    rewrite !str_app_assoc, Hstep by (constructor; simpl; tauto).
    change ("," +:+ rest +:+ "}" +:+ u) with (String "," (rest +:+ "}" +:+ u)).
    rewrite skip_ws_head by reflexivity.
    change (char_is "," 125) with false. change (char_is "," 44) with true. cbv iota.
    assert (skip_ws (rest +:+ "}" +:+ u) = rest +:+ "}" +:+ u) as ->.
    { subst rest. destruct kv as [k' v'].
      destruct m; cbn [map commas]; rewrite ?str_app_assoc, field_text_app; by apply skip_ws_head. }
    subst rest. rewrite IH; [by rewrite <- app_assoc|done..| |].
    + unfold keys in *. rewrite map_app, <- app_assoc. exact Hd.
    + rewrite !str_app_length in Hn. simpl (String.length ",") in Hn. lia.
Qed.

Lemma ordered_perm m : Permutation (ordered m) m.
Proof. apply sort_by_perm. Qed.

Lemma Forall_perm {A} (P : A → Prop) l k : Permutation l k → Forall P k → Forall P l.
Proof. rewrite !List.Forall_forall. intros H HP x Hx. by apply HP, (Permutation_in _ H). Qed.

Lemma plain_list l : plain (JList l) ↔ Forall plain l.
Proof. induction l as [|x l IH]; simpl in *; [by split; constructor|]. rewrite Forall_cons. by rewrite <- IH. Qed.

Lemma plain_obj m : plain (JObj m) ↔ List.NoDup (keys m) ∧ Forall (λ kv, plain kv.2) m.
Proof.
  simpl. assert (((fix all (m : obj) := match m with [] => True | kv :: r => plain kv.2 ∧ all r end) m)
    ↔ Forall (λ kv, plain kv.2) m) as ->; [|done].
  induction m as [|x m IH]; simpl; [by split; constructor|]. rewrite Forall_cons. by rewrite <- IH.
Qed.

Lemma dumps_reads v : plain v → reads v.
Proof.
  induction v as [|b|z|f|s|l IH|m IH] using json_ind'; intros Hp n u Hu Hn.
  - destruct n; [simpl in Hn; lia|reflexivity].
  - destruct n; [destruct b; simpl in Hn; lia|by destruct b].
  - destruct (dumps_head (JInt z) I) as (a & r & E & _). rewrite E in Hn.
    destruct n; [simpl in Hn; lia|]. pose proof (parse_int z "" ends_text) as H.
    rewrite str_app_nil_r in H. by apply parse_value_scalar.
  - destruct (dumps_head (JFloat f) Hp) as (a & r & E & _). rewrite E in Hn.
    destruct n; [simpl in Hn; lia|]. apply parse_value_scalar; [by apply float_reads|done].
  - destruct n; [simpl in Hn; lia|]. simpl. unfold json_string. rewrite !str_app_assoc.
    change (quote +:+ escape s +:+ quote +:+ u) with (String "034" (escape s +:+ quote +:+ u)).
    cbn [parse_value]. change (is_quote "034") with true. cbv iota. by rewrite parse_escape.
  - apply plain_list in Hp. destruct l as [|v l].
    + destruct n; [simpl in Hn; lia|]. reflexivity.
    + set (t := commas (map dumps (v :: l))) in *.
      change (dumps (JList (v :: l))) with ("[" +:+ t +:+ "]") in *.
      rewrite !str_app_length in Hn. change (String.length "[") with 1%nat in Hn.
      change (String.length "]") with 1%nat in Hn. rewrite !str_app_assoc.
      change ("[" +:+ t +:+ "]" +:+ u) with (String "[" (t +:+ "]" +:+ u)).
      destruct n as [|n]; [lia|]. cbn [parse_value].
      change (is_quote "[") with false. change (char_is "[" 123) with false.
      change (char_is "[" 91) with true. cbv iota.
      inversion Hp as [|? ? Hv Hl]; subst.
      assert (∃ a r, t = String a r ∧ is_ws a = false ∧ char_is a 93 = false) as (a & r & E & Hw & Hc).
      { destruct (dumps_head v Hv) as (a & r & E & Hw & Hc & _). subst t.
        destruct l; simpl; rewrite E; do 2 eexists; (split; [reflexivity|done]). }
      assert (parse_elements n (t +:+ "]" +:+ u) [] = Some (JList (map canon (v :: l)), u)) as Hpe.
      { subst t. rewrite parse_elements_spec; [done|done|done| |lia].
        apply List.Forall_forall. intros x Hx. rewrite List.Forall_forall in IH, Hp. by apply IH, Hp. }
      rewrite E in *. change (String a r +:+ "]" +:+ u) with (String a (r +:+ "]" +:+ u)) in *.
      rewrite skip_ws_head, Hc by done. exact Hpe.
  - apply plain_obj in Hp as [Hd Hp]. rewrite dumps_obj in *. rewrite canon_obj.
    assert (Permutation (ordered m) m) as Hperm by apply ordered_perm.
    destruct (ordered m) as [|kv l] eqn:Eo.
    + destruct n; [simpl in Hn; lia|]. reflexivity.
    + fold field_text in *. change (λ kv, json_string kv.1 +:+ ":" +:+ dumps kv.2) with field_text in *.
      set (t := commas (map field_text (kv :: l))) in *.
      rewrite !str_app_length in Hn. simpl (String.length "{") in Hn. simpl (String.length "}") in Hn.
      rewrite !str_app_assoc.
      change ("{" +:+ t +:+ "}" +:+ u) with (String "{" (t +:+ "}" +:+ u)).
      destruct n as [|n]; [lia|]. cbn [parse_value].
      change (is_quote "{") with false. change (char_is "{" 123) with true. cbv iota.
      assert (∃ r, t = String "034" r) as (r & E).
      { subst t. destruct l; simpl; eexists; reflexivity. }
      assert (parse_members n (t +:+ "}" +:+ u) [] =
              Some (JObj (map (λ kv, (kv.1, canon kv.2)) (kv :: l)), u)) as Hpe.
      { subst t. rewrite parse_members_spec; [done|done| | | |lia].
        - by apply (Forall_perm _ _ m Hperm).
        - apply (Forall_perm _ _ m Hperm). rewrite List.Forall_forall in *.
          intros x Hx. by apply IH, Hp.
        - change (List.NoDup (keys (kv :: l))). apply (Permutation_NoDup (l := keys m)); [|done].
          symmetry. unfold keys. by apply Permutation_map. }
      rewrite E in *. change (String "034" r +:+ "}" +:+ u) with (String "034" (r +:+ "}" +:+ u)) in *.
      rewrite skip_ws_head by reflexivity. change (char_is "034" 125) with false. cbv iota. exact Hpe.
Qed.

(** Whitespace may follow. *)
Lemma loads_text v u :
  plain v → ends_number u → skip_ws u = "" → loads (dumps v +:+ u) = Some (canon v).
Proof.
  intros Hp Hu Hw. unfold loads. rewrite skip_ws_dumps by done.
  rewrite (dumps_reads v Hp) by (done || (rewrite str_app_length; lia)). by rewrite Hw.
Qed.

Lemma loads_canonical v : plain v → loads (canonical_bytes v) = Some (canon v).
Proof.
  intros Hp. Transparent canonical_bytes. unfold canonical_bytes.
  rewrite <- (str_app_nil_r (dumps v)). by apply loads_text; [|constructor|].
Qed.
#[global] Opaque canonical_bytes.

(** C27: JSON round trip.  What [canonical_bytes] writes for a value whose
    objects have distinct keys and whose floats are binary64 (finite or not),
    [json.loads] reads back: the same value with the keys of its objects in
    order.  The fuel of the reader is enough for every text, the seventeen
    digits the writer tries are enough for every float, and the decimal it
    settles on rounds back to it. *)
Theorem json_roundtrip v : plain v → loads (canonical_bytes v) = Some (canon v).
Proof. apply loads_canonical. Qed.

Lemma json_roundtrip_witness :
  let v := JObj [("b", JList [JInt (-7); JFloat (S754_finite false 6755399441055744 (-52)); JStr "line
break"]); ("a", JObj []); ("c", JNull)] in
  loads (canonical_bytes v) =
    Some (JObj [("a", JObj []); ("b", JList [JInt (-7); JFloat (S754_finite false 6755399441055744 (-52)); JStr "line
break"]); ("c", JNull)]).
Proof.
  intros v. rewrite (json_roundtrip v); [reflexivity|].
  vm_compute. repeat split; repeat constructor; intros H; repeat (destruct H as [H|H]; [discriminate|]); done.
Defined.
