(* ===== verification/Capture.v ===== *)
(** * Raw capture ([capture/schema.py], [capture/pipeline.py],
    [capture/durability.py])

    The closed raw-capture envelope, its builder and validator, the
    persist-first pipeline over injected ports, and the process-local
    durability phase. *)
From S2P Require Import Prelude PyTime Urn Contracts Codec.

Definition _TOP_LEVEL :=
  ["record_schema_version"; "input_event_id"; "operator_id"; "session_id";
   "node_id"; "captured_at"; "capture_mechanism"; "case"; "verdict";
   "alternatives"; "evidence"; "provenance"; "extensions"].
Definition _CAPTURE_MECHANISMS := ["claude_code_stop_hook"; "explicit_cli"; "approved_import"].
Definition _EVIDENCE_KINDS := ["operator_verbatim"; "artifact"; "context"].
Definition _DISPOSITIONS := ["chosen"; "rejected"].
Definition _MAX_TEXT : Z := 256 * 1024.
Definition _CASE_FIELDS := ["case_id"; "description"; "artifact_refs"; "source_refs"].
Definition _VERDICT_FIELDS :=
  ["verdict_id"; "raw_operator_text"; "call"; "chosen_alternative_ids";
   "rejected_alternative_ids"; "reason"; "reason_status"].
Definition _ALTERNATIVE_FIELDS := ["alternative_id"; "description"; "disposition"].
Definition _EVIDENCE_FIELDS := ["evidence_id"; "kind"; "content"; "content_sha256"; "source_locator"].
Definition _CAPTURE_PROVENANCE :=
  ["status"; "authority_tier"; "actor_class"; "actor_id"; "captured_by"; "model"; "evidence_ids"].

(** ** Validation *)
Definition byte_length (s : string) : Z := Z.of_nat (String.length s).

(** [_text(value, field)], non-nullable *)
Definition capture_text (value : json) (field : string) : res string :=
  match value with
  | JStr s =>
      raise_if (blank s) (ValidationError (field +:+ " must be a non-empty string")) ;;
      raise_if (_MAX_TEXT <? byte_length s) (ValidationError (field +:+ " is oversized")) ;;
      Ok s
  | _ => Err (ValidationError (field +:+ " must be a non-empty string"))
  end.

Definition require_keys (value : obj) (expected : list string) (field : string) : res unit :=
  require_exact_fields value expected field.

Definition capture_urn (k : string) (m : obj) (kind field : string) : res string :=
  v ← item k m; require_urn v (Some kind) field.

Definition capture_member (k : string) (m : obj) (allowed : list string) (msg : string) : res unit :=
  v ← item k m; b ← not_in_set v allowed; raise_if b (ValidationError msg).

Definition captured_at_check (v : json) : res unit :=
  match v with
  | JStr s =>
      match parse_rfc3339 s with
      | None => Err (ValidationError "captured_at must be RFC3339")
      | Some d =>
          raise_if (negb (match utcoffset d with Some 0 => true | _ => false end))
            (ValidationError "captured_at must be UTC")
      end
  | _ => Err (ValidationError "captured_at must be RFC3339")
  end.

Definition case_check (case : obj) : res unit :=
  v ← item "artifact_refs" case;
  let bad := ValidationError "case.artifact_refs must be strings" in
  l ← as_list v bad;
  raise_if (negb (forallb is_str l)) bad.

Definition call_check (verdict : obj) : res unit :=
  v ← item "call" verdict;
  call ← as_obj v (ValidationError "verdict.call must be an object");
  require_keys call ["call_id"; "call_type"] "call" ;;
  capture_urn "call_id" call "call" "call.call_id" ;;
  capture_member "call_type" call CALL_TYPES "invalid call_type".

Definition reason_check (verdict : obj) : res unit :=
  capture_member "reason_status" verdict REASON_STATUSES "invalid reason_status" ;;
  reason ← item "reason" verdict;
  status ← item "reason_status" verdict;
  let given := str_is status "supplied" || str_is status "later_added" in
  if is_null reason
  then raise_if given (ValidationError "reason status fabricates a missing reason")
  else capture_text reason "verdict.reason" ;;
       raise_if (negb given) (ValidationError "reason and reason_status disagree").

(** One turn of the loop that fills [by_id]. *)
Definition add_alternative (by_id : list (string * string)) (item_ : json)
    : res (list (string * string)) :=
  o ← as_obj item_ (ValidationError "alternative must be an object");
  require_keys o _ALTERNATIVE_FIELDS "alternative" ;;
  identifier ← capture_urn "alternative_id" o "alternative" "alternative.alternative_id";
  d ← item "description" o; capture_text d "alternative.description" ;;
  disposition ← item "disposition" o;
  b ← not_in_set disposition _DISPOSITIONS;
  raise_if (b || has_key identifier by_id)
    (ValidationError "invalid or duplicate alternative") ;;
  Ok (by_id ++ [(identifier, match disposition with JStr s => s | _ => "" end)]).

Definition alternative_ids_check (verdict : obj) (by_id : list (string * string))
    (key disposition : string) : res (list json) :=
  v ← item key verdict;
  let bad := ValidationError ("verdict." +:+ key +:+ " must be a unique list") in
  ids ← as_list v bad;
  dup ← has_duplicates ids;
  raise_if dup bad ;;
  raise_if
    (existsb (λ i, negb match i with
                        | JStr s => match assoc s by_id with
                                    | Some d => String.eqb d disposition
                                    | None => false end
                        | _ => false end) ids)
    (ValidationError ("verdict." +:+ key +:+ " does not match alternatives")) ;;
  Ok ids.

Definition alternatives_check (value verdict : obj) : res (list (string * string)) :=
  v ← item "alternatives" value;
  l ← as_list v (ValidationError "alternatives must be a list");
  by_id ← fold_res add_alternative [] l;
  chosen ← alternative_ids_check verdict by_id "chosen_alternative_ids" "chosen";
  rejected ← alternative_ids_check verdict by_id "rejected_alternative_ids" "rejected";
  raise_if (negb (set_eq (keys by_id) (strs (chosen ++ rejected))))
    (ValidationError "unreferenced alternative") ;;
  Ok by_id.

(** One turn of the evidence loop; the state is the set of identifiers. *)
Definition add_evidence (seen : list string) (item_ : json) : res (list string) :=
  o ← as_obj item_ (ValidationError "evidence item must be an object");
  require_keys o _EVIDENCE_FIELDS "evidence" ;;
  identifier ← capture_urn "evidence_id" o "evidence" "evidence.evidence_id";
  v ← item "content" o; content ← capture_text v "evidence.content";
  kind ← item "kind" o;
  b ← not_in_set kind _EVIDENCE_KINDS;
  raise_if (b || mem identifier seen) (ValidationError "invalid or duplicate evidence") ;;
  h ← item "content_sha256" o;
  raise_if (negb match h with JStr s => is_sha256_hex s | _ => false end)
    (ValidationError "invalid evidence hash") ;;
  raise_if (negb (str_is h (sha256 content))) (ValidationError "evidence hash mismatch") ;;
  l ← item "source_locator" o; capture_text l "evidence.source_locator" ;;
  Ok (seen ++ [identifier]).

Definition is_verbatim (text : json) (e : json) : bool :=
  match e with
  | JObj o => str_is (get "kind" o) "operator_verbatim" && py_eq (get "content" o) text
  | _ => false
  end.

Definition evidence_check (value case verdict : obj) : res (list string) :=
  v ← item "evidence" value;
  let bad := ValidationError "evidence must be a non-empty list" in
  l ← as_list v bad;
  raise_if (match l with [] => true | _ => false end) bad ;;
  ids ← fold_res add_evidence [] l;
  refs ← item "source_refs" case;
  let unknown := ValidationError "case.source_refs contains an unknown evidence ID" in
  rl ← as_list refs unknown;
  outside ← has_outside rl ids;
  raise_if outside unknown ;;
  text ← item "raw_operator_text" verdict;
  raise_if (negb (existsb (is_verbatim text) l))
    (ValidationError "verbatim operator evidence is missing") ;;
  Ok ids.

Definition capture_provenance_check (value : obj) (evidence_ids : list string) : res unit :=
  v ← item "provenance" value;
  p ← as_obj v (ValidationError "provenance must be an object");
  require_keys p _CAPTURE_PROVENANCE "provenance" ;;
  status ← item "status" p;
  tier ← item "authority_tier" p;
  actor_class ← item "actor_class" p;
  model ← item "model" p;
  raise_if (negb (str_is status "captured") || negb (str_is tier "observed_candidate")
            || negb (str_is actor_class "software") || negb (is_null model))
    (ValidationError "raw recorder capture must remain a non-authoritative candidate") ;;
  actor ← item "actor_id" p;
  by_ ← item "captured_by" p;
  ids ← item "evidence_ids" p;
  let incomplete := ValidationError "provenance references are incomplete" in
  raise_if (negb (py_eq actor by_)) incomplete ;;
  l ← iterate ids;
  same ← same_set l (map JStr evidence_ids);
  raise_if (negb same) incomplete ;;
  capture_text by_ "provenance.captured_by" ;; Ok tt.

Definition extension_check (kv : string * json) : res unit :=
  match kv.2 with
  | JObj e =>
      raise_if (negb (contains "." kv.1)) (ValidationError "invalid extension namespace") ;;
      raise_if (negb (set_eq (keys e) ["schema_version"; "payload"]))
        (ValidationError "extension must contain schema_version and payload only")
  | _ => Err (ValidationError "invalid extension namespace")
  end.

Definition capture_extensions_check (value : obj) : res unit :=
  v ← item "extensions" value;
  m ← as_obj v (ValidationError "extensions must be an object");
  for_each extension_check m.

Definition validate_capture_envelope (value : json) : res obj :=
  m ← as_obj value (ValidationError "capture envelope must be an object");
  require_keys m _TOP_LEVEL "top-level" ;;
  version ← item "record_schema_version" m;
  raise_if (negb (str_is version RECORD_SCHEMA_VERSION))
    (ValidationError "unsupported record schema version") ;;
  capture_urn "input_event_id" m "event" "input_event_id" ;;
  capture_urn "operator_id" m "operator" "operator_id" ;;
  capture_urn "session_id" m "session" "session_id" ;;
  node ← item "node_id" m;
  raise_if (negb match node with JStr s => safe_id s | _ => false end)
    (ValidationError "unsafe node_id") ;;
  capture_member "capture_mechanism" m _CAPTURE_MECHANISMS "invalid capture_mechanism" ;;
  v ← item "captured_at" m; captured_at_check v ;;
  c ← item "case" m;
  v ← item "verdict" m;
  let objects := ValidationError "case and verdict must be objects" in
  case ← as_obj c objects;
  verdict ← as_obj v objects;
  require_keys case _CASE_FIELDS "case" ;;
  require_keys verdict _VERDICT_FIELDS "verdict" ;;
  capture_urn "case_id" case "case" "case.case_id" ;;
  capture_urn "verdict_id" verdict "verdict" "verdict.verdict_id" ;;
  v ← item "description" case; capture_text v "case.description" ;;
  v ← item "raw_operator_text" verdict; capture_text v "verdict.raw_operator_text" ;;
  case_check case ;;
  call_check verdict ;;
  reason_check verdict ;;
  alternatives_check m verdict ;;
  evidence_ids ← evidence_check m case verdict;
  capture_provenance_check m evidence_ids ;;
  capture_extensions_check m ;;
  raise_if (MAX_EVENT_BYTES <? byte_length (canonical_bytes value))
    (ValidationError "capture envelope is oversized") ;;
  Ok m.

(** ** Building an envelope

    Fresh identifiers come from [uuid.uuid4]: the [n]-th call of a run returns
    [uuids n].  [gen] threads the number of calls made so far. *)
Definition gen (A : Type) : Type := nat → res (A * nat).

Definition gret {A} (a : A) : gen A := λ n, Ok (a, n).
Definition lift {A} (m : res A) : gen A := λ n, a ← m; Ok (a, n).
Definition gbind {A B} (m : gen A) (f : A → gen B) : gen B :=
  λ n, '(a, k) ← m n; f a k.

Declare Scope gen_scope.
Notation "x <~ m ; k" := (gbind m (λ x, k))
  (at level 100, m at next level, right associativity) : gen_scope.

Fixpoint gmap_list {A B} (f : A → gen B) (l : list A) : gen (list B) :=
  match l with
  | [] => gret []
  | x :: r => gbind (f x) (λ y, gbind (gmap_list f r) (λ ys, gret (y :: ys)))
  end.

Record capture_request : Type := {
  rq_operator_id : string; rq_session_id : string; rq_node_id : string;
  rq_case_description : string; rq_raw_operator_text : string; rq_call_type : string;
  rq_capture_mechanism : string; rq_captured_by : string;
  rq_reason : option string; rq_reason_status : option string;
  rq_chosen : list json; rq_rejected : list json;
  rq_artifact_refs : list string; rq_contextual : list obj;
  rq_input_event_id : option string; rq_captured_at : option string;
  rq_extensions : obj
}.

Section build.
Context (uuids : nat → Z) (now : datetime).
#[local] Open Scope gen_scope.

Definition new_urn (kind : string) : gen string :=
  λ n, s ← make_urn (uuids n) kind; Ok (s, S n).

(** [given or new_urn(kind)] *)
Definition given_or_new (given : json) (kind : string) : gen json :=
  if truthy given then gret given else s <~ new_urn kind; gret (JStr s).

Definition _alternative (disposition : string) (value : json) : gen json :=
  let make (description identifier : json) :=
    gret (JObj [("alternative_id", identifier); ("description", description);
                ("disposition", JStr disposition)]) in
  match value with
  | JStr s => i <~ new_urn "alternative"; make value (JStr i)
  | JObj m =>
      d <~ lift (capture_text (get "description" m) "alternative.description");
      i <~ given_or_new (get "alternative_id" m) "alternative";
      make (JStr d) i
  | _ => lift (Err (ValidationError "alternative must be a string or object"))
  end.

Definition evidence_item (identifier kind : json) (content locator : string) : json :=
  JObj [("evidence_id", identifier); ("kind", kind); ("content", JStr content);
        ("content_sha256", JStr (sha256 content)); ("source_locator", JStr locator)].

Definition contextual_item (item_ : obj) : gen json :=
  content <~ lift (capture_text (get "content" item_) "evidence.content");
  i <~ given_or_new (get "evidence_id" item_) "evidence";
  locator <~ lift (capture_text (get "source_locator" item_) "evidence.source_locator");
  gret (evidence_item i (get_default "kind" (JStr "context") item_) content locator).

Definition field_of (k : string) (v : json) : json :=
  match v with JObj m => get k m | _ => JNull end.

Definition opt_given (o : option string) : bool :=
  match o with Some s => negb (String.eqb s "") | None => false end.

Definition reason_status_of (rq : capture_request) : string :=
  match rq_reason_status rq, rq_reason rq with
  | Some s, _ => s
  | None, Some _ => "supplied"
  | None, None => "absent"
  end.

Definition request_reason_check (rq : capture_request) : res unit :=
  let given := mem (reason_status_of rq) ["supplied"; "later_added"] in
  match rq_reason rq with
  | None => raise_if given (ValidationError "a supplied/later_added reason cannot be null")
  | Some _ => raise_if (negb given)
                (ValidationError "reason text requires supplied or later_added status")
  end.

Definition build_capture_envelope (rq : capture_request) : gen obj :=
  raw <~ lift (capture_text (JStr (rq_raw_operator_text rq)) "raw_operator_text");
  _ <~ lift (request_reason_check rq);
  chosen <~ gmap_list (_alternative "chosen") (rq_chosen rq);
  rejected <~ gmap_list (_alternative "rejected") (rq_rejected rq);
  evidence_id <~ new_urn "evidence";
  contextual <~ gmap_list contextual_item (rq_contextual rq);
  let evidence :=
    evidence_item (JStr evidence_id) (JStr "operator_verbatim") raw
      ("capture:" +:+ rq_session_id rq) :: contextual in
  let evidence_ids := JList (map (field_of "evidence_id") evidence) in
  event <~ (if opt_given (rq_input_event_id rq)
            then gret (default "" (rq_input_event_id rq)) else new_urn "event");
  let captured_at :=
    if opt_given (rq_captured_at rq) then default "" (rq_captured_at rq)
    else isoformat_utc now in
  case_id <~ new_urn "case";
  description <~ lift (capture_text (JStr (rq_case_description rq)) "case.description");
  verdict_id <~ new_urn "verdict";
  call_id <~ new_urn "call";
  by_ <~ lift (capture_text (JStr (rq_captured_by rq)) "captured_by");
  lift (validate_capture_envelope (JObj
    [("record_schema_version", JStr RECORD_SCHEMA_VERSION);
     ("input_event_id", JStr event);
     ("operator_id", JStr (rq_operator_id rq));
     ("session_id", JStr (rq_session_id rq));
     ("node_id", JStr (rq_node_id rq));
     ("captured_at", JStr captured_at);
     ("capture_mechanism", JStr (rq_capture_mechanism rq));
     ("case", JObj [("case_id", JStr case_id); ("description", JStr description);
                    ("artifact_refs", JList (map JStr (rq_artifact_refs rq)));
                    ("source_refs", evidence_ids)]);
     ("verdict", JObj
        [("verdict_id", JStr verdict_id); ("raw_operator_text", JStr raw);
         ("call", JObj [("call_id", JStr call_id); ("call_type", JStr (rq_call_type rq))]);
         ("chosen_alternative_ids", JList (map (field_of "alternative_id") chosen));
         ("rejected_alternative_ids", JList (map (field_of "alternative_id") rejected));
         ("reason", opt_str (rq_reason rq)); ("reason_status", JStr (reason_status_of rq))]);
     ("alternatives", JList (chosen ++ rejected));
     ("evidence", JList evidence);
     ("provenance", JObj
        [("status", JStr "captured"); ("authority_tier", JStr "observed_candidate");
         ("actor_class", JStr "software"); ("actor_id", JStr by_); ("captured_by", JStr by_);
         ("model", JNull); ("evidence_ids", evidence_ids)]);
     ("extensions", JObj (rq_extensions rq))])).
End build.

(** ** The durability phase ([capture/durability.py]) *)
Inductive phase := not_started | persisting | persisted.

Definition reset_stop_capture_phase (_ : phase) : phase := not_started.
Definition mark_stop_capture_persisting (_ : phase) : phase := persisting.
Definition mark_stop_capture_persisted (_ : phase) : phase := persisted.
Definition stop_capture_is_durable (p : phase) : bool :=
  match p with persisted => true | _ => false end.

(** ** The pipeline ([capture/pipeline.py]) *)
Record FeedbackDetection : Type := {
  is_feedback : bool; route : string; call_type : option string; marker : option string;
  confidence : spec_float
}.

(** What an injected port does: return a value or raise an exception of the
    named class. *)
Inductive port (A : Type) : Type := Returned (a : A) | Raised (class : string).
Arguments Returned {A} a.
Arguments Raised {A} class.

(** The calls the pipeline makes on its ports, in order. *)
Inductive port_event : Type :=
| EvPersist (envelope : obj)
| EvPropose (envelope : obj)
| EvFailure (stage error_type input_event_id : string).

Record CaptureResult : Type := {
  cr_detection : FeedbackDetection; cr_persisted : bool; cr_envelope : option obj;
  cr_receipt : option json; cr_proposal : option obj; cr_derivation_error : option string
}.

Record run : Type := { run_phase : phase; run_trace : list port_event; run_uuids : nat }.

Section pipeline.
Context (uuids : nat → Z) (now : datetime).
(** The gate's verdict on the operator's text, and the two ports. *)
Context (detect : string → option string → option string → FeedbackDetection)
        (persist : obj → port json)
        (proposer : option (obj → FeedbackDetection → port obj)).

Definition record_event (e : port_event) (r : run) : run :=
  {| run_phase := run_phase r; run_trace := run_trace r ++ [e]; run_uuids := run_uuids r |}.
Definition set_phase (f : phase → phase) (r : run) : run :=
  {| run_phase := f (run_phase r); run_trace := run_trace r; run_uuids := run_uuids r |}.

Definition log_failure (stage class : string) (envelope : obj) : run → run :=
  record_event (EvFailure stage class
    (match get "input_event_id" envelope with JStr s => s | _ => "" end)).

Definition persisted_result (d : FeedbackDetection) (envelope : obj) (receipt : json)
    (proposal : option obj) (error : option string) : CaptureResult :=
  {| cr_detection := d; cr_persisted := true; cr_envelope := Some envelope;
     cr_receipt := Some receipt; cr_proposal := proposal; cr_derivation_error := error |}.

(** The pipeline passes the detected call type to the builder. *)
Definition with_call_type (rq : capture_request) (d : FeedbackDetection) : capture_request :=
  {| rq_operator_id := rq_operator_id rq; rq_session_id := rq_session_id rq;
     rq_node_id := rq_node_id rq; rq_case_description := rq_case_description rq;
     rq_raw_operator_text := rq_raw_operator_text rq;
     rq_call_type := default "" (call_type d);
     rq_capture_mechanism := rq_capture_mechanism rq; rq_captured_by := rq_captured_by rq;
     rq_reason := rq_reason rq; rq_reason_status := rq_reason_status rq;
     rq_chosen := rq_chosen rq; rq_rejected := rq_rejected rq;
     rq_artifact_refs := rq_artifact_refs rq; rq_contextual := rq_contextual rq;
     rq_input_event_id := rq_input_event_id rq; rq_captured_at := rq_captured_at rq;
     rq_extensions := rq_extensions rq |}.

Definition capture (rq : capture_request) (prior_operator_text prior_assistant_output : option string)
    (r : run) : res CaptureResult * run :=
  let detection := detect (rq_raw_operator_text rq) prior_operator_text prior_assistant_output in
  if negb (is_feedback detection) then
    (Ok {| cr_detection := detection; cr_persisted := false; cr_envelope := None;
           cr_receipt := None; cr_proposal := None; cr_derivation_error := None |}, r)
  else
    match build_capture_envelope uuids now (with_call_type rq detection) (run_uuids r) with
    | Err e => (Err e, r)
    | Ok (envelope, n) =>
        let r := {| run_phase := run_phase r; run_trace := run_trace r; run_uuids := n |} in
        let r := record_event (EvPersist envelope) (set_phase mark_stop_capture_persisting r) in
        match persist envelope with
        | Raised class =>
            (Err (CapturePersistenceError
                    "explicit feedback was not durably spooled; derivation aborted"),
             log_failure "raw_spool" class envelope r)
        | Returned receipt =>
            let r := set_phase mark_stop_capture_persisted r in
            match proposer with
            | None => (Ok (persisted_result detection envelope receipt None None), r)
            | Some propose =>
                let r := record_event (EvPropose envelope) r in
                match propose envelope detection with
                | Raised class =>
                    (Ok (persisted_result detection envelope receipt None (Some class)),
                     log_failure "proposal" class envelope r)
                | Returned proposal =>
                    (Ok (persisted_result detection envelope receipt (Some proposal) None), r)
                end
            end
        end
    end.
End pipeline.

(** ** What the validator guarantees *)

(** The members of [m] are exactly [fields]. *)
Definition exact_fields (m : obj) (fields : list string) : Prop := ∀ k, In k (keys m) ↔ In k fields.

Definition evidence_ok (e : json) (identifier : string) : Prop :=
  ∃ o content, e = JObj o ∧ assoc "evidence_id" o = Some (JStr identifier) ∧
    is_urn (Some "evidence") identifier ∧ assoc "content" o = Some (JStr content) ∧
    assoc "content_sha256" o = Some (JStr (sha256 content)) ∧ exact_fields o _EVIDENCE_FIELDS ∧
    ∃ kind, assoc "kind" o = Some (JStr kind) ∧ In kind _EVIDENCE_KINDS.

Definition alternative_ok (a : json) (entry : string * string) : Prop :=
  ∃ o, a = JObj o ∧ assoc "alternative_id" o = Some (JStr entry.1) ∧
    is_urn (Some "alternative") entry.1 ∧ assoc "disposition" o = Some (JStr entry.2) ∧
    In entry.2 _DISPOSITIONS ∧ exact_fields o _ALTERNATIVE_FIELDS.

Lemma capture_text_Ok v f s :
  capture_text v f = Ok s ↔ v = JStr s ∧ blank s = false ∧ byte_length s ≤ _MAX_TEXT.
Proof.
  destruct v; try (split; naive_solver). unfold capture_text. split.
  - intros H. inv_ok. bool_hyps. done.
  - intros ([= <-] & Hb & Hl%Z.ltb_ge). by rewrite Hb, Hl.
Qed.

Lemma add_evidence_Ok seen e ids :
  add_evidence seen e = Ok ids →
  ∃ i, ids = seen ++ [i] ∧ evidence_ok e i ∧ ~ In i seen.
Proof.
  unfold add_evidence, capture_urn, require_keys. intros H. inv_checks.
  repeat match goal with H : capture_text _ _ = Ok _ |- _ => apply capture_text_Ok in H as (-> & _ & _) end.
  bool_hyps. repeat match goal with H : str_is _ _ = true |- _ => apply str_is_true in H as -> end.
  subst. match goal with H : not_in_set _ _ = Ok false |- _ => apply not_in_set_false in H as (kind & -> & Hk) end.
  eexists. split; [done|]. split; [|by apply mem_not_In].
  do 2 eexists. split_and!; [reflexivity|eassumption..|]. exists kind. split; [eassumption|by apply mem_In].
Qed.

Lemma evidence_loop l ids :
  fold_res add_evidence [] l = Ok ids → Forall2 evidence_ok l ids ∧ List.NoDup ids.
Proof.
  intros H. change l with ([] ++ l).
  apply (fold_res_inv add_evidence (λ d s, Forall2 evidence_ok d s ∧ List.NoDup s) l [] [] ids);
    [by split; constructor|done|].
  intros d s x s' [Hd Hs] (i & -> & He & Hi)%add_evidence_Ok. split.
  - by apply List.Forall2_app; [|repeat constructor].
  - apply List.NoDup_app; [done|repeat constructor; auto|].
    intros a Ha [<-|[]]. done.
Qed.

Lemma add_alternative_Ok by_id a by_id' :
  add_alternative by_id a = Ok by_id' →
  ∃ i d, by_id' = by_id ++ [(i, d)] ∧ alternative_ok a (i, d) ∧ ~ In i (keys by_id).
Proof.
  unfold add_alternative, capture_urn, require_keys. intros H. inv_checks. bool_hyps. subst.
  match goal with H : not_in_set _ _ = Ok false |- _ => apply not_in_set_false in H as (? & -> & ?) end.
  eexists _, _. split; [done|]. split.
  - eexists. split; [done|]. split_and!; try eassumption. by apply mem_In.
  - by apply mem_not_In.
Qed.

Lemma alternatives_loop l by_id :
  fold_res add_alternative [] l = Ok by_id →
  Forall2 alternative_ok l by_id ∧ List.NoDup (keys by_id).
Proof.
  intros H. change l with ([] ++ l).
  apply (fold_res_inv add_alternative (λ d s, Forall2 alternative_ok d s ∧ List.NoDup (keys s))
           l [] [] by_id); [by split; constructor|done|].
  intros d s x s' [Hd Hs] (i & di & -> & Ha & Hi)%add_alternative_Ok. split.
  - by apply List.Forall2_app; [|repeat constructor].
  - unfold keys in *. rewrite map_app. apply List.NoDup_app; [done|repeat constructor; auto|].
    intros k Hk [<-|[]]. done.
Qed.

Lemma alternative_ids_Ok verdict by_id key d ids :
  alternative_ids_check verdict by_id key d = Ok ids →
  assoc key verdict = Some (JList ids) ∧ ids = map JStr (strs ids) ∧ List.NoDup (strs ids) ∧
  ∀ x, In x (strs ids) → assoc x by_id = Some d.
Proof.
  unfold alternative_ids_check. intros H. inv_checks.
  match goal with H : existsb ?p _ = false |- _ => rename H into He; set (f := p) in He end.
  assert (∀ v, In v ids → ∃ s, v = JStr s ∧ assoc s by_id = Some d) as Hv.
  { intros v Hv. destruct (f v) eqn:Hf.
    { assert (existsb f ids = true) by (apply existsb_exists; eauto). congruence. }
    unfold f in Hf. destruct v as [| | | |s| |]; try discriminate. exists s. split; [done|].
    destruct (assoc s by_id); [|discriminate]. apply negb_false_iff, String.eqb_eq in Hf. by subst. }
  destruct (Forall_strs (λ s, assoc s by_id = Some d) ids) as [E Hf].
  { by apply List.Forall_forall. }
  split; [done|]. split; [done|]. split.
  - match goal with H : has_duplicates ids = _ |- _ => rewrite E in H end. by apply has_duplicates_strs.
  - by apply List.Forall_forall.
Qed.

Lemma assoc_nodup {A} k (v : A) m : List.NoDup (keys m) → In (k, v) m → assoc k m = Some v.
Proof.
  induction m as [|[k' v'] m IH]; simpl; [done|]. intros [Hk Hn]%List.NoDup_cons_iff [[= -> ->]|H].
  - by rewrite String.eqb_refl.
  - destruct (String.eqb_spec k k') as [->|]; [|auto].
    destruct Hk. apply (in_map fst) in H. done.
Qed.

(** [namespace: {schema_version, payload}] *)
Definition extension_ok (kv : string * json) : Prop :=
  contains "." kv.1 = true ∧ ∃ e, kv.2 = JObj e ∧ exact_fields e ["schema_version"; "payload"].

Record capture_spec (m case verdict p : obj) (by_id : list (string * string))
    (evidence : list json) (ids : list string) : Prop := {
  cap_parts : assoc "case" m = Some (JObj case) ∧ assoc "verdict" m = Some (JObj verdict) ∧
              assoc "provenance" m = Some (JObj p) ∧ assoc "evidence" m = Some (JList evidence);
  cap_closed : exact_fields m _TOP_LEVEL ∧ exact_fields case _CASE_FIELDS ∧ exact_fields verdict _VERDICT_FIELDS ∧
    exact_fields p _CAPTURE_PROVENANCE ∧
    (∃ call, assoc "call" verdict = Some (JObj call) ∧ exact_fields call ["call_id"; "call_type"]) ∧
    ∃ extensions, assoc "extensions" m = Some (JObj extensions) ∧ Forall extension_ok extensions;
  cap_identified : assoc "record_schema_version" m = Some (JStr RECORD_SCHEMA_VERSION) ∧
    (∃ event operator session, assoc "input_event_id" m = Some (JStr event) ∧ is_urn (Some "event") event ∧
       assoc "operator_id" m = Some (JStr operator) ∧ is_urn (Some "operator") operator ∧
       assoc "session_id" m = Some (JStr session) ∧ is_urn (Some "session") session) ∧
    byte_length (canonical_bytes (JObj m)) ≤ MAX_EVENT_BYTES;
  cap_candidate : assoc "status" p = Some (JStr "captured") ∧
    assoc "authority_tier" p = Some (JStr "observed_candidate") ∧
    assoc "actor_class" p = Some (JStr "software") ∧ assoc "model" p = Some JNull ∧
    ∃ v cited, assoc "evidence_ids" p = Some v ∧ iterate v = Ok (map JStr cited) ∧ ∀ x, In x cited ↔ In x ids;
  cap_evidence : Forall2 evidence_ok evidence ids ∧ List.NoDup ids;
  cap_refs : ∃ refs, assoc "source_refs" case = Some (JList (map JStr refs)) ∧
             Forall (λ s, In s ids) refs;
  cap_verbatim : ∃ text o, assoc "raw_operator_text" verdict = Some (JStr text) ∧
    blank text = false ∧ byte_length text ≤ _MAX_TEXT ∧ In (JObj o) evidence ∧
    assoc "kind" o = Some (JStr "operator_verbatim") ∧ assoc "content" o = Some (JStr text) ∧
    assoc "content_sha256" o = Some (JStr (sha256 text));
  cap_alternatives : ∃ l, assoc "alternatives" m = Some (JList l) ∧ Forall2 alternative_ok l by_id ∧
    List.NoDup (keys by_id);
  cap_choices : ∃ chosen rejected,
    assoc "chosen_alternative_ids" verdict = Some (JList (map JStr chosen)) ∧
    assoc "rejected_alternative_ids" verdict = Some (JList (map JStr rejected)) ∧
    List.NoDup (chosen ++ rejected) ∧
    (∀ x, In x chosen ↔ In (x, "chosen") by_id) ∧ (∀ x, In x rejected ↔ In (x, "rejected") by_id);
  cap_reason : ∃ reason status, assoc "reason" verdict = Some reason ∧
    assoc "reason_status" verdict = Some (JStr status) ∧
    (reason = JNull ↔ ~ In status ["supplied"; "later_added"])
}.

Lemma alternatives_check_Ok m verdict by_id :
  alternatives_check m verdict = Ok by_id →
  (∃ l, assoc "alternatives" m = Some (JList l) ∧ Forall2 alternative_ok l by_id ∧
        List.NoDup (keys by_id)) ∧
  ∃ chosen rejected,
    assoc "chosen_alternative_ids" verdict = Some (JList (map JStr chosen)) ∧
    assoc "rejected_alternative_ids" verdict = Some (JList (map JStr rejected)) ∧
    List.NoDup (chosen ++ rejected) ∧
    (∀ x, In x chosen ↔ In (x, "chosen") by_id) ∧ (∀ x, In x rejected ↔ In (x, "rejected") by_id).
Proof.
  unfold alternatives_check. intros H. inv_checks. bool_hyps.
  match goal with H : fold_res _ _ _ = _ |- _ => apply alternatives_loop in H as [Hl Hn] end.
  split; [eauto|].
  repeat match goal with H : alternative_ids_check _ _ _ _ = _ |- _ =>
    apply alternative_ids_Ok in H as (? & ? & ? & ?) end.
  match goal with H : set_eq _ (strs (?c ++ ?r)) = true |- _ =>
    rename c into cl; rename r into rl; rename H into Hset end.
  exists (strs cl), (strs rl). unfold strs in Hset. rewrite flat_map_app in Hset.
  fold (strs cl) in Hset. fold (strs rl) in Hset. rewrite set_eq_In in Hset.
  split_and!; [congruence|congruence| |..].
  - apply List.NoDup_app; [done|done|]. intros a Ha Hb.
    assert (Some "chosen" = Some "rejected") by (transitivity (assoc a by_id); [symmetry|]; auto).
    discriminate.
  - intros x. split; [auto using assoc_In|]. intros Hx.
    assert (In x (strs cl ++ strs rl)) as [?|Hr]%in_app_iff
      by (apply Hset; by apply (in_map fst) in Hx); [done|].
    apply assoc_nodup in Hx; [|done].
    assert (Some "chosen" = Some "rejected") by (transitivity (assoc x by_id); [symmetry|]; auto).
    discriminate.
  - intros x. split; [auto using assoc_In|]. intros Hx.
    assert (In x (strs cl ++ strs rl)) as [Hr|?]%in_app_iff
      by (apply Hset; by apply (in_map fst) in Hx); [|done].
    apply assoc_nodup in Hx; [|done].
    assert (Some "chosen" = Some "rejected") by (transitivity (assoc x by_id); [symmetry|]; auto).
    discriminate.
Qed.

Lemma evidence_member l ids e :
  Forall2 evidence_ok l ids → In e l → ∃ i, evidence_ok e i.
Proof. induction 1; simpl; [done|]. naive_solver. Qed.

Lemma get_str k o s : get k o = JStr s → assoc k o = Some (JStr s).
Proof. unfold get. destruct (assoc k o); naive_solver. Qed.

Lemma evidence_check_Ok m case verdict ids :
  evidence_check m case verdict = Ok ids →
  ∃ l text, assoc "evidence" m = Some (JList l) ∧ Forall2 evidence_ok l ids ∧ List.NoDup ids ∧
    (∃ refs, assoc "source_refs" case = Some (JList (map JStr refs)) ∧ Forall (λ s, In s ids) refs) ∧
    assoc "raw_operator_text" verdict = Some text ∧
    ∀ s, text = JStr s → ∃ o, In (JObj o) l ∧
      assoc "kind" o = Some (JStr "operator_verbatim") ∧ assoc "content" o = Some (JStr s) ∧
      assoc "content_sha256" o = Some (JStr (sha256 s)).
Proof.
  unfold evidence_check. intros H. inv_checks.
  match goal with H : fold_res _ _ _ = _ |- _ => apply evidence_loop in H as [Hl Hn] end.
  match goal with H : has_outside _ _ = _ |- _ => apply has_outside_strs in H as [Er Hr] end.
  bool_hyps. do 2 eexists. split_and!; [eassumption..| | |].
  - eexists. split; [|exact Hr]. rewrite <- Er. eassumption.
  - eassumption.
  - intros s ->.
    match goal with H : existsb _ _ = true |- _ => apply existsb_exists in H as (e & He & Hv) end.
    destruct (evidence_member _ _ _ Hl He) as (i & o & c & -> & _ & _ & Hc & Hh & _).
    simpl in Hv. bool_hyps.
    match goal with H : str_is _ _ = true |- _ => apply str_is_true, get_str in H end.
    match goal with H : py_eq _ _ = true |- _ => apply py_eq_str, get_str in H end.
    exists o. split_and!; congruence || done.
Qed.

Lemma capture_provenance_Ok m ids u :
  capture_provenance_check m ids = Ok u →
  ∃ p, assoc "provenance" m = Some (JObj p) ∧
    assoc "status" p = Some (JStr "captured") ∧
    assoc "authority_tier" p = Some (JStr "observed_candidate") ∧
    assoc "actor_class" p = Some (JStr "software") ∧ assoc "model" p = Some JNull ∧
    (∃ v cited, assoc "evidence_ids" p = Some v ∧ iterate v = Ok (map JStr cited) ∧ ∀ x, In x cited ↔ In x ids) ∧
    exact_fields p _CAPTURE_PROVENANCE.
Proof.
  unfold capture_provenance_check, require_keys. intros H. inv_checks. bool_hyps.
  match goal with H : same_set ?l _ = Ok _, Hi : iterate ?v = Ok ?l |- _ => rename H into Hs; rename Hi into Hl end.
  repeat match goal with
  | H : str_is _ _ = true |- _ => apply str_is_true in H as ->
  | H : is_null _ = true |- _ => apply is_null_true in H as ->
  end. subst. apply same_set_strs in Hs as [El Hs].
  eexists. split_and!; [eassumption..| |eassumption]. do 2 eexists. split_and!; [eassumption|by rewrite Hl, <- El|done].
Qed.

Lemma reason_check_Ok verdict u :
  reason_check verdict = Ok u →
  ∃ reason status, assoc "reason" verdict = Some reason ∧
    assoc "reason_status" verdict = Some (JStr status) ∧
    (reason = JNull ↔ ~ In status ["supplied"; "later_added"]).
Proof.
  unfold reason_check, capture_member. intros H. inv_checks. subst.
  do 2 eexists. split_and!; [eassumption..|].
  rewrite <- mem_In, not_true_iff_false. unfold mem. simpl in *. rewrite orb_false_r.
  destruct (is_null _) eqn:N; simpl in *.
  - apply is_null_true in N as ->. inv_ok. done.
  - inv_ok. bool_hyps. destruct (_ || _); [|done].
    split; [intros ->; discriminate|done].
Qed.

Lemma call_check_Ok verdict u :
  call_check verdict = Ok u →
  ∃ call, assoc "call" verdict = Some (JObj call) ∧ exact_fields call ["call_id"; "call_type"].
Proof. unfold call_check, require_keys. intros H. inv_checks. eauto. Qed.

Lemma extension_check_Ok kv u : extension_check kv = Ok u → extension_ok kv.
Proof.
  unfold extension_check, extension_ok. destruct kv.2 as [| | | | | |e]; try discriminate. intros H. inv_checks.
  bool_hyps. split; [done|]. exists e. split; [done|]. exact (proj1 (set_eq_In _ _) H).
Qed.

Lemma extensions_Ok m u :
  capture_extensions_check m = Ok u →
  ∃ extensions, assoc "extensions" m = Some (JObj extensions) ∧ Forall extension_ok extensions.
Proof.
  unfold capture_extensions_check. intros H. apply bind_Ok in H as (v & Hv & H). apply item_Ok in Hv.
  destruct v as [| | | | | |e]; try discriminate. exists e. split; [done|].
  change (for_each extension_check e = Ok u) in H. rewrite for_each_Ok in H.
  eapply List.Forall_impl; [|exact H]. intros kv. apply extension_check_Ok.
Qed.

Lemma capture_envelope_elim v r :
  validate_capture_envelope v = Ok r →
  v = JObj r ∧ ∃ case verdict p by_id evidence ids, capture_spec r case verdict p by_id evidence ids.
Proof.
  unfold validate_capture_envelope, require_keys, capture_urn. intros H. inv_checks. bool_hyps.
  repeat match goal with H : capture_text _ _ = Ok _ |- _ => apply capture_text_Ok in H as (-> & ? & ?) end.
  match goal with H : str_is _ RECORD_SCHEMA_VERSION = true |- _ => apply str_is_true in H as -> end.
  match goal with H : alternatives_check _ _ = _ |- _ => apply alternatives_check_Ok in H as [??] end.
  match goal with H : evidence_check _ _ _ = _ |- _ =>
    apply evidence_check_Ok in H as (l & text & ? & ? & ? & ? & Ht & Hv) end.
  match goal with H : capture_provenance_check _ _ = _ |- _ =>
    apply capture_provenance_Ok in H as (p & ? & ? & ? & ? & ? & ? & ?) end.
  match goal with H : reason_check _ = _ |- _ => apply reason_check_Ok in H end.
  match goal with H : call_check _ = _ |- _ => apply call_check_Ok in H end.
  match goal with H : capture_extensions_check _ = _ |- _ => apply extensions_Ok in H end.
  split; [done|]. do 6 eexists. constructor;
    [split_and!; eassumption|split_and!; eassumption| |split_and!; eassumption|split; eassumption|eassumption|
     |eassumption..].
  { split_and!; [eassumption| |eassumption]. do 3 eexists. split_and!; eassumption. }
  match goal with H : assoc "raw_operator_text" _ = Some (JStr _) |- _ =>
    rewrite H in Ht; injection Ht as <- end.
  destruct (Hv _ eq_refl) as (o & ? & ? & ? & ?). do 2 eexists. split_and!; eassumption.
Qed.

(** ** What the builder and the pipeline do *)
Lemma gbind_Ok {A B} (m : gen A) (f : A → gen B) n r :
  gbind m f n = Ok r ↔ ∃ a k, m n = Ok (a, k) ∧ f a k = Ok r.
Proof.
  unfold gbind. rewrite bind_Ok. split.
  - intros ([a k] & ? & ?). eauto.
  - intros (a & k & ? & ?). by exists (a, k).
Qed.

Lemma lift_Ok {A} (m : res A) n a k : lift m n = Ok (a, k) ↔ m = Ok a ∧ k = n.
Proof. unfold lift. rewrite bind_Ok. naive_solver. Qed.

Ltac inv_gen :=
  repeat match goal with
  | H : gbind _ _ _ = Ok _ |- _ => apply gbind_Ok in H as (? & ? & ? & H); cbv beta in H
  | H : lift _ _ = Ok (_, _) |- _ => apply lift_Ok in H as [H ->]
  | H : capture_text _ _ = Ok _ |- _ => apply capture_text_Ok in H as ([= <-] & ? & ?)
  end.

Record faithful_envelope (rq : capture_request) (env : obj) : Prop := {
  fe_valid : validate_capture_envelope (JObj env) = Ok env;
  fe_owner : assoc "operator_id" env = Some (JStr (rq_operator_id rq)) ∧
             assoc "session_id" env = Some (JStr (rq_session_id rq)) ∧
             assoc "node_id" env = Some (JStr (rq_node_id rq)) ∧
             assoc "extensions" env = Some (JObj (rq_extensions rq));
  fe_verdict : ∃ verdict, assoc "verdict" env = Some (JObj verdict) ∧
    assoc "raw_operator_text" verdict = Some (JStr (rq_raw_operator_text rq)) ∧
    assoc "reason" verdict = Some (opt_str (rq_reason rq)) ∧
    assoc "reason_status" verdict = Some (JStr (reason_status_of rq)) ∧
    ∃ call, assoc "call" verdict = Some (JObj call) ∧
      assoc "call_type" call = Some (JStr (rq_call_type rq));
  fe_case : ∃ case, assoc "case" env = Some (JObj case) ∧
    assoc "description" case = Some (JStr (rq_case_description rq)) ∧
    assoc "artifact_refs" case = Some (JList (map JStr (rq_artifact_refs rq)));
  fe_evidence : ∃ i rest, assoc "evidence" env = Some (JList
    (evidence_item (JStr i) (JStr "operator_verbatim") (rq_raw_operator_text rq)
       ("capture:" +:+ rq_session_id rq) :: rest)) ∧ length rest = length (rq_contextual rq)
}.

Lemma gmap_list_length {A B} (f : A → gen B) l : ∀ n ys k,
  gmap_list f l n = Ok (ys, k) → length ys = length l.
Proof.
  induction l as [|x l IH]; intros n ys k H; simpl in H.
  - by injection H as <- <-.
  - inv_gen. unfold gret in *. simplify_eq. simpl. f_equal. eauto.
Qed.

Lemma build_faithful uuids now rq n env k :
  build_capture_envelope uuids now rq n = Ok (env, k) → faithful_envelope rq env.
Proof.
  unfold build_capture_envelope. intros H. inv_gen.
  match goal with H : validate_capture_envelope _ = Ok _ |- _ =>
    pose proof H as Hv; apply capture_envelope_elim in H as [[= <-] _] end.
  match goal with H : gmap_list (contextual_item _) _ _ = _ |- _ =>
    apply gmap_list_length in H end.
  constructor; [exact Hv|repeat split|..].
  - eexists. split; [reflexivity|]. do 3 (split; [reflexivity|]). eexists. split; reflexivity.
  - eexists. split; [reflexivity|]. split; reflexivity.
  - do 2 eexists. split; [reflexivity|]. done.
Qed.

(** C39: An accepted capture envelope is closed, keeps the operator's words and
    stays a candidate.  It is returned unchanged; it, its case, verdict, call,
    provenance, every evidence item, alternative and extension have exactly the
    fields of the contract; its event, operator and session are URNs of their
    kinds and its canonical bytes within the limit; it holds verbatim evidence
    of the raw text under its SHA-256, evidence under its own digests, distinct
    evidence and alternatives, choices that partition the alternatives, a
    rationale exactly when one was given, and a provenance that is a
    non-authoritative candidate citing exactly this evidence. *)
Theorem capture_envelope_sound v r :
  validate_capture_envelope v = Ok r →
  v = JObj r ∧ ∃ case verdict p by_id evidence ids, capture_spec r case verdict p by_id evidence ids.
Proof. apply capture_envelope_elim. Qed.

(** The builder adds nothing to what the operator said: a built envelope
    passes the validator and carries the request's words, call type, rationale
    and status, owner and case unchanged, with the words first among the
    evidence under their digest. *)
Theorem build_capture_faithful uuids now rq n env k :
  build_capture_envelope uuids now rq n = Ok (env, k) → faithful_envelope rq env.
Proof. apply build_faithful. Qed.

(** C33: Persistence precedes every proposal call: whatever the ports do, a
    proposal port is called only with an envelope the spool has just
    persisted, right after the call that persisted it, and the phase is then
    durable. *)
Theorem capture_persists_first uuids now detect persist proposer rq prior out r res r' e :
  capture uuids now detect persist proposer rq prior out r = (res, r') →
  In (EvPropose e) (skipn (length (run_trace r)) (run_trace r')) →
  (∃ receipt, persist e = Returned receipt) ∧ run_phase r' = persisted ∧
  ∃ rest, run_trace r' = run_trace r ++ EvPersist e :: EvPropose e :: rest.
Proof.
  intros H Hin. unfold capture in H.
  assert (∀ l : list port_event, skipn (length (run_trace r)) (run_trace r ++ l) = l) as Hskip.
  { intros l. by rewrite skipn_app, skipn_all, Nat.sub_diag. }
  destruct (negb _); [injection H as <- <-; by rewrite skipn_all in Hin|].
  destruct (build_capture_envelope _ _ _ _) as [[env n]|]; cycle 1.
  { injection H as <- <-. by rewrite skipn_all in Hin. }
  destruct (persist env) as [receipt|cls] eqn:Hp.
  - destruct proposer as [pr|]; [destruct (pr env _)|]; injection H as <- <-;
      unfold log_failure, record_event, set_phase in *; simpl in *;
      rewrite <- ?app_assoc in *; rewrite Hskip in Hin; simpl in Hin.
    + destruct Hin as [?|[[= <-]|[]]]; [done|]. split_and!; eauto.
    + destruct Hin as [?|[[= <-]|[?|[]]]]; [done| |done]. split_and!; eauto.
    + destruct Hin as [?|[]]; done.
  - injection H as <- <-. unfold log_failure, record_event, set_phase in *. simpl in *.
    rewrite <- app_assoc, Hskip in Hin. simpl in Hin. naive_solver.
Qed.

(** Explicit feedback is never lost silently.  When the gate reports
    feedback, a normal return means the spool returned a receipt for an
    envelope faithful to the operator's words, whatever the proposal port
    does; an error after the spool was called is a [CapturePersistenceError]
    with no proposal made and a phase that is not durable. *)
Theorem capture_never_lost uuids now detect persist proposer rq prior out r res r' :
  capture uuids now detect persist proposer rq prior out r = (res, r') →
  is_feedback (detect (rq_raw_operator_text rq) prior out) = true →
  match res with
  | Ok result =>
      cr_persisted result = true ∧ run_phase r' = persisted ∧
      ∃ env receipt, cr_envelope result = Some env ∧ cr_receipt result = Some receipt ∧
        persist env = Returned receipt ∧
        faithful_envelope (with_call_type rq (cr_detection result)) env
  | Err e =>
      (r' = r ∨ ∃ env cls id, e = CapturePersistenceError
         "explicit feedback was not durably spooled; derivation aborted" ∧
         persist env = Raised cls ∧ stop_capture_is_durable (run_phase r') = false ∧
         run_trace r' = run_trace r ++ [EvPersist env; EvFailure "raw_spool" cls id])
  end.
Proof.
  intros H Hf. unfold capture in H. rewrite Hf in H. simpl in H.
  destruct (build_capture_envelope _ _ _ _) as [[env n]|e] eqn:Hb; cycle 1.
  { injection H as <- <-. by left. }
  apply build_faithful in Hb. destruct (persist env) as [receipt|cls] eqn:Hp.
  - destruct proposer as [pr|]; [destruct (pr env _)|]; injection H as <- <-; simpl;
      (split_and!; [done|done|]; do 2 eexists; split_and!; done).
  - injection H as <- <-. right. do 3 eexists. split_and!; [done|done|done|].
    simpl. by rewrite <- app_assoc.
Qed.

(** ** A concrete run *)
Definition example_uuid (n : nat) : Z := 4 * 2 ^ 76 + 2 ^ 63 + Z.of_nat n.

Definition example_now : datetime :=
  {| year := 2024; month := 5; day := 6; hour := 7; minute := 8; second := 9;
     microsecond := 0; utcoffset := Some 0 |}.

Definition example_request : capture_request :=
  {| rq_operator_id := "urn:imprint:operator:00000000-0000-4000-8000-000000000001";
     rq_session_id := "urn:imprint:session:00000000-0000-4000-8000-000000000002";
     rq_node_id := "laptop"; rq_case_description := "Tone of the launch mail";
     rq_raw_operator_text := "I prefer the short draft"; rq_call_type := "prefer";
     rq_capture_mechanism := "explicit_cli"; rq_captured_by := "imprint-cli";
     rq_reason := Some "readers skim"; rq_reason_status := None;
     rq_chosen := [JStr "short draft"]; rq_rejected := [JStr "long draft"];
     rq_artifact_refs := []; rq_contextual := []; rq_input_event_id := None;
     rq_captured_at := None; rq_extensions := [] |}.

Definition built (m : res (obj * nat)) : obj := match m with Ok (env, _) => env | Err _ => [] end.
Definition example_envelope : obj :=
  Eval vm_compute in built (build_capture_envelope example_uuid example_now example_request 0%nat).

Definition example_detect (_ : string) (_ _ : option string) : FeedbackDetection :=
  {| is_feedback := true; route := "preference"; call_type := Some "prefer";
     marker := Some "preference"; confidence := S754_zero false |}.

Definition example_persist (_ : obj) : port json := Returned (JStr "spooled").
Definition failing_proposer (_ : obj) (_ : FeedbackDetection) : port obj := Raised "TimeoutError".
Definition fresh_run : run := {| run_phase := not_started; run_trace := []; run_uuids := 0%nat |}.
Definition example_run :=
  capture example_uuid example_now example_detect example_persist (Some failing_proposer)
    example_request None None fresh_run.
Definition lost_run :=
  capture example_uuid example_now example_detect (λ _, Raised "OSError") (Some failing_proposer)
    example_request None None fresh_run.

Lemma capture_envelope_sound_witness :
  JObj example_envelope = JObj example_envelope ∧
  ∃ case verdict p by_id evidence ids,
    capture_spec example_envelope case verdict p by_id evidence ids.
Proof.
  apply (capture_envelope_sound (JObj example_envelope)). vm_compute. reflexivity.
Defined.

Lemma build_capture_faithful_witness : faithful_envelope example_request example_envelope.
Proof.
  apply (build_capture_faithful example_uuid example_now _ 0%nat _ 7%nat). vm_compute. reflexivity.
Defined.

Lemma capture_persists_first_witness :
  (∃ receipt, example_persist example_envelope = Returned receipt) ∧
  run_phase (snd example_run) = persisted ∧
  ∃ rest, run_trace (snd example_run) =
          [] ++ EvPersist example_envelope :: EvPropose example_envelope :: rest.
Proof.
  apply (capture_persists_first example_uuid example_now example_detect example_persist
           (Some failing_proposer) example_request None None fresh_run (fst example_run)).
  - unfold example_run. by destruct (capture _ _ _ _ _ _ _ _ _).
  - vm_compute. right. left. reflexivity.
Defined.

Lemma capture_never_lost_witness :
  (match fst example_run with Ok result => cr_persisted result = true | Err _ => False end) ∧
  stop_capture_is_durable (run_phase (snd lost_run)) = false ∧
  match fst lost_run with Ok _ => False | Err e => is_validation e = false end.
Proof.
  split.
  - pose proof (capture_never_lost example_uuid example_now example_detect example_persist
      (Some failing_proposer) example_request None None fresh_run (fst example_run) (snd example_run)
      ltac:(unfold example_run; by destruct (capture _ _ _ _ _ _ _ _ _)) eq_refl) as H.
    vm_compute (fst example_run) in H |- *. apply H.
  - split; vm_compute; reflexivity.
Defined.
