(* ===== verification/References.v ===== *)
(** * References of semantic payloads ([ontology/references.py],
    [ontology/producer_coverage.py], [ontology/direction.py])

    Every identifier a semantic payload mentions resolves, in the canonical
    transaction view, to a node of an allowed type owned by the same operator.
    The view is an interface: two lookups, whose implementation is a query of
    the store. *)
From S2P Require Import Prelude PyTime Urn Contracts Judgment Operator World Ontology.

(** [NodeLookup] and [VersionLookup]: identifier to type and owner. *)
Class canonical_view : Type := {
  node_lookup : json → option (string * string);
  version_lookup : json → option (string * string)
}.

Section references.
Context `{view : canonical_view}.

Definition reference_check (operator_id field : string) (allowed : option (list string))
    (identifier : json) : res unit :=
  match node_lookup identifier with
  | None => Err (ValidationError (field +:+ " references a missing canonical node"))
  | Some (actual_type, owner) =>
      raise_if (negb (String.eqb owner operator_id))
        (ValidationError (field +:+ " references another operator")) ;;
      match allowed with
      | None => Ok tt
      | Some l =>
          raise_if (negb (mem actual_type l))
            (ValidationError (field +:+ " references an incompatible node type"))
      end
  end.

Definition nodes (operator_id : string) (ids : list json) (field : string)
    (allowed : option (list string)) : res unit :=
  for_each (reference_check operator_id field allowed) ids.

(** [nodes(payload[k], ...)] *)
Definition nodes_at (operator_id : string) (payload : obj) (k field : string)
    (allowed : option (list string)) : res unit :=
  v ← item k payload; ids ← iterate v; nodes operator_id ids field allowed.

Definition node_at (operator_id : string) (payload : obj) (k field : string)
    (allowed : option (list string)) : res unit :=
  v ← item k payload; nodes operator_id [v] field allowed.

Definition evidence (operator_id : string) (v : json) (field : string) : res unit :=
  ids ← iterate v; nodes operator_id ids field (Some ["Evidence"]).

Definition evidence_at (operator_id : string) (payload : obj) (k field : string) : res unit :=
  v ← item k payload; evidence operator_id v field.

Definition basis_evidence (operator_id : string) (payload : obj) : res unit :=
  c ← item "confidence" payload;
  m ← as_obj c TypeError;
  evidence_at operator_id m "basis_evidence_ids" "confidence.basis_evidence_ids".

Definition self_model_references (operator_id : string) (payload : obj) (outer : list string)
    : res unit :=
  evidence_at operator_id payload "evidence_ids" "SelfModelAssertion.evidence_ids" ;;
  basis_evidence operator_id payload ;;
  v ← item "evidence_ids" payload;
  l ← iterate v;
  same ← same_set l (map JStr outer);
  raise_if (negb same)
    (ValidationError "SelfModelAssertion evidence must match canonical provenance evidence") ;;
  node_at operator_id payload "derivation_trace_id" "derivation_trace_id" (Some ["DerivationTrace"]).

Definition observation_references (operator_id : string) (payload : obj) : res unit :=
  evidence operator_id (get_default "evidence_ids" (get_default "source_refs" (JList []) payload) payload)
    "Observation evidence" ;;
  (if has_key "confidence" payload then basis_evidence operator_id payload else Ok tt) ;;
  let grant_id := get "consent_grant_id" payload in
  if is_null grant_id then Ok tt
  else nodes operator_id [grant_id] "consent_grant_id" (Some ["ConsentGrant"]).

Definition trace_references (operator_id : string) (payload : obj) : res unit :=
  nodes_at operator_id payload "input_ids" "DerivationTrace.input_ids" None ;;
  v ← item "element_version_id" payload;
  match version_lookup v with
  | None => Err (ValidationError "DerivationTrace.element_version_id is missing")
  | Some (_, owner) =>
      raise_if (negb (String.eqb owner operator_id))
        (ValidationError "DerivationTrace.element_version_id belongs to another operator")
  end.

Definition validate_payload_references (node_type : string) (payload : obj)
    (operator_id : string) (provenance_evidence_ids : list string) : res unit :=
  (if match provenance_evidence_ids with [] => true | _ => false end then Ok tt
   else nodes operator_id (map JStr provenance_evidence_ids) "provenance.evidence_ids"
          (Some ["Evidence"])) ;;
  if String.eqb node_type "Pattern" then
    nodes_at operator_id payload "case_ids" "Pattern.case_ids" (Some ["Case"])
  else if String.eqb node_type "SelfModelAssertion" then
    self_model_references operator_id payload provenance_evidence_ids
  else if String.eqb node_type "Observation" then observation_references operator_id payload
  else if String.eqb node_type "Outcome" then
    evidence operator_id (get_default "source_refs" (JList []) payload) "Outcome.source_refs"
  else if String.eqb node_type "CalibrationTrial" && negb (is_null (get "outcome_id" payload)) then
    node_at operator_id payload "outcome_id" "CalibrationTrial.outcome_id" (Some ["Outcome"])
  else if String.eqb node_type "Cue" then
    evidence_at operator_id payload "evidence_ids" "Cue.evidence_ids" ;;
    node_at operator_id payload "observation_id" "Cue.observation_id" (Some ["Observation"])
  else if String.eqb node_type "LexiconTerm" then
    evidence_at operator_id payload "evidence_ids" "LexiconTerm.evidence_ids"
  else if String.eqb node_type "InterventionRule" then
    evidence_at operator_id payload "evidence_ids" "InterventionRule.evidence_ids" ;;
    nodes_at operator_id payload "trigger_ids" "InterventionRule.trigger_ids"
      (Some ["Cue"; "SelfModelAssertion"]) ;;
    nodes_at operator_id payload "protects_standard_ids" "InterventionRule.protects_standard_ids"
      (Some ["Rule"; "Principle"; "SelfModelAssertion"])
  else if String.eqb node_type "DerivationTrace" then trace_references operator_id payload
  else if has_key "source_refs" payload then
    evidence_at operator_id payload "source_refs" (node_type +:+ ".source_refs")
  else Ok tt.
End references.

(** ** Producer coverage *)
Definition _CAPTURE := ["Case"; "Verdict"; "Call"; "Alternative"; "Evidence"].
Definition _DEDICATED := ["Domain"; "Observation"; "Outcome"; "ConsentGrant"].
Definition _REFERENCE := ["Proposal"].

Record coverage_row : Type := { row_type : string; row_class : string; row_producer : string }.

Definition classify (node_type : string) : coverage_row :=
  let '(c, p) :=
    if mem node_type _CAPTURE then ("shipped", "capture_pipeline")
    else if mem node_type _REFERENCE then ("shipped", "reference_deriver")
    else if mem node_type _DEDICATED then ("shipped", "dedicated_cli")
    else ("integration_only", "ontology_add_node") in
  {| row_type := node_type; row_class := c; row_producer := p |}.

Definition count_class (c : string) (rows : list coverage_row) : nat :=
  length (List.filter (λ r, String.eqb (row_class r) c) rows).

Record coverage : Type := {
  coverage_types : list coverage_row; shipped_count : nat; integration_only_count : nat
}.

Definition producer_coverage : coverage :=
  let rows := map classify (sorted_strs (dedup_strs (NODE_TYPES ++ _CAPTURE ++ _REFERENCE))) in
  {| coverage_types := rows; shipped_count := count_class "shipped" rows;
     integration_only_count := count_class "integration_only" rows |}.

(** ** The closed direction boundary *)
Definition DIRECTION_NODE_TYPES : list string := [].
Definition direction_error : exn :=
  ValidationError "direction semantics require a separately installed namespaced extension".
Definition validate_direction_payload (node_type : string) (payload provenance : json) : res obj :=
  Err direction_error.
Definition partition_direction_records (records : list (string * obj)) : res obj :=
  match records with [] => Ok [] | _ => Err direction_error end.

(** ** What a resolved payload refers to *)
Section reference_spec.
Context `{view : canonical_view}.

(** [v] names a node of [op] whose type is allowed. *)
Definition resolves (op : string) (allowed : option (list string)) (v : json) : Prop :=
  ∃ t, node_lookup v = Some (t, op) ∧ match allowed with None => True | Some l => In t l end.

Lemma reference_check_Ok op f allowed v u :
  reference_check op f allowed v = Ok u ↔ resolves op allowed v.
Proof.
  unfold reference_check, resolves. destruct u.
  destruct (node_lookup v) as [[t o]|]; [|naive_solver].
  destruct (String.eqb_spec o op) as [->|]; simpl; [|naive_solver].
  destruct allowed as [l|]; [|naive_solver]. rewrite raise_if_Ok, negb_false_iff, mem_In.
  naive_solver.
Qed.

Lemma nodes_Ok op ids f allowed u :
  nodes op ids f allowed = Ok u ↔ Forall (resolves op allowed) ids.
Proof.
  unfold nodes. rewrite for_each_Ok, !List.Forall_forall.
  setoid_rewrite reference_check_Ok. done.
Qed.

(** Two checks in a row *)
Lemma then_Ok {A} (m : res unit) (f : res A) y : (m ;; f) = Ok y ↔ m = Ok tt ∧ f = Ok y.
Proof. rewrite bind_Ok. split; [intros ([] & H)|intros H; exists tt]; done. Qed.

Lemma same_set_members l a : (∀ x, In x l ↔ In x a) → same_set (map JStr l) (map JStr a) = Ok true.
Proof.
  intros H. unfold same_set. rewrite !py_set_strs. cbn [mbind res_bind]. f_equal.
  apply andb_true_iff; split; apply forallb_forall; intros v (x & <- & Hx)%in_map_iff; apply existsb_exists;
    exists (JStr x); (split; [|by apply scalar_eq_str_l]); apply in_map, dedup_strs_In, H, dedup_strs_In, Hx.
Qed.

(** [iterate v], all of it resolving *)
Definition resolves_each (op : string) (allowed : option (list string)) (v : json) : Prop :=
  ∃ l, iterate v = Ok l ∧ Forall (resolves op allowed) l.

Definition resolves_all (op : string) (allowed : option (list string)) (payload : obj) (k : string)
    : Prop :=
  ∃ v, assoc k payload = Some v ∧ resolves_each op allowed v.

Definition resolves_one (op : string) (allowed : option (list string)) (payload : obj) (k : string)
    : Prop :=
  ∃ v, assoc k payload = Some v ∧ resolves op allowed v.

Lemma nodes_at_Ok op payload k f allowed :
  nodes_at op payload k f allowed = Ok tt ↔ resolves_all op allowed payload k.
Proof.
  unfold nodes_at, resolves_all, resolves_each. rewrite bind_Ok. setoid_rewrite item_Ok. setoid_rewrite bind_Ok.
  setoid_rewrite nodes_Ok. naive_solver.
Qed.

Lemma cited_Ok op v f : evidence op v f = Ok tt ↔ resolves_each op (Some ["Evidence"]) v.
Proof. unfold evidence, resolves_each. rewrite bind_Ok. setoid_rewrite nodes_Ok. done. Qed.

Lemma evidence_at_Ok op payload k f :
  evidence_at op payload k f = Ok tt ↔ resolves_all op (Some ["Evidence"]) payload k.
Proof.
  unfold evidence_at, resolves_all. rewrite bind_Ok. setoid_rewrite item_Ok. setoid_rewrite cited_Ok. done.
Qed.

Lemma node_at_Ok op payload k f allowed :
  node_at op payload k f allowed = Ok tt ↔ resolves_one op allowed payload k.
Proof.
  unfold node_at, resolves_one. rewrite bind_Ok. setoid_rewrite item_Ok. setoid_rewrite nodes_Ok.
  by setoid_rewrite List.Forall_cons_iff; setoid_rewrite List.Forall_nil_iff; naive_solver.
Qed.

(** The evidence the confidence of a payload is based on *)
Definition basis_resolves (op : string) (payload : obj) : Prop :=
  ∃ m, assoc "confidence" payload = Some (JObj m) ∧ resolves_all op (Some ["Evidence"]) m "basis_evidence_ids".

Lemma basis_evidence_Ok op payload : basis_evidence op payload = Ok tt ↔ basis_resolves op payload.
Proof.
  unfold basis_evidence, basis_resolves. rewrite bind_Ok. setoid_rewrite item_Ok. setoid_rewrite bind_Ok.
  setoid_rewrite evidence_at_Ok. split.
  - intros (v & Hv & m & Hm & H). destruct v; try discriminate. injection Hm as ->. eauto.
  - intros (m & Hv & H). exists (JObj m). eauto.
Qed.

(** The evidence of a payload is that of its provenance. *)
Definition same_evidence (payload : obj) (outer : list string) : Prop :=
  ∃ v ids, assoc "evidence_ids" payload = Some v ∧ iterate v = Ok (map JStr ids) ∧ ∀ x, In x ids ↔ In x outer.

(** The references each payload type must resolve *)
Definition required_references (t op : string) (payload : obj) (outer : list string) : Prop :=
  let all k allowed := resolves_all op (Some allowed) payload k in
  let one k allowed := resolves_one op (Some allowed) payload k in
  let sources := get_default "source_refs" (JList []) payload in
  let untried := t = "CalibrationTrial" ∧ get "outcome_id" payload = JNull in
  (t = "Pattern" → all "case_ids" ["Case"]) ∧
  (t = "SelfModelAssertion" → all "evidence_ids" ["Evidence"] ∧ basis_resolves op payload ∧
     same_evidence payload outer ∧ one "derivation_trace_id" ["DerivationTrace"]) ∧
  (t = "Observation" →
     resolves_each op (Some ["Evidence"]) (get_default "evidence_ids" sources payload) ∧
     (has_key "confidence" payload = true → basis_resolves op payload) ∧
     (get "consent_grant_id" payload ≠ JNull →
      resolves op (Some ["ConsentGrant"]) (get "consent_grant_id" payload))) ∧
  (t = "Outcome" → resolves_each op (Some ["Evidence"]) sources) ∧
  (t = "CalibrationTrial" → get "outcome_id" payload ≠ JNull → one "outcome_id" ["Outcome"]) ∧
  (t = "Cue" → all "evidence_ids" ["Evidence"] ∧ one "observation_id" ["Observation"]) ∧
  (t = "LexiconTerm" → all "evidence_ids" ["Evidence"]) ∧
  (t = "InterventionRule" → all "evidence_ids" ["Evidence"] ∧
     all "trigger_ids" ["Cue"; "SelfModelAssertion"] ∧
     all "protects_standard_ids" ["Rule"; "Principle"; "SelfModelAssertion"]) ∧
  (t = "DerivationTrace" → resolves_all op None payload "input_ids" ∧
     ∃ v ty, assoc "element_version_id" payload = Some v ∧ version_lookup v = Some (ty, op)) ∧
  (~ In t ["Pattern"; "SelfModelAssertion"; "Observation"; "Outcome"; "CalibrationTrial"; "Cue";
           "LexiconTerm"; "InterventionRule"; "DerivationTrace"] ∨ untried →
   has_key "source_refs" payload = true → all "source_refs" ["Evidence"]).

Lemma same_set_Ok payload outer :
  (v ← item "evidence_ids" payload; l ← iterate v; same ← same_set l (map JStr outer);
   raise_if (negb same)
     (ValidationError "SelfModelAssertion evidence must match canonical provenance evidence")) = Ok tt ↔
  same_evidence payload outer.
Proof.
  unfold same_evidence. rewrite bind_Ok. setoid_rewrite item_Ok. setoid_rewrite bind_Ok.
  setoid_rewrite bind_Ok. setoid_rewrite raise_if_Ok. setoid_rewrite negb_false_iff. split.
  - intros (v & Hv & l & Hl & same & Hs & ->). apply same_set_strs in Hs as [El Hs].
    exists v, (strs l). by rewrite <- El.
  - intros (v & ids & Hv & Hl & Hs). exists v. split; [done|]. exists (map JStr ids). split; [done|].
    exists true. split; [|done]. by apply same_set_members.
Qed.

Lemma self_model_Ok op payload outer :
  self_model_references op payload outer = Ok tt ↔
  resolves_all op (Some ["Evidence"]) payload "evidence_ids" ∧ basis_resolves op payload ∧
  same_evidence payload outer ∧ resolves_one op (Some ["DerivationTrace"]) payload "derivation_trace_id".
Proof.
  rewrite <- evidence_at_Ok, <- basis_evidence_Ok, <- same_set_Ok, <- node_at_Ok.
  unfold self_model_references. rewrite !then_Ok. do 2 apply and_iff_compat_l.
  destruct (item _ _) as [v|]; [|naive_solver]. cbn [mbind res_bind].
  destruct (iterate v) as [l|]; [|naive_solver]. cbn [mbind res_bind].
  destruct (same_set _ _) as [[]|]; cbn; naive_solver.
Qed.

Lemma optional_Ok op f allowed v :
  (if is_null v then Ok tt else nodes op [v] f allowed) = Ok tt ↔ (v ≠ JNull → resolves op allowed v).
Proof.
  destruct (is_null v) eqn:N; [apply is_null_true in N; naive_solver|].
  rewrite nodes_Ok, List.Forall_cons_iff. assert (v ≠ JNull) by by intros ->. naive_solver.
Qed.

Lemma observation_Ok op payload :
  observation_references op payload = Ok tt ↔
  resolves_each op (Some ["Evidence"])
    (get_default "evidence_ids" (get_default "source_refs" (JList []) payload) payload) ∧
  (has_key "confidence" payload = true → basis_resolves op payload) ∧
  (get "consent_grant_id" payload ≠ JNull → resolves op (Some ["ConsentGrant"]) (get "consent_grant_id" payload)).
Proof.
  unfold observation_references. rewrite !then_Ok. cbv zeta. rewrite cited_Ok, optional_Ok.
  destruct (has_key _ _); rewrite ?basis_evidence_Ok; naive_solver.
Qed.

Lemma trace_Ok op payload :
  trace_references op payload = Ok tt ↔
  resolves_all op None payload "input_ids" ∧
  ∃ v ty, assoc "element_version_id" payload = Some v ∧ version_lookup v = Some (ty, op).
Proof.
  unfold trace_references. rewrite then_Ok, nodes_at_Ok, bind_Ok. setoid_rewrite item_Ok.
  apply and_iff_compat_l. split.
  - intros (v & Hv & H). destruct (version_lookup v) as [[ty o]|] eqn:E; [|discriminate].
    apply raise_if_Ok, negb_false_iff, String.eqb_eq in H as ->. eauto.
  - intros (v & ty & Hv & E). exists v. split; [done|]. by rewrite E, String.eqb_refl.
Qed.

Lemma provenance_Ok op ev :
  (if match ev with [] => true | _ => false end then Ok tt
   else nodes op (map JStr ev) "provenance.evidence_ids" (Some ["Evidence"])) = Ok tt ↔
  Forall (λ e, resolves op (Some ["Evidence"]) (JStr e)) ev.
Proof.
  destruct ev as [|e ev]; [naive_solver|]. rewrite nodes_Ok. by rewrite List.Forall_map.
Qed.

Lemma trial_null payload : is_null (get "outcome_id" payload) = true ↔ get "outcome_id" payload = JNull.
Proof. by destruct (get _ payload). Qed.

(** The rule of the type at hand; the rules of the other types are idle. *)
Ltac own_rule := split;
  [intros H; split_and!; intros E;
     first [exact H | by discriminate E
           | (destruct E as [E|[? _]]; [exfalso; apply E; simpl; tauto|discriminate])]
  |intros H; repeat match goal with H : _ ∧ _ |- _ => destruct H end;
   match goal with H : ?t = ?t → _ |- _ => exact (H eq_refl) end].

(** C40: Payload references are accepted exactly when they resolve.  Every
    evidence identifier of the provenance and every reference the rule of the
    payload's type names (evidence lists, sources, the basis of a confidence,
    cases, traces, grants, outcomes, triggers, inputs) is an identifier the
    transaction view resolves to a node of an allowed type owned by the same
    operator, and the evidence of a self-model assertion is that of its
    provenance.  Whatever fails to resolve is refused, and nothing else. *)
Theorem payload_references_resolve t payload op ev :
  validate_payload_references t payload op ev = Ok tt ↔
  Forall (λ e, resolves op (Some ["Evidence"]) (JStr e)) ev ∧ required_references t op payload ev.
Proof.
  unfold validate_payload_references, required_references. rewrite then_Ok, provenance_Ok. cbv zeta.
  apply and_iff_compat_l.
  destruct (String.eqb_spec t "Pattern") as [->|N1]; [rewrite nodes_at_Ok; own_rule|].
  destruct (String.eqb_spec t "SelfModelAssertion") as [->|N2]; [rewrite self_model_Ok; own_rule|].
  destruct (String.eqb_spec t "Observation") as [->|N3]; [rewrite observation_Ok; own_rule|].
  destruct (String.eqb_spec t "Outcome") as [->|N4]; [rewrite cited_Ok; own_rule|].
  destruct (String.eqb_spec t "CalibrationTrial") as [->|N5].
  { cbn [andb]. destruct (is_null (get "outcome_id" payload)) eqn:N; cbn [negb].
    - apply trial_null in N. cbn [String.eqb Ascii.eqb Bool.eqb].
      destruct (has_key _ _); rewrite ?evidence_at_Ok; split; [|naive_solver| |naive_solver];
        intros H; split_and!; intros; done.
    - assert (get "outcome_id" payload ≠ JNull) as Nn by (intros E; apply trial_null in E; congruence).
      rewrite node_at_Ok. split; [intros H; split_and!; intros E; try by discriminate E|naive_solver].
      + by intros _.
      + destruct E as [E|[_ ?]]; [exfalso; apply E; simpl; tauto|done]. }
  cbn [andb]. destruct (String.eqb_spec t "Cue") as [->|N6]; [rewrite then_Ok, evidence_at_Ok, node_at_Ok; own_rule|].
  destruct (String.eqb_spec t "LexiconTerm") as [->|N7]; [rewrite evidence_at_Ok; own_rule|].
  destruct (String.eqb_spec t "InterventionRule") as [->|N8];
    [rewrite !then_Ok, evidence_at_Ok, !nodes_at_Ok; own_rule|].
  destruct (String.eqb_spec t "DerivationTrace") as [->|N9]; [rewrite trace_Ok; own_rule|].
  assert (~ In t ["Pattern"; "SelfModelAssertion"; "Observation"; "Outcome"; "CalibrationTrial"; "Cue";
                  "LexiconTerm"; "InterventionRule"; "DerivationTrace"]) as Hn by (simpl; intuition congruence).
  split.
  - intros H. split_and!; intros E; try congruence. intros K. rewrite K in H. by apply evidence_at_Ok in H.
  - intros (_ & _ & _ & _ & _ & _ & _ & _ & _ & H). destruct (has_key _ _); [|done].
    apply evidence_at_Ok. auto.
Qed.
End reference_spec.

(** The producer coverage classifies every public type exactly once:
    rows are the registered, captured and reference types without repetition,
    each is shipped or integration-only, and the two counts add up. *)
Theorem producer_coverage_total :
  (∀ t, In t (map row_type (coverage_types producer_coverage)) ↔
        In t NODE_TYPES ∨ In t _CAPTURE ∨ In t _REFERENCE) ∧
  List.NoDup (map row_type (coverage_types producer_coverage)) ∧
  shipped_count producer_coverage = 10%nat ∧
  (shipped_count producer_coverage + integration_only_count producer_coverage)%nat =
    length (coverage_types producer_coverage).
Proof.
  assert (map row_type (coverage_types producer_coverage) =
          sorted_strs (dedup_strs (NODE_TYPES ++ _CAPTURE ++ _REFERENCE))) as E
    by (vm_compute; reflexivity).
  split_and!; [| |vm_compute; reflexivity..].
  - intros t. rewrite E. unfold sorted_strs. rewrite sort_by_In, dedup_strs_In, !in_app_iff. done.
  - rewrite E. eapply Permutation_NoDup; [symmetry; apply sort_by_perm|apply dedup_strs_NoDup].
Qed.
