(* ===== verification/Binding.v ===== *)
(** * The versioned binding contract ([ontology/registries.py],
    [ontology/validators.py])

    The frozen public registries with the check that compiles them, the
    version 2.1 provenance object and the eight core payload schemas, whose
    failures carry a machine-readable code and a JSON pointer. *)
From S2P Require Import Prelude PyTime Urn Contracts Codec.

(** ** Registries *)
Definition ONTOLOGY_BINDING_ID := "imprint.ontology.binding/3.7.0".
Definition BUILTIN_SOURCE_PHASE_IDS := ["operator_authored"].

(** A namespaced phase is a lower-case name followed by one or more segments,
    each a dot or colon, a lower-case letter and any of lower-case letters,
    digits, dot, underscore and dash.  A dot is also a member of a segment's
    tail, so after the first separator only a colon constrains the character
    that follows it. *)
Fixpoint phase_tail (s : string) (after_colon : bool) : bool :=
  match s with
  | EmptyString => negb after_colon
  | String a r =>
      if after_colon then is_lower a && phase_tail r false
      else if Ascii.eqb a ":" then phase_tail r true
      else (is_lower_alnum a || Ascii.eqb a "." || Ascii.eqb a "_" || Ascii.eqb a "-")
           && phase_tail r false
  end.
Fixpoint phase_head (s : string) : bool :=
  match s with
  | EmptyString => false
  | String a r =>
      if Ascii.eqb a "." || Ascii.eqb a ":" then phase_tail r true
      else (is_lower_alnum a || Ascii.eqb a "-") && phase_head r
  end.
Definition namespaced_phase (s : string) : bool :=
  match s with String a r => is_lower a && phase_head r | EmptyString => false end.
Definition is_public_source_phase_id (value : json) : bool :=
  match value with JStr s => mem s BUILTIN_SOURCE_PHASE_IDS || namespaced_phase s | _ => false end.

Definition CORE_NODE_SCHEMA_IDS :=
  ["imprint.node.decision-episode/1.0.0"; "imprint.node.actor/1.0.0";
   "imprint.node.role-assignment/1.0.0"; "imprint.node.expected-outcome/1.0.0";
   "imprint.node.confidence-assessment/1.0.0"; "imprint.node.evidence-artifact/1.0.0";
   "imprint.node.access-policy/1.0.0"; "imprint.node.deletion-event/1.0.0"].

Definition PREDICATE_IDS :=
  ["has_case"; "has_verdict"; "makes_call"; "considered"; "selected"; "rejected";
   "made_on"; "extracted_from"; "protects"; "expresses"; "depends_on";
   "inferred_from"; "similar_to"; "contradicts"; "superseded_by"; "expected";
   "led_to"; "supports"; "weakens"; "assesses"; "assigns"; "governs_scope";
   "participant"; "evidenced_by"; "derived_from"; "authorized_by";
   "controlled_by"; "deleted"; "invalidated"; "ratifies"; "corrects"; "cites";
   "supersedes"; "serves"; "targets"; "experiences"; "desires"; "occurs_in";
   "promises"; "expects"; "requires"; "supported_by"; "delivered_through";
   "priced_as"; "purchased_via"; "used"; "produced"; "refunded_because";
   "retained_by"; "referred_by"; "observes"; "tested_by"; "confirms"; "extends"].

Definition QUALIFIER_SCHEMA_IDS :=
  ["q.episode_structure@1"; "q.capture_ref@1"; "q.disposition@1"; "q.derivation@1";
   "q.scope@1"; "q.dependency@1"; "q.similarity@1"; "q.contradiction@1";
   "q.supersession@1"; "q.expectation@1"; "q.outcome@1"; "q.assessment@1";
   "q.confidence@1"; "q.role@1"; "q.authority_scope@1"; "q.evidence@1";
   "q.transform@1"; "q.access@1.1"; "q.deletion@1.1"; "q.invalidation@1";
   "q.ratification@1"; "q.correction@1"; "q.cites@1"; "q.success@1";
   "q.declared@1"; "q.evidence_mode@1";
   "q.requirement@1"; "q.price@1"; "q.criterion@1"; "q.extension@1"].

Definition _CLAIMS :=
  ["Belief"; "Claim"; "Intervention"; "Mechanism"; "Offer"; "Principle";
   "Promise"; "Rule"; "SelfModelAssertion"; "Verdict"].
Definition _EVIDENTIARY :=
  ["Belief"; "Call"; "Case"; "Claim"; "Cue"; "DecisionEpisode"; "ExpectedOutcome"; "Intervention";
   "InterventionRule"; "Mechanism"; "Offer"; "Outcome"; "Pattern"; "Principle";
   "Promise"; "Rule"; "SelfModelAssertion"; "Verdict"].
Definition _DECLARED :=
  ["Channel"; "Claim"; "Customer"; "Desire"; "Expectation"; "Intervention";
   "Mechanism"; "Offer"; "Price"; "Problem"; "Promise"; "RequiredBehavior";
   "Segment"; "Situation"].
Definition _OBSERVED_EVENTS :=
  ["Purchase"; "Referral"; "Refund"; "Retention"; "SupportAction"; "Usage"].
Definition _OBSERVED := _OBSERVED_EVENTS ++ ["Observation"; "Outcome"; "Result"].
Definition _PROTECTED := _EVIDENTIARY ++
  ["AccessPolicy"; "Actor"; "Alternative"; "Channel";
   "ConfidenceAssessment"; "ConsentGrant"; "CorrectionEvent"; "Customer";
   "DeletionEvent"; "DerivationTrace"; "Desire"; "EvidenceArtifact"; "Expectation";
   "Objection"; "Observation"; "Price"; "Problem"; "Proof"; "Purchase"; "RatificationEvent";
   "Referral"; "RequiredBehavior"; "Result"; "Retention"; "RoleAssignment"; "Segment";
   "Situation"; "Standard"; "SupportAction"; "Usage"].

Definition ENDPOINT_UNIONS : list (string * list string) :=
  [("ClaimUnionV1", _CLAIMS);
   ("EvidentiarySubjectV1", _EVIDENTIARY);
   ("ProtectedRecordV1", _PROTECTED);
   ("GovernedScopeV1", _PROTECTED ++ ["Partition"; "RelationVersion"]);
   ("DeletionTargetV1", _PROTECTED ++ ["RelationVersion"; "SubgraphSelection"]);
   ("DependentVersionV1", ["ExportVersion"; "NodeVersion"; "ProjectionVersion"; "RelationVersion"]);
   ("ProposalVersionV1",
     ["BusinessClaimProposal"; "InterventionRuleProposal"; "SelfModelAssertionProposal"]);
   ("CorrectableVersionV1", _CLAIMS ++
     ["BusinessClaimProposal"; "ExpectedOutcome";
      "InterventionRuleProposal"; "Outcome"; "SelfModelAssertionProposal"]);
   ("DerivationInputV1",
     ["Belief"; "Case"; "EvidenceArtifact"; "Observation"; "Outcome"; "Principle";
      "SelfModelAssertion"; "Verdict"]);
   ("DeclaredWorldV1", _DECLARED);
   ("ObservedEventV1", _OBSERVED_EVENTS);
   ("ObservedWorldV1", _OBSERVED);
   ("WorldNodeV1", _DECLARED ++ _OBSERVED ++ ["Objection"; "Proof"])].

Record bundle : Type := {
  contract_id : string; bundle_nodes : list string; bundle_predicates : list string;
  bundle_qualifiers : list string; bundle_unions : list string
}.

(** [not l or len(set(l)) != len(l)] *)
Definition incomplete (l : list string) : bool :=
  match l with [] => true | _ => negb (Nat.eqb (length (dedup_strs l)) (length l)) end.

Definition registry_error (what : string) : exn :=
  ValueError ("E_RELATION_REGISTRY_INCOMPLETE: " +:+ what).

Definition compile_registry_bundle : res bundle :=
  raise_if (incomplete PREDICATE_IDS) (registry_error "predicate identity") ;;
  raise_if (incomplete QUALIFIER_SCHEMA_IDS) (registry_error "qualifier identity") ;;
  raise_if (negb (Nat.eqb (length ENDPOINT_UNIONS) 13) ||
            existsb (λ u, match u.2 with [] => true | _ => false end) ENDPOINT_UNIONS)
    (registry_error "union identity") ;;
  Ok {| contract_id := ONTOLOGY_BINDING_ID; bundle_nodes := CORE_NODE_SCHEMA_IDS;
        bundle_predicates := PREDICATE_IDS; bundle_qualifiers := QUALIFIER_SCHEMA_IDS;
        bundle_unions := keys ENDPOINT_UNIONS |}.

(** ** Checks with a code and a pointer *)
Definition _closed (value : json) (required optional : list string) : res obj :=
  m ← as_obj value (CodedError "E_NODE_FIELD_TYPE" "/payload" "payload must be an object");
  match sorted_strs (set_diff (set_diff (keys m) required) optional) with
  | name :: _ => Err (CodedError "E_NODE_FIELD_UNKNOWN" ("/payload/" +:+ name) "unknown field")
  | [] =>
      match sorted_strs (set_diff required (keys m)) with
      | name :: _ =>
          Err (CodedError "E_NODE_FIELD_REQUIRED" ("/payload/" +:+ name) "required field missing")
      | [] => Ok m
      end
  end.

Definition binding_text (value : json) (pointer : string) (maximum : Z) : res unit :=
  match value with
  | JStr s =>
      raise_if (negb ((1 <=? py_len s) && (py_len s <=? maximum)))
        (CodedError "E_NODE_FIELD_VALUE" pointer "string length out of range")
  | _ => Err (CodedError "E_NODE_FIELD_TYPE" pointer "expected string")
  end.

Definition _uri (value : json) (pointer : string) : res unit :=
  let bad := CodedError "E_NODE_REFERENCE_VERSION_REQUIRED" pointer "exact version URI required" in
  match value with
  | JStr s => raise_if (String.eqb s "" || negb (contains ":" s)) bad
  | _ => Err bad
  end.

Definition binding_time (value : json) (pointer : string) : res unit :=
  match value with
  | JStr s =>
      match parse_rfc3339 s with
      | None => Err (CodedError "E_NODE_FIELD_VALUE" pointer "invalid RFC3339 timestamp")
      | Some d => raise_if (negb (aware d)) (CodedError "E_NODE_FIELD_VALUE" pointer "timezone required")
      end
  | _ => Err (CodedError "E_NODE_FIELD_TYPE" pointer "RFC3339 timestamp required")
  end.

Fixpoint uris_from (index : Z) (pointer : string) (l : list json) : res unit :=
  match l with
  | [] => Ok tt
  | x :: r => _uri x (pointer +:+ "/" +:+ print_int index) ;; uris_from (index + 1) pointer r
  end.

Definition _uris (value : json) (pointer : string) (nonempty : bool) : res unit :=
  l ← as_list value (CodedError "E_NODE_FIELD_TYPE" pointer "expected array");
  raise_if (nonempty && match l with [] => true | _ => false end)
    (CodedError "E_NODE_FIELD_CARDINALITY" pointer "array cannot be empty") ;;
  dup ← has_duplicates l;
  raise_if dup (CodedError "E_NODE_FIELD_CARDINALITY" pointer "array members must be unique") ;;
  uris_from 0 pointer l.

(** ** Provenance 2.1 *)
Definition PROVENANCE_V2_REQUIRED :=
  ["origin_status"; "lifecycle_status"; "authority_tier"; "authority_source"; "mechanism";
   "actor_id"; "actor_class"; "role_assignment_version_id"; "evidence_version_ids";
   "source_phase_ids"; "primary_source_phase_id"].
Definition PROVENANCE_V2_OPTIONAL :=
  ["model_id"; "prompt_version_id"; "derivation_trace_version_id"; "proposal_version_id";
   "ratification_event_version_id"].

(** [v in l] for a list of JSON values *)
Definition in_list (v : json) (l : list json) : bool := existsb (py_eq v) l.

Definition phases_check (v : json) : res (list json) :=
  let bad := CodedError "E_NODE_FIELD_VALUE" "/provenance/source_phase_ids"
               "built-in or namespaced extension phases required" in
  l ← as_list v bad;
  raise_if (match l with [] => true | _ => false end) bad ;;
  dup ← has_duplicates l;
  raise_if dup bad ;;
  raise_if (negb (forallb is_public_source_phase_id l)) bad ;;
  Ok l.

Definition validate_provenance_v2_1 (value : json) : res obj :=
  m ← as_obj value (CodedError "E_NODE_FIELD_TYPE" "/provenance" "provenance must be object");
  match sorted_strs (set_diff (set_diff (keys m) PROVENANCE_V2_REQUIRED) PROVENANCE_V2_OPTIONAL) with
  | name :: _ =>
      Err (CodedError "E_NODE_FIELD_UNKNOWN" ("/provenance/" +:+ name) "unknown provenance field")
  | [] =>
      match sorted_strs (set_diff PROVENANCE_V2_REQUIRED (keys m)) with
      | name :: _ =>
          Err (CodedError "E_NODE_FIELD_REQUIRED" ("/provenance/" +:+ name) "missing provenance field")
      | [] =>
          origin ← item "origin_status" m;
          b ← not_in_set origin ["captured"; "extracted"; "inferred"];
          raise_if b (CodedError "E_NODE_FIELD_VALUE" "/provenance/origin_status"
                        "invalid immutable origin") ;;
          lifecycle ← item "lifecycle_status" m;
          b ← not_in_set lifecycle ["proposed"; "active"; "superseded"; "disputed"; "retracted"; "purged"];
          raise_if b (CodedError "E_NODE_FIELD_VALUE" "/provenance/lifecycle_status"
                        "invalid lifecycle") ;;
          ev ← item "evidence_version_ids" m;
          _uris ev "/provenance/evidence_version_ids" true ;;
          ph ← item "source_phase_ids" m;
          phases ← phases_check ph;
          primary ← item "primary_source_phase_id" m;
          raise_if (negb (in_list primary phases))
            (CodedError "E_NODE_CONDITIONAL_RULE" "/provenance/primary_source_phase_id"
               "primary must be a listed phase") ;;
          tier ← item "authority_tier" m;
          raise_if (str_is tier "ratified_knowledge" &&
                    negb (truthy (get "ratification_event_version_id" m)))
            (CodedError "E_RATIFICATION_PROOF_REQUIRED" "/provenance/ratification_event_version_id"
               "ratification event required") ;;
          raise_if (str_is origin "inferred" && negb (truthy (get "derivation_trace_version_id" m)))
            (CodedError "E_NODE_CONDITIONAL_RULE" "/provenance/derivation_trace_version_id"
               "inference requires trace") ;;
          Ok m
      end
  end.

(** ** Core payloads *)
Definition _CORE_FIELDS : list (string * (list string * list string)) :=
  [("imprint.node.decision-episode/1.0.0",
     (["case_version_id"; "verdict_version_id"; "operator_role_assignment_version_id"; "captured_at"],
      ["participant_role_assignment_version_ids"; "session_id"; "conversation_id"; "project_id";
       "artifact_version_ids"; "domain_ids"; "situation_type"; "expected_outcome_version_ids"]));
   ("imprint.node.actor/1.0.0", (["actor_type"; "display_label"], ["external_id"; "organization_id"]));
   ("imprint.node.role-assignment/1.0.0",
     (["actor_version_id"; "role_type"; "scope_ids"; "authority_basis"; "allowed_operations";
       "valid_from"; "valid_to"; "granted_by_role_assignment_version_id"], []));
   ("imprint.node.expected-outcome/1.0.0",
     (["statement"; "observable_criterion"; "horizon"],
      ["metric"; "target_value"; "unit"; "uncertainty_note"; "confidence_assessment_version_id"]));
   ("imprint.node.confidence-assessment/1.0.0",
     (["subject_version_id"; "score"; "scale"; "assessor_actor_version_id"; "method"; "assessed_at"],
      ["basis_evidence_version_ids"; "dissent_note"]));
   ("imprint.node.evidence-artifact/1.0.0",
     (["original_sha256"; "byte_count"; "media_type"; "media_type_source"; "source_class";
       "source_locator"; "source_system"; "captured_at"; "custody_actor_version_id";
       "consent_version_id"; "access_policy_version_id"; "storage_locator";
       "derived_from_version_ids"; "content_state"],
      ["declared_encoding"; "source_event_id"; "encryption_key_ref"; "transform_event_version_id";
       "purged_at"; "purge_event_version_id"]));
   ("imprint.node.access-policy/1.0.0",
     (["principal_role_assignment_version_ids"; "operations"; "purposes"; "field_paths";
       "valid_from"; "valid_to"; "system_from"; "system_to"], []));
   ("imprint.node.deletion-event/1.0.0",
     (["target_version_ids"; "mode"; "scope"; "actor_version_id"; "role_assignment_version_id";
       "reason"; "invalidated_version_ids"; "purge_receipts"; "completed"], []))].
Definition _ACTORS :=
  ["operator"; "human_delegate"; "software"; "model"; "importer"; "external_subject"; "organization"].
Definition _OPERATIONS := ["ingest"; "store"; "derive"; "retrieve"; "export"; "delete"].

(** [str(v)]; only a string or an integer can print 64 hexadecimal digits. *)
Definition digest_text (v : json) : string :=
  match v with JStr s => s | JInt z => print_int z | _ => "" end.

Definition score_ok (score : json) : res bool :=
  if is_bool score || negb (is_number score) then Ok false
  else f ← to_float score; Ok (is_finite f && unit_interval score).

Definition actor_payload (m : obj) : res unit :=
  v ← item "actor_type" m;
  b ← not_in_set v _ACTORS;
  raise_if b (CodedError "E_NODE_FIELD_VALUE" "/payload/actor_type" "invalid actor type") ;;
  v ← item "display_label" m; binding_text v "/payload/display_label" 300.

Definition episode_payload (m : obj) : res unit :=
  for_each (λ k, v ← item k m; _uri v ("/payload/" +:+ k))
    ["case_version_id"; "verdict_version_id"; "operator_role_assignment_version_id"] ;;
  v ← item "captured_at" m; binding_time v "/payload/captured_at".

Definition role_payload (m : obj) : res unit :=
  v ← item "scope_ids" m; _uris v "/payload/scope_ids" true ;;
  ops ← item "allowed_operations" m;
  let bad := CodedError "E_NODE_FIELD_VALUE" "/payload/allowed_operations"
               "invalid canonical operations" in
  l ← as_list ops bad;
  raise_if (match l with [] => true | _ => false end) bad ;;
  dup ← has_duplicates l;
  raise_if dup bad ;;
  outside ← has_outside l _OPERATIONS;
  raise_if outside bad.

Definition expected_payload (m : obj) : res unit :=
  let trio := map (λ k, is_null (get k m)) ["metric"; "target_value"; "unit"] in
  raise_if (existsb negb trio && negb (forallb negb trio))
    (CodedError "E_NODE_CONDITIONAL_RULE" "/payload/metric"
       "metric, target and unit are jointly present").

Definition assessment_payload (m : obj) : res unit :=
  score ← item "score" m;
  ok ← score_ok score;
  raise_if (negb ok) (CodedError "E_NODE_FIELD_VALUE" "/payload/score" "score outside [0,1]") ;;
  method ← (if truthy (get "basis_evidence_version_ids" m) then Ok (JStr "operator_intuition")
            else item "method" m);
  raise_if (negb (truthy (get "basis_evidence_version_ids" m)) &&
            negb (str_is method "operator_intuition"))
    (CodedError "E_NODE_CONDITIONAL_RULE" "/payload/basis_evidence_version_ids" "basis required").

Definition artifact_payload (m : obj) : res unit :=
  h ← item "original_sha256" m;
  raise_if (negb (is_sha256_hex (digest_text h)))
    (CodedError "E_NODE_FIELD_VALUE" "/payload/original_sha256" "lowercase sha256 required") ;;
  media ← item "media_type" m;
  source ← item "media_type_source" m;
  raise_if (str_is media "application/octet-stream" && negb (str_is source "unknown_sentinel"))
    (CodedError "E_MEDIA_TYPE_SENTINEL_RULE" "/payload/media_type_source"
       "unknown sentinel source required") ;;
  derived ← item "derived_from_version_ids" m;
  raise_if (xorb (truthy derived) (truthy (get "transform_event_version_id" m)))
    (CodedError "E_NODE_CONDITIONAL_RULE" "/payload/transform_event_version_id"
       "transform iff derived").

Definition policy_payload (m : obj) : res unit :=
  v ← item "principal_role_assignment_version_ids" m;
  _uris v "/payload/principal_role_assignment_version_ids" true ;;
  ops ← item "operations" m;
  l ← iterate ops;
  outside ← has_outside l _OPERATIONS;
  raise_if outside (CodedError "E_NODE_FIELD_VALUE" "/payload/operations" "unknown operation").

Definition deletion_payload (m : obj) : res unit :=
  v ← item "mode" m;
  b ← not_in_set v ["hard_delete"; "cryptographic_erase"; "content_purge_with_tombstone"; "projection_only"];
  raise_if b (CodedError "E_NODE_FIELD_VALUE" "/payload/mode" "invalid deletion mode") ;;
  v ← item "scope" m;
  b ← not_in_set v ["target_only"; "target_and_derivatives"; "subgraph"; "projection"];
  raise_if b (CodedError "E_DELETION_SCOPE_REQUIRED" "/payload/scope" "canonical scope required") ;;
  completed ← item "completed" m;
  receipts ← item "purge_receipts" m;
  raise_if (truthy completed && negb (truthy receipts))
    (CodedError "E_NODE_CONDITIONAL_RULE" "/payload/purge_receipts"
       "completed deletion requires receipts").

Definition validate_core_payload (schema_id : string) (payload : json) : res obj :=
  match assoc schema_id _CORE_FIELDS with
  | None => Err (CodedError "E_NODE_SCHEMA_UNKNOWN" "/payload_schema_id" "unknown node schema")
  | Some (required, optional) =>
      m ← _closed payload required optional;
      (if ends_with "actor/1.0.0" schema_id then actor_payload m
       else if ends_with "decision-episode/1.0.0" schema_id then episode_payload m
       else if ends_with "role-assignment/1.0.0" schema_id then role_payload m
       else if ends_with "expected-outcome/1.0.0" schema_id then expected_payload m
       else if ends_with "confidence-assessment/1.0.0" schema_id then assessment_payload m
       else if ends_with "evidence-artifact/1.0.0" schema_id then artifact_payload m
       else if ends_with "access-policy/1.0.0" schema_id then policy_payload m
       else if ends_with "deletion-event/1.0.0" schema_id then deletion_payload m
       else Ok tt) ;;
      Ok m
  end.

Definition validate_relation_identity (predicate_id qualifier_schema_id : string) : res unit :=
  raise_if (negb (mem predicate_id PREDICATE_IDS))
    (CodedError "E_RELATION_PREDICATE_UNKNOWN" "/predicate_id" "unknown predicate") ;;
  raise_if (negb (mem qualifier_schema_id QUALIFIER_SCHEMA_IDS))
    (CodedError "E_RELATION_QUALIFIER_SCHEMA_UNKNOWN" "/qualifier/schema_id" "unknown qualifier").

(** ** What the binding checks guarantee *)
Lemma sorted_nil l : sorted_strs l = [] ↔ l = [].
Proof.
  unfold sorted_strs. split; [|by intros ->]. intros H.
  apply Permutation_nil. rewrite <- H. apply sort_by_perm.
Qed.

Lemma fields_closed (m : obj) req opt :
  sorted_strs (set_diff (set_diff (keys m) req) opt) = [] →
  sorted_strs (set_diff req (keys m)) = [] →
  (∀ x, In x req → In x (keys m)) ∧ (∀ x, In x (keys m) → In x req ∨ In x opt).
Proof.
  rewrite !sorted_nil. intros Hu Hm. apply set_diff_nil in Hm.
  rewrite subset_In in Hm. split; [exact Hm|]. intros x Hx.
  destruct (mem x req) eqn:E; [left; by apply mem_In|]. right.
  apply set_diff_nil in Hu. rewrite subset_In in Hu. apply Hu.
  unfold set_diff. apply filter_In. by rewrite E.
Qed.

(** A version reference: a non-empty string with a colon. *)
Definition version_uri (v : json) : Prop := ∃ s, v = JStr s ∧ s ≠ "" ∧ contains ":" s = true.

Lemma uri_Ok v p u : _uri v p = Ok u → version_uri v.
Proof.
  unfold _uri. destruct v; try discriminate. intros H. inv_ok. bool_hyps.
  eexists. split; [done|]. split; [by apply String.eqb_neq|done].
Qed.

Lemma uris_from_Ok l : ∀ i p u, uris_from i p l = Ok u → Forall version_uri l.
Proof.
  induction l as [|x l IH]; intros i p u H; [constructor|]. cbn [uris_from] in H.
  apply bind_Ok in H as (? & Hx & H). constructor; [by eapply uri_Ok|eauto].
Qed.

Lemma uris_Ok v p b u :
  _uris v p b = Ok u →
  ∃ l, v = JList l ∧ (b = true → l ≠ []) ∧ has_duplicates l = Ok false ∧ Forall version_uri l.
Proof.
  unfold _uris. intros H. inv_checks. subst. eexists. split_and!; [done| |done|by eapply uris_from_Ok].
  intros -> ->. discriminate.
Qed.

Record provenance_v2_spec (m : obj) (origin : string) : Prop := {
  pv_fields : (∀ x, In x PROVENANCE_V2_REQUIRED → In x (keys m)) ∧
              (∀ x, In x (keys m) → In x PROVENANCE_V2_REQUIRED ∨ In x PROVENANCE_V2_OPTIONAL);
  pv_origin : assoc "origin_status" m = Some (JStr origin) ∧
              In origin ["captured"; "extracted"; "inferred"];
  pv_lifecycle : ∃ s, assoc "lifecycle_status" m = Some (JStr s) ∧
    In s ["proposed"; "active"; "superseded"; "disputed"; "retracted"; "purged"];
  pv_evidence : ∃ l, assoc "evidence_version_ids" m = Some (JList l) ∧ l ≠ [] ∧
    has_duplicates l = Ok false ∧ Forall version_uri l;
  pv_phases : ∃ l primary, assoc "source_phase_ids" m = Some (JList l) ∧ l ≠ [] ∧
    Forall (λ v, is_public_source_phase_id v = true) l ∧
    assoc "primary_source_phase_id" m = Some primary ∧ in_list primary l = true;
  pv_ratified : assoc "authority_tier" m = Some (JStr "ratified_knowledge") →
    truthy (get "ratification_event_version_id" m) = true;
  pv_inferred : origin = "inferred" → truthy (get "derivation_trace_version_id" m) = true
}.

Lemma phases_Ok v l :
  phases_check v = Ok l →
  v = JList l ∧ l ≠ [] ∧ Forall (λ v, is_public_source_phase_id v = true) l.
Proof.
  unfold phases_check. intros H. inv_checks. subst. bool_hyps.
  split_and!; [done|by intros ->|]. apply List.Forall_forall. by apply forallb_forall.
Qed.

(** A version 2.1 provenance is accepted only in its closed shape: origin
    and lifecycle from the closed sets, at least one distinct evidence
    version, public source phases with the primary among them, a ratification
    event behind ratified knowledge and a derivation trace behind an
    inference; it is returned unchanged. *)
Theorem provenance_v2_sound v r :
  validate_provenance_v2_1 v = Ok r → v = JObj r ∧ ∃ origin, provenance_v2_spec r origin.
Proof.
  unfold validate_provenance_v2_1. intros H. inv_checks.
  destruct (sorted_strs (set_diff (set_diff _ _) _)) eqn:E1; [|discriminate].
  destruct (sorted_strs (set_diff PROVENANCE_V2_REQUIRED _)) eqn:E2; [|discriminate].
  inv_checks. subst.
  match goal with H : _uris _ _ _ = _ |- _ => apply uris_Ok in H as (? & -> & Hne & ? & ?) end.
  match goal with H : phases_check _ = _ |- _ => apply phases_Ok in H as (-> & ? & ?) end.
  bool_hyps. split; [done|]. eexists. constructor.
  - by apply fields_closed.
  - split; eassumption.
  - eexists. split; eassumption.
  - eexists. split_and!; [eassumption|by apply Hne|done|done].
  - do 2 eexists. split_and!; eassumption.
  - intros Ht. simplify_eq. simpl in *. by bool_hyps.
  - intros ->. simpl in *. by bool_hyps.
Qed.

Definition example_provenance_v2 : json :=
  JObj [("origin_status", JStr "inferred"); ("lifecycle_status", JStr "proposed");
        ("authority_tier", JStr "inferred_candidate"); ("authority_source", JStr "model");
        ("mechanism", JStr "derive"); ("actor_id", JStr "a"); ("actor_class", JStr "model");
        ("role_assignment_version_id", JStr "r:1");
        ("evidence_version_ids", JList [JStr "evidence:1"]);
        ("source_phase_ids", JList [JStr "vendor.step"; JStr "operator_authored"]);
        ("primary_source_phase_id", JStr "vendor.step");
        ("derivation_trace_version_id", JStr "trace:1")].

Lemma provenance_v2_sound_witness :
  ∃ origin, provenance_v2_spec (match example_provenance_v2 with JObj m => m | _ => [] end) origin.
Proof. apply (provenance_v2_sound example_provenance_v2). vm_compute. reflexivity. Defined.

Lemma errs_closed_fields v a b : errs contract_error (_closed v a b).
Proof.
  unfold _closed. apply errs_bind; [errs_walk|]. intros m _.
  repeat case_match; auto using errs_Ok, errs_Err with errs.
Qed.

Lemma closed_Ok v a b m :
  _closed v a b = Ok m → v = JObj m ∧ ∀ x, In x a → In x (keys m).
Proof.
  unfold _closed. intros H. inv_checks.
  destruct (sorted_strs (set_diff (set_diff _ _) _)) eqn:E1; [|discriminate].
  destruct (sorted_strs (set_diff a _)) eqn:E2; [|discriminate]. inv_ok.
  split; [done|]. by apply (fields_closed _ _ b).
Qed.

Lemma errs_uri v p : errs contract_error (_uri v p).
Proof. unfold _uri. errs_walk. Qed.
#[export] Hint Resolve errs_uri : errs.

Lemma errs_uris_from l : ∀ i p, errs contract_error (uris_from i p l).
Proof. induction l; intros; cbn [uris_from]; errs_walk. Qed.
#[export] Hint Resolve errs_uris_from : errs.

Lemma errs_uris v p b : errs contract_error (_uris v p b).
Proof. unfold _uris. errs_walk. Qed.

Lemma errs_score v : errs contract_error (score_ok v).
Proof.
  unfold score_ok. destruct (_ || _) eqn:E; [done|]. bool_hyps.
  apply errs_bind; [by apply errs_to_float|done].
Qed.

Lemma errs_binding_time v p : errs contract_error (binding_time v p).
Proof. unfold binding_time. errs_walk. Qed.

Lemma errs_binding_text v p n : errs contract_error (binding_text v p n).
Proof. unfold binding_text. errs_walk. Qed.

Lemma errs_iterate v : errs contract_error (iterate v).
Proof. destruct v; simpl; auto using errs_Ok, errs_Err with errs. Qed.
#[export] Hint Resolve errs_uris errs_score errs_binding_time errs_binding_text errs_iterate : errs.

Ltac required_key :=
  match goal with H : ∀ x, In x _ → In x (keys ?m) |- In _ (keys ?m) =>
    apply H; apply mem_In; vm_compute; reflexivity end.

(** Every core schema is closed and fails in a machine-readable way: an
    accepted payload is returned unchanged with its required fields, and a
    rejection is a validation error, or the [TypeError] or [OverflowError] of
    an unhashable member or an integer no float holds. *)
Theorem core_payload_closed schema_id payload :
  (∀ r, validate_core_payload schema_id payload = Ok r →
     payload = JObj r ∧ ∃ required optional, assoc schema_id _CORE_FIELDS = Some (required, optional) ∧
       ∀ x, In x required → In x (keys r)) ∧
  (∀ e, validate_core_payload schema_id payload = Err e → contract_error e).
Proof.
  unfold validate_core_payload.
  destruct (assoc schema_id _CORE_FIELDS) as [[req opt]|] eqn:E.
  - split.
    + intros r H. apply bind_Ok in H as (m & Hm & H). apply closed_Ok in Hm as [-> Hk].
      apply bind_Ok in H as (? & _ & [= <-]). eauto.
    + change (errs contract_error (m ← _closed payload req opt;
        (if ends_with "actor/1.0.0" schema_id then actor_payload m
         else if ends_with "decision-episode/1.0.0" schema_id then episode_payload m
         else if ends_with "role-assignment/1.0.0" schema_id then role_payload m
         else if ends_with "expected-outcome/1.0.0" schema_id then expected_payload m
         else if ends_with "confidence-assessment/1.0.0" schema_id then assessment_payload m
         else if ends_with "evidence-artifact/1.0.0" schema_id then artifact_payload m
         else if ends_with "access-policy/1.0.0" schema_id then policy_payload m
         else if ends_with "deletion-event/1.0.0" schema_id then deletion_payload m
         else Ok tt) ;; Ok m)).
      apply errs_bind; [apply errs_closed_fields|]. intros m Hm. apply closed_Ok in Hm as [_ Hk].
      apply errs_bind; [|done]. apply assoc_In in E. simpl in E.
      repeat destruct E as [[= <- <- <-]|E]; [..|done];
        unfold ends_with; simpl;
        unfold episode_payload, actor_payload, role_payload, expected_payload, assessment_payload,
          artifact_payload, policy_payload, deletion_payload;
        repeat first [apply errs_item; required_key|errs_step].
  - split; [done|]. intros e [= <-]. by left.
Qed.

(** The public registries compile: predicates and qualifiers are complete
    and without repetition, there are thirteen non-empty endpoint unions, and
    a relation identity is accepted exactly when both its halves are
    registered. *)
Theorem registry_bundle_compiles :
  (∃ b, compile_registry_bundle = Ok b ∧ List.NoDup (bundle_predicates b) ∧
        List.NoDup (bundle_qualifiers b) ∧ length (bundle_unions b) = 13%nat) ∧
  Forall (λ u, u.2 ≠ []) ENDPOINT_UNIONS ∧
  ∀ p q, validate_relation_identity p q = Ok tt ↔ In p PREDICATE_IDS ∧ In q QUALIFIER_SCHEMA_IDS.
Proof.
  split; [|split].
  - eexists. split; [vm_compute; reflexivity|].
    split_and!; [apply dedup_strs_length; vm_compute; reflexivity..|reflexivity].
  - repeat constructor; discriminate.
  - intros p q. unfold validate_relation_identity. rewrite <- !mem_In.
    destruct (mem p PREDICATE_IDS), (mem q QUALIFIER_SCHEMA_IDS); simpl; naive_solver.
Qed.
