(* ===== verification/Business.v ===== *)
(** * Business payloads and relations ([ontology/business.py])

    The eleven closed business node schemas, the four relation qualifiers and
    the locked business relations with their endpoint and partition rules.
    The writer at the end of that module, which appends to the store, is not
    part of this file. *)
From S2P Require Import Prelude PyTime Urn Contracts Binding.

Definition BUSINESS_NODE_SCHEMA_IDS :=
  ["imprint.node.market/1.0.0"; "imprint.node.positioning/1.0.0";
   "imprint.node.term-set/1.0.0"; "imprint.node.asset/1.0.0";
   "imprint.node.campaign/1.0.0"; "imprint.node.business-event/1.1.0";
   "imprint.node.segment/1.0.0"; "imprint.node.situation/1.0.0";
   "imprint.node.required-behavior/1.0.0";
   "imprint.node.campaign-performance-measurement/1.1.0";
   "imprint.node.performance-disposition/1.1.0"].

(** Sources, targets, qualifier kind, policy, minimum authority. *)
Record relation_rule : Type := {
  rr_sources : list string; rr_targets : list string;
  rr_kind : string; rr_policy : string; rr_authority : string
}.
Definition rule s t k p a : relation_rule :=
  {| rr_sources := s; rr_targets := t; rr_kind := k; rr_policy := p; rr_authority := a |}.

Definition BUSINESS_RELATION_SPECS : list (string * relation_rule) :=
  [("defines_segment", rule ["Market"] ["Segment"] "link" "O" "J");
   ("bounds_situation", rule ["Market"] ["Situation"] "link" "O" "J");
   ("positioned_in", rule ["Positioning"] ["Market"] "link" "O" "R");
   ("positions_for_segment", rule ["Positioning"] ["Segment"] "link" "O" "R");
   ("positions_for_situation", rule ["Positioning"] ["Situation"] "link" "O" "R");
   ("uses_terms", rule ["Positioning"; "Offer"; "Asset"; "Campaign"] ["TermSet"] "link" "O" "J");
   ("promotes_offer", rule ["Campaign"] ["Offer"] "link" "O" "R");
   ("uses_asset", rule ["Campaign"] ["Asset"] "link" "O" "J");
   ("targets_market", rule ["Campaign"; "Offer"] ["Market"] "link" "O" "R");
   ("targets_segment", rule ["Campaign"; "Offer"] ["Segment"] "link" "O" "R");
   ("targets_situation", rule ["Campaign"; "Offer"] ["Situation"] "link" "O" "R");
   ("requires_behavior",
     rule ["Positioning"; "Offer"; "Campaign"] ["RequiredBehavior"] "link" "O" "R");
   ("event_for_campaign", rule ["BusinessEvent"] ["Campaign"] "evidence-link" "B" "I");
   ("event_for_asset", rule ["BusinessEvent"] ["Asset"] "evidence-link" "B" "I");
   ("event_for_offer", rule ["BusinessEvent"] ["Offer"] "evidence-link" "B" "I");
   ("measures_campaign",
     rule ["CampaignPerformanceMeasurement"] ["Campaign"] "attribution" "B" "I");
   ("measures_event",
     rule ["CampaignPerformanceMeasurement"] ["BusinessEvent"] "attribution" "C" "I");
   ("expected_performance", rule ["Campaign"] ["ExpectedOutcome"] "link" "O" "J");
   ("observed_performance",
     rule ["CampaignPerformanceMeasurement"] ["Outcome"] "attribution" "B" "I");
   ("performance_supports",
     rule ["CampaignPerformanceMeasurement"] ["Claim"; "Promise"] "attribution" "B" "I");
   ("performance_weakens",
     rule ["CampaignPerformanceMeasurement"] ["Claim"; "Promise"] "attribution" "B" "I");
   ("claims_mechanism",
     rule ["Positioning"; "Offer"; "Campaign"] ["Mechanism"] "causation" "C" "I");
   ("disposition_of",
     rule ["PerformanceDisposition"] ["CampaignPerformanceMeasurement"; "Outcome"]
       "evidence-link" "B" "J")].

Definition _bfail {A} (code pointer message : string) : res A :=
  Err (CodedError code pointer message).
Definition bfail_if (c : bool) (code pointer message : string) : res unit :=
  raise_if c (CodedError code pointer message).

Definition _bclosed (payload : json) (required optional : list string) : res obj :=
  m ← as_obj payload (CodedError "E_BUSINESS_FIELD_TYPE" "/payload" "object required");
  match sorted_strs (set_diff (set_diff (keys m) required) optional) with
  | name :: _ => _bfail "E_BUSINESS_FIELD_UNKNOWN" ("/payload/" +:+ name) "unknown field"
  | [] =>
      match sorted_strs (set_diff required (keys m)) with
      | name :: _ => _bfail "E_BUSINESS_FIELD_REQUIRED" ("/payload/" +:+ name) "required field"
      | [] => Ok m
      end
  end.

(** [_btime] and [_qtime] differ in their codes only. *)
Definition coded_time (type_code value_code : string) (value : json) (pointer : string)
    : res datetime :=
  match value with
  | JStr s =>
      match parse_rfc3339 s with
      | None => _bfail value_code pointer "invalid RFC3339"
      | Some d => bfail_if (negb (aware d)) value_code pointer "timezone required" ;; Ok d
      end
  | _ => _bfail type_code pointer "RFC3339 string required"
  end.
Definition _btime := coded_time "E_BUSINESS_FIELD_TYPE" "E_BUSINESS_FIELD_VALUE".
Definition _qtime := coded_time "E_RELATION_QUALIFIER_TYPE" "E_RELATION_QUALIFIER_TYPE".

Record node_shape : Type := {
  ns_required : list string; ns_optional : list string; ns_partition : string
}.
Definition declared_shape r o : node_shape :=
  {| ns_required := r; ns_optional := o; ns_partition := "business_declared" |}.
Definition observed_shape r o : node_shape :=
  {| ns_required := r; ns_optional := o; ns_partition := "business_observed" |}.

Definition _NODE_SHAPES : list (string * node_shape) :=
  [("imprint.node.market/1.0.0", declared_shape ["name"; "category"; "definition"]
     ["geography_ids"; "channel_ids"; "confidence_assessment_version_id"]);
   ("imprint.node.positioning/1.0.0", declared_shape
     ["frame"; "category_claim"; "differentiator_claims"; "ratification_event_version_id"]
     ["alternative_version_ids"; "proof_version_ids"; "confidence_assessment_version_id"]);
   ("imprint.node.term-set/1.0.0", declared_shape
     ["name"; "terms"; "language"; "ratification_event_version_id"]
     ["confidence_assessment_version_id"]);
   ("imprint.node.asset/1.0.0", declared_shape
     ["name"; "asset_type"; "artifact_version_id"; "purpose"; "lifecycle_state"]
     ["approved_by_role_assignment_version_id"; "confidence_assessment_version_id"]);
   ("imprint.node.campaign/1.0.0", declared_shape
     ["name"; "objective"; "status"; "owner_role_assignment_version_id"]
     ["start_at"; "end_at"; "budget"; "confidence_assessment_version_id"]);
   ("imprint.node.business-event/1.1.0", observed_shape
     ["event_type"; "occurred_at"; "observer_actor_version_id"; "source_artifact_version_id";
      "quantity"; "deduplication_key"; "confidence_assessment_version_id"]
     ["subject_version_id"; "value"]);
   ("imprint.node.segment/1.0.0", declared_shape
     ["name"; "definition"; "criteria"; "confidence_assessment_version_id"]
     ["population_estimate"]);
   ("imprint.node.situation/1.0.0", declared_shape
     ["name"; "trigger_conditions"; "context_statement"; "confidence_assessment_version_id"]
     ["valid_from"; "valid_to"]);
   ("imprint.node.required-behavior/1.0.0", declared_shape
     ["actor_class"; "action"; "observable_criterion"; "required"; "ratification_event_version_id"]
     ["preconditions"; "deadline_or_horizon"; "confidence_assessment_version_id"]);
   ("imprint.node.campaign-performance-measurement/1.1.0", observed_shape
     ["metric_id"; "value"; "unit_id"; "window_start"; "window_end"; "method_id"; "method_version";
      "observer_actor_version_id"; "source_artifact_version_ids"; "attribution_status";
      "attribution_rationale"; "confidence_assessment_version_id"]
     ["baseline_measurement_version_id"; "comparator_measurement_version_id"]);
   ("imprint.node.performance-disposition/1.1.0", declared_shape
     ["disposition"; "measurement_version_id"; "outcome_version_id"; "decided_by_actor_version_id";
      "decided_by_role_assignment_version_id"; "decided_at"; "reason"; "evidence_version_ids";
      "confidence_assessment_version_id"] [])].

(** ** Payload rules *)
Definition bmember (k : string) (m : obj) (allowed : list string) (message : string) : res unit :=
  v ← item k m; b ← not_in_set v allowed;
  bfail_if b "E_BUSINESS_FIELD_VALUE" ("/payload/" +:+ k) message.

Definition asset_rules (m : obj) : res unit :=
  bmember "asset_type" m
    ["copy"; "image"; "video"; "audio"; "page"; "email"; "document"; "offer_component"; "other"]
    "invalid asset type" ;;
  state ← item "lifecycle_state" m;
  live ← in_set state ["approved"; "active"];
  bfail_if (live && negb (truthy (get "approved_by_role_assignment_version_id" m)))
    "E_BUSINESS_CONDITIONAL_RULE" "/payload/approved_by_role_assignment_version_id"
    "approval required".

Definition campaign_rules (m : obj) : res unit :=
  bmember "status" m ["planned"; "active"; "paused"; "completed"; "cancelled"] "invalid status" ;;
  status ← item "status" m;
  bfail_if (str_is status "active" && negb (truthy (get "start_at" m)))
    "E_BUSINESS_CONDITIONAL_RULE" "/payload/start_at" "active campaign requires start" ;;
  if truthy (get "start_at" m) && truthy (get "end_at" m) then
    finish ← _btime (get "end_at" m) "/payload/end_at";
    start ← _btime (get "start_at" m) "/payload/start_at";
    bfail_if (instant finish <? instant start)
      "E_BUSINESS_FIELD_VALUE" "/payload/end_at" "end before start"
  else Ok tt.

Definition negative (v : json) : bool :=
  match num_of v with Some n => num_lt n (Fin 0 0) | None => false end.

(** [reference_types.get(subject)]; an unhashable subject raises. *)
Definition event_subject_check (reference_types : list (json * string)) (subject : json) : res unit :=
  if is_null subject then Ok tt
  else if negb (hashable subject) then Err TypeError
  else
    bfail_if (negb match List.find (λ kv, scalar_eq kv.1 subject) reference_types with
                   | Some kv => mem kv.2 ["Customer"; "Actor:external_subject"]
                   | None => false end)
      "E_BUSINESS_REFERENCE_TYPE" "/payload/subject_version_id"
      "Customer or external_subject Actor required".

Definition event_rules (reference_types : list (json * string)) (m : obj) : res unit :=
  bmember "event_type" m
    ["impression"; "click"; "lead"; "purchase"; "usage"; "refund"; "retention"; "referral";
     "support"; "other"] "invalid event" ;;
  v ← item "occurred_at" m; _btime v "/payload/occurred_at" ;;
  q ← item "quantity" m;
  bfail_if (is_bool q || negb (is_number q) || negative q)
    "E_BUSINESS_FIELD_VALUE" "/payload/quantity" "nonnegative number required" ;;
  event_subject_check reference_types (get "subject_version_id" m).

Definition measurement_rules (m : obj) : res unit :=
  v ← item "window_start" m; start ← _btime v "/payload/window_start";
  v ← item "window_end" m; finish ← _btime v "/payload/window_end";
  bfail_if (instant finish <=? instant start)
    "E_BUSINESS_FIELD_VALUE" "/payload/window_end" "exclusive end after start required" ;;
  bmember "attribution_status" m
    ["unattributed"; "correlated"; "modeled"; "experimental_estimate"] "invalid attribution" ;;
  status ← item "attribution_status" m;
  bfail_if ((str_is status "modeled" || str_is status "experimental_estimate") &&
            (negb (truthy (get "baseline_measurement_version_id" m)) ||
             negb (truthy (get "comparator_measurement_version_id" m))))
    "E_BUSINESS_ATTRIBUTION_INCOMPLETE" "/payload/attribution_status"
    "baseline and comparator required".

Definition disposition_rules (m : obj) : res unit :=
  bmember "disposition" m ["confirm"; "correct"; "reject"; "defer"] "invalid disposition" ;;
  a ← item "measurement_version_id" m;
  b ← item "outcome_version_id" m;
  bfail_if (Bool.eqb (is_null a) (is_null b))
    "E_BUSINESS_DISPOSITION_TARGET_MISMATCH" "/payload" "exactly one target reference required" ;;
  ev ← item "evidence_version_ids" m;
  bfail_if (negb (truthy ev))
    "E_BUSINESS_FIELD_CARDINALITY" "/payload/evidence_version_ids" "evidence required".

Definition validate_business_payload (schema_id : string) (payload : json) (partition : string)
    (reference_types : list (json * string)) : res obj :=
  match assoc schema_id _NODE_SHAPES with
  | None => _bfail "E_BUSINESS_SCHEMA_UNKNOWN" "/payload_schema_id" "unknown schema"
  | Some shape =>
      m ← _bclosed payload (ns_required shape) (ns_optional shape);
      bfail_if (negb (String.eqb partition (ns_partition shape)))
        "E_BUSINESS_PARTITION_MISMATCH" "/partition" (ns_partition shape) ;;
      (if ends_with "asset/1.0.0" schema_id then asset_rules m
       else if ends_with "campaign/1.0.0" schema_id then campaign_rules m
       else if ends_with "business-event/1.1.0" schema_id then event_rules reference_types m
       else if ends_with "campaign-performance-measurement/1.1.0" schema_id
       then measurement_rules m
       else if ends_with "performance-disposition/1.1.0" schema_id then disposition_rules m
       else Ok tt) ;;
      Ok m
  end.

(** ** Qualifiers *)
Definition QUALIFIER_COMMON :=
  ["attribution_rationale"; "baseline_version_id"; "comparator_version_id"; "window_start";
   "window_end"; "method_id"; "method_version"; "observer_actor_version_id";
   "source_artifact_version_ids"; "status"].
Definition BUSINESS_QUALIFIER_SCHEMA_IDS : list (string * string) :=
  [("link", "imprint.business.qualifier.link/1.1.0");
   ("attribution", "imprint.business.qualifier.attribution/1.2.0");
   ("causation", "imprint.business.qualifier.causation/1.2.0");
   ("evidence-link", "imprint.business.qualifier.evidence-link/1.0.0")].

Definition qualifier_shapes : list (string * list string) :=
  [("link", ["rationale"; "evidence_version_ids"]);
   ("evidence-link",
     ["rationale"; "evidence_version_ids"; "window_start"; "window_end";
      "confidence_assessment_version_id"; "observer_actor_version_id";
      "source_artifact_version_ids"]);
   ("attribution", QUALIFIER_COMMON);
   ("causation", QUALIFIER_COMMON ++
     ["claim_text"; "mechanism_version_id"; "design"; "causal_status";
      "confidence_assessment_version_id"])].

Definition qualifier_null_check (kv : string * json) : res unit :=
  bfail_if (is_null kv.2 && negb (mem kv.1 ["baseline_version_id"; "comparator_version_id"]))
    "E_RELATION_QUALIFIER_NULL" ("/qualifier/" +:+ kv.1) "null forbidden".

Definition qualifier_array_check (m : obj) (field : string) : res unit :=
  match assoc field m with
  | None => Ok tt
  | Some v =>
      let bad := CodedError "E_RELATION_QUALIFIER_CARDINALITY" ("/qualifier/" +:+ field)
                   "nonempty unique array" in
      l ← as_list v bad;
      raise_if (match l with [] => true | _ => false end) bad ;;
      dup ← has_duplicates l;
      raise_if dup bad
  end.

Definition qualifier_window_check (m : obj) : res unit :=
  if has_key "window_start" m then
    e ← item "window_end" m; finish ← _qtime e "/qualifier/window_end";
    s ← item "window_start" m; start ← _qtime s "/qualifier/window_start";
    bfail_if (instant finish <=? instant start)
      "E_RELATION_QUALIFIER_VALUE" "/qualifier/window_end" "exclusive end must follow start"
  else Ok tt.

Definition attribution_check (m : obj) : res unit :=
  status ← item "status" m;
  b ← not_in_set status ["unattributed"; "correlated"; "modeled"; "experimental_estimate"];
  bfail_if b "E_RELATION_QUALIFIER_VALUE" "/qualifier/status" "invalid status" ;;
  base ← item "baseline_version_id" m;
  comp ← item "comparator_version_id" m;
  bfail_if ((str_is status "modeled" || str_is status "experimental_estimate") &&
            (is_null base || is_null comp))
    "E_RELATION_QUALIFIER_CONDITIONAL" "/qualifier/status" "baseline and comparator required".

Definition causation_check (m : obj) : res unit :=
  causal ← item "causal_status" m;
  b ← not_in_set causal ["unproven"; "bounded_estimate"];
  bfail_if b "E_BUSINESS_CAUSATION_OVERCLAIM" "/qualifier/causal_status" "proven is forbidden" ;;
  if str_is causal "bounded_estimate" then
    design ← item "design" m;
    b ← not_in_set design ["quasi_experimental"; "randomized"];
    bfail_if b "E_BUSINESS_CAUSATION_OVERCLAIM" "/qualifier/design"
      "bounded estimate requires strong design"
  else Ok tt.

Definition validate_business_qualifier (kind : string) (value : json) : res obj :=
  match assoc kind qualifier_shapes with
  | None => _bfail "E_RELATION_QUALIFIER_SCHEMA_UNKNOWN" "/qualifier/schema_id" "unknown schema"
  | Some shape =>
      m ← as_obj value (CodedError "E_RELATION_QUALIFIER_TYPE" "/qualifier" "object required");
      match sorted_strs (set_diff (keys m) shape) with
      | name :: _ => _bfail "E_RELATION_QUALIFIER_UNKNOWN" ("/qualifier/" +:+ name) "unknown field"
      | [] =>
          match sorted_strs (set_diff shape (keys m)) with
          | name :: _ =>
              _bfail "E_RELATION_QUALIFIER_CARDINALITY" ("/qualifier/" +:+ name) "required field"
          | [] =>
              for_each qualifier_null_check m ;;
              for_each (qualifier_array_check m)
                ["evidence_version_ids"; "source_artifact_version_ids"] ;;
              qualifier_window_check m ;;
              (if mem kind ["attribution"; "causation"] then attribution_check m else Ok tt) ;;
              (if String.eqb kind "causation" then causation_check m else Ok tt) ;;
              Ok m
          end
      end
  end.

(** ** Relations *)
Record checked_relation : Type := {
  cr_predicate : string; cr_qualifier : obj; cr_policy : string; cr_authority_minimum : string
}.

Definition opt_is (o : option string) (s : string) : bool :=
  match o with Some t => String.eqb t s | None => false end.

Definition disposition_target_check (predicate target_type : string) (source_payload : option obj)
    (target_version_id : option string) : res unit :=
  match source_payload with
  | Some sp =>
      if String.eqb predicate "disposition_of" then
        let field := if String.eqb target_type "CampaignPerformanceMeasurement"
                     then "measurement_version_id" else "outcome_version_id" in
        let other := if String.eqb field "measurement_version_id"
                     then "outcome_version_id" else "measurement_version_id" in
        bfail_if (negb (py_eq (get field sp) (opt_str target_version_id)) ||
                  negb (is_null (get other sp)))
          "E_BUSINESS_DISPOSITION_TARGET_MISMATCH" "/target_version_id"
          "target must equal active payload reference"
      else Ok tt
  | None => Ok tt
  end.

Definition validate_business_relation (predicate source_type target_type : string)
    (qualifier : json) (source_payload : option obj)
    (target_version_id source_partition target_partition : option string) : res checked_relation :=
  match assoc predicate BUSINESS_RELATION_SPECS with
  | None => _bfail "E_BUSINESS_RELATION_UNKNOWN" "/predicate_id" "unknown predicate"
  | Some r =>
      bfail_if (negb (mem source_type (rr_sources r)) || negb (mem target_type (rr_targets r)))
        "E_BUSINESS_RELATION_ENDPOINT_TYPE" "/target_version_id" "invalid endpoint pair" ;;
      bfail_if (mem predicate ["event_for_campaign"; "event_for_asset"; "event_for_offer"] &&
                negb (opt_is source_partition "business_observed" &&
                      opt_is target_partition "business_declared"))
        "E_RELATION_PARTITION_CROSSING" "/partition"
        "exclusive observed-to-declared Policy B pair required" ;;
      checked ← validate_business_qualifier (rr_kind r) qualifier;
      disposition_target_check predicate target_type source_payload target_version_id ;;
      Ok {| cr_predicate := predicate; cr_qualifier := checked; cr_policy := rr_policy r;
            cr_authority_minimum := rr_authority r |}
  end.

(** ** What the validators guarantee *)
Lemma bfail_if_Ok c a b d u : bfail_if c a b d = Ok u ↔ c = false.
Proof. apply raise_if_Ok. Qed.

Lemma coded_time_Ok a b v p d :
  coded_time a b v p = Ok d ↔ ∃ s, v = JStr s ∧ parse_rfc3339 s = Some d ∧ aware d = true.
Proof.
  unfold coded_time, bfail_if. destruct v; try (split; naive_solver).
  destruct (parse_rfc3339 s) as [d'|] eqn:E; [|split; [done|]; naive_solver].
  destruct (aware d') eqn:A; simpl; split; try done.
  - intros [= <-]. eauto.
  - intros (? & [= <-] & ? & _). congruence.
  - intros (? & [= <-] & ? & ?). congruence.
Qed.

Ltac inv_business :=
  repeat first
    [ inv_ok1
    | inv_contract1
    | match goal with
      | H : bfail_if _ _ _ _ = Ok _ |- _ =>
          apply bfail_if_Ok in H;
          match type of H with ?c = false => tryif is_var c then subst c else idtac end
      | H : _btime _ _ = Ok _ |- _ => apply coded_time_Ok in H as (? & ? & ? & ?)
      | H : _qtime _ _ = Ok _ |- _ => apply coded_time_Ok in H as (? & ? & ? & ?)
      end ].

Lemma bmember_Ok k m l msg u :
  bmember k m l msg = Ok u → ∃ s, assoc k m = Some (JStr s) ∧ In s l.
Proof. unfold bmember. intros H. inv_business. subst. eauto. Qed.

(** The instants of two timestamp fields are ordered strictly. *)
Definition ordered_window (m : obj) (a b : string) : Prop :=
  ∃ s e ds de, assoc a m = Some (JStr s) ∧ assoc b m = Some (JStr e) ∧
    parse_rfc3339 s = Some ds ∧ parse_rfc3339 e = Some de ∧ instant ds < instant de.

Record qualifier_spec (kind : string) (shape : list string) (m : obj) : Prop := {
  qs_fields : ∀ x, In x (keys m) ↔ In x shape;
  qs_nulls : ∀ k, In (k, JNull) m → In k ["baseline_version_id"; "comparator_version_id"];
  qs_window : In "window_start" (keys m) → ordered_window m "window_start" "window_end";
  qs_attribution : In kind ["attribution"; "causation"] →
    ∃ s, assoc "status" m = Some (JStr s) ∧
      In s ["unattributed"; "correlated"; "modeled"; "experimental_estimate"] ∧
      (In s ["modeled"; "experimental_estimate"] →
         assoc "baseline_version_id" m ≠ Some JNull ∧ assoc "comparator_version_id" m ≠ Some JNull);
  qs_causation : kind = "causation" →
    ∃ c, assoc "causal_status" m = Some (JStr c) ∧ In c ["unproven"; "bounded_estimate"] ∧
      (c = "bounded_estimate" →
         ∃ d, assoc "design" m = Some (JStr d) ∧ In d ["quasi_experimental"; "randomized"])
}.

Lemma qualifier_null_Ok l u :
  for_each qualifier_null_check l = Ok u →
  ∀ k, In (k, JNull) l → In k ["baseline_version_id"; "comparator_version_id"].
Proof.
  intros H%for_each_Ok k Hk. rewrite List.Forall_forall in H. specialize (H _ Hk).
  unfold qualifier_null_check in H. apply bfail_if_Ok in H. simpl in H. bool_hyps.
  by apply mem_In.
Qed.

Lemma qualifier_window_Ok m u :
  qualifier_window_check m = Ok u → In "window_start" (keys m) →
  ordered_window m "window_start" "window_end".
Proof.
  unfold qualifier_window_check, has_key. intros H Hk%mem_In. rewrite Hk in H.
  inv_business. subst. bool_hyps. do 4 eexists. split_and!; eassumption.
Qed.

Lemma attribution_Ok m u :
  attribution_check m = Ok u →
  ∃ s, assoc "status" m = Some (JStr s) ∧
    In s ["unattributed"; "correlated"; "modeled"; "experimental_estimate"] ∧
    (In s ["modeled"; "experimental_estimate"] →
       assoc "baseline_version_id" m ≠ Some JNull ∧ assoc "comparator_version_id" m ≠ Some JNull).
Proof.
  unfold attribution_check. intros H. inv_business. subst. eexists. split_and!; [eassumption..|].
  intros Hs. match goal with H : _ && _ = false |- _ => simpl in H; rename H into Hc end.
  assert (∀ v, is_null v = false → v ≠ JNull) as Hn by (by intros [] ?).
  simpl in Hs. destruct Hs as [<-|[<-|[]]]; simpl in Hc; apply orb_false_iff in Hc as [? ?];
    split; intros E; simplify_eq; discriminate.
Qed.

Lemma causation_Ok m u :
  causation_check m = Ok u →
  ∃ c, assoc "causal_status" m = Some (JStr c) ∧ In c ["unproven"; "bounded_estimate"] ∧
    (c = "bounded_estimate" →
       ∃ d, assoc "design" m = Some (JStr d) ∧ In d ["quasi_experimental"; "randomized"]).
Proof.
  unfold causation_check. intros H.
  apply bind_Ok in H as (v & Hv%item_Ok & H). apply bind_Ok in H as (b & Hb & H).
  apply bind_Ok in H as (? & ->%bfail_if_Ok & H).
  apply not_in_set_false in Hb as (c & -> & Hc%mem_In).
  exists c. split_and!; [done|done|]. intros ->. simpl in H. inv_business. subst. eauto.
Qed.

Lemma qualifier_elim kind v r :
  validate_business_qualifier kind v = Ok r →
  v = JObj r ∧ ∃ shape, assoc kind qualifier_shapes = Some shape ∧ qualifier_spec kind shape r.
Proof.
  unfold validate_business_qualifier. destruct (assoc kind qualifier_shapes) as [shape|] eqn:E;
    [|discriminate]. intros H. apply bind_Ok in H as (m & Hm & H).
  apply as_obj_Ok in Hm as ->.
  destruct (sorted_strs (set_diff (keys m) shape)) eqn:E1; [|discriminate].
  destruct (sorted_strs (set_diff shape (keys m))) eqn:E2; [|discriminate].
  apply bind_Ok in H as (? & Hn & H). apply bind_Ok in H as (? & _ & H).
  apply bind_Ok in H as (? & Hw & H). apply bind_Ok in H as (? & Ha & H).
  apply bind_Ok in H as (? & Hc & [= <-]).
  split; [done|]. exists shape. split; [done|]. constructor.
  - apply sorted_nil, set_diff_nil in E1, E2. rewrite subset_In in E1, E2. naive_solver.
  - by eapply qualifier_null_Ok.
  - by eapply qualifier_window_Ok.
  - intros Hk%mem_In. rewrite Hk in Ha. by eapply attribution_Ok.
  - intros ->. by eapply causation_Ok.
Qed.

(** Qualifiers never overclaim.  An accepted qualifier has exactly its
    kind's fields, nulls only for the two comparison references, a window
    whose exclusive end follows its start, both comparison references behind
    a modeled or experimental status, and for causation a status short of
    proof, with a strong design behind a bounded estimate. *)
Theorem business_qualifier_sound kind v r :
  validate_business_qualifier kind v = Ok r →
  v = JObj r ∧ ∃ shape, assoc kind qualifier_shapes = Some shape ∧ qualifier_spec kind shape r.
Proof. apply qualifier_elim. Qed.

(** A business relation carries what its locked predicate says: allowed
    endpoint types, the predicate's policy and minimum authority, an accepted
    qualifier of its kind, an observed source and declared target for event
    relations, and for a disposition the payload's one active reference. *)
Theorem business_relation_sound predicate src tgt q sp tv spart tpart r :
  validate_business_relation predicate src tgt q sp tv spart tpart = Ok r →
  ∃ spec, assoc predicate BUSINESS_RELATION_SPECS = Some spec ∧
    In src (rr_sources spec) ∧ In tgt (rr_targets spec) ∧
    cr_policy r = rr_policy spec ∧ cr_authority_minimum r = rr_authority spec ∧
    q = JObj (cr_qualifier r) ∧
    (∃ shape, assoc (rr_kind spec) qualifier_shapes = Some shape ∧
              qualifier_spec (rr_kind spec) shape (cr_qualifier r)) ∧
    (In predicate ["event_for_campaign"; "event_for_asset"; "event_for_offer"] →
       spart = Some "business_observed" ∧ tpart = Some "business_declared") ∧
    (predicate = "disposition_of" → ∀ payload t, sp = Some payload → tv = Some t →
       get (if String.eqb tgt "CampaignPerformanceMeasurement"
            then "measurement_version_id" else "outcome_version_id") payload = JStr t).
Proof.
  unfold validate_business_relation.
  destruct (assoc predicate BUSINESS_RELATION_SPECS) as [spec|]; [|discriminate].
  intros H. apply bind_Ok in H as (? & He%bfail_if_Ok & H).
  apply bind_Ok in H as (? & Hp%bfail_if_Ok & H). apply bind_Ok in H as (c & Hq & H).
  apply bind_Ok in H as (? & Hd & [= <-]). apply qualifier_elim in Hq as [-> Hq].
  bool_hyps. exists spec. cbn [cr_policy cr_authority_minimum cr_qualifier].
  split_and!; try done; try (by apply mem_In).
  - intros Hin%mem_In. rewrite Hin in Hp. simpl in Hp. bool_hyps.
    destruct spart as [s|]; [|discriminate]. destruct tpart as [t|]; [|discriminate].
    simpl in *. split; f_equal; by apply String.eqb_eq.
  - intros -> payload t -> ->. unfold disposition_target_check in Hd. simpl in Hd.
    apply bfail_if_Ok in Hd. bool_hyps. by apply py_eq_str.
Qed.

(** Business payloads keep to their partition and their conditional rules:
    an accepted payload is returned unchanged in its schema's partition with
    its required fields; an approved or active asset has an approver, an
    active campaign a start, a measurement a forward window and, when modeled
    or experimental, both comparison measurements, and a disposition exactly
    one target and some evidence. *)
Theorem business_payload_sound schema payload partition types r :
  validate_business_payload schema payload partition types = Ok r →
  payload = JObj r ∧ ∃ shape, assoc schema _NODE_SHAPES = Some shape ∧
    partition = ns_partition shape ∧ (∀ x, In x (ns_required shape) → In x (keys r)) ∧
    (schema = "imprint.node.asset/1.0.0" → ∀ s, assoc "lifecycle_state" r = Some (JStr s) →
       In s ["approved"; "active"] →
       truthy (get "approved_by_role_assignment_version_id" r) = true) ∧
    (schema = "imprint.node.campaign/1.0.0" → assoc "status" r = Some (JStr "active") →
       truthy (get "start_at" r) = true) ∧
    (schema = "imprint.node.campaign-performance-measurement/1.1.0" →
       ordered_window r "window_start" "window_end" ∧
       ∀ s, assoc "attribution_status" r = Some (JStr s) → In s ["modeled"; "experimental_estimate"] →
         truthy (get "baseline_measurement_version_id" r) = true ∧
         truthy (get "comparator_measurement_version_id" r) = true) ∧
    (schema = "imprint.node.performance-disposition/1.1.0" →
       (assoc "measurement_version_id" r = Some JNull ↔ assoc "outcome_version_id" r ≠ Some JNull) ∧
       truthy (get "evidence_version_ids" r) = true).
Proof.
  unfold validate_business_payload.
  destruct (assoc schema _NODE_SHAPES) as [shape|]; [|discriminate].
  intros H. apply bind_Ok in H as (m & Hm & H). apply bind_Ok in H as (? & Hp%bfail_if_Ok & H).
  apply bind_Ok in H as (? & Hr & [= <-]). unfold _bclosed, _bfail in Hm. inv_checks.
  destruct (sorted_strs (set_diff (set_diff _ _) _)) eqn:E1; [|discriminate].
  destruct (sorted_strs (set_diff (ns_required shape) _)) eqn:E2; [|discriminate]. inv_ok.
  bool_hyps. apply String.eqb_eq in Hp.
  split; [done|]. exists shape. split_and!; [done|done| |..].
  - by apply (fields_closed _ _ (ns_optional shape)).
  - intros -> s Hs Hin%mem_In. cbn in Hr. unfold asset_rules in Hr. inv_business.
    match goal with H : in_set _ _ = _ |- _ => apply in_set_Ok in H as [_ ->] end.
    simplify_eq. rewrite (proj2 (mem_In _ _) Hin) in *. simpl in *. by bool_hyps.
  - intros -> Hs. cbn in Hr. unfold campaign_rules in Hr. inv_business. simplify_eq.
    simpl in *. by bool_hyps.
  - intros ->. cbn in Hr. unfold measurement_rules in Hr. inv_business. subst. bool_hyps. split.
    + do 4 eexists. split_and!; eassumption.
    + intros s Hs Hin. simplify_eq. simpl in Hin. destruct Hin as [<-|[<-|[]]]; simpl in *;
        bool_hyps; split; by bool_hyps.
  - intros ->. cbn in Hr. unfold disposition_rules in Hr. inv_business. bool_hyps. split.
    + match goal with H : Bool.eqb (is_null ?a) (is_null ?b) = false, Ha : assoc _ ?m = Some ?a, Hb : assoc _ ?m = Some ?b |- _ =>
        rewrite Ha, Hb; destruct a, b; simpl in H; try discriminate; split; congruence end.
    + unfold get. match goal with H : assoc "evidence_version_ids" _ = Some _ |- _ => rewrite H end.
      done.
Qed.

(** ** Concrete records *)
Definition causation_qualifier : json :=
  JObj [("attribution_rationale", JStr "geo holdout"); ("baseline_version_id", JStr "b:1");
        ("comparator_version_id", JStr "c:1"); ("window_start", JStr "2024-01-01T00:00:00Z");
        ("window_end", JStr "2024-02-01T00:00:00Z"); ("method_id", JStr "m"); ("method_version", JStr "1");
        ("observer_actor_version_id", JStr "a:1");
        ("source_artifact_version_ids", JList [JStr "s:1"]); ("status", JStr "modeled");
        ("claim_text", JStr "doubles replies"); ("mechanism_version_id", JStr "x:1");
        ("design", JStr "randomized"); ("causal_status", JStr "bounded_estimate");
        ("confidence_assessment_version_id", JStr "k:1")].

Definition raw_object (v : json) : obj := match v with JObj m => m | _ => [] end.

Lemma business_qualifier_sound_witness :
  is_ok (validate_business_qualifier "causation"
    (JObj (set_item "causal_status" (JStr "proven") (raw_object causation_qualifier)))) = false ∧
  ∃ shape, assoc "causation" qualifier_shapes = Some shape ∧
    qualifier_spec "causation" shape (raw_object causation_qualifier).
Proof.
  split; [vm_compute; reflexivity|].
  apply (business_qualifier_sound "causation" causation_qualifier). vm_compute. reflexivity.
Defined.

Lemma business_relation_sound_witness :
  ∃ spec, assoc "claims_mechanism" BUSINESS_RELATION_SPECS = Some spec ∧
    In "Offer" (rr_sources spec) ∧ In "Mechanism" (rr_targets spec).
Proof.
  destruct (business_relation_sound "claims_mechanism" "Offer" "Mechanism" causation_qualifier
    None None None None
    {| cr_predicate := "claims_mechanism"; cr_qualifier := raw_object causation_qualifier;
       cr_policy := "C"; cr_authority_minimum := "I" |}
    ltac:(vm_compute; reflexivity)) as (spec & ? & ? & ? & _). eauto.
Defined.

Lemma business_payload_sound_witness :
  let payload := [("name", JStr "Spring"); ("objective", JStr "trials"); ("status", JStr "active");
                  ("owner_role_assignment_version_id", JStr "r:1");
                  ("start_at", JStr "2024-01-01T00:00:00Z")] in
  truthy (get "start_at" payload) = true.
Proof.
  destruct (business_payload_sound "imprint.node.campaign/1.0.0"
    (JObj [("name", JStr "Spring"); ("objective", JStr "trials"); ("status", JStr "active");
           ("owner_role_assignment_version_id", JStr "r:1");
           ("start_at", JStr "2024-01-01T00:00:00Z")]) "business_declared" [] _
    ltac:(vm_compute; reflexivity)) as (_ & shape & _ & _ & _ & _ & H & _).
  by apply H.
Defined.
