(* ===== verification/Unicode.v ===== *)
(** * Text beyond ASCII and the lexical tokenizer ([retrieve/tokenizer.py])

    Python's Unicode tables are data of its runtime, not of this repository.
    They enter as an interface over single code points, consulted only
    outside ASCII; what happens on ASCII text is written out. *)
From S2P Require Import Prelude.

Class unicode_data : Type := {
  (** the ASCII characters of the casefolded NFKD form of a code point *)
  ascii_part : string → string;
  (** [str.lower] and [str.casefold] of a code point *)
  lower_part : string → string;
  casefold_part : string → string;
  (** membership in the class [\w] *)
  word_part : string → bool
}.

Definition is_ascii_char (c : string) : bool :=
  match c with String a "" => (N_of_ascii a <? 128)%N | _ => false end.

Section unicode.
Context `{ucd : unicode_data}.

Definition map_chars (on_ascii other : string → string) (s : string) : string :=
  str_concat (map (λ c, if is_ascii_char c then on_ascii c else other c) (chars s)).

Definition py_lower : string → string := map_chars lower lower_part.
Definition py_casefold : string → string := map_chars lower casefold_part.

(** [unicodedata.normalize("NFKD", s).casefold().encode("ascii", "ignore")] *)
Definition ascii_projection : string → string := map_chars lower ascii_part.

(** [\w] *)
Definition is_word (c : string) : bool :=
  if is_ascii_char c
  then match c with
       | String a "" => is_lower_alnum (lower_ascii a) || Ascii.eqb a "_"
       | _ => false
       end
  else word_part c.
End unicode.

(** ** Tokens: lower-case alphanumeric runs joined by single quotes or dashes *)
Definition is_joiner (a : ascii) : bool := Ascii.eqb a "'" || Ascii.eqb a "-".

Definition emit (cur : string) (rest : list string) : list string :=
  if String.eqb cur "" then rest else cur :: rest.

(** [cur] is the token read so far and [pend] a joiner seen after it. *)
Fixpoint scan (s cur pend : string) : list string :=
  match s with
  | EmptyString => emit cur []
  | String a r =>
      if is_lower_alnum a then scan r (cur +:+ pend +:+ String a "") ""
      else if is_joiner a && negb (String.eqb cur "") && String.eqb pend ""
           then scan r cur (String a "")
           else emit cur (scan r "" "")
  end.

Definition TOKENIZER_VERSION := "lexical-v1".

Section tokenizer.
Context `{ucd : unicode_data}.

Definition tokenize (value version : string) : res (list string) :=
  raise_if (negb (String.eqb version TOKENIZER_VERSION))
    (ValueError "unsupported tokenizer version") ;;
  Ok (scan (ascii_projection value) "" "").

Definition lexical_score (query text version : string) : res Z :=
  query_tokens ← tokenize query version;
  match query_tokens with
  | [] => Ok 0
  | _ =>
      candidate ← tokenize text version;
      Ok (Z.of_nat (length (List.filter (λ t, mem t candidate) query_tokens)))
  end.
End tokenizer.

(** Unicode tables of a runtime that knows no letter beyond ASCII. *)
Definition plain_unicode : unicode_data :=
  {| ascii_part := λ _, ""; lower_part := λ c, c; casefold_part := λ c, c; word_part := λ _, false |}.

(** ** What the tokenizer yields *)

(** A token: alphanumeric runs joined by single joiners. *)
Fixpoint token_tail (s : string) (after_joiner : bool) : bool :=
  match s with
  | EmptyString => negb after_joiner
  | String a r =>
      if is_lower_alnum a then token_tail r false
      else is_joiner a && negb after_joiner && token_tail r true
  end.
Definition is_token (s : string) : bool :=
  match s with String a r => is_lower_alnum a && token_tail r false | EmptyString => false end.

Lemma token_tail_snoc s b a :
  token_tail s b = true → is_lower_alnum a = true → token_tail (s +:+ String a "") b = true.
Proof.
  revert b. induction s as [|x s IH]; intros b H Ha; simpl in *; [by rewrite Ha|].
  destruct (is_lower_alnum x); [by apply IH|]. bool_hyps.
  rewrite H, H1. simpl. by apply IH.
Qed.

Lemma token_tail_join s b j a :
  token_tail s b = true → is_joiner j = true → is_lower_alnum j = false →
  is_lower_alnum a = true → token_tail (s +:+ String j (String a "")) b = true.
Proof.
  revert b. induction s as [|x s IH]; intros b H Hj Hn Ha; simpl in *.
  - by rewrite Hn, Hj, Ha, H.
  - destruct (is_lower_alnum x); [by apply IH|]. bool_hyps.
    rewrite H, H1. simpl. by apply IH.
Qed.

Definition scan_ok (cur pend : string) : Prop :=
  (cur = "" ∧ pend = "") ∨
  (is_token cur = true ∧
   (pend = "" ∨ ∃ j, pend = String j "" ∧ is_joiner j = true ∧ is_lower_alnum j = false)).

Lemma emit_tokens cur pend rest :
  scan_ok cur pend → Forall (λ t, is_token t = true) rest →
  Forall (λ t, is_token t = true) (emit cur rest).
Proof.
  unfold emit. intros [[-> _]|[H _]] Hr; [done|]. destruct (String.eqb cur ""); [done|].
  by constructor.
Qed.

Lemma scan_step cur pend a :
  scan_ok cur pend → is_lower_alnum a = true → scan_ok (cur +:+ pend +:+ String a "") "".
Proof.
  intros Hc Ha. right. split; [|by left].
  destruct Hc as [[-> ->]|[Ht Hp]]; [simpl; by rewrite Ha|].
  destruct cur as [|x cur]; [discriminate|]. simpl in *. bool_hyps. rewrite H. simpl.
  destruct Hp as [->|(j & -> & Hj & Hn)]; simpl; [by apply token_tail_snoc|by apply token_tail_join].
Qed.

Lemma scan_tokens s : ∀ cur pend, scan_ok cur pend → Forall (λ t, is_token t = true) (scan s cur pend).
Proof.
  induction s as [|a s IH]; intros cur pend Hc; simpl.
  - by eapply emit_tokens.
  - destruct (is_lower_alnum a) eqn:Ha; [by apply IH, scan_step|].
    destruct (_ && _ && _) eqn:E; [|eapply emit_tokens; [exact Hc|apply IH; by left]].
    bool_hyps. apply String.eqb_eq in H0 as ->. apply IH. right.
    destruct Hc as [[-> _]|[Ht _]]; [discriminate|]. split; [done|]. right. eauto.
Qed.

(** The tokenizer yields tokens only: whatever the text and the Unicode
    tables, every token is alphanumeric runs of lower-case ASCII joined by
    single quotes or dashes, and the lexical score of a query lies between
    zero and its number of tokens. *)
Theorem tokens_well_formed `{ucd : unicode_data} text query :
  (∀ ts, tokenize text TOKENIZER_VERSION = Ok ts → Forall (λ t, is_token t = true) ts) ∧
  (∃ q n, tokenize query TOKENIZER_VERSION = Ok q ∧
     lexical_score query text TOKENIZER_VERSION = Ok n ∧ 0 ≤ n ≤ Z.of_nat (length q)).
Proof.
  split.
  - intros ts H. unfold tokenize in H. simpl in H. injection H as <-.
    apply scan_tokens. by left.
  - unfold lexical_score, tokenize. simpl. destruct (scan (ascii_projection query) "" "") as [|t q] eqn:E.
    + exists [], 0. split_and!; done.
    + do 2 eexists. split_and!; [reflexivity|reflexivity|lia|].
      pose proof (List.filter_length_le (λ t, mem t (scan (ascii_projection text) "" "")) (t :: q)).
      lia.
Qed.
