(* ===== verification/Retrieval.v ===== *)
(** * The retrieval engine ([retrieve/models.py], [retrieve/engine.py])

    Eligibility, ranking and byte-exact compilation of the context payload
    over the candidates a read-only source returns. *)
From S2P Require Import Prelude PyTime Urn Contracts Codec Unicode.

(** ** Types *)
Inductive section := core | general | domain.

#[export] Instance section_eq_dec : EqDecision section.
Proof. solve_decision. Defined.

Definition ONTOLOGY_PARTITIONS :=
  ["judgment"; "self_model"; "business_declared"; "business_observed"].

Record RetrievalRecord : Type := {
  record_id : string; r_text : string; r_section : section;
  provenance_status : string; authority_tier : string; evidence_ids : list string;
  case_ids : list string; case_referents : list string; source_receipt_ids : list string;
  domain_id : option string; pinned : bool; recurrence_count : Z; valid_from : string;
  current : bool; rejected : bool; tombstoned : bool; valid_until : option string;
  provenance_complete : bool; imported_selected : bool;
  ontology_partition : string; ontology_type : string; ontology_path : list string;
  r_confidence : option spec_float; disclosure : string
}.

Record RetrievalConfig : Type := {
  total_budget_bytes : Z; allow_higher_budget : bool; tokenizer_version : string;
  authority_mode : string; output_format : string
}.

Record RetrievalResult : Type := {
  payload : string; selected_ids : list string; eligible_count : Z; omitted_count : Z;
  selected_bytes : Z; budget_bytes : Z; section_bytes : list (section * Z);
  result_mode : string; requested_partitions : list string;
  selected_by_partition : list (string * list string)
}.

(** [RetrievalSource]: a read-only projection of the store. *)
Class retrieval_source : Type := {
  retrieval_candidates : string → list RetrievalRecord
}.

Definition DEFAULT_BUDGET : Z := 32 * 1024.
Definition MAX_EXPLICIT_BUDGET : Z := 128 * 1024.
Definition _DIRECT_AUTHORITY : list (string * Z) :=
  [("captured", 0); ("ratified", 0); ("extracted", 1)].
Definition _TIER_ORDER : list (string * Z) :=
  [("captured_judgment", 0); ("ratified_knowledge", 0); ("imported_floor", 2)].
Definition _ANALYTICAL_TIERS := ["inferred_candidate"; "observed_candidate"].

(** ** Eligibility *)
Definition is_some {A} (o : option A) : bool := match o with Some _ => true | None => false end.
Definition opt_eqb (a : option string) (b : option string) : bool :=
  match a, b with Some x, Some y => String.eqb x y | None, None => true | _, _ => false end.
Definition is_domain (s : section) : bool := match s with domain => true | _ => false end.
Definition is_nil {A} (l : list A) : bool := match l with [] => true | _ => false end.

Definition eligible (record : RetrievalRecord) (selected_domain : option string)
    (mode : string) : bool :=
  let status := provenance_status record in
  let tier := authority_tier record in
  if negb (current record) || rejected record || tombstoned record || is_some (valid_until record)
  then false
  else if negb (provenance_complete record) || is_nil (evidence_ids record) then false
  else if negb (mem mode ["authoritative"; "analytical"]) then false
  else
    let authoritative := String.eqb mode "authoritative" in
    let allowed_statuses :=
      ["captured"; "extracted"; "ratified"] ++ (if authoritative then [] else ["inferred"]) in
    if negb (mem status allowed_statuses) then false
    else
      let allowed_tiers :=
        ["captured_judgment"; "ratified_knowledge"; "imported_floor"] ++
        (if authoritative then [] else _ANALYTICAL_TIERS) in
      if negb (mem tier allowed_tiers) then false
      else if String.eqb tier "captured_judgment" && negb (String.eqb status "captured") then false
      else if String.eqb status "captured" &&
              negb (String.eqb (ontology_partition record) "business_declared") &&
              is_nil (case_ids record) then false
      else if String.eqb tier "ratified_knowledge" && negb (String.eqb status "ratified") then false
      else if String.eqb tier "imported_floor" && negb (imported_selected record) then false
      else if String.eqb status "inferred" && negb (String.eqb tier "inferred_candidate") then false
      else if String.eqb tier "observed_candidate" && negb (String.eqb status "extracted") then false
      else if String.eqb (ontology_partition record) "self_model" && authoritative &&
              (negb (String.eqb (ontology_type record) "SelfModelAssertion") ||
               negb (String.eqb status "ratified")) then false
      else if is_domain (r_section record) &&
              (negb (is_some selected_domain) || negb (opt_eqb (domain_id record) selected_domain))
           then false
      else if is_some (domain_id record) && negb (is_domain (r_section record)) then false
      else true.

(** ** Ranking *)

(** [timestamp() // 86400] of an instant given in microseconds since year 1:
    the quotient goes through the nearest binary64. *)
Definition epoch_us : Z := 719163 * us_per_day.

Definition float_floor_div (f : spec_float) (d : Z) : Z :=
  match f with
  | S754_finite s m e =>
      let v := if s then Z.neg m else Z.pos m in
      if e <? 0 then v / (d * 2 ^ (- e)) else (v * 2 ^ e) / d
  | _ => 0
  end.

Definition float_seconds (us : Z) : spec_float :=
  if us =? 0 then S754_zero false
  else match round_ratio (Z.abs us) 1000000 with
       | S754_finite _ m e => S754_finite (us <? 0) m e
       | f => f
       end.

(** [_parse_time]: an unreadable value stands for the epoch; moving an offset
    timestamp to UTC raises when it leaves years 1 to 9999. *)
Definition _parse_time (value : string) : res Z :=
  match parse_rfc3339 value with
  | None => Ok epoch_us
  | Some d =>
      let t := instant d in
      if (t <? us_per_day) || ((max_ordinal + 1) * us_per_day <=? t)
      then Err OverflowError else Ok t
  end.

Definition _recency_bucket (value : string) : res Z :=
  t ← _parse_time value; Ok (float_floor_div (float_seconds (t - epoch_us)) 86400).

(** The sort key, compared lexicographically; the identifier breaks ties by
    its UTF-8 bytes. *)
Record rank_key : Type := { rk_numbers : list Z; rk_id : string }.

Fixpoint lex_leb (a b : list Z) (tie : bool) : bool :=
  match a, b with
  | x :: a', y :: b' => if x <? y then true else if y <? x then false else lex_leb a' b' tie
  | [], [] => tie
  | [], _ => true
  | _, [] => false
  end.
Definition rank_leb (a b : rank_key) : bool :=
  lex_leb (rk_numbers a) (rk_numbers b) (String.leb (rk_id a) (rk_id b)).

Definition lookup_or (k : string) (m : list (string * Z)) (d : Z) : Z := default d (assoc k m).
Definition z_of_bool (b : bool) : Z := if b then 1 else 0.

Section ranking.
Context `{ucd : unicode_data}.

Definition _rank_key (record : RetrievalRecord) (query : string) (selected_domain : option string)
    (version : string) : res rank_key :=
  let exact_domain := is_some selected_domain && opt_eqb (domain_id record) selected_domain in
  score ← lexical_score query (r_text record) version;
  bucket ← _recency_bucket (valid_from record);
  Ok {| rk_numbers :=
          [- z_of_bool (pinned record); - z_of_bool exact_domain; - score;
           lookup_or (provenance_status record) _DIRECT_AUTHORITY 9;
           lookup_or (authority_tier record) _TIER_ORDER 9;
           - Z.max 0 (recurrence_count record); - bucket];
        rk_id := record_id record |}.
End ranking.

(** ** Rendering *)
Definition _section_limits (total : Z) : list (section * Z) :=
  let unit_ := total / 4 in
  let remainder := total mod 4 in
  [(core, unit_ + (if 1 <=? remainder then 1 else 0));
   (general, unit_ * 2 + (if 2 <=? remainder then 1 else 0));
   (domain, unit_ + (if 3 <=? remainder then 1 else 0))].

Definition newline : string := byte 10.

Definition _render_audit (r : RetrievalRecord) : string :=
  let authority := if String.eqb (authority_tier r) "imported_floor"
                   then "imported_floor" else provenance_status r in
  let texts l := JList (map JStr l) in
  canonical_bytes (JObj
    [("authority", JStr authority); ("case_ids", texts (case_ids r));
     ("case_referents", texts (case_referents r)); ("evidence_ids", texts (evidence_ids r));
     ("ontology", JObj
        [("confidence", match r_confidence r with Some f => JFloat f | None => JNull end);
         ("disclosure", JStr (disclosure r)); ("partition", JStr (ontology_partition r));
         ("path", texts (ontology_path r)); ("type", JStr (ontology_type r))]);
     ("record_id", JStr (record_id r)); ("source_receipt_ids", texts (source_receipt_ids r));
     ("text", JStr (r_text r))]) +:+ newline.

(** [value.split()]: maximal runs of non-space code points. *)
Fixpoint words_of (cs : list string) (cur : string) : list string :=
  match cs with
  | [] => emit cur []
  | c :: r => if is_space c then emit cur (words_of r "") else words_of r (cur +:+ c)
  end.

Fixpoint join_with (sep : string) (l : list string) : string :=
  match l with
  | [] => ""
  | [x] => x
  | x :: r => x +:+ sep +:+ join_with sep r
  end.

Definition _one_line (value : string) : string := join_with " " (words_of (chars value) "").

Definition _render_compact (r : RetrievalRecord) : string :=
  let authority := if String.eqb (authority_tier r) "imported_floor"
                   then "imported" else provenance_status r in
  let kind := if String.eqb (ontology_type r) "LegacyRecord" then "Judgment" else ontology_type r in
  let head := "- " +:+ kind +:+ " (" +:+ authority +:+ "): " +:+ _one_line (r_text r) in
  let parts := head :: (if is_nil (case_referents r) then []
                        else ["Case: " +:+ join_with " / " (map _one_line (case_referents r))]) in
  join_with " | " parts +:+ newline.

Definition _render (r : RetrievalRecord) (format : string) : string :=
  if String.eqb format "audit" then _render_audit r else _render_compact r.

(** ** The engine *)
Definition _validate_config (config : RetrievalConfig) : res unit :=
  let budget := total_budget_bytes config in
  raise_if (budget <=? 0) (ValueError "retrieval budget must be positive") ;;
  raise_if ((DEFAULT_BUDGET <? budget) && negb (allow_higher_budget config))
    (ValueError "higher retrieval budget requires explicit opt-in") ;;
  raise_if (MAX_EXPLICIT_BUDGET <? budget)
    (ValueError "retrieval budget exceeds explicit hard bound") ;;
  raise_if (negb (String.eqb (tokenizer_version config) TOKENIZER_VERSION))
    (ValueError "unsupported tokenizer version") ;;
  raise_if (negb (mem (authority_mode config) ["authoritative"; "analytical"]))
    (ValueError "unsupported retrieval authority mode") ;;
  raise_if (negb (mem (output_format config) ["compact"; "audit"]))
    (ValueError "unsupported retrieval output format").

Definition _partitions (requested : option (list string)) (mode : string) : res (list string) :=
  match requested with
  | None =>
      raise_if (String.eqb mode "analytical")
        (ValueError "analytical retrieval requires explicit ontology partitions") ;; Ok []
  | Some l =>
      let partitions := dedup_strs l in
      raise_if (String.eqb mode "analytical" && is_nil partitions)
        (ValueError "analytical retrieval requires explicit ontology partitions") ;;
      match set_diff partitions ONTOLOGY_PARTITIONS with
      | [] => Ok partitions
      | unknown => Err (ValueErrorNames "unsupported ontology partitions: " (sorted_strs unknown))
      end
  end.

(** The greedy loop over one section: [used] bytes are taken of [available]. *)
Fixpoint fill (format : string) (available used : Z) (items : list RetrievalRecord)
    : list (string * string) * Z :=
  match items with
  | [] => ([], used)
  | item_ :: rest =>
      let rendered := _render item_ format in
      if Z.of_nat (String.length rendered) <=? available - used then
        let '(selected, used') :=
          fill format available (used + Z.of_nat (String.length rendered)) rest in
        ((record_id item_, rendered) :: selected, used')
      else fill format available used rest
  end.

(** The downward flow: what a section leaves is carried to the next. *)
Fixpoint flow (format : string) (limits : list (section * Z)) (carry : Z)
    (by_section : section → list RetrievalRecord)
    : list (string * string) * list (section * Z) :=
  match limits with
  | [] => ([], [])
  | (s, limit) :: rest =>
      let available := limit + carry in
      let '(selected, used) := fill format available 0 (by_section s) in
      let '(selected', bytes) := flow format rest (available - used) by_section in
      (selected ++ selected', (s, used) :: bytes)
  end.

Definition in_section (s : section) (r : RetrievalRecord) : bool := bool_decide (r_section r = s).

(** [selected_by_partition.setdefault(p, ()); ... += (id,)] *)
Definition add_partition (acc : list (string * list string)) (r : RetrievalRecord)
    : list (string * list string) :=
  set_item (ontology_partition r)
    (default [] (assoc (ontology_partition r) acc) ++ [record_id r]) acc.

Section engine.
Context `{ucd : unicode_data} `{source : retrieval_source}.

Definition candidates_of (snapshot_id : string) (selected_domain : option string) (mode : string)
    (partitions : list string) : list RetrievalRecord :=
  List.filter (λ r, eligible r selected_domain mode &&
                    (is_nil partitions || mem (ontology_partition r) partitions))
    (retrieval_candidates snapshot_id).

(** [candidates.sort(key=...)]: keys first, then a stable sort. *)
Definition ranked (config : RetrievalConfig) (query : string) (selected_domain : option string)
    (l : list RetrievalRecord) : res (list RetrievalRecord) :=
  keyed ← map_res (λ r, k ← _rank_key r query selected_domain (tokenizer_version config);
                        Ok (k, r)) l;
  Ok (map snd (sort_by (λ a b, rank_leb a.1 b.1) keyed)).

Definition retrieve (config : RetrievalConfig) (snapshot_id query : string)
    (selected_domain : option string) (ontology_partitions : option (list string))
    (mode_override : option string) : res RetrievalResult :=
  let mode := match mode_override with
              | Some m => if String.eqb m "" then authority_mode config else m
              | None => authority_mode config end in
  raise_if (negb (mem mode ["authoritative"; "analytical"]))
    (ValueError "unsupported retrieval authority mode") ;;
  partitions ← _partitions ontology_partitions mode;
  candidates ← ranked config query selected_domain
                 (candidates_of snapshot_id selected_domain mode partitions);
  let '(selected, bytes) :=
    flow (output_format config) (_section_limits (total_budget_bytes config)) 0
      (λ s, List.filter (in_section s) candidates) in
  let payload_ := str_concat (map snd selected) in
  raise_if (total_budget_bytes config <? Z.of_nat (String.length payload_))
    (RuntimeError "retrieval budget invariant violated") ;;
  let ids := map fst selected in
  Ok {| payload := payload_; selected_ids := ids;
        eligible_count := Z.of_nat (length candidates);
        omitted_count := Z.of_nat (length candidates) - Z.of_nat (length ids);
        selected_bytes := Z.of_nat (String.length payload_);
        budget_bytes := total_budget_bytes config; section_bytes := bytes;
        result_mode := mode; requested_partitions := partitions;
        selected_by_partition :=
          fold_left add_partition (List.filter (λ r, mem (record_id r) ids) candidates) [] |}.

(** The constructor validates the configuration before any retrieval. *)
Definition RetrievalEngine (config : RetrievalConfig) (snapshot_id query : string)
    (selected_domain : option string) (ontology_partitions : option (list string))
    (mode_override : option string) : res RetrievalResult :=
  _validate_config config ;;
  retrieve config snapshot_id query selected_domain ontology_partitions mode_override.
End engine.

(** ** Properties of the selection *)
Definition total_bytes (l : list (string * string)) : Z :=
  fold_right (λ p n, Z.of_nat (String.length p.2) + n) 0 l.

Lemma total_bytes_app a b : total_bytes (a ++ b) = total_bytes a + total_bytes b.
Proof. induction a as [|x a IH]; simpl; [lia|]. rewrite IH. lia. Qed.

Lemma total_bytes_nonneg l : 0 ≤ total_bytes l.
Proof. induction l; simpl; lia. Qed.

Lemma payload_length l : Z.of_nat (String.length (str_concat (map snd l))) = total_bytes l.
Proof.
  induction l as [|[i s] l IH]; simpl; [done|].
  unfold str_concat in *. simpl. rewrite str_app_length. lia.
Qed.

(** What the greedy loop over one section takes: renderings of its items in
    their order, within the space, and nothing left out that would still fit. *)
Lemma fill_spec format available items : ∀ used selected used',
  fill format available used items = (selected, used') → used ≤ available →
  used' = used + total_bytes selected ∧ used' ≤ available ∧
  (∀ p, In p selected → ∃ r, In r items ∧ p = (record_id r, _render r format)) ∧
  (∀ r, In r items → In (record_id r, _render r format) selected ∨
     available - used' < Z.of_nat (String.length (_render r format))).
Proof.
  induction items as [|r items IH]; intros used selected used' H Hle; simpl in H.
  - injection H as <- <-. simpl. split_and!; [lia|lia|done|done].
  - destruct (Z.leb_spec (Z.of_nat (String.length (_render r format))) (available - used)) as [Hf|Hf].
    + destruct (fill format available _ items) as [sel u] eqn:E. injection H as <- <-.
      destruct (IH _ _ _ E ltac:(lia)) as (-> & Hu & Hin & Hmax). simpl.
      split_and!; [lia|lia| |].
      * intros p [<-|Hp]; [exists r; split; [by left|done]|]. destruct (Hin p Hp) as (r' & ? & ?). exists r'. split; [by right|done].
      * intros x [<-|Hx]; [by left; left|]. destruct (Hmax x Hx); [by left; right|by right].
    + destruct (IH _ _ _ H Hle) as (-> & Hu & Hin & Hmax).
      split_and!; [done|done| |].
      * intros p Hp. destruct (Hin p Hp) as (r' & ? & ?). exists r'. split; [by right|done].
      * intros x [<-|Hx]; [|by apply Hmax]. right.
        pose proof (total_bytes_nonneg selected). lia.
Qed.

Definition sum_limits (l : list (section * Z)) : Z := fold_right (λ p n, p.2 + n) 0 l.

(** The space a section leaves when its loop ends: what it passes on. *)
Fixpoint space_left (limits bytes : list (section * Z)) (carry : Z) (s : section) : Z :=
  match limits, bytes with
  | (t, limit) :: limits', (_, used) :: bytes' =>
      let left_ := limit + carry - used in
      if decide (t = s) then left_ else space_left limits' bytes' left_ s
  | _, _ => 0
  end.

(** The downward flow never exceeds the limits plus the carry, takes
    renderings of the records of its sections, and leaves a record out only if
    it does not fit in the space its section leaves. *)
Lemma flow_spec format by_section limits : ∀ carry selected bytes,
  flow format limits carry by_section = (selected, bytes) →
  0 ≤ carry → Forall (λ p, 0 ≤ p.2) limits →
  total_bytes selected = sum_limits bytes ∧
  total_bytes selected ≤ sum_limits limits + carry ∧
  map fst bytes = map fst limits ∧
  (∀ p, In p selected → ∃ s r, In s (map fst limits) ∧ In r (by_section s) ∧
     p = (record_id r, _render r format)) ∧
  (∀ s r, In s (map fst limits) → In r (by_section s) →
     In (record_id r, _render r format) selected ∨
     space_left limits bytes carry s < Z.of_nat (String.length (_render r format))).
Proof.
  induction limits as [|[s limit] limits IH]; intros carry selected bytes H Hc Hl; simpl in H.
  - injection H as <- <-. simpl. split_and!; [done|lia|done|done|done].
  - inversion_clear Hl as [|? ? Hs Hl']. simpl in Hs.
    destruct (fill format (limit + carry) 0 (by_section s)) as [sel used] eqn:E.
    destruct (fill_spec _ _ _ _ _ _ E ltac:(lia)) as (-> & Hu & Hin & Hmax).
    destruct (flow format limits _ by_section) as [sel' bs] eqn:F. injection H as <- <-.
    destruct (IH _ _ _ F ltac:(lia) Hl') as (Ht & Hle & Hk & Hin' & Hmax').
    simpl. rewrite total_bytes_app. split_and!; [lia|lia|by f_equal| |].
    + intros p [Hp|Hp]%in_app_iff.
      * destruct (Hin p Hp) as (r & ? & ?). exists s, r. auto.
      * destruct (Hin' p Hp) as (t & r & ? & ? & ?). exists t, r. auto.
    + intros t r Ht' Hr. destruct (decide (s = t)) as [->|Hne].
      * destruct (Hmax r Hr) as [?|?]; [left; apply in_app_iff; auto|right; lia].
      * destruct Ht' as [?|Ht']; [done|].
        destruct (Hmax' t r Ht' Hr) as [?|?]; [left; apply in_app_iff; auto|by right].
Qed.

Lemma section_limits_total total : 0 ≤ total →
  sum_limits (_section_limits total) = total ∧ Forall (λ p, 0 ≤ p.2) (_section_limits total).
Proof.
  intros Ht. pose proof (Z.div_mod total 4 ltac:(lia)). pose proof (Z.mod_pos_bound total 4 ltac:(lia)).
  pose proof (Z.div_pos total 4 ltac:(lia) ltac:(lia)).
  unfold _section_limits. simpl. split.
  - destruct (Z.leb_spec 1 (total mod 4)), (Z.leb_spec 2 (total mod 4)), (Z.leb_spec 3 (total mod 4)); lia.
  - repeat constructor; simpl; repeat case_match; lia.
Qed.

(** ** The ranking is a total order on distinct identifiers *)
Lemma lex_leb_total a : ∀ b t1 t2,
  t1 = true ∨ t2 = true → lex_leb a b t1 = true ∨ lex_leb b a t2 = true.
Proof.
  induction a as [|x a IH]; intros [|y b] t1 t2 Ht; simpl; auto.
  destruct (Z.ltb_spec x y), (Z.ltb_spec y x); auto; lia.
Qed.

Lemma lex_leb_trans a : ∀ b c t1 t2 t3,
  (t1 = true → t2 = true → t3 = true) →
  lex_leb a b t1 = true → lex_leb b c t2 = true → lex_leb a c t3 = true.
Proof.
  induction a as [|x a IH]; intros [|y b] [|z c] t1 t2 t3 Ht; simpl; auto; try done.
  destruct (Z.ltb_spec x y), (Z.ltb_spec y x), (Z.ltb_spec y z), (Z.ltb_spec z y),
    (Z.ltb_spec x z), (Z.ltb_spec z x); try done; try lia. eauto.
Qed.

Lemma lex_leb_antisym a : ∀ b t1 t2,
  lex_leb a b t1 = true → lex_leb b a t2 = true → a = b ∧ t1 = true ∧ t2 = true.
Proof.
  induction a as [|x a IH]; intros [|y b] t1 t2; simpl; try done.
  destruct (Z.ltb_spec x y), (Z.ltb_spec y x); try done; try lia.
  intros H1 H2. destruct (IH _ _ _ H1 H2) as (-> & ? & ?). assert (x = y) by lia. by subst.
Qed.

Lemma rank_leb_total a b : rank_leb a b = true ∨ rank_leb b a = true.
Proof. apply lex_leb_total, str_leb_total. Qed.

Lemma rank_leb_trans a b c : rank_leb a b = true → rank_leb b c = true → rank_leb a c = true.
Proof. apply lex_leb_trans, str_leb_trans. Qed.

Lemma rank_leb_antisym a b : rank_leb a b = true → rank_leb b a = true → rk_id a = rk_id b.
Proof.
  intros H1 H2. destruct (lex_leb_antisym _ _ _ _ H1 H2) as (_ & ? & ?).
  by apply String.leb_antisym.
Qed.

Section engine_lemmas.
Context `{ucd : unicode_data}.

Lemma ranked_perm config query dom l cs :
  ranked config query dom l = Ok cs → Permutation l cs.
Proof.
  unfold ranked. intros H. inv_ok.
  match goal with H : map_res _ _ = Ok ?k |- _ => rename H into Hk; rename k into keyed end.
  apply map_res_Forall2 in Hk. rewrite sort_by_perm.
  induction Hk as [|r p l keyed Hr Hl IH]; simpl; [done|]. inv_ok. simpl. by constructor.
Qed.

(** Sorting by rank forgets the order of the candidates when their
    identifiers are distinct. *)
Lemma ranked_order_free config query dom l l' cs :
  Permutation l l' → List.NoDup (map record_id l) →
  ranked config query dom l = Ok cs → ranked config query dom l' = Ok cs.
Proof.
  intros Hp Hn. unfold ranked. intros H. inv_ok.
  match goal with H : map_res _ _ = Ok ?k |- _ => rename H into Hk; rename k into keyed end.
  apply map_res_Forall2 in Hk.
  destruct (Forall2_perm _ _ _ _ Hp Hk) as (keyed' & Hp' & Hk').
  apply map_res_Forall2 in Hk'. rewrite Hk'. simpl. do 2 f_equal. symmetry.
  apply (sorted_unique (λ a b, rank_leb a.1 b.1)).
  - assert (Forall (λ p, rk_id p.1 = record_id p.2) keyed) as Hid.
    { clear -Hk. induction Hk as [|r p l k Hr _ IH]; constructor; [|done].
      inv_ok. unfold _rank_key in *. by inv_ok. }
    assert (List.NoDup (map (λ p, record_id p.2) keyed)) as Hnd.
    { assert (map (λ p, record_id p.2) keyed = map record_id l) as ->; [|done].
      clear -Hk. induction Hk as [|r p l k Hr _ IH]; simpl; [done|]. inv_ok. simpl. by f_equal. }
    intros x y Hx Hy H1 H2. rewrite sort_by_In in Hx, Hy.
    rewrite List.Forall_forall in Hid. pose proof (Hid x Hx) as Ex. pose proof (Hid y Hy) as Ey.
    assert (record_id x.2 = record_id y.2) as E
      by (rewrite <- Ex, <- Ey; by apply rank_leb_antisym).
    clear -Hnd Hx Hy E. induction keyed as [|k keyed IH]; [done|]. simpl in *.
    apply List.NoDup_cons_iff in Hnd as [Hni Hnd].
    destruct Hx as [->|Hx], Hy as [->|Hy]; [done| | |auto].
    + destruct Hni. rewrite E. by apply (in_map (λ p, record_id p.2)).
    + destruct Hni. rewrite <- E. by apply (in_map (λ p, record_id p.2)).
  - apply sort_by_sorted; [intros; apply rank_leb_total|intros ? ? ?; apply rank_leb_trans].
  - apply sort_by_sorted; [intros; apply rank_leb_total|intros ? ? ?; apply rank_leb_trans].
  - by rewrite !sort_by_perm.
Qed.
End engine_lemmas.

(** ** What eligibility means *)
Record eligible_spec (r : RetrievalRecord) (dom : option string) (mode : string) : Prop := {
  el_live : current r = true ∧ rejected r = false ∧ tombstoned r = false ∧ valid_until r = None;
  el_evidence : provenance_complete r = true ∧ evidence_ids r ≠ [];
  el_mode : In mode ["authoritative"; "analytical"];
  el_status : In (provenance_status r) ["captured"; "extracted"; "ratified"] ∨
              (mode = "analytical" ∧ provenance_status r = "inferred");
  el_tier : In (authority_tier r) ["captured_judgment"; "ratified_knowledge"; "imported_floor"] ∨
            (mode = "analytical" ∧ In (authority_tier r) _ANALYTICAL_TIERS);
  el_captured : authority_tier r = "captured_judgment" → provenance_status r = "captured";
  el_cases : provenance_status r = "captured" → ontology_partition r = "business_declared" ∨ case_ids r ≠ [];
  el_ratified : authority_tier r = "ratified_knowledge" → provenance_status r = "ratified";
  el_imported : authority_tier r = "imported_floor" → imported_selected r = true;
  el_inferred : provenance_status r = "inferred" → authority_tier r = "inferred_candidate";
  el_observed : authority_tier r = "observed_candidate" → provenance_status r = "extracted";
  el_self_model : ontology_partition r = "self_model" → mode = "authoritative" →
    ontology_type r = "SelfModelAssertion" ∧ provenance_status r = "ratified";
  el_domain : (r_section r = domain → ∃ d, dom = Some d ∧ domain_id r = Some d) ∧
              (domain_id r ≠ None → r_section r = domain)
}.

Lemma negb_is_nil {A} (l : list A) : is_nil l = false ↔ l ≠ [].
Proof. destruct l; split; done. Qed.

Lemma if_false_true (b c : bool) : (if b then false else c) = true ↔ b = false ∧ c = true.
Proof. destruct b; split; naive_solver. Qed.

Lemma imp_bool (a b : bool) (P Q : Prop) :
  (a = true ↔ P) → (b = true ↔ Q) → a && negb b = false → P → Q.
Proof. destruct a, b; naive_solver. Qed.

Lemma status_allowed s mode extra base :
  mem s (base ++ (if String.eqb mode "authoritative" then [] else extra)) = true →
  In mode ["authoritative"; "analytical"] →
  In s base ∨ (mode = "analytical" ∧ In s extra).
Proof.
  intros H Hm. apply mem_In, in_app_iff in H as [?|H]; [by left|].
  right. destruct Hm as [<-|[<-|[]]]; [done|]. done.
Qed.

Lemma eligible_elim r dom mode : eligible r dom mode = true → eligible_spec r dom mode.
Proof.
  unfold eligible. rewrite !if_false_true.
  intros (H1 & H2 & H3 & H4 & H5 & H6 & H7 & H8 & H9 & H10 & H11 & H12 & H13 & H14 & _).
  bool_hyps. apply mem_In in H3. apply status_allowed in H4, H5; [|done..].
  assert (∀ x y, String.eqb x y = true ↔ x = y) as He by (intros; apply String.eqb_eq).
  constructor; try done.
  - repeat split; try done. by destruct (valid_until r).
  - split; [done|by apply negb_is_nil].
  - destruct H4 as [?|[? H4]]; [by left|]. right. split; [done|]. by destruct H4 as [<-|[]].
  - by apply (imp_bool _ _ _ _ (He _ _) (He _ _)).
  - intros Hc. rewrite Hc in H7. simpl in H7.
    destruct (String.eqb_spec (ontology_partition r) "business_declared") as [?|_]; [by left|].
    right. by apply negb_is_nil.
  - by apply (imp_bool _ _ _ _ (He _ _) (He _ _)).
  - by apply (imp_bool _ (imported_selected r) _ (imported_selected r = true) (He _ _)).
  - by apply (imp_bool _ _ _ _ (He _ _) (He _ _)).
  - by apply (imp_bool _ _ _ _ (He _ _) (He _ _)).
  - intros Hp ->. rewrite Hp in H12. simpl in H12. bool_hyps. by rewrite <- !String.eqb_eq.
  - split.
    + intros Hd. rewrite Hd in H13. simpl in H13. bool_hyps.
      destruct dom as [d|]; [|done]. exists d. split; [done|].
      destruct (domain_id r) as [x|]; [|done]. simpl in *. f_equal. by apply String.eqb_eq.
    + intros Hd. destruct (domain_id r); [|done]. simpl in H14. bool_hyps.
      by destruct (r_section r).
Qed.

(** Authority and scope of every eligible record.  It is live, evidenced
    and provenance-complete; authoritative retrieval admits captured,
    extracted and ratified material of the three authoritative tiers only,
    self-model material only as ratified assertions; inferred and observed
    candidates appear in analytical retrieval only; domain material appears
    only under its own selected domain. *)
Theorem eligible_authority r dom mode : eligible r dom mode = true → eligible_spec r dom mode.
Proof. apply eligible_elim. Qed.

(** ** Properties of a retrieval *)
Section retrieval.
Context `{ucd : unicode_data} `{source : retrieval_source}.

Definition mode_used (config : RetrievalConfig) (override : option string) : string :=
  match override with
  | Some m => if String.eqb m "" then authority_mode config else m
  | None => authority_mode config
  end.

Definition of_section (cs : list RetrievalRecord) (s : section) : list RetrievalRecord :=
  List.filter (in_section s) cs.

(** The parts of a successful run. *)
Lemma retrieve_parts config snap query dom parts override r :
  retrieve config snap query dom parts override = Ok r →
  ∃ ps cs selected bytes,
    _partitions parts (mode_used config override) = Ok ps ∧
    ranked config query dom (candidates_of snap dom (mode_used config override) ps) = Ok cs ∧
    flow (output_format config) (_section_limits (total_budget_bytes config)) 0 (of_section cs)
      = (selected, bytes) ∧
    payload r = str_concat (map snd selected) ∧ selected_ids r = map fst selected ∧
    section_bytes r = bytes ∧ budget_bytes r = total_budget_bytes config ∧
    selected_bytes r = total_bytes selected ∧ eligible_count r = Z.of_nat (length cs) ∧
    omitted_count r = Z.of_nat (length cs) - Z.of_nat (length selected) ∧
    result_mode r = mode_used config override ∧ requested_partitions r = ps.
Proof.
  unfold retrieve. fold (mode_used config override). intros H.
  apply bind_Ok in H as (? & _ & H). apply bind_Ok in H as (ps & Hps & H).
  apply bind_Ok in H as (cs & Hcs & H). fold (of_section cs) in H.
  destruct (flow _ _ _ _) as [selected bytes] eqn:Hf.
  apply bind_Ok in H as (? & _ & [= <-]). exists ps, cs, selected, bytes. simpl.
  rewrite payload_length, length_map. done.
Qed.

Lemma config_Ok config u :
  _validate_config config = Ok u →
  0 < total_budget_bytes config ≤ MAX_EXPLICIT_BUDGET ∧
  (DEFAULT_BUDGET < total_budget_bytes config → allow_higher_budget config = true) ∧
  tokenizer_version config = TOKENIZER_VERSION.
Proof.
  unfold _validate_config. intros H. inv_ok. bool_hyps.
  split; [lia|]. split; [|by apply String.eqb_eq].
  intros Hd%Z.ltb_lt. rewrite Hd in *. simpl in *. by bool_hyps.
Qed.

Lemma candidates_eligible snap dom mode ps c :
  In c (candidates_of snap dom mode ps) →
  In c (retrieval_candidates snap) ∧ eligible c dom mode = true ∧
  (ps ≠ [] → In (ontology_partition c) ps).
Proof.
  unfold candidates_of. rewrite filter_In. intros [Hc H]. bool_hyps.
  split_and!; [done|done|]. intros Hne. destruct ps; [done|]. by apply mem_In.
Qed.

Lemma all_sections (s : section) total : In s (map fst (_section_limits total)).
Proof. destruct s; simpl; tauto. Qed.

Lemma in_of_section c cs : In c cs → In c (of_section cs (r_section c)).
Proof.
  intros H. unfold of_section, in_section. apply filter_In. split; [exact H|].
  by apply bool_decide_eq_true.
Qed.
End retrieval.

(** C35: Retrieval keeps its byte budget.  A retrieval that returns delivers a
    payload of at most the configured budget, itself at most 128 KiB and above
    32 KiB only on explicit opt-in; the reported sizes are those of the
    payload and of its sections, and the counts add up. *)
Theorem retrieval_within_budget `{ucd : unicode_data} `{source : retrieval_source}
    config snap query dom parts override r :
  RetrievalEngine config snap query dom parts override = Ok r →
  Z.of_nat (String.length (payload r)) = selected_bytes r ∧
  selected_bytes r = sum_limits (section_bytes r) ∧
  0 ≤ selected_bytes r ≤ budget_bytes r ∧
  0 < budget_bytes r ≤ MAX_EXPLICIT_BUDGET ∧
  (DEFAULT_BUDGET < budget_bytes r → allow_higher_budget config = true) ∧
  eligible_count r = Z.of_nat (length (selected_ids r)) + omitted_count r.
Proof.
  unfold RetrievalEngine. intros H. apply bind_Ok in H as (u & Hc & H).
  destruct (config_Ok _ _ Hc) as (Hb & Hh & _).
  destruct (retrieve_parts _ _ _ _ _ _ _ H)
    as (ps & cs & sel & bytes & _ & _ & Hf & -> & -> & -> & -> & -> & -> & -> & _).
  destruct (section_limits_total (total_budget_bytes config) ltac:(lia)) as [Hs Hl].
  destruct (flow_spec _ _ _ _ _ _ Hf ltac:(lia) Hl) as (Ht & Hle & _).
  rewrite payload_length, length_map. pose proof (total_bytes_nonneg sel).
  split_and!; try done; lia.
Qed.

(** The defensive check is never hit: no validated configuration makes
    retrieval report a violated budget invariant. *)
Theorem retrieval_invariant_holds `{ucd : unicode_data} `{source : retrieval_source}
    config snap query dom parts override msg :
  RetrievalEngine config snap query dom parts override ≠ Err (RuntimeError msg).
Proof.
  unfold RetrievalEngine, retrieve. fold (mode_used config override). intros H.
  apply bind_Err in H as [H|(u & Hc & H)].
  { unfold _validate_config in H.
    repeat (apply bind_Err in H as [H|(? & _ & H)]; [by apply raise_if_Err in H as [_ ?]|]).
    by apply raise_if_Err in H as [_ ?]. }
  destruct (config_Ok _ _ Hc) as (Hb & _ & _).
  apply bind_Err in H as [H|(? & _ & H)]; [by apply raise_if_Err in H as [_ ?]|].
  apply bind_Err in H as [H|(ps & _ & H)].
  { unfold _partitions in H. destruct parts as [l|].
    - apply bind_Err in H as [H|(? & _ & H)]; [by apply raise_if_Err in H as [_ ?]|].
      by destruct (set_diff _ _).
    - apply bind_Err in H as [H|(? & _ & H)]; [by apply raise_if_Err in H as [_ ?]|done]. }
  apply bind_Err in H as [H|(cs & _ & H)].
  { assert (errs (λ e, e ≠ RuntimeError msg)
      (ranked config query dom (candidates_of snap dom (mode_used config override) ps))) as Hr;
      [|by apply Hr in H].
    unfold ranked. apply errs_bind; [|done]. apply errs_map_res. intros rec.
    apply errs_bind; [|done]. unfold _rank_key, lexical_score, tokenize, _recency_bucket, _parse_time.
    repeat first [apply errs_Ok | apply errs_raise_if; discriminate | apply errs_Err; discriminate
                 | apply errs_bind; [|intros ? _] | apply errs_if; intros _
                 | match goal with |- errs _ (match ?t with _ => _ end) => destruct t end]. }
  fold (of_section cs) in H. destruct (flow _ _ _ _) as [sel bytes] eqn:Hf.
  destruct (section_limits_total (total_budget_bytes config) ltac:(lia)) as [Hs Hl].
  destruct (flow_spec _ _ _ _ _ _ Hf ltac:(lia) Hl) as (_ & Hle & _).
  rewrite payload_length in H. rewrite (proj2 (Z.ltb_ge _ _)) in H by lia. discriminate H.
Qed.

Lemma eligible_complete r dom mode : eligible r dom mode = true → provenance_complete r = true.
Proof.
  unfold eligible. destruct (negb (current r) || _ || _ || _); [done|].
  by destruct (provenance_complete r).
Qed.

(** What is selected: candidates, in payload order. *)
Lemma retrieve_selected `{ucd : unicode_data} `{source : retrieval_source}
    config snap query dom parts override r :
  0 ≤ total_budget_bytes config → retrieve config snap query dom parts override = Ok r →
  ∃ rs, payload r = str_concat (map (λ c, _render c (output_format config)) rs) ∧
    selected_ids r = map record_id rs ∧
    ∀ c, In c rs → In c (retrieval_candidates snap) ∧ eligible c dom (result_mode r) = true ∧
      (requested_partitions r ≠ [] → In (ontology_partition c) (requested_partitions r)).
Proof.
  intros Hb H. destruct (retrieve_parts _ _ _ _ _ _ _ H)
    as (ps & cs & sel & bytes & _ & Hr & Hf & -> & -> & _ & _ & _ & _ & _ & -> & ->).
  destruct (section_limits_total (total_budget_bytes config) ltac:(lia)) as [Hs Hl].
  destruct (flow_spec _ _ _ _ _ _ Hf ltac:(lia) Hl) as (_ & _ & _ & Hin & _).
  assert (∃ rs, sel = map (λ c, (record_id c, _render c (output_format config))) rs ∧
                ∀ c, In c rs → In c cs) as (rs & -> & Hrs).
  { clear -Hin. induction sel as [|p sel IH]; [by exists []|].
    destruct IH as (rs & -> & Hrs); [intros; apply Hin; by right|].
    destruct (Hin p (or_introl eq_refl)) as (s & c & _ & Hcs & ->).
    exists (c :: rs). split; [done|]. intros x [<-|Hx]; [|auto].
    by apply filter_In in Hcs as [? _]. }
  exists rs. rewrite !map_map. split_and!; [done|done|]. intros c Hx%Hrs.
  apply candidates_eligible. eapply Permutation_in; [symmetry; by eapply ranked_perm|done].
Qed.

(** C36: Everything delivered is eligible.  The payload is the concatenation of
    the renderings of selected candidates of the source, each eligible for the
    run's domain and mode and in a requested partition, and the reported
    identifiers are theirs, in payload order. *)
Theorem retrieval_selects_eligible `{ucd : unicode_data} `{source : retrieval_source}
    config snap query dom parts override r :
  RetrievalEngine config snap query dom parts override = Ok r →
  ∃ rs, payload r = str_concat (map (λ c, _render c (output_format config)) rs) ∧
    selected_ids r = map record_id rs ∧
    ∀ c, In c rs → In c (retrieval_candidates snap) ∧ eligible c dom (result_mode r) = true ∧
      (requested_partitions r ≠ [] → In (ontology_partition c) (requested_partitions r)).
Proof.
  unfold RetrievalEngine. intros H. apply bind_Ok in H as (u & Hc & H).
  destruct (config_Ok _ _ Hc) as (Hb & _ & _). eapply retrieve_selected; [|exact H]. lia.
Qed.

(** C37: Nothing that fits is left out.  A candidate that is eligible and in a
    requested partition is either delivered or larger than the space its
    section left when its greedy pass ended, counting what the earlier
    sections passed down. *)
Theorem retrieval_greedy_maximal `{ucd : unicode_data} `{source : retrieval_source}
    config snap query dom parts override r c :
  RetrievalEngine config snap query dom parts override = Ok r →
  In c (retrieval_candidates snap) → eligible c dom (result_mode r) = true →
  (requested_partitions r ≠ [] → In (ontology_partition c) (requested_partitions r)) →
  In (record_id c) (selected_ids r) ∨
  space_left (_section_limits (budget_bytes r)) (section_bytes r) 0 (r_section c) <
    Z.of_nat (String.length (_render c (output_format config))).
Proof.
  unfold RetrievalEngine. intros H Hin He Hpt. apply bind_Ok in H as (u & Hc & H).
  destruct (config_Ok _ _ Hc) as (Hb & _ & _).
  destruct (retrieve_parts _ _ _ _ _ _ _ H)
    as (ps & cs & sel & bytes & _ & Hr & Hf & _ & -> & -> & -> & _ & _ & _ & Em & Ep).
  rewrite Em in He. rewrite Ep in Hpt.
  destruct (section_limits_total (total_budget_bytes config) ltac:(lia)) as [Hs Hl].
  destruct (flow_spec _ _ _ _ _ _ Hf ltac:(lia) Hl) as (_ & _ & _ & _ & Hmax).
  destruct (Hmax (r_section c) c) as [Hsel|?]; [apply all_sections| |left|by right].
  - apply in_of_section. eapply Permutation_in; [by eapply ranked_perm|].
    apply filter_In. split; [done|]. rewrite He. simpl. destruct ps as [|p ps]; [done|].
    simpl. by apply mem_In, Hpt.
  - by apply (in_map fst) in Hsel.
Qed.

(** C38: Retrieval does not depend on the order in which the store lists its
    records: with distinct identifiers, any permutation of the candidates
    gives the same result, byte for byte. *)
Theorem retrieval_order_free `{ucd : unicode_data} (s1 s2 : retrieval_source)
    config snap query dom parts override r :
  Permutation (@retrieval_candidates s1 snap) (@retrieval_candidates s2 snap) →
  List.NoDup (map record_id (@retrieval_candidates s1 snap)) →
  @RetrievalEngine _ s1 config snap query dom parts override = Ok r →
  @RetrievalEngine _ s2 config snap query dom parts override = Ok r.
Proof.
  unfold RetrievalEngine, retrieve. intros Hp Hn H.
  apply bind_Ok in H as (u & Hc & H). rewrite Hc. cbn [mbind res_bind].
  apply bind_Ok in H as (? & Hm & H). rewrite Hm. cbn [mbind res_bind].
  apply bind_Ok in H as (ps & Hps & H). rewrite Hps. cbn [mbind res_bind].
  apply bind_Ok in H as (cs & Hcs & H).
  fold (mode_used config override) in Hcs, H |- *.
  rewrite (ranked_order_free config query dom _
             (@candidates_of s2 snap dom (mode_used config override) ps) cs
             (perm_filter _ _ _ Hp)); [exact H| |exact Hcs].
  clear -Hn. unfold candidates_of. induction (retrieval_candidates snap) as [|c l IH]; simpl; [done|].
  simpl in Hn. apply List.NoDup_cons_iff in Hn as [Hni Hn]. destruct (_ && _); [|auto].
  simpl. constructor; [|auto]. intros Hin. apply Hni. apply in_map_iff in Hin as (x & <- & Hx).
  apply filter_In in Hx as [Hx _]. by apply in_map.
Qed.


(** ** Concrete runs *)

Definition sample_record (id text : string) (sec : section) (dom : option string) : RetrievalRecord :=
  {| record_id := id; r_text := text; r_section := sec; provenance_status := "captured";
     authority_tier := "captured_judgment"; evidence_ids := ["evidence:1"]; case_ids := ["case:1"];
     case_referents := ["headline"]; source_receipt_ids := []; domain_id := dom; pinned := false;
     recurrence_count := 1; valid_from := "2026-01-01T00:00:00Z"; current := true; rejected := false;
     tombstoned := false; valid_until := None; provenance_complete := true; imported_selected := false;
     ontology_partition := "judgment"; ontology_type := "Reason"; ontology_path := ["Judgment"];
     r_confidence := None; disclosure := "private" |}.

Definition record_a := sample_record "reason:a" "keep headlines short" core None.
Definition record_b := sample_record "reason:b" "name the customer" general None.
Definition sample_source : retrieval_source := {| retrieval_candidates := λ _, [record_a; record_b] |}.
Definition shuffled_source : retrieval_source := {| retrieval_candidates := λ _, [record_b; record_a] |}.

(** A small budget in the default mode. *)
Definition sample_config : RetrievalConfig :=
  {| total_budget_bytes := 400; allow_higher_budget := false; tokenizer_version := TOKENIZER_VERSION;
     authority_mode := "authoritative"; output_format := "compact" |}.

Definition sample_run : res RetrievalResult :=
  @RetrievalEngine plain_unicode sample_source sample_config "snap" "short headlines" None None None.
Definition sample_result : RetrievalResult :=
  match sample_run with
  | Ok r => r
  | Err _ => {| payload := ""; selected_ids := []; eligible_count := 0; omitted_count := 0;
                selected_bytes := 0; budget_bytes := 0; section_bytes := []; result_mode := "";
                requested_partitions := []; selected_by_partition := [] |}
  end.

Example sample_run_Ok : sample_run = Ok sample_result ∧ selected_ids sample_result = ["reason:a"; "reason:b"].
Proof. split; vm_compute; reflexivity. Qed.

Lemma eligible_authority_witness :
  eligible record_a None "authoritative" = true ∧ eligible_spec record_a None "authoritative".
Proof. split; [reflexivity|apply (eligible_authority record_a None "authoritative"); reflexivity]. Defined.

Lemma retrieval_within_budget_witness :
  Z.of_nat (String.length (payload sample_result)) = selected_bytes sample_result.
Proof.
  apply (@retrieval_within_budget plain_unicode sample_source sample_config "snap" "short headlines"
           None None None sample_result).
  vm_compute; reflexivity.
Defined.

Lemma retrieval_selects_eligible_witness :
  ∃ rs, payload sample_result = str_concat (map (λ c, _render c "compact") rs) ∧
    selected_ids sample_result = map record_id rs.
Proof.
  destruct (@retrieval_selects_eligible plain_unicode sample_source sample_config "snap"
              "short headlines" None None None sample_result) as (rs & Hp & Hi & _);
    [vm_compute; reflexivity|].
  exists rs. split; [exact Hp|exact Hi].
Defined.

Lemma retrieval_greedy_maximal_witness :
  In "reason:b" (selected_ids sample_result) ∨
  space_left (_section_limits (budget_bytes sample_result)) (section_bytes sample_result) 0 general <
    Z.of_nat (String.length (_render record_b "compact")).
Proof.
  apply (@retrieval_greedy_maximal plain_unicode sample_source sample_config "snap" "short headlines"
           None None None sample_result record_b).
  - vm_compute; reflexivity.
  - right; left; reflexivity.
  - vm_compute; reflexivity.
  - intros H. exfalso. apply H. vm_compute. reflexivity.
Defined.

Lemma retrieval_order_free_witness :
  @RetrievalEngine plain_unicode shuffled_source sample_config "snap" "short headlines" None None None
    = Ok sample_result.
Proof.
  apply (@retrieval_order_free plain_unicode sample_source shuffled_source sample_config "snap"
           "short headlines" None None None sample_result).
  - apply perm_swap.
  - repeat constructor; simpl; intuition discriminate.
  - vm_compute; reflexivity.
Defined.
