(* ===== verification/Derive.v ===== *)
(** * Derivation ([derive/proposals.py], [derive/orchestrator.py],
    [derive/cold_start.py])

    The closed proposal schema with its authority scan, the deterministic
    routing of a capture to a proposal, the recorder-judge-writer separation,
    and the cold-start scan with its idempotent progress keys. *)
From S2P Require Import Prelude PyTime Urn Contracts Codec Capture Unicode.

Definition PROPOSAL_TYPES :=
  ["correction_with_reason"; "correction_without_reason"; "preference"; "standard";
   "approval"; "refusal"; "reason_addition"; "non_feedback"].
Definition ALLOWED_TRANSITIONS := ["extract"; "infer"; "route"].
Definition _FORBIDDEN_TRANSITIONS :=
  ["captured"; "ratified"; "purged"; "purge"; "migrated"; "migration"; "tombstoned"].
Definition _TOP :=
  ["record_schema_version"; "proposal_id"; "source_input_event_id"; "proposal_type";
   "proposed_transition"; "references"; "payload"; "provenance"; "extensions"].

(** ** The authority scan *)

(** The words [_FORBIDDEN_KEYS] looks for. *)
Definition forbidden_words :=
  ["sql"; "query"; "path"; "database"; "db"; "command"; "writer"; "purge"; "migration"].

(** [re.I] on a character: ASCII case, and the four other characters that
    fold into ASCII letters (long s, dotted and dotless i, the kelvin sign). *)
Definition re_fold (c : string) : string :=
  if String.eqb c "ſ" then "s"
  else if String.eqb c "İ" || String.eqb c "ı" then "i"
  else if String.eqb c "K" then "k"
  else lower c.

(** The characters before a final line feed, where [$] also matches. *)
Fixpoint before_newline (l : list string) : list string :=
  match l with
  | [] => []
  | [c] => if String.eqb c (byte 10) then [] else [c]
  | c :: r => c :: before_newline r
  end.

(** [_FORBIDDEN_KEYS.search(key)]: one of the words stands between
    underscores or the ends of the key. *)
Definition forbidden_key (key : string) : bool :=
  let hit l := existsb (λ s, mem s forbidden_words) (split_on "_" (str_concat (map re_fold l))) in
  hit (chars key) || hit (before_newline (chars key)).

Fixpoint strip_prefix (p l : list string) : option (list string) :=
  match p, l with
  | [], _ => Some l
  | a :: p', b :: l' => if String.eqb a b then strip_prefix p' l' else None
  | _ :: _, [] => None
  end.

Definition sql_verbs := ["insert"; "update"; "delete"; "drop"; "alter"].

Definition backslash : string := byte 92.

Section scan.
Context `{ucd : unicode_data}.

(** A verb, white space, and a word character: [into], [table] and [from]
    begin with one, so the alternatives of the pattern reduce to [\w]. *)
Definition sql_at (cs : list string) : bool :=
  existsb (λ verb,
    match strip_prefix (chars verb) cs with
    | Some (c :: r) =>
        is_space c && match drop_while is_space r with w :: _ => is_word w | [] => false end
    | _ => false
    end) sql_verbs.

(** [re.search(r"\b(?:insert|...)\s+(?:into|table|from|\w+)", s)] *)
Fixpoint sql_search (after_word : bool) (cs : list string) : bool :=
  match cs with
  | [] => false
  | c :: r => (negb after_word && sql_at cs) || sql_search (is_word c) r
  end.

Definition forbidden_text (value : string) : bool :=
  let lowered := py_lower (strip value) in
  mem lowered _FORBIDDEN_TRANSITIONS || sql_search false (chars lowered).

(** A drive letter, a colon, and a slash of either kind: [re.match] on [value] *)
Definition drive_path (value : string) : bool :=
  match value with
  | String a (String b (String c _)) =>
      (is_lower a || is_upper a) && Ascii.eqb b ":" &&
      (String.eqb (String c "") backslash || Ascii.eqb c "/")
  | _ => false
  end.

Definition arbitrary_path (value : string) : bool :=
  starts_with "/" value || starts_with (backslash +:+ backslash) value || drive_path value ||
  contains "../" value || contains (".." +:+ backslash) value.

Fixpoint _scan_authority (value : json) (path : string) : res unit :=
  match value with
  | JObj m =>
      (fix fields (m : obj) : res unit :=
         match m with
         | [] => Ok tt
         | (key, child) :: rest =>
             raise_if (forbidden_key key)
               (ValidationError ("proposal contains forbidden authority field at " +:+
                                 path +:+ "." +:+ key)) ;;
             _scan_authority child (path +:+ "." +:+ key) ;;
             fields rest
         end) m
  | JList l =>
      (fix items (l : list json) (index : Z) : res unit :=
         match l with
         | [] => Ok tt
         | child :: rest =>
             _scan_authority child (path +:+ "[" +:+ print_int index +:+ "]") ;;
             items rest (index + 1)
         end) l 0
  | JStr s =>
      raise_if (forbidden_text s)
        (ValidationError ("proposal contains forbidden transition or SQL at " +:+ path)) ;;
      raise_if (arbitrary_path s)
        (ValidationError ("proposal contains an arbitrary path at " +:+ path))
  | _ => Ok tt
  end.

(** ** The proposal schema *)
Definition proposal_urn (k : string) (m : obj) (kind : string) : res string :=
  v ← item k m; require_urn v (Some kind) kind.

Definition references_check (value : obj) : res unit :=
  v ← item "references" value;
  let bad := ValidationError "proposal references are incomplete" in
  references ← as_obj v bad;
  raise_if (negb (set_eq (keys references) ["case_id"; "verdict_id"; "evidence_ids"])) bad ;;
  proposal_urn "case_id" references "case" ;;
  proposal_urn "verdict_id" references "verdict" ;;
  e ← item "evidence_ids" references;
  let missing := ValidationError "proposal requires evidence references" in
  l ← as_list e missing;
  raise_if (match l with [] => true | _ => false end) missing ;;
  for_each (λ i, require_urn i (Some "evidence") "evidence" ;; Ok tt) l.

Definition reason_given := ["supplied"; "later_added"].

Definition payload_check (value : obj) : res unit :=
  v ← item "payload" value;
  payload ← as_obj v (ValidationError "proposal payload must be an object");
  let reason := get "reason" payload in
  let status := get "reason_status" payload in
  b ← and_then (Ok (is_null reason)) (in_set status reason_given);
  raise_if b (ValidationError "proposal fabricates WHY status") ;;
  b ← and_then (Ok (negb (is_null reason)))
        (or_else (Ok match reason with JStr s => blank s | _ => true end)
                 (not_in_set status reason_given));
  raise_if b (ValidationError "proposal reason and status disagree") ;;
  t ← item "proposal_type" value;
  raise_if (str_is t "correction_with_reason" && is_null reason)
    (ValidationError "correction_with_reason requires source reason") ;;
  raise_if (str_is t "correction_without_reason" && negb (is_null reason))
    (ValidationError "correction_without_reason cannot invent a reason").

Definition model_check (model recipe_hash : json) : res unit :=
  raise_if (is_null model && negb (is_null recipe_hash))
    (ValidationError "prompt hash without a model is invalid") ;;
  unless_null model
    (raise_if (match model with JStr s => blank s | _ => true end)
       (ValidationError "model identity must be a non-empty string") ;;
     raise_if (match recipe_hash with JStr h => negb (is_sha256_hex h) | _ => true end)
       (ValidationError "model proposal requires a prompt recipe SHA-256")).

Definition proposal_provenance_check (value : obj) : res unit :=
  v ← item "provenance" value;
  let bad := ValidationError "proposal provenance is incomplete" in
  p ← as_obj v bad;
  raise_if (negb (set_eq (keys p)
    ["status"; "authority_tier"; "proposer"; "model"; "prompt_recipe_hash"])) bad ;;
  status ← item "status" p;
  tier ← item "authority_tier" p;
  b ← or_else (not_in_set status ["extracted"; "inferred"])
              (not_in_set tier ["inferred_candidate"; "observed_candidate"]);
  raise_if b (ValidationError "proposal provenance escalates authority") ;;
  proposer ← item "proposer" p;
  raise_if (match proposer with JStr s => String.eqb s "" | _ => true end)
    (ValidationError "proposal proposer is required") ;;
  model ← item "model" p;
  recipe_hash ← item "prompt_recipe_hash" p;
  model_check model recipe_hash.

Definition validate_proposal (value : json) : res obj :=
  let bad := ValidationError "proposal has missing or unknown top-level fields" in
  m ← as_obj value bad;
  raise_if (negb (set_eq (keys m) _TOP)) bad ;;
  version ← item "record_schema_version" m;
  raise_if (negb (str_is version RECORD_SCHEMA_VERSION))
    (ValidationError "unsupported proposal schema version") ;;
  proposal_urn "proposal_id" m "proposal" ;;
  proposal_urn "source_input_event_id" m "event" ;;
  kind ← item "proposal_type" m;
  b ← not_in_set kind PROPOSAL_TYPES;
  raise_if b (ValidationError "unknown proposal type") ;;
  transition ← item "proposed_transition" m;
  b ← not_in_set transition ALLOWED_TRANSITIONS;
  raise_if b (ValidationError "unknown or forbidden proposal transition") ;;
  raise_if (str_is kind "non_feedback" && negb (str_is transition "route"))
    (ValidationError "non_feedback may only route") ;;
  raise_if (negb (str_is kind "non_feedback") && str_is transition "route")
    (ValidationError "feedback proposals cannot route as non-feedback") ;;
  references_check m ;;
  payload_check m ;;
  proposal_provenance_check m ;;
  extensions ← item "extensions" m;
  as_obj extensions (ValidationError "extensions must be an object") ;;
  _scan_authority value "proposal" ;;
  raise_if (MAX_EVENT_BYTES <? byte_length (canonical_bytes value))
    (ValidationError "proposal is oversized") ;;
  Ok m.

(** ** Routing a capture *)

(** [v[k]] on a value that may not be a mapping. *)
Definition at_ (k : string) (v : json) : res json :=
  match v with JObj m => item k m | _ => Err TypeError end.

Definition proposal_type_of (route : string) (reason : json) : string :=
  if String.eqb route "correction"
  then if is_null reason then "correction_without_reason" else "correction_with_reason"
  else if mem route ["preference"; "standard"; "approval"; "refusal"] then route
  else "non_feedback".

Section routing.
Context (uuids : nat → Z).
#[local] Open Scope gen_scope.

Definition route_capture_to_proposal (envelope : obj) (detection : FeedbackDetection)
    (proposer : string) : gen obj :=
  verdict <~ lift (item "verdict" envelope);
  reason <~ lift (at_ "reason" verdict);
  status <~ lift (at_ "reason_status" verdict);
  let proposal_type := proposal_type_of (route detection) reason in
  proposal_id <~ new_urn uuids "proposal";
  event <~ lift (item "input_event_id" envelope);
  case <~ lift (item "case" envelope);
  case_id <~ lift (at_ "case_id" case);
  verdict_id <~ lift (at_ "verdict_id" verdict);
  provenance <~ lift (item "provenance" envelope);
  ids <~ lift (at_ "evidence_ids" provenance);
  evidence_ids <~ lift (iterate ids);
  call <~ lift (at_ "call" verdict);
  call_type <~ lift (at_ "call_type" call);
  c <~ lift (at_ "chosen_alternative_ids" verdict);
  chosen <~ lift (iterate c);
  x <~ lift (at_ "rejected_alternative_ids" verdict);
  rejected <~ lift (iterate x);
  lift (validate_proposal (JObj
    [("record_schema_version", JStr RECORD_SCHEMA_VERSION);
     ("proposal_id", JStr proposal_id);
     ("source_input_event_id", event);
     ("proposal_type", JStr proposal_type);
     ("proposed_transition",
        JStr (if String.eqb proposal_type "non_feedback" then "route" else "extract"));
     ("references", JObj [("case_id", case_id); ("verdict_id", verdict_id);
                          ("evidence_ids", JList evidence_ids)]);
     ("payload", JObj [("call_type", call_type); ("reason", reason); ("reason_status", status);
                       ("chosen_alternative_ids", JList chosen);
                       ("rejected_alternative_ids", JList rejected)]);
     ("provenance", JObj [("status", JStr "extracted"); ("authority_tier", JStr "observed_candidate");
                          ("proposer", JStr proposer); ("model", JNull);
                          ("prompt_recipe_hash", JNull)]);
     ("extensions", JObj [])])).

Definition one : spec_float := S754_finite false 4503599627370496 (-52).

Definition later_detection : FeedbackDetection :=
  {| is_feedback := true; route := "correction"; call_type := Some "correct";
     marker := Some "reason_addition"; confidence := one |}.

Definition build_reason_addition_proposal (original later_capture : obj) : gen obj :=
  first <~ lift (item "verdict" original);
  first_reason <~ lift (at_ "reason" first);
  _ <~ lift (raise_if (negb (is_null first_reason))
               (ValidationError "original verdict already has a reason"));
  verdict <~ lift (item "verdict" later_capture);
  reason <~ lift (at_ "reason" verdict);
  b <~ lift (or_else (Ok (is_null reason))
               (status ← at_ "reason_status" verdict; Ok (negb (str_is status "later_added"))));
  _ <~ lift (raise_if b
               (ValidationError "later capture must explicitly supply a later_added reason"));
  proposal <~ route_capture_to_proposal later_capture later_detection "deterministic-router";
  payload <~ lift (item "payload" proposal);
  original_id <~ lift (at_ "verdict_id" first);
  let payload := match payload with
                 | JObj p => JObj (set_item "original_verdict_id" original_id p)
                 | other => other end in
  lift (validate_proposal (JObj
    (set_item "payload" payload (set_item "proposal_type" (JStr "reason_addition") proposal)))).

(** ** The shipped deriver *)
Definition deriver_routes : list (string * string) :=
  [("correct", "correction"); ("prefer", "preference"); ("approve", "approval");
   ("refuse", "refusal"); ("standard", "standard")].

(** The proposal [ReferenceDerivationInvoker.run] submits. *)
Definition reference_derivation (envelope : obj) : gen obj :=
  verdict <~ lift (item "verdict" envelope);
  call <~ lift (at_ "call" verdict);
  call_type <~ lift (at_ "call_type" call);
  _ <~ lift (raise_if (negb (hashable call_type)) TypeError);
  let route := match call_type with
               | JStr s => default "non_feedback" (assoc s deriver_routes)
               | _ => "non_feedback" end in
  route_capture_to_proposal envelope
    {| is_feedback := negb (String.eqb route "non_feedback"); route := route;
       call_type := match call_type with JStr s => Some s | _ => None end;
       marker := Some "deterministic_reference_deriver"; confidence := one |}
    "imprint-reference-deriver".
End routing.

(** ** Recorder, judge, writer *)

(** Agents are injected: each maps a task to an answer, or raises.  The calls
    a run makes are recorded in order. *)
Inductive derivation_event : Type :=
| AskedRecorder (task : obj)
| AskedJudge (task : obj)
| Submitted (proposal : obj).

Context (recorder judge : obj → res json) (submit : obj → res json).

Definition recorder_task (envelope : obj) : res obj :=
  version ← item "record_schema_version" envelope;
  event ← item "input_event_id" envelope;
  case ← item "case" envelope;
  verdict ← item "verdict" envelope;
  alternatives ← item "alternatives" envelope;
  evidence ← item "evidence" envelope;
  Ok [("record_schema_version", version); ("source_input_event_id", event); ("case", case);
      ("verdict", verdict); ("alternatives", alternatives); ("evidence", evidence)].

Definition judge_task (envelope proposal : obj) : res obj :=
  version ← item "record_schema_version" envelope;
  Ok [("record_schema_version", version); ("proposal", JObj proposal)].

(** [ProposalOrchestrator.run], with the calls it makes on its agents. *)
Definition orchestrate (envelope : obj) : res json * list derivation_event :=
  match recorder_task envelope with
  | Err e => (Err e, [])
  | Ok task =>
      match recorder task ≫= validate_proposal with
      | Err e => (Err e, [AskedRecorder task])
      | Ok proposal =>
          match judge_task envelope proposal with
          | Err e => (Err e, [AskedRecorder task])
          | Ok review =>
              match judge review ≫= validate_proposal with
              | Err e => (Err e, [AskedRecorder task; AskedJudge review])
              | Ok judged =>
                  (submit judged, [AskedRecorder task; AskedJudge review; Submitted judged])
              end
          end
      end
  end.
End scan.

(** ** Cold start *)
Record ScanDecision : Type := { accepted : bool; decision_reason : string }.

Definition finished_states := ["final"; "finished"; "approved"; "published"; "frozen"].

Definition finished_deliverable_decision `{ucd : unicode_data} (lifecycle_status : option string)
    (immutable : bool) : ScanDecision :=
  let status := replace_char "-" "_" (py_lower (strip (default "" lifecycle_status))) in
  if immutable || mem status finished_states
  then {| accepted := false; decision_reason := "finished_deliverable_refused" |}
  else {| accepted := true; decision_reason := "eligible_candidate" |}.

(** [ProgressStore]: what the scan asks of its store, and its law. *)
Class ProgressStore (S : Type) : Type := {
  ps_contains : S → string → bool;
  ps_add : S → string → S
}.
Class ProgressStoreLaws (S : Type) `{ProgressStore S} : Prop := {
  ps_contains_add : ∀ s k k', ps_contains (ps_add s k) k' = String.eqb k k' || ps_contains s k'
}.

Definition progress_key (source_id content : string) : string :=
  sha256 (source_id +:+ byte 0 +:+ content).

Definition mark_progress_once {S} `{ProgressStore S} (store : S) (source_id content : string) : bool * S :=
  let key := progress_key source_id content in
  if ps_contains store key then (false, store) else (true, ps_add store key).

(** A scan over a list of sources, each marked in turn. *)
Definition scan_all {S} `{ProgressStore S} (store : S) (l : list (string * string)) : list bool * S :=
  fold_left (λ acc x, let '(b, s) := mark_progress_once acc.2 x.1 x.2 in (acc.1 ++ [b], s)) l ([], store).

#[export] Instance list_progress : ProgressStore (list string) :=
  {| ps_contains s k := mem k s; ps_add s k := k :: s |}.
#[export] Instance list_progress_laws : ProgressStoreLaws (list string).
Proof. constructor. intros s k k'. simpl. by rewrite String.eqb_sym. Qed.

(** ** What the scan and the schema guarantee *)

(** [w] occurs somewhere in [v]. *)
Inductive within (w : json) : json → Prop :=
| within_here : within w w
| within_list l x : In x l → within w x → within w (JList l)
| within_obj m k x : In (k, x) m → within w x → within w (JObj m).

Section scan_spec.
Context `{ucd : unicode_data}.

(** A value that claims no authority: no forbidden key, no lifecycle word or
    SQL phrase, no path. *)
Definition clean (w : json) : Prop :=
  match w with
  | JObj m => ∀ k, In k (keys m) → forbidden_key k = false
  | JStr s => forbidden_text s = false ∧ arbitrary_path s = false
  | _ => True
  end.

Lemma within_obj_cases w m : within w (JObj m) ↔ w = JObj m ∨ ∃ k x, In (k, x) m ∧ within w x.
Proof. split; [inversion 1; subst; eauto 6|intros [->|(k & x & ? & ?)]; [constructor|by econstructor 3; eauto]]. Qed.

Lemma within_list_cases w l : within w (JList l) ↔ w = JList l ∨ ∃ x, In x l ∧ within w x.
Proof. split; [inversion 1; subst; eauto 6|intros [->|(x & ? & ?)]; [constructor|by econstructor 2; eauto]]. Qed.

Lemma within_leaf w v :
  match v with JObj _ | JList _ => False | _ => True end → within w v → w = v.
Proof. intros Hv H. by inversion H; subst. Qed.

Lemma scan_list l : ∀ path i,
  Forall (λ v, ∀ p, _scan_authority v p = Ok tt ↔ ∀ w, within w v → clean w) l →
  (fix items (l : list json) (index : Z) : res unit :=
     match l with
     | [] => Ok tt
     | child :: rest =>
         _scan_authority child (path +:+ "[" +:+ print_int index +:+ "]") ;;
         items rest (index + 1)
     end) l i = Ok tt ↔ ∀ x, In x l → ∀ w, within w x → clean w.
Proof.
  induction l as [|v l IHl]; intros path i IH; [by split|].
  inversion_clear IH as [|? ? Hv Hl]. rewrite bind_Ok. split.
  - intros ([] & H1 & H2) x [<-|Hx]; [exact (proj1 (Hv _) H1)|].
    revert x Hx. by apply (IHl path (i + 1)).
  - intros H. exists tt. split; [apply Hv, H; by left|].
    apply IHl; [done|]. intros x Hx. apply H. by right.
Qed.

Lemma scan_fields m : ∀ path,
  Forall (λ kv, ∀ p, _scan_authority kv.2 p = Ok tt ↔ ∀ w, within w kv.2 → clean w) m →
  (fix fields (m : obj) : res unit :=
     match m with
     | [] => Ok tt
     | (key, child) :: rest =>
         raise_if (forbidden_key key)
           (ValidationError ("proposal contains forbidden authority field at " +:+
                             path +:+ "." +:+ key)) ;;
         _scan_authority child (path +:+ "." +:+ key) ;;
         fields rest
     end) m = Ok tt ↔
  ∀ k x, In (k, x) m → forbidden_key k = false ∧ ∀ w, within w x → clean w.
Proof.
  induction m as [|[k v] m IHm]; intros path IH; [by split|].
  inversion_clear IH as [|? ? Hv Hm]. simpl in Hv. specialize (IHm path Hm).
  rewrite bind_Ok. setoid_rewrite bind_Ok. split.
  - intros ([] & H1 & [] & H2 & H3) k' x [[= <- <-]|Hx].
    + apply raise_if_Ok in H1. split; [done|exact (proj1 (Hv _) H2)].
    + revert k' x Hx. by apply IHm.
  - intros H. destruct (H k v (or_introl eq_refl)) as [Hk Hw].
    exists tt. split; [by rewrite Hk|]. exists tt. split; [by apply Hv|].
    apply IHm. intros k' x Hx. apply H. by right.
Qed.

Lemma scan_iff v : ∀ path, _scan_authority v path = Ok tt ↔ ∀ w, within w v → clean w.
Proof.
  induction v as [| | | |s|l IH|m IH] using json_ind'; intros path.
  1-4: split; [|done]; intros _ w Hw; apply within_leaf in Hw as ->; done.
  - simpl. rewrite bind_Ok. split.
    + intros ([] & H1%raise_if_Ok & H2%raise_if_Ok) w Hw. by apply within_leaf in Hw as ->.
    + intros H. destruct (H (JStr s) (within_here _)) as [H1 H2].
      exists tt. by rewrite H1, H2.
  - simpl. rewrite scan_list by done. setoid_rewrite within_list_cases. naive_solver.
  - simpl. rewrite scan_fields by done. setoid_rewrite within_obj_cases. split.
    + intros H w [->|(k & x & Hx & Hw)]; [|by eapply H].
      intros k Hk. unfold keys in Hk. apply in_map_iff in Hk as ((k' & x) & <- & Hx). by eapply H.
    + intros H k x Hx. split; [|eauto 6].
      apply (H (JObj m)); [by left|]. apply in_map_iff. by exists (k, x).
Qed.

Record proposal_spec (m : obj) : Prop := {
  pp_fields : ∀ x, In x (keys m) ↔ In x _TOP;
  pp_kind : ∃ kind transition,
    assoc "proposal_type" m = Some (JStr kind) ∧ In kind PROPOSAL_TYPES ∧
    assoc "proposed_transition" m = Some (JStr transition) ∧ In transition ALLOWED_TRANSITIONS ∧
    (transition = "route" ↔ kind = "non_feedback");
  pp_references : ∃ refs case verdict ids,
    assoc "references" m = Some (JObj refs) ∧
    assoc "case_id" refs = Some (JStr case) ∧ is_urn (Some "case") case ∧
    assoc "verdict_id" refs = Some (JStr verdict) ∧ is_urn (Some "verdict") verdict ∧
    assoc "evidence_ids" refs = Some (JList (map JStr ids)) ∧ ids ≠ [] ∧
    Forall (is_urn (Some "evidence")) ids;
  pp_reason : ∃ payload, assoc "payload" m = Some (JObj payload) ∧
    match get "reason" payload with
    | JNull => ∀ s, In s reason_given → get "reason_status" payload ≠ JStr s
    | JStr r => blank r = false ∧ ∃ s, In s reason_given ∧ get "reason_status" payload = JStr s
    | _ => False
    end;
  pp_provenance : ∃ p status tier, assoc "provenance" m = Some (JObj p) ∧
    assoc "status" p = Some (JStr status) ∧ In status ["extracted"; "inferred"] ∧
    assoc "authority_tier" p = Some (JStr tier) ∧
    In tier ["inferred_candidate"; "observed_candidate"];
  pp_scanned : ∀ w, within w (JObj m) → clean w;
  pp_size : byte_length (canonical_bytes (JObj m)) ≤ MAX_EVENT_BYTES
}.

Lemma references_spec m u :
  references_check m = Ok u → ∃ refs case verdict ids,
    assoc "references" m = Some (JObj refs) ∧
    assoc "case_id" refs = Some (JStr case) ∧ is_urn (Some "case") case ∧
    assoc "verdict_id" refs = Some (JStr verdict) ∧ is_urn (Some "verdict") verdict ∧
    assoc "evidence_ids" refs = Some (JList (map JStr ids)) ∧ ids ≠ [] ∧
    Forall (is_urn (Some "evidence")) ids.
Proof.
  unfold references_check, proposal_urn. intros H. inv_checks.
  do 4 eexists. split_and!; try eassumption. by intros ->.
Qed.

Lemma payload_spec m u :
  payload_check m = Ok u → ∃ payload, assoc "payload" m = Some (JObj payload) ∧
    match get "reason" payload with
    | JNull => ∀ s, In s reason_given → get "reason_status" payload ≠ JStr s
    | JStr r => blank r = false ∧ ∃ s, In s reason_given ∧ get "reason_status" payload = JStr s
    | _ => False
    end.
Proof.
  unfold payload_check. intros H. apply bind_Ok in H as (v & Hv & H).
  apply bind_Ok in H as (payload & ->%as_obj_Ok & H). apply item_Ok in Hv.
  exists payload. split; [done|]. apply bind_Ok in H as (b & Hb & H).
  apply bind_Ok in H as (? & ->%raise_if_Ok & H). apply bind_Ok in H as (b & Hs & H).
  apply bind_Ok in H as (? & ->%raise_if_Ok & _).
  unfold and_then, or_else in *. destruct (get "reason" payload) as [| | | |r| |]; simpl in *; try discriminate.
  - intros s Hin E. rewrite E in Hb. simpl in Hb. injection Hb as Hb. by apply mem_not_In in Hb.
  - destruct (blank r); [discriminate|]. split; [done|].
    apply not_in_set_false in Hs as (s & -> & Hin%mem_In). by exists s.
Qed.

Lemma provenance_spec_of m u :
  proposal_provenance_check m = Ok u → ∃ p status tier, assoc "provenance" m = Some (JObj p) ∧
    assoc "status" p = Some (JStr status) ∧ In status ["extracted"; "inferred"] ∧
    assoc "authority_tier" p = Some (JStr tier) ∧
    In tier ["inferred_candidate"; "observed_candidate"].
Proof.
  unfold proposal_provenance_check. intros H. apply bind_Ok in H as (v & Hv & H).
  apply bind_Ok in H as (p & ->%as_obj_Ok & H). apply bind_Ok in H as (? & _ & H).
  apply bind_Ok in H as (status & Hs%item_Ok & H). apply bind_Ok in H as (tier & Ht%item_Ok & H).
  apply bind_Ok in H as (b & Hb & H). apply bind_Ok in H as (? & ->%raise_if_Ok & _).
  apply or_else_Ok_false in Hb as [Hb1 Hb2].
  apply not_in_set_false in Hb1 as (? & -> & ?%mem_In).
  apply not_in_set_false in Hb2 as (? & -> & ?%mem_In).
  apply item_Ok in Hv. eauto 10.
Qed.

Lemma validate_proposal_spec v m : validate_proposal v = Ok m → v = JObj m ∧ proposal_spec m.
Proof.
  unfold validate_proposal, proposal_urn. intros H.
  apply bind_Ok in H as (m' & ->%as_obj_Ok & H). apply bind_Ok in H as (? & Hf%raise_if_Ok & H).
  apply negb_false_iff in Hf. rewrite set_eq_In in Hf.
  apply bind_Ok in H as (? & _ & H). apply bind_Ok in H as (? & _ & H).
  apply bind_Ok in H as (? & _ & H). apply bind_Ok in H as (? & _ & H).
  apply bind_Ok in H as (kind & Hk%item_Ok & H). apply bind_Ok in H as (b & Hb & H).
  apply bind_Ok in H as (? & ->%raise_if_Ok & H). apply bind_Ok in H as (tr & Ht%item_Ok & H).
  apply bind_Ok in H as (b & Hb' & H). apply bind_Ok in H as (? & ->%raise_if_Ok & H).
  apply bind_Ok in H as (? & Hr1%raise_if_Ok & H). apply bind_Ok in H as (? & Hr2%raise_if_Ok & H).
  apply bind_Ok in H as (? & Hrefs%references_spec & H).
  apply bind_Ok in H as (? & Hpay%payload_spec & H).
  apply bind_Ok in H as (? & Hprov%provenance_spec_of & H).
  apply bind_Ok in H as (? & _ & H). apply bind_Ok in H as (? & _ & H).
  apply bind_Ok in H as ([] & Hscan & H). apply bind_Ok in H as (? & Hsz%raise_if_Ok & [= <-]).
  apply not_in_set_false in Hb as (k & -> & Hk1%mem_In).
  apply not_in_set_false in Hb' as (t & -> & Ht1%mem_In).
  split; [done|]. constructor; try done.
  - exists k, t. split_and!; try done. simpl in Hr1, Hr2.
    destruct (String.eqb_spec k "non_feedback"), (String.eqb_spec t "route"); naive_solver.
  - exact (proj1 (scan_iff _ _) Hscan).
  - by apply Z.ltb_ge.
Qed.
End scan_spec.

(** ** Properties *)

(** C34: A proposal never carries authority.  Whatever a model or an agent
    answers, what the schema accepts is returned unchanged with every closed
    field; it is extracted or inferred, in a candidate tier; it can only
    extract, infer or route; it references a case, a verdict and evidence; its
    reason is text exactly when its status says one was given; and nowhere in
    it, at any depth, is there a forbidden key, a lifecycle word, an SQL
    phrase or a path. *)
Theorem proposal_never_escalates `{ucd : unicode_data} v m :
  validate_proposal v = Ok m → v = JObj m ∧ proposal_spec m.
Proof. apply validate_proposal_spec. Qed.

(** The authority scan reaches everything and refuses nothing else: it
    accepts a value exactly when every object and every text inside it, at
    any depth, is free of forbidden keys, lifecycle words, SQL phrases and
    paths. *)
Theorem authority_scan_exact `{ucd : unicode_data} v path :
  _scan_authority v path = Ok tt ↔ ∀ w, within w v → clean w.
Proof. apply scan_iff. Qed.

(** What a routed proposal says of the capture it was made from. *)
Record routed (envelope : obj) (route proposer : string) (p : obj) : Prop := {
  rt_reason : ∃ verdict reason status payload,
    assoc "verdict" envelope = Some (JObj verdict) ∧
    assoc "reason" verdict = Some reason ∧ assoc "reason_status" verdict = Some status ∧
    assoc "payload" p = Some (JObj payload) ∧
    assoc "reason" payload = Some reason ∧ assoc "reason_status" payload = Some status ∧
    assoc "proposal_type" p = Some (JStr (proposal_type_of route reason));
  rt_source : assoc "source_input_event_id" p = assoc "input_event_id" envelope;
  rt_references : ∃ case verdict provenance refs ids,
    assoc "case" envelope = Some (JObj case) ∧ assoc "verdict" envelope = Some (JObj verdict) ∧
    assoc "provenance" envelope = Some (JObj provenance) ∧
    assoc "references" p = Some (JObj refs) ∧
    assoc "case_id" refs = assoc "case_id" case ∧
    assoc "verdict_id" refs = assoc "verdict_id" verdict ∧
    assoc "evidence_ids" refs = Some (JList ids) ∧
    (x ← item "evidence_ids" provenance; iterate x) = Ok ids;
  rt_candidate : assoc "provenance" p = Some (JObj
    [("status", JStr "extracted"); ("authority_tier", JStr "observed_candidate");
     ("proposer", JStr proposer); ("model", JNull); ("prompt_recipe_hash", JNull)])
}.

Lemma at_Ok k v x : at_ k v = Ok x ↔ ∃ m, v = JObj m ∧ assoc k m = Some x.
Proof.
  destruct v; try (split; [done|naive_solver]). simpl. rewrite item_Ok. naive_solver.
Qed.

Lemma at_obj k m x : at_ k (JObj m) = Ok x ↔ assoc k m = Some x.
Proof. apply item_Ok. Qed.

(** Turns the subscripts of the context into lookups. *)
Ltac inv_items :=
  repeat match goal with
  | H : item _ _ = Ok _ |- _ => apply item_Ok in H
  | H : at_ _ (JObj _) = Ok _ |- _ => apply at_obj in H
  | H : at_ _ _ = Ok _ |- _ => apply at_Ok in H as (? & -> & ?)
  end.

Section routing_facts.
Context `{ucd : unicode_data} (uuids : nat → Z).

Lemma route_spec envelope d proposer n p n' :
  route_capture_to_proposal uuids envelope d proposer n = Ok (p, n') →
  routed envelope (route d) proposer p ∧ proposal_spec p.
Proof.
  unfold route_capture_to_proposal. intros H. inv_gen.
  apply validate_proposal_spec in H as [[= <-] Hspec].
  inv_items.
  split; [|exact Hspec]. constructor; [| | |reflexivity].
  - do 4 eexists. split_and!; first [reflexivity | eassumption].
  - symmetry. assumption.
  - do 5 eexists. split_and!; first [reflexivity | eassumption | symmetry; eassumption | idtac].
    unfold item. match goal with H : assoc "evidence_ids" _ = _ |- _ => rewrite H end. assumption.
Qed.
End routing_facts.

(** Routing never infers a missing reason.  A proposal routed from a
    capture carries the capture's own reason and reason status, is typed by
    them and the detected route, references the capture's case, verdict and
    evidence, names no model, and stays an observed candidate. *)
Theorem routing_preserves_reason `{ucd : unicode_data} uuids envelope d proposer n p n' :
  route_capture_to_proposal uuids envelope d proposer n = Ok (p, n') →
  routed envelope (route d) proposer p ∧ proposal_spec p.
Proof. apply route_spec. Qed.

(** The shipped deriver drops accepted and rejected calls.  Its route
    table lists "approve" and "standard", which no capture carries, and
    neither "accept" nor "reject", which captures do carry: whatever it
    derives from such a capture is of type non_feedback. *)
Theorem reference_deriver_drops_accept `{ucd : unicode_data} uuids envelope verdict call kind n p n' :
  assoc "verdict" envelope = Some (JObj verdict) → assoc "call" verdict = Some (JObj call) →
  assoc "call_type" call = Some (JStr kind) → In kind ["accept"; "reject"] →
  reference_derivation uuids envelope n = Ok (p, n') →
  assoc "proposal_type" p = Some (JStr "non_feedback") ∧
  assoc "proposed_transition" p = Some (JStr "route").
Proof.
  intros Hv Hc Hk Hin H. unfold reference_derivation in H. inv_gen.
  inv_items. simplify_eq.
  destruct (assoc kind deriver_routes) as [r|] eqn:E.
  { by destruct Hin as [<-|[<-|[]]]. }
  simpl in H. apply route_spec in H as [[(v & reason & ? & ? & _ & _ & _ & _ & _ & _ & Ht) _ _ _] Hp].
  change (proposal_type_of _ reason) with "non_feedback" in Ht. split; [done|].
  destruct (pp_kind _ Hp) as (k & t & Hk' & _ & Ht' & _ & Hiff). rewrite Ht in Hk'.
  injection Hk' as <-. by rewrite Ht', (proj2 Hiff eq_refl).
Qed.

(** Only reviewed, validated proposals reach the writer.  A run asks the
    recorder first, then the judge about the recorder's validated proposal,
    and submits, last and once, exactly the judge's answer when that is a
    valid proposal; if either answer is refused, nothing is submitted. *)
Theorem orchestrator_submits_validated `{ucd : unicode_data} recorder judge submit envelope result events :
  orchestrate recorder judge submit envelope = (result, events) →
  (∀ p, In (Submitted p) events → ∃ task review reviewed,
     events = [AskedRecorder task; AskedJudge review; Submitted p] ∧
     recorder task = Ok (JObj reviewed) ∧ proposal_spec reviewed ∧
     assoc "proposal" review = Some (JObj reviewed) ∧
     judge review = Ok (JObj p) ∧ proposal_spec p ∧ result = submit p) ∧
  ((∀ p, ~ In (Submitted p) events) → ∃ e, result = Err e).
Proof.
  unfold orchestrate. intros H.
  destruct (recorder_task envelope) as [task|]; [|injection H as <- <-; naive_solver].
  destruct (recorder task ≫= validate_proposal) as [proposal|] eqn:Hr;
    [|injection H as <- <-; split; [intros p [|[]]; done|eauto]].
  unfold judge_task in H. destruct (item "record_schema_version" envelope) as [ver|];
    [|injection H as <- <-; split; [intros p [|[]]; done|eauto]]. cbn [mbind res_bind] in H.
  set (review := [("record_schema_version", ver); ("proposal", JObj proposal)]) in *.
  destruct (judge review ≫= validate_proposal) as [judged|] eqn:Hj;
    [|injection H as <- <-; split; [intros p [|[|[]]]; done|eauto]].
  injection H as <- <-. split.
  - intros p [|[|[[= <-]|[]]]]; [done|done|].
    apply bind_Ok in Hr as (v & Hr & [-> Hpr]%validate_proposal_spec).
    apply bind_Ok in Hj as (w & Hj & [-> Hpj]%validate_proposal_spec).
    exists task, review, proposal. split_and!; done.
  - intros Hn. exfalso. apply (Hn judged). simpl. tauto.
Qed.

(** Progress is marked once.  Over any store that keeps its law, marking
    the same source with the same content again reports a replay and leaves
    the store unchanged, and a first mark is recorded. *)
Theorem progress_marked_once {S} `{ProgressStoreLaws S} (store : S) source_id content :
  let '(first, store1) := mark_progress_once store source_id content in
  first = negb (ps_contains store (progress_key source_id content)) ∧
  ps_contains store1 (progress_key source_id content) = true ∧
  mark_progress_once store1 source_id content = (false, store1).
Proof.
  unfold mark_progress_once. destruct (ps_contains store _) eqn:E; simpl.
  - by rewrite E.
  - by rewrite ps_contains_add, String.eqb_refl.
Qed.

(** A source identifier with a NUL in it can share its key with another
    source: the separator is not escaped. *)
Lemma progress_key_ambiguous a b c :
  progress_key (a +:+ byte 0 +:+ b) c = progress_key a (b +:+ byte 0 +:+ c).
Proof. unfold progress_key. by rewrite !str_app_assoc. Qed.

(** ** Concrete runs *)
Definition example_route : FeedbackDetection := example_detect "" None None.

Definition example_proposal : obj :=
  Eval vm_compute in
    built (route_capture_to_proposal (ucd := plain_unicode) example_uuid example_envelope example_route
             "deterministic-router" 9%nat).

Lemma proposal_never_escalates_witness :
  JObj example_proposal = JObj example_proposal ∧ @proposal_spec plain_unicode example_proposal.
Proof.
  apply (@proposal_never_escalates plain_unicode (JObj example_proposal) example_proposal).
  vm_compute. reflexivity.
Defined.

Lemma routing_preserves_reason_witness :
  routed example_envelope (route example_route) "deterministic-router" example_proposal ∧
  @proposal_spec plain_unicode example_proposal.
Proof.
  apply (@routing_preserves_reason plain_unicode example_uuid example_envelope example_route
           "deterministic-router" 9%nat example_proposal 10%nat).
  vm_compute. reflexivity.
Defined.

(** A capture the operator accepted: its proposal is not feedback. *)
Definition accept_verdict : obj :=
  match get "verdict" example_envelope with
  | JObj v => set_item "call" (JObj [("call_id", JNull); ("call_type", JStr "accept")]) v
  | _ => []
  end.
Definition accept_envelope : obj := set_item "verdict" (JObj accept_verdict) example_envelope.
Definition accept_proposal : obj :=
  Eval vm_compute in
    built (reference_derivation (ucd := plain_unicode) example_uuid accept_envelope 9%nat).

Lemma reference_deriver_drops_accept_witness :
  assoc "proposal_type" accept_proposal = Some (JStr "non_feedback") ∧
  assoc "proposed_transition" accept_proposal = Some (JStr "route").
Proof.
  apply (@reference_deriver_drops_accept plain_unicode example_uuid accept_envelope accept_verdict
           [("call_id", JNull); ("call_type", JStr "accept")] "accept" 9%nat accept_proposal 10%nat).
  - vm_compute. reflexivity.
  - vm_compute. reflexivity.
  - reflexivity.
  - left. reflexivity.
  - vm_compute. reflexivity.
Defined.

Definition echo_agent (_ : obj) : res json := Ok (JObj example_proposal).
Definition echo_writer (p : obj) : res json := item "proposal_id" p.

Definition echo_run : res json * list derivation_event :=
  orchestrate (ucd := plain_unicode) echo_agent echo_agent echo_writer example_envelope.

Example echo_run_submits :
  existsb (λ e, match e with Submitted _ => true | _ => false end) (snd echo_run) = true.
Proof. vm_compute. reflexivity. Qed.

Lemma echo_run_submitted : ∃ p, In (Submitted p) (snd echo_run).
Proof.
  pose proof echo_run_submits as H. apply existsb_exists in H as (e & He & H).
  destruct e; [discriminate|discriminate|eauto].
Qed.

Lemma orchestrator_submits_validated_witness :
  ∃ p, In (Submitted p) (snd echo_run) ∧ @proposal_spec plain_unicode p ∧
       fst echo_run = echo_writer p.
Proof.
  destruct echo_run_submitted as (p & Hp). exists p. split; [exact Hp|].
  destruct (proj1 (@orchestrator_submits_validated plain_unicode echo_agent echo_agent echo_writer
              example_envelope (fst echo_run) (snd echo_run) (surjective_pairing echo_run)) p Hp)
    as (task & review & reviewed & _ & _ & _ & _ & _ & Hs & Hr).
  split; [exact Hs|exact Hr].
Defined.

Lemma progress_marked_once_witness :
  mark_progress_once (progress_key "notes.md" "text" :: []) "notes.md" "text"
    = (false, [progress_key "notes.md" "text"]).
Proof.
  pose proof (progress_marked_once (S := list string) [] "notes.md" "text") as H.
  simpl in H. exact (proj2 (proj2 H)).
Defined.

(** Ordinary reasons the SQL pattern refuses. *)
Example ordinary_reasons_refused :
  map (λ s, forbidden_text (ucd := plain_unicode) s)
    ["drop the jargon"; "update the headline"; "Delete duplicates first"; "shorter reads better"]
  = [true; true; true; false].
Proof. vm_compute. reflexivity. Qed.

Example forbidden_keys :
  map forbidden_key ["sql"; "source_path"; "DB_Name"; "writers"; "xpath"; "ſql"; "command"]
  = [true; true; true; false; false; true; true].
Proof. vm_compute. reflexivity. Qed.
