(* ===== verification/Domains.v ===== *)
(** * Domain selection ([domains/selector.py])

    The closed registry of domain rules built from public configuration, and
    the selection of one domain: explicit, by the longest matching path
    prefix, or by the most keyword tokens, with every tie left undecided. *)
From S2P Require Import Prelude Contracts Unicode.

Record DomainRule : Type := {
  dr_domain_id : string; dr_public_label : string; dr_safe_paths : list string;
  dr_keywords : list string; dr_frozen : bool
}.

Record DomainSelection : Type := {
  ds_domain_id : option string; ds_method : string; ds_diagnostic : option string
}.

Definition nul : string := byte 0.
Definition backslash_char : ascii := "092".

(** [DomainRule.__post_init__] *)
Definition make_rule (r : DomainRule) : res DomainRule :=
  raise_if (negb (safe_id (dr_domain_id r))) (ValueError "unsafe domain id") ;;
  raise_if (blank (dr_public_label r)) (ValueError "public label is required") ;;
  for_each (λ prefix, raise_if (blank prefix || contains nul prefix) (ValueError "unsafe path rule"))
    (dr_safe_paths r) ;;
  Ok r.

(** [DomainRegistry(rules)] *)
Definition make_registry (rules : list DomainRule) : res (list DomainRule) :=
  let ids := map dr_domain_id rules in
  raise_if (negb (Nat.eqb (length (dedup_strs ids)) (length ids)))
    (ValueError "duplicate domain id") ;;
  Ok rules.

Definition domain_ids (rules : list DomainRule) : list string := sorted_strs (map dr_domain_id rules).

Definition is_slash (c : string) : bool := String.eqb c "/".

Section selection.
Context `{ucd : unicode_data}.

(** [_path_parts] under POSIX paths: [PurePath] drops empty and ["."] parts. *)
Definition _path_parts (value : string) : list string :=
  let normalized := str_concat (rev (drop_while is_slash (rev (drop_while is_slash
                      (chars (replace_char backslash_char "/" value)))))) in
  if String.eqb normalized "" || contains nul normalized then []
  else
    let parts := map py_casefold
      (List.filter (λ p, negb (mem p [""; "."])) (split_on "/" normalized)) in
    if existsb (λ p, mem p ["."; ".."]) parts then [] else parts.

Fixpoint is_prefix (p l : list string) : bool :=
  match p, l with
  | [], _ => true
  | a :: p', b :: l' => String.eqb a b && is_prefix p' l'
  | _ :: _, [] => false
  end.

(** The length of the longest prefix rule that matches, 0 when none does. *)
Definition path_score (target : list string) (rule : DomainRule) : Z :=
  fold_left (λ best prefix,
    let parts := _path_parts prefix in
    if negb (match parts with [] => true | _ => false end) && is_prefix parts target
    then Z.max best (Z.of_nat (length parts)) else best) (dr_safe_paths rule) 0.

Definition tokens_of (value : string) : list string :=
  match tokenize value TOKENIZER_VERSION with Ok l => l | Err _ => [] end.

Definition keyword_score (query : list string) (rule : DomainRule) : Z :=
  let terms := flat_map tokens_of (dr_keywords rule) in
  Z.of_nat (length (List.filter (λ t, mem t terms) (dedup_strs query))).

Definition scored (score : DomainRule → Z) (rules : list DomainRule) : list (Z * string) :=
  flat_map (λ r, if 0 <? score r then [(score r, dr_domain_id r)] else []) rules.

Definition high (l : list (Z * string)) : Z := fold_right (λ p n, Z.max p.1 n) 0 l.

Definition winners (l : list (Z * string)) : list string :=
  sorted_strs (map snd (List.filter (λ p, p.1 =? high l) l)).

(** A unique best domain, or a tie. *)
Definition decide_winner (l : list (Z * string)) (method tie : string) : DomainSelection :=
  match winners l with
  | [w] => {| ds_domain_id := Some w; ds_method := method; ds_diagnostic := None |}
  | _ => {| ds_domain_id := None; ds_method := method; ds_diagnostic := Some tie |}
  end.

Definition select_keyword (rules : list DomainRule) (prompt : string) : DomainSelection :=
  match scored (keyword_score (tokens_of prompt)) rules with
  | [] => {| ds_domain_id := None; ds_method := "none"; ds_diagnostic := Some "domain_no_match" |}
  | l => decide_winner l "keyword" "domain_keyword_tie"
  end.

Definition path_scores (rules : list DomainRule) (path : option string) : list (Z * string) :=
  match path with
  | Some p => if String.eqb p "" then [] else
      match _path_parts p with [] => [] | target => scored (path_score target) rules end
  | None => []
  end.

Definition select (rules : list DomainRule) (explicit path : option string) (prompt : string)
    : DomainSelection :=
  match explicit with
  | Some e =>
      if negb (safe_id e) || negb (mem e (map dr_domain_id rules))
      then {| ds_domain_id := None; ds_method := "explicit";
              ds_diagnostic := Some "domain_explicit_invalid" |}
      else {| ds_domain_id := Some e; ds_method := "explicit"; ds_diagnostic := None |}
  | None =>
      match path_scores rules path with
      | [] => select_keyword rules prompt
      | l => decide_winner l "path" "domain_path_tie"
      end
  end.
End selection.

(** ** From configuration *)
Definition str_list (v : json) (msg : string) : res (list string) :=
  match v with
  | JList l => raise_if (negb (forallb is_str l)) (ValueError msg) ;; Ok (strs l)
  | _ => Err (ValueError msg)
  end.

(** [_SAFE_ID.fullmatch(v)] and [v.strip()] need a string. *)
Definition need_str (v : json) (e : exn) : res string :=
  match v with JStr s => Ok s | _ => Err e end.

Definition DOMAIN_FIELDS := ["domain_id"; "public_label"; "safe_paths"; "keywords"; "frozen"].

Definition rule_from_config (item_ : json) : res DomainRule :=
  let unknown := ValueError "domain config contains unknown fields" in
  o ← as_obj item_ unknown;
  raise_if (negb (subset (keys o) DOMAIN_FIELDS)) unknown ;;
  raise_if (negb (subset ["domain_id"; "public_label"] (keys o)))
    (ValueError "domain config requires domain_id and public_label") ;;
  safe_paths ← str_list (get_default "safe_paths" (JList []) o) "domain safe_paths must be strings";
  keywords ← str_list (get_default "keywords" (JList []) o) "domain keywords must be strings";
  v ← item "domain_id" o;
  id ← need_str v TypeError;
  l ← item "public_label" o;
  raise_if (negb (safe_id id)) (ValueError "unsafe domain id") ;;
  label ← need_str l AttributeError;
  make_rule {| dr_domain_id := id; dr_public_label := label; dr_safe_paths := safe_paths;
               dr_keywords := keywords; dr_frozen := truthy (get_default "frozen" (JBool false) o) |}.

Definition registry_from_config (config : obj) : res (list DomainRule) :=
  raw ← as_list (get_default "domains" (JList []) config) (ValueError "domains config must be an array");
  rules ← map_res rule_from_config raw;
  make_registry rules.

(** ** What a registry guarantees *)
Record rule_ok (r : DomainRule) : Prop := {
  ro_id : safe_id (dr_domain_id r) = true;
  ro_label : blank (dr_public_label r) = false;
  ro_paths : ∀ p, In p (dr_safe_paths r) → blank p = false ∧ contains nul p = false
}.

Lemma make_rule_Ok r r' : make_rule r = Ok r' → r' = r ∧ rule_ok r.
Proof.
  unfold make_rule. intros H. apply bind_Ok in H as (? & Hi%raise_if_Ok & H).
  apply bind_Ok in H as (? & Hl%raise_if_Ok & H). apply bind_Ok in H as (? & Hp & [= <-]).
  apply for_each_Ok in Hp. apply negb_false_iff in Hi. split; [done|]. constructor; try done.
  intros p Hin. rewrite List.Forall_forall in Hp. apply Hp, raise_if_Ok in Hin.
  by apply orb_false_iff.
Qed.

Lemma registry_Ok config rules :
  registry_from_config config = Ok rules →
  Forall rule_ok rules ∧ List.NoDup (map dr_domain_id rules).
Proof.
  unfold registry_from_config, make_registry. intros H.
  apply bind_Ok in H as (raw & _ & H). apply bind_Ok in H as (rs & Hrs & H).
  apply bind_Ok in H as (u & Hd%raise_if_Ok & [= <-]). split.
  - apply map_res_Forall2 in Hrs. clear -Hrs. induction Hrs as [|v r vs rs Hv _ IH]; [done|].
    constructor; [|done]. unfold rule_from_config in Hv.
    do 10 (apply bind_Ok in Hv as (? & _ & Hv)). by apply make_rule_Ok in Hv as [-> ?].
  - apply negb_false_iff, Nat.eqb_eq in Hd. by apply dedup_strs_length.
Qed.

(** ** What a selection means *)
Section selection_facts.
Context `{ucd : unicode_data}.

Lemma scored_In f rules n d :
  In (n, d) (scored f rules) ↔ ∃ r, In r rules ∧ 0 < f r ∧ n = f r ∧ d = dr_domain_id r.
Proof.
  unfold scored. rewrite in_flat_map. split.
  - intros (r & Hr & H). destruct (Z.ltb_spec 0 (f r)); [|done].
    destruct H as [[= <- <-]|[]]. by exists r.
  - intros (r & Hr & Hp & -> & ->). exists r. split; [done|].
    rewrite (proj2 (Z.ltb_lt _ _)) by done. by left.
Qed.

Lemma scored_perm f rules rules' :
  Permutation rules rules' → Permutation (scored f rules) (scored f rules').
Proof. apply Permutation_flat_map. Qed.

Lemma high_spec l n d : In (n, d) l → n ≤ high l.
Proof. induction l as [|[m e] l IH]; simpl; [done|]. intros [[= <- <-]|H]; [lia|]. specialize (IH H). lia. Qed.

Lemma high_perm l l' : Permutation l l' → high l = high l'.
Proof. induction 1; simpl; lia. Qed.

Lemma winners_perm l l' : Permutation l l' → winners l = winners l'.
Proof.
  intros H. unfold winners. rewrite (high_perm _ _ H). apply sorted_strs_perm, Permutation_map.
  by apply perm_filter.
Qed.

Lemma winners_In l w : In w (winners l) ↔ ∃ n, In (n, w) l ∧ n = high l.
Proof.
  unfold winners. unfold sorted_strs. rewrite sort_by_In, in_map_iff. split.
  - intros ([n d] & <- & [H E%Z.eqb_eq]%filter_In). eauto.
  - intros (n & H & ->). exists (high l, w). split; [done|].
    apply filter_In. split; [done|]. apply Z.eqb_refl.
Qed.

(** The rule scores best, and only rules of its domain score as much. *)
Definition best (f : DomainRule → Z) (rules : list DomainRule) (r : DomainRule) : Prop :=
  In r rules ∧ 0 < f r ∧
  ∀ r', In r' rules → f r' ≤ f r ∧ (f r' = f r → dr_domain_id r' = dr_domain_id r).

Lemma decide_winner_best f rules method tie d :
  ds_domain_id (decide_winner (scored f rules) method tie) = Some d →
  ds_method (decide_winner (scored f rules) method tie) = method ∧
  ∃ r, dr_domain_id r = d ∧ best f rules r.
Proof.
  unfold decide_winner. destruct (winners (scored f rules)) as [|w [|]] eqn:E; try done.
  simpl. intros [= ->]. split; [done|].
  destruct (proj1 (winners_In (scored f rules) d)) as (n & Hin & ->); [rewrite E; by left|].
  apply scored_In in Hin as (r & Hr & Hp & Hh & ->). exists r. split; [done|]. split_and!; try done.
  intros r' Hr'. destruct (Z.lt_ge_cases 0 (f r')) as [Hp'|]; [|split; lia].
  assert (In (f r', dr_domain_id r') (scored f rules)) as Hs by (apply scored_In; eauto).
  pose proof (high_spec _ _ _ Hs). split; [lia|]. intros Hf.
  assert (In (dr_domain_id r') (winners (scored f rules))) as Hw.
  { apply winners_In. exists (f r'). split; [done|]. by rewrite Hf, Hh. }
  rewrite E in Hw. by destruct Hw as [->|[]].
Qed.

(** A path score is the length of a matching prefix rule, and no matching
    prefix rule is longer. *)
Lemma path_score_spec target rule :
  (0 < path_score target rule → ∃ prefix, In prefix (dr_safe_paths rule) ∧
     is_prefix (_path_parts prefix) target = true ∧
     path_score target rule = Z.of_nat (length (_path_parts prefix))) ∧
  (∀ prefix, In prefix (dr_safe_paths rule) → is_prefix (_path_parts prefix) target = true →
     Z.of_nat (length (_path_parts prefix)) ≤ path_score target rule).
Proof.
  unfold path_score. generalize (dr_safe_paths rule) as l. intros l.
  assert (∀ b, 0 ≤ b → let n := fold_left (λ best prefix,
    let parts := _path_parts prefix in
    if negb (match parts with [] => true | _ => false end) && is_prefix parts target
    then Z.max best (Z.of_nat (length parts)) else best) l b in
    b ≤ n ∧ (n = b ∨ ∃ prefix, In prefix l ∧ is_prefix (_path_parts prefix) target = true ∧
      n = Z.of_nat (length (_path_parts prefix))) ∧
    ∀ prefix, In prefix l → is_prefix (_path_parts prefix) target = true →
      Z.of_nat (length (_path_parts prefix)) ≤ n) as H.
  { induction l as [|x l IH]; intros b Hb; simpl; [split_and!; [lia|by left|done]|].
    set (b' := if _ : bool then _ else _). assert (b ≤ b') by (subst b'; case_match; lia).
    destruct (IH b' ltac:(lia)) as (Hle & Hn & Hmax). cbn zeta in *. split_and!; [lia| |].
    - destruct Hn as [Hn|(p & ? & ? & ?)]; [|right; exists p; auto].
      subst b'. destruct (negb _ && is_prefix _ _) eqn:E; [|by left].
      apply andb_true_iff in E as [_ E].
      destruct (Z.max_spec b (Z.of_nat (length (_path_parts x)))) as [[_ Hm]|[_ Hm]];
        rewrite Hm in Hn |- *; [right; exists x; eauto|by left].
    - intros p [->|Hp] Hpre; [|by apply Hmax]. etransitivity; [|exact Hle]. subst b'.
      rewrite Hpre. destruct (_path_parts p); simpl; lia. }
  destruct (H 0 ltac:(lia)) as (_ & Hn & Hmax). cbn zeta in *. split; [|done].
  intros Hp. destruct Hn as [E|Hn]; [|exact Hn]. exfalso. revert Hp. cbn zeta. rewrite E. lia.
Qed.

Lemma path_scores_cases rules path :
  path_scores rules path = [] ∨
  ∃ p, path = Some p ∧ path_scores rules path = scored (path_score (_path_parts p)) rules.
Proof.
  unfold path_scores. destruct path as [p|]; [|by left].
  destruct (String.eqb p ""); [by left|]. destruct (_path_parts p) as [|a l] eqn:E; [by left|].
  right. exists p. by rewrite E.
Qed.

Lemma path_scores_perm rules rules' path :
  Permutation rules rules' → Permutation (path_scores rules path) (path_scores rules' path).
Proof.
  intros H. unfold path_scores. destruct path as [p|]; [|done].
  destruct (String.eqb p ""); [done|]. destruct (_path_parts p); [done|]. by apply scored_perm.
Qed.

Lemma decide_winner_perm l l' m t :
  Permutation l l' → decide_winner l m t = decide_winner l' m t.
Proof. intros H. unfold decide_winner. by rewrite (winners_perm _ _ H). Qed.

Lemma mem_perm x l l' : Permutation l l' → mem x l = mem x l'.
Proof. intros H. apply eq_true_iff_eq. rewrite !mem_In. split; apply Permutation_in; [done|by symmetry]. Qed.
End selection_facts.

(** A selected domain is earned.  An explicit request selects exactly
    that domain, and only a registered one; otherwise the domain is the one
    whose path rules match the longest prefix of the path, or, when no path
    rule matches, the one whose keywords share the most tokens with the
    prompt, and no other domain scores as much; when nothing is selected a
    diagnostic says why. *)
Theorem domain_selection_sound `{ucd : unicode_data} rules explicit path prompt :
  let s := select rules explicit path prompt in
  (ds_domain_id s = None ↔ ds_diagnostic s ≠ None) ∧
  ∀ d, ds_domain_id s = Some d →
    match explicit with
    | Some e => d = e ∧ safe_id e = true ∧ In e (map dr_domain_id rules) ∧ ds_method s = "explicit"
    | None => ∃ r, dr_domain_id r = d ∧
        ((ds_method s = "path" ∧ ∃ p, path = Some p ∧ best (path_score (_path_parts p)) rules r) ∨
         (ds_method s = "keyword" ∧ path_scores rules path = [] ∧
          best (keyword_score (tokens_of prompt)) rules r))
    end.
Proof.
  assert (∀ l m t, ds_domain_id (decide_winner l m t) = None ↔
            ds_diagnostic (decide_winner l m t) ≠ None) as Hd.
  { intros l m t. unfold decide_winner. by destruct (winners l) as [|? []]. }
  cbn zeta. unfold select. destruct explicit as [e|].
  - destruct (safe_id e) eqn:Hs; simpl; [|by split].
    destruct (mem e _) eqn:Hm; simpl; [|by split]. split; [done|]. intros d [= <-].
    by apply mem_In in Hm.
  - destruct (path_scores rules path) as [|x l] eqn:E.
    + unfold select_keyword. destruct (scored _ rules) as [|x l] eqn:K; [by split|].
      rewrite <- K. split; [apply Hd|]. intros d H.
      destruct (decide_winner_best _ _ _ _ _ H) as [Hm (r & Hr & Hb)]. exists r. auto.
    + destruct (path_scores_cases rules path) as [E'|(p & -> & E')]; [congruence|].
      rewrite <- E, E'. split; [apply Hd|]. intros d H.
      destruct (decide_winner_best _ _ _ _ _ H) as [Hm (r & Hr & Hb)]. exists r.
      split; [done|]. left. split; [done|]. by exists p.
Qed.

(** Selection does not depend on the order of the configured rules. *)
Theorem domain_selection_order_free `{ucd : unicode_data} rules rules' explicit path prompt :
  Permutation rules rules' → select rules explicit path prompt = select rules' explicit path prompt.
Proof.
  intros H. unfold select. destruct explicit as [e|].
  - by rewrite (mem_perm e _ _ (Permutation_map dr_domain_id H)).
  - pose proof (path_scores_perm _ _ path H) as Hp.
    destruct (path_scores rules path) as [|x l] eqn:E.
    + apply Permutation_nil in Hp as ->. unfold select_keyword.
      pose proof (scored_perm (keyword_score (tokens_of prompt)) _ _ H) as Hk.
      destruct (scored _ rules) as [|y k] eqn:K; [by apply Permutation_nil in Hk as ->|].
      destruct (scored _ rules') as [|y' k']; [by apply Permutation_sym, Permutation_nil in Hk|].
      by apply decide_winner_perm.
    + destruct (path_scores rules' path) as [|x' l'];
        [by apply Permutation_sym, Permutation_nil in Hp|]. by apply decide_winner_perm.
Qed.

(** A registry read from configuration is closed: identifiers are safe
    and distinct, labels are not blank, and no path rule is blank or holds a
    NUL. *)
Theorem registry_closed config rules :
  registry_from_config config = Ok rules →
  Forall rule_ok rules ∧ List.NoDup (map dr_domain_id rules).
Proof. apply registry_Ok. Qed.

Definition writing_rule : DomainRule :=
  {| dr_domain_id := "writing"; dr_public_label := "Writing"; dr_safe_paths := ["work/Drafts"];
     dr_keywords := ["headline"; "launch mail"]; dr_frozen := false |}.
Definition sales_rule : DomainRule :=
  {| dr_domain_id := "sales"; dr_public_label := "Sales"; dr_safe_paths := ["work"];
     dr_keywords := ["customer"; "mail"]; dr_frozen := false |}.

Example selections :
  let sel := select (ucd := plain_unicode) [writing_rule; sales_rule] in
  map ds_domain_id [sel None (Some "/work/./drafts/a.md") ""; sel None (Some "work/b.md") "";
                    sel None None "the launch headline"; sel None None "a mail"; sel (Some "Sales") None ""]
  = [Some "writing"; Some "sales"; Some "writing"; None; None].
Proof. vm_compute. reflexivity. Qed.

Lemma domain_selection_order_free_witness :
  select (ucd := plain_unicode) [writing_rule; sales_rule] None None "launch mail" =
  select (ucd := plain_unicode) [sales_rule; writing_rule] None None "launch mail".
Proof.
  apply (@domain_selection_order_free plain_unicode [writing_rule; sales_rule]
           [sales_rule; writing_rule]).
  apply perm_swap.
Defined.

Definition domain_config : obj :=
  [("domains", JList [JObj [("domain_id", JStr "writing"); ("public_label", JStr "Writing");
                            ("safe_paths", JList [JStr "work/Drafts"]);
                            ("keywords", JList [JStr "headline"; JStr "launch mail"])]])].

Lemma registry_closed_witness :
  Forall rule_ok [writing_rule] ∧ List.NoDup (map dr_domain_id [writing_rule]).
Proof. apply (registry_closed domain_config). vm_compute. reflexivity. Defined.
