(* ===== verification/Config.v ===== *)
(** * Configuration ([config.py])

    Validation of the public configuration and the loader that merges a file
    over the defaults.  Reading and parsing the file, the platform, and the
    expansion of [~] are inputs of the loader. *)
From S2P Require Import Prelude Contracts Unicode Domains Retrieval.

Definition CURRENT_CONFIG_VERSION := "3.1.1".
Definition SUPPORTED_CONFIG_VERSIONS := ["3.0.0"; CURRENT_CONFIG_VERSION].

(** The defaults; [windows] is [os.name == "nt"]. *)
Definition DEFAULTS (windows : bool) : obj :=
  [("config_version", JStr CURRENT_CONFIG_VERSION); ("operator_slug", JStr "default");
   ("node_id", JStr "primary"); ("compiler", JBool true); ("context_budget_bytes", JInt 32768);
   ("allow_higher_budget", JBool false); ("spool_retention_days", JInt 30);
   ("hook_timeout_seconds", JInt (if windows then 60 else 10)); ("domains", JList [])].

Definition MINIMUM_HOOK_TIMEOUT_SECONDS : Z := 1.
Definition MAXIMUM_HOOK_TIMEOUT_SECONDS : Z := 300.

Definition KNOWN_TOP_LEVEL :=
  keys (DEFAULTS false) ++ ["data_root"; "hooks_dir"; "experimental"].

Section config.
(** [Path(s).expanduser()] as text, which reads the environment. *)
Context (expanduser : string → res string).

Definition safe_id_check (data : obj) (field : string) : res unit :=
  raise_if (match get field data with JStr s => negb (safe_id s) | _ => true end)
    (ValidationError (field +:+ " must be a safe lowercase identifier")).

Definition bool_check (data : obj) (field : string) : res unit :=
  raise_if (negb (is_bool (get field data))) (ValidationError (field +:+ " must be a boolean")).

(** [_is_int(v) and lo <= v <= hi] *)
Definition int_in (v : json) (lo hi : Z) : bool :=
  match v with JInt n => (lo <=? n) && (n <=? hi) | _ => false end.

Definition budget_check (data : obj) : res unit :=
  let budget := get "context_budget_bytes" data in
  raise_if (negb (int_in budget 4096 131072))
    (ValidationError "context_budget_bytes must be 4096..131072") ;;
  raise_if ((match budget with JInt n => 32768 <? n | _ => false end) &&
            negb (match get "allow_higher_budget" data with JBool true => true | _ => false end))
    (ValidationError "context_budget_bytes above 32768 requires allow_higher_budget=true").

Definition strings_check (domain : obj) (field : string) : res unit :=
  raise_if (match get_default field (JList []) domain with
            | JList l => negb (forallb is_str l) | _ => true end)
    (ValidationError ("domain " +:+ field +:+ " must be an array of strings")).

Definition domain_check (v : json) : res unit :=
  let bad := ValidationError "each domain must be an object with domain_id and public_label" in
  domain ← as_obj v bad;
  raise_if (negb (subset ["domain_id"; "public_label"] (keys domain))) bad ;;
  raise_if (negb (subset (keys domain) DOMAIN_FIELDS))
    (ValidationError "domain config contains unknown fields") ;;
  raise_if (match get "domain_id" domain with JStr s => negb (safe_id s) | _ => true end)
    (ValidationError "domain_id must be a safe lowercase identifier") ;;
  raise_if (match get "public_label" domain with JStr s => blank s | _ => true end)
    (ValidationError "domain public_label must be a non-empty string") ;;
  strings_check domain "safe_paths" ;;
  strings_check domain "keywords" ;;
  raise_if (has_key "frozen" domain && negb (is_bool (get "frozen" domain)))
    (ValidationError "domain frozen must be a boolean").

Definition path_string_check (data : obj) (field : string) : res unit :=
  raise_if (has_key field data && match get field data with JStr s => blank s | _ => true end)
    (ValidationError (field +:+ " must be a non-empty path string")).

Definition hooks_dir_check (data : obj) : res unit :=
  match assoc "hooks_dir" data with
  | Some (JStr s) =>
      hooks_dir ← expanduser s;
      raise_if (negb (starts_with "/" hooks_dir) || contains nul s)
        (ValidationError "hooks_dir must be an absolute safe path")
  | _ => Ok tt
  end.

Definition _validate_config (data : obj) : res unit :=
  raise_if (negb (str_is (get "config_version" data) CURRENT_CONFIG_VERSION))
    (ValidationError "unsupported config_version") ;;
  for_each (safe_id_check data) ["operator_slug"; "node_id"] ;;
  for_each (bool_check data) ["compiler"; "allow_higher_budget"] ;;
  budget_check data ;;
  raise_if (negb (int_in (get "spool_retention_days" data) 1 36500))
    (ValidationError "spool_retention_days must be 1..36500") ;;
  raise_if (negb (int_in (get "hook_timeout_seconds" data)
                    MINIMUM_HOOK_TIMEOUT_SECONDS MAXIMUM_HOOK_TIMEOUT_SECONDS))
    (ValidationError "hook_timeout_seconds must be 1..300") ;;
  domains ← as_list (get "domains" data) (ValidationError "domains must be an array");
  for_each domain_check domains ;;
  for_each (path_string_check data) ["data_root"; "hooks_dir"] ;;
  hooks_dir_check data.

(** [loaded.pop("experimental", None)]: only flags that are all off pass. *)
Definition experimental_check (loaded : obj) : res obj :=
  let rest := List.filter (λ kv, negb (String.eqb kv.1 "experimental")) loaded in
  let removed :=
    ValidationError "experimental flags were removed because no shipped runtime implemented them" in
  match get "experimental" loaded with
  | JNull => Ok rest
  | JObj flags =>
      raise_if (negb (subset (keys flags) ["digest"; "profile_learning"]) ||
                existsb (λ kv, match kv.2 with JBool false => false | _ => true end) flags) removed ;;
      Ok rest
  | _ => Err removed
  end.

Definition update (data loaded : obj) : obj :=
  fold_left (λ d kv, set_item kv.1 kv.2 d) loaded data.

(** The file's object merged over the defaults. *)
Definition merge_loaded (defaults : obj) (file : json) : res obj :=
  loaded ← as_obj file (ValidationError "config must be an object");
  let unknown := List.filter (λ k, negb (mem k KNOWN_TOP_LEVEL) && negb (contains "." k)) (keys loaded) in
  match unknown with
  | _ :: _ => Err (ValidationErrorNames "unknown config keys: " (sorted_strs unknown))
  | [] =>
      raise_if (match get_default "config_version" (JStr "3.0.0") loaded with
                | JStr v => negb (mem v SUPPORTED_CONFIG_VERSIONS) | _ => true end)
        (ValidationError "unsupported config_version") ;;
      loaded ← experimental_check loaded;
      Ok (set_item "config_version" (JStr CURRENT_CONFIG_VERSION) (update defaults loaded))
  end.

(** A [ValueError] of the registry is reported as an invalid configuration. *)
Definition registry_check (data : obj) : res unit :=
  match registry_from_config data with
  | Ok _ => Ok tt
  | Err (ValueError m) => Err (ValidationError ("invalid domains config: " +:+ m))
  | Err e => Err e
  end.

(** [load_config] of a path: [None] when no file is there, [Some None] when it
    cannot be read or is not JSON, and its value otherwise. *)
Definition load_config (windows : bool) (target : string) (file : option (option json)) : res obj :=
  data ← match file with
         | None => Ok (DEFAULTS windows)
         | Some None => Err (ValidationError ("corrupt config: " +:+ target))
         | Some (Some v) => merge_loaded (DEFAULTS windows) v
         end;
  _validate_config data ;;
  registry_check data ;;
  Ok data.

(** ** What a loaded configuration guarantees *)
Record config_spec (data : obj) : Prop := {
  cs_version : assoc "config_version" data = Some (JStr CURRENT_CONFIG_VERSION);
  cs_ids : ∃ slug node, assoc "operator_slug" data = Some (JStr slug) ∧ safe_id slug = true ∧
             assoc "node_id" data = Some (JStr node) ∧ safe_id node = true;
  cs_budget : ∃ budget allow, assoc "context_budget_bytes" data = Some (JInt budget) ∧
                4096 ≤ budget ≤ 131072 ∧
                assoc "allow_higher_budget" data = Some (JBool allow) ∧
                (32768 < budget → allow = true);
  cs_retention : ∃ days, assoc "spool_retention_days" data = Some (JInt days) ∧ 1 ≤ days ≤ 36500;
  cs_timeout : ∃ s, assoc "hook_timeout_seconds" data = Some (JInt s) ∧ 1 ≤ s ≤ 300;
  cs_domains : ∃ rules, registry_from_config data = Ok rules ∧ Forall rule_ok rules ∧
                 List.NoDup (map dr_domain_id rules)
}.

Lemma get_JNull k m v : get k m = v → v ≠ JNull → assoc k m = Some v.
Proof. unfold get. destruct (assoc k m); congruence. Qed.

Lemma safe_id_check_Ok data f u :
  safe_id_check data f = Ok u → ∃ s, assoc f data = Some (JStr s) ∧ safe_id s = true.
Proof.
  unfold safe_id_check. intros H%raise_if_Ok. destruct (get f data) as [| | | |s| |] eqn:E; try done.
  apply negb_false_iff in H. exists s. split; [by apply get_JNull|done].
Qed.

Lemma int_in_spec k data lo hi :
  int_in (get k data) lo hi = true → ∃ n, assoc k data = Some (JInt n) ∧ lo ≤ n ≤ hi.
Proof.
  unfold int_in. destruct (get k data) as [| |n| | | |] eqn:E; try done. intros H. bool_hyps.
  exists n. split; [by apply get_JNull|done].
Qed.

Lemma budget_spec data u :
  budget_check data = Ok u → bool_check data "allow_higher_budget" = Ok tt →
  ∃ budget allow, assoc "context_budget_bytes" data = Some (JInt budget) ∧
    4096 ≤ budget ≤ 131072 ∧ assoc "allow_higher_budget" data = Some (JBool allow) ∧
    (32768 < budget → allow = true).
Proof.
  unfold budget_check, bool_check. intros H Hb%raise_if_Ok%negb_false_iff.
  apply bind_Ok in H as (? & Hi%raise_if_Ok%negb_false_iff & Ha%raise_if_Ok).
  destruct (int_in_spec _ _ _ _ Hi) as (n & Hn & Hr).
  unfold get at 1 in Ha. rewrite Hn in Ha.
  destruct (get "allow_higher_budget" data) as [|allow| | | | |] eqn:E; try done.
  exists n, allow. split_and!; [done|lia|lia|by apply get_JNull|].
  intros Hlt%Z.ltb_lt. rewrite Hlt in Ha. by destruct allow.
Qed.

Lemma load_config_Ok windows target file data :
  load_config windows target file = Ok data → config_spec data.
Proof.
  unfold load_config. intros H. apply bind_Ok in H as (d & _ & H).
  apply bind_Ok in H as (? & Hv & H). apply bind_Ok in H as (? & Hr & [= ->]).
  unfold _validate_config in Hv. apply bind_Ok in Hv as (? & Hver%raise_if_Ok%negb_false_iff & Hv).
  apply str_is_true in Hver. apply bind_Ok in Hv as (? & Hids%for_each_Ok & Hv).
  apply bind_Ok in Hv as (? & Hb%for_each_Ok & Hv). apply bind_Ok in Hv as (? & Hbud & Hv).
  apply bind_Ok in Hv as (? & Hret%raise_if_Ok%negb_false_iff & Hv).
  apply bind_Ok in Hv as (? & Htim%raise_if_Ok%negb_false_iff & _).
  inversion_clear Hids as [|? ? H1 H']. inversion_clear H' as [|? ? H2 _].
  inversion_clear Hb as [|? ? _ H']. inversion_clear H' as [|? ? Hallow _].
  constructor.
  - by apply get_JNull.
  - apply safe_id_check_Ok in H1 as (s & ? & ?). apply safe_id_check_Ok in H2 as (n & ? & ?).
    by exists s, n.
  - by eapply budget_spec.
  - by apply int_in_spec.
  - by apply int_in_spec.
  - unfold registry_check in Hr. destruct (registry_from_config data) as [rules|e] eqn:E;
      [|by destruct e]. exists rules. split; [done|by eapply registry_Ok].
Qed.
End config.

(** A configuration that loads is in bounds.  Whatever the file holds,
    what the loader returns carries the current version, safe operator and
    node identifiers, a context budget of 4 to 128 KiB that exceeds 32 KiB
    only with the explicit opt-in, a retention of 1 to 36500 days, a hook
    deadline of 1 to 300 seconds, and domains that compile into a closed
    registry. *)
Theorem loaded_config_bounded expanduser windows target file data :
  load_config expanduser windows target file = Ok data → config_spec data.
Proof. apply load_config_Ok. Qed.

(** The two budget checks agree: the budget and the opt-in of any loaded
    configuration are accepted by the retrieval engine. *)
Theorem loaded_budget_retrievable expanduser windows target file data budget allow mode format :
  load_config expanduser windows target file = Ok data →
  assoc "context_budget_bytes" data = Some (JInt budget) →
  assoc "allow_higher_budget" data = Some (JBool allow) →
  mode ∈ ["authoritative"; "analytical"] → format ∈ ["compact"; "audit"] →
  Retrieval._validate_config
    {| total_budget_bytes := budget; allow_higher_budget := allow;
       tokenizer_version := TOKENIZER_VERSION; authority_mode := mode;
       output_format := format |} = Ok tt.
Proof.
  intros H Hb Ha Hm%list_elem_of_In%mem_In Hf%list_elem_of_In%mem_In.
  apply load_config_Ok in H. destruct (cs_budget _ H) as (b & a & Hb' & Hr & Ha' & Hi).
  rewrite Hb in Hb'. rewrite Ha in Ha'. injection Hb' as <-. injection Ha' as <-.
  unfold Retrieval._validate_config. cbn [total_budget_bytes allow_higher_budget
    tokenizer_version authority_mode output_format].
  unfold DEFAULT_BUDGET, MAX_EXPLICIT_BUDGET.
  rewrite (proj2 (Z.leb_gt budget 0)) by lia. rewrite (proj2 (Z.ltb_ge (128 * 1024) budget)) by lia.
  rewrite Hm, Hf. destruct (Z.ltb_spec (32 * 1024) budget) as [Hlt|]; [|done].
  by rewrite Hi by lia.
Qed.

Definition no_expansion (s : string) : res string := Ok s.

Example defaults_load w : load_config no_expansion w "config.json" None = Ok (DEFAULTS w).
Proof. destruct w; vm_compute; reflexivity. Qed.

(** A legacy file is upcast in memory. *)
Definition legacy_file : json :=
  JObj [("config_version", JStr "3.0.0"); ("context_budget_bytes", JInt 65536);
        ("allow_higher_budget", JBool true); ("experimental", JObj [("digest", JBool false)]);
        ("com.example.tool", JObj [])].
Definition legacy_loaded : obj :=
  set_item "com.example.tool" (JObj [])
    (set_item "context_budget_bytes" (JInt 65536)
       (set_item "allow_higher_budget" (JBool true) (DEFAULTS false))).

Lemma loaded_config_bounded_witness : config_spec legacy_loaded.
Proof.
  apply (loaded_config_bounded no_expansion false "config.json" (Some (Some legacy_file))).
  vm_compute. reflexivity.
Defined.

Lemma loaded_budget_retrievable_witness :
  Retrieval._validate_config
    {| total_budget_bytes := 65536; allow_higher_budget := true;
       tokenizer_version := TOKENIZER_VERSION; authority_mode := "analytical";
       output_format := "audit" |} = Ok tt.
Proof.
  apply (loaded_budget_retrievable no_expansion false "config.json" (Some (Some legacy_file))
           legacy_loaded).
  - vm_compute. reflexivity.
  - vm_compute. reflexivity.
  - vm_compute. reflexivity.
  - right. left.
  - right. left.
Defined.
