(* ===== verification/Names.v ===== *)
(** * Name-based identifiers and text encodings of the standard library

    [uuid.uuid5] (the domain identifiers of [store/service.py]), the default
    JSON writer for a list of strings ([json.dumps], used for the evidence
    columns), [base64] (signatures and nonces of [authority/]) and
    [" ".join(text.split())]. *)
From S2P Require Import Prelude PyTime Urn Contracts Codec Unicode Retrieval Json.

(** ** [hashlib.sha1] *)
Module Sha1.
Import Sha256.
Open Scope N_scope.

Definition rotl (n a : N) : N := rotr (32 - n) a.

(** Newest word first: the words 3, 8, 14 and 16 back. *)
Fixpoint schedule (n : nat) (recent : list N) : list N :=
  match n with
  | O => recent
  | S k =>
      let mixed := N.lxor (N.lxor (nth_word 2 recent) (nth_word 7 recent))
                     (N.lxor (nth_word 13 recent) (nth_word 15 recent)) in
      schedule k (rotl 1 mixed :: recent)
  end.

(** The round constants are square roots: [2^30] times those of 2, 3, 5, 10. *)
Definition stage (t : nat) (b c d : N) : N * N :=
  let root n := N.sqrt (n * 2 ^ 60) in
  if (t <? 20)%nat then (N.lxor (N.land b c) (N.land (not32 b) d), root 2)
  else if (t <? 40)%nat then (N.lxor (N.lxor b c) d, root 3)
  else if (t <? 60)%nat then
    (N.lxor (N.lxor (N.land b c) (N.land b d)) (N.land c d), root 5)
  else (N.lxor (N.lxor b c) d, root 10).

Definition round (st : list N) (tw : nat * N) : list N :=
  match st with
  | [a; b; c; d; e] =>
      let '(f, k) := stage (fst tw) b c d in
      [add32 (add32 (add32 (rotl 5 a) f) (add32 e k)) (snd tw); a; rotl 30 b; c; d]
  | _ => st
  end.

Definition compress (st block : list N) : list N :=
  let ws := rev (schedule 64 (rev block)) in
  let out := fold_left round (combine (seq 0 80) ws) st in
  map (λ p, add32 (fst p) (snd p)) (combine st out).

(** The initial words count the nibbles up and down. *)
Definition start : list N :=
  [0x67452301; 0xefcdab89; 0x98badcfe; 0x10325476; 0xc3d2e1f0].

Definition digest (s : string) : list N :=
  let ws := words (pad (bytes_of s)) in
  fold_left compress (blocks (length ws) ws) start.

Close Scope N_scope.
End Sha1.

(** ** [uuid.uuid5(uuid.NAMESPACE_URL, name)] *)
Fixpoint bytes_be (n : nat) (z : Z) : string :=
  match n with
  | O => ""
  | S k => String (ascii_of_N (Z.to_N (z / 256 ^ Z.of_nat k mod 256))) (bytes_be k z)
  end.

Definition NAMESPACE_URL : Z := 0x6ba7b8119dad11d180b400c04fd430c8.

Definition be_value (l : list N) : Z := fold_left (λ z w, z * 2 ^ 32 + Z.of_N w) l 0.

(** The version and variant fields of a 128-bit value. *)
Definition with_version (v z : Z) : Z :=
  let z := Z.land z (2 ^ 128 - 1 - Z.shiftl 0xc000 48) in
  let z := Z.lor z (Z.shiftl 0x8000 48) in
  let z := Z.land z (2 ^ 128 - 1 - Z.shiftl 0xf000 64) in
  Z.lor z (Z.shiftl v 76).

Definition uuid5 (name : string) : Z :=
  with_version 5 (be_value (firstn 4 (Sha1.digest (bytes_be 16 NAMESPACE_URL +:+ name)))).

Definition _domain_node_id (operator_id domain_id : string) : string :=
  "urn:imprint:domain:" +:+
  uuid_str (uuid5 ("imprint-domain:" +:+ operator_id +:+ ":" +:+ domain_id)).

(** ** [json.dumps] with its defaults: [", "] and escapes beyond ASCII *)

(** The value of a code point given by its UTF-8 bytes. *)
Definition code_point (c : string) : Z :=
  match map Z.of_N (Sha256.bytes_of c) with
  | [a] => a
  | [a; b] => (a - 192) * 64 + (b - 128)
  | [a; b; c] => ((a - 224) * 64 + (b - 128)) * 64 + (c - 128)
  | [a; b; c; d] => (((a - 240) * 64 + (b - 128)) * 64 + (c - 128)) * 64 + (d - 128)
  | _ => 65533
  end.

Definition u_escape (z : Z) : string := "\u" +:+ print_hex 4 z.

Definition ascii_escape (c : string) : string :=
  match c with
  | String a "" => if (N_of_ascii a =? 127)%N then u_escape 127 else escape_char a
  | _ =>
      let z := code_point c in
      if z <? 65536 then u_escape z
      else u_escape (55296 + (z - 65536) / 1024) +:+ u_escape (56320 + (z - 65536) mod 1024)
  end.

Definition ascii_json_string (s : string) : string :=
  quote +:+ str_concat (map ascii_escape (chars s)) +:+ quote.

Definition dumps_strings (l : list string) : string :=
  "[" +:+ join_with ", " (map ascii_json_string l) +:+ "]".

(** ** [base64] *)
Definition b64_char (url : bool) (z : Z) : ascii :=
  ascii_of_N (Z.to_N (if z <? 26 then 65 + z else if z <? 52 then 71 + z
                      else if z <? 62 then z - 4
                      else if z =? 62 then (if url then 45 else 43) else (if url then 95 else 47))).

Definition b64_value (url : bool) (a : ascii) : option Z :=
  let n := Z.of_N (N_of_ascii a) in
  if is_upper a then Some (n - 65)
  else if is_lower a then Some (n - 71)
  else if is_digit a then Some (n + 4)
  else if n =? (if url then 45 else 43) then Some 62
  else if n =? (if url then 95 else 47) then Some 63
  else None.

Definition byte_val (a : ascii) : Z := Z.of_N (N_of_ascii a).

Fixpoint b64encode (url : bool) (s : string) : string :=
  let c z := b64_char url z in
  match s with
  | EmptyString => ""
  | String x EmptyString =>
      let v := byte_val x * 16 in
      String (c (v / 64)) (String (c (v mod 64)) "==")
  | String x (String y EmptyString) =>
      let v := (byte_val x * 256 + byte_val y) * 4 in
      String (c (v / 4096)) (String (c (v / 64 mod 64)) (String (c (v mod 64)) "="))
  | String x (String y (String z r)) =>
      let v := (byte_val x * 256 + byte_val y) * 256 + byte_val z in
      String (c (v / 262144)) (String (c (v / 4096 mod 64))
        (String (c (v / 64 mod 64)) (String (c (v mod 64)) (b64encode url r))))
  end.

Definition is_pad (a : ascii) : bool := Ascii.eqb a "=".

(** [b64decode(s, validate=True)]: groups of four characters, the last of
    which may be padded; the unused bits of a padded group are not inspected. *)
Fixpoint b64decode (url : bool) (s : string) : option string :=
  match s with
  | EmptyString => Some ""
  | String a (String b (String c (String d r))) =>
      w ← b64_value url a; x ← b64_value url b;
      if is_pad c then
        if is_pad d && String.eqb r "" then Some (chr_byte ((w * 64 + x) / 16)) else None
      else
        y ← b64_value url c;
        if is_pad d then
          if String.eqb r "" then
            let v := ((w * 64 + x) * 64 + y) / 4 in
            Some (chr_byte (v / 256) +:+ chr_byte (v mod 256))
          else None
        else
          z ← b64_value url d; t ← b64decode url r;
          let v := ((w * 64 + x) * 64 + y) * 64 + z in
          Some (chr_byte (v / 65536) +:+ chr_byte (v / 256 mod 256) +:+ chr_byte (v mod 256) +:+ t)
  | _ => None
  end.

(** [s.rstrip(b"=")] *)
Definition strip_pad (s : string) : string :=
  str_concat (rev (drop_while (String.eqb "=") (rev (chars s)))).

(** ** What [b64encode] writes, [b64decode] reads back *)
Lemma b64_char_table u : Forall (λ z, b64_value u (b64_char u z) = Some z ∧ is_pad (b64_char u z) = false)
  (map Z.of_nat (seq 0 64)).
Proof. destruct u; repeat constructor. Qed.

Lemma b64_char_ok u z : 0 ≤ z < 64 → b64_value u (b64_char u z) = Some z ∧ is_pad (b64_char u z) = false.
Proof.
  intros Hz. apply (proj1 (List.Forall_forall _ _) (b64_char_table u)).
  apply in_map_iff. exists (Z.to_nat z). split; [lia|]. apply in_seq. lia.
Qed.

Lemma byte_val_range a : 0 ≤ byte_val a < 256.
Proof. unfold byte_val. pose proof (N_ascii_bounded a). lia. Qed.

Lemma chr_byte_val a z : z = byte_val a → chr_byte z = String a "".
Proof. intros ->. unfold chr_byte, byte_val. by rewrite N2Z.id, ascii_N_embedding. Qed.

Lemma string_ind3 (P : string → Prop) :
  P "" → (∀ x, P (String x "")) → (∀ x y, P (String x (String y ""))) →
  (∀ x y z r, P r → P (String x (String y (String z r)))) → ∀ s, P s.
Proof.
  intros H0 H1 H2 H3. assert (∀ n s, (String.length s ≤ n)%nat → P s) as H; [|by intros s; apply (H (String.length s))].
  induction n as [|n IH]; intros [|x [|y [|z r]]] Hs; simpl in Hs; try apply H0; try apply H1; try apply H2; try lia.
  apply H3, IH. lia.
Qed.

(** Reads the character of a six-bit value. *)
Ltac b64_at u z :=
  let H := fresh in
  assert (0 ≤ z < 64) as H by (Z.to_euclidean_division_equations; lia);
  rewrite !(proj1 (b64_char_ok u z H)), ?(proj2 (b64_char_ok u z H)); clear H.

#[local] Opaque chr_byte.
Lemma b64_roundtrip u s : b64decode u (b64encode u s) = Some s.
Proof.
  induction s as [|x|x y|x y z r IH] using string_ind3; [done|..];
    pose proof (byte_val_range x) as Hx; try pose proof (byte_val_range y) as Hy; try pose proof (byte_val_range z) as Hz;
    cbn [b64encode b64decode]; cbv zeta.
  - b64_at u (byte_val x * 16 / 64). b64_at u (byte_val x * 16 mod 64). simpl.
    f_equal. apply chr_byte_val. Z.to_euclidean_division_equations; lia.
  - set (v := (byte_val x * 256 + byte_val y) * 4).
    b64_at u (v / 4096). b64_at u (v / 64 mod 64). b64_at u (v mod 64). simpl.
    rewrite (chr_byte_val x), (chr_byte_val y); [done|subst v; Z.to_euclidean_division_equations; lia..].
  - set (v := (byte_val x * 256 + byte_val y) * 256 + byte_val z).
    b64_at u (v / 262144). b64_at u (v / 4096 mod 64). b64_at u (v / 64 mod 64). b64_at u (v mod 64). simpl.
    rewrite IH. simpl. rewrite (chr_byte_val x), (chr_byte_val y), (chr_byte_val z);
      [done|subst v; Z.to_euclidean_division_equations; lia..].
Qed.
#[local] Transparent chr_byte.

Example uuid5_domain :
  _domain_node_id "urn:imprint:operator:x" "sales" =
  "urn:imprint:domain:0b6b0d27-1439-5032-b55b-4b6ceb4dd34d".
Proof. vm_compute. reflexivity. Qed.

Example dumps_strings_ascii :
  dumps_strings ["a"; "é"; "😀"] = str_concat
    ["["; quote; "a"; quote; ", "; quote; "\u00e9"; quote; ", "; quote; "\ud83d\ude00"; quote; "]"].
Proof. vm_compute. reflexivity. Qed.

Example base64_examples :
  (b64encode false "light", b64decode false "bGlnaHQ=", b64decode false "bGlnaHQ",
   b64encode true (byte 251 +:+ byte 255)) = ("bGlnaHQ=", Some "light", None, "-_8=").
Proof. vm_compute. reflexivity. Qed.
