(* ===== verification/Clock.v ===== *)
(** * Clocks of the store and of the authority ledger

    [utc_now] of [store/service.py], [utc_now] and [utc_text] of
    [authority/ledger.py], [_timestamp] and [parse_timestamp] of
    [authority/challenge.py], and the arithmetic of deadlines: a date is
    computed back from its instant ([date.fromordinal]), so that [now + ttl]
    is a date again. *)
From S2P Require Import Prelude PyTime Urn Contracts Codec Unicode Retrieval.

(** ** [date.fromordinal] *)
Definition year_of (n : Z) : Z :=
  let guess := (n - 1) * 400 / 146097 + 1 in
  if n <=? days_before_year guess then guess - 1
  else if days_before_year (guess + 1) <? n then guess + 1 else guess.

(** The month from [m] on that holds the [n]-th day counted from its start. *)
Fixpoint month_of (fuel : nat) (y m n : Z) : Z * Z :=
  match fuel with
  | O => (m, n)
  | S k => if n <=? days_in_month y m then (m, n)
           else month_of k y (m + 1) (n - days_in_month y m)
  end.

(** The UTC date and time of an instant. *)
Definition of_instant (t : Z) : datetime :=
  let n := t / us_per_day in
  let us := t mod us_per_day in
  let y := year_of n in
  let '(m, d) := month_of 11 y 1 (n - days_before_year y) in
  {| year := y; month := m; day := d;
     hour := us / 3600000000; minute := us / 60000000 mod 60;
     second := us / 1000000 mod 60; microsecond := us mod 1000000; utcoffset := Some 0 |}.

(** [value.astimezone(timezone.utc)] *)
Definition to_utc (d : datetime) : res datetime :=
  let t := instant d in
  if (t <? us_per_day) || ((max_ordinal + 1) * us_per_day <=? t)
  then Err OverflowError else Ok (of_instant t).

(** [value.isoformat(timespec="microseconds").replace("+00:00", "Z")] *)
Definition utc_text (d : datetime) : string :=
  print_digits 4 (year d) +:+ "-" +:+ print_digits 2 (month d) +:+ "-" +:+
  print_digits 2 (day d) +:+ "T" +:+
  print_digits 2 (hour d) +:+ ":" +:+ print_digits 2 (minute d) +:+ ":" +:+
  print_digits 2 (second d) +:+ "." +:+ print_digits 6 (microsecond d) +:+ "Z".

(** [datetime.fromtimestamp(created.timestamp() + seconds, tz=utc)]: the sum
    is a binary64, and its fraction is rounded half to even. *)
Definition of_Z (z : Z) : spec_float :=
  match z with
  | Z0 => S754_zero false
  | Zpos p => binary_normalize 53 1024 (Zpos p) 0 false
  | Zneg p => binary_normalize 53 1024 (Zneg p) 0 true
  end.

Definition round_half_even (n d : Z) : Z :=
  let q := n / d in
  match Z.compare (2 * (n mod d)) d with
  | Lt => q
  | Gt => q + 1
  | Eq => if Z.even q then q else q + 1
  end.

(** Microseconds of a binary64 number of seconds: the integral part is exact,
    the fraction is scaled in binary64. *)
Definition micros_of_float (f : spec_float) : Z :=
  match f with
  | S754_finite s m e =>
      let whole := if e <? 0 then Z.pos m / 2 ^ (- e) else Z.pos m * 2 ^ e in
      let fraction := SFsub 53 1024 (S754_finite false m e) (of_Z whole) in
      let scaled := match SFmul 53 1024 fraction (of_Z 1000000) with
                    | S754_finite _ p k =>
                        if k <? 0 then round_half_even (Z.pos p) (2 ^ (- k)) else Z.pos p * 2 ^ k
                    | _ => 0
                    end in
      let total := whole * 1000000 + scaled in
      if s then - total else total
  | _ => 0
  end.

Definition plus_seconds_float (d : datetime) (seconds : Z) : datetime :=
  let stamp := float_seconds (instant d - epoch_us) in
  of_instant (epoch_us + micros_of_float (SFadd 53 1024 stamp (of_Z seconds))).

(** [d + timedelta(seconds=n)] of a UTC value *)
Definition plus_seconds (d : datetime) (n : Z) : res datetime :=
  let t := instant d + n * 1000000 in
  if (t <? us_per_day) || ((max_ordinal + 1) * us_per_day <=? t)
  then Err OverflowError else Ok (of_instant t).

(** [parse_timestamp]: RFC 3339 text in UTC *)
Definition parse_timestamp (value : json) : res datetime :=
  let e := ValidationError "authority time must be RFC 3339 UTC" in
  match value with
  | JStr s =>
      raise_if (negb (ends_with "Z" s)) e ;;
      match fromisoformat (String.substring 0 (String.length s - 1) s +:+ "+00:00") with
      | None => Err e
      | Some d => to_utc d
      end
  | _ => Err e
  end.

(** ** The date of an instant *)
Lemma days_before_year_step y :
  days_before_year (y + 1) = days_before_year y + (if is_leap y then 366 else 365).
Proof.
  unfold days_before_year, is_leap. replace (y + 1 - 1) with (y - 1 + 1) by lia.
  set (p := y - 1). replace y with (p + 1) by lia.
  destruct (Z.eqb_spec ((p + 1) mod 4) 0), (Z.eqb_spec ((p + 1) mod 100) 0),
    (Z.eqb_spec ((p + 1) mod 400) 0); simpl; Z.to_euclidean_division_equations; lia.
Qed.

Lemma year_of_spec n :
  days_before_year (year_of n) < n ≤ days_before_year (year_of n + 1).
Proof.
  unfold year_of. set (g := (n - 1) * 400 / 146097 + 1).
  assert (days_before_year (g - 1) < n) as H1.
  { unfold days_before_year. subst g. Z.to_euclidean_division_equations; lia. }
  assert (n ≤ days_before_year (g + 2)) as H2.
  { unfold days_before_year. subst g. Z.to_euclidean_division_equations; lia. }
  destruct (Z.leb_spec n (days_before_year g)).
  - replace (g - 1 + 1) with g by lia. lia.
  - destruct (Z.ltb_spec (days_before_year (g + 1)) n).
    + replace (g + 1 + 1) with (g + 2) by lia. lia.
    + lia.
Qed.

Lemma days_in_month_pos y m : 28 ≤ days_in_month y m.
Proof. unfold days_in_month. repeat case_match; lia. Qed.

Lemma month_of_spec fuel y : ∀ m n k,
  1 ≤ m → m = Z.of_nat k + 1 → 1 ≤ n → m + Z.of_nat fuel = 12 →
  n + days_before_month_nat y k ≤ days_before_month_nat y 12 →
  let '(m', d) := month_of fuel y m n in
  1 ≤ m' ≤ 12 ∧ 1 ≤ d ≤ days_in_month y m' ∧
  days_before_month_nat y (Z.to_nat (m' - 1)) + d = days_before_month_nat y k + n.
Proof.
  induction fuel as [|fuel IH]; intros m n k Hm Hk Hn Hf Hmax; simpl.
  - assert (k = 11%nat) as -> by lia. assert (m = 12) as -> by lia.
    split; [lia|]. split; [|reflexivity]. split; [lia|].
    change (days_before_month_nat y 12) with (days_before_month_nat y 11 + days_in_month y 12) in Hmax.
    lia.
  - destruct (Z.leb_spec n (days_in_month y m)).
    + split; [lia|]. split; [lia|]. by replace (Z.to_nat (m - 1)) with k by lia.
    + specialize (IH (m + 1) (n - days_in_month y m) (S k)).
      destruct (month_of fuel y (m + 1) (n - days_in_month y m)) as [m' d].
      assert (days_before_month_nat y (S k) = days_before_month_nat y k + days_in_month y m) as E.
      { simpl. do 2 f_equal. lia. }
      destruct IH as (? & ? & ?); [lia..|]. split; [lia|]. split; [lia|]. lia.
Qed.

Lemma year_length y :
  days_before_month_nat y 12 = if is_leap y then 366 else 365.
Proof. unfold days_before_month_nat, days_in_month. simpl. destruct (is_leap y); reflexivity. Qed.

Lemma of_instant_spec t :
  instant (of_instant t) = t ∧
  (us_per_day ≤ t < (max_ordinal + 1) * us_per_day → valid_fields (of_instant t) = true).
Proof.
  pose proof (year_of_spec (t / us_per_day)) as Hy.
  unfold of_instant. set (n := t / us_per_day) in *. set (y := year_of n) in *.
  rewrite days_before_year_step in Hy.
  pose proof (month_of_spec 11 y 1 (n - days_before_year y) 0) as Hm.
  destruct (month_of 11 y 1 (n - days_before_year y)) as [m d].
  destruct Hm as (Hm1 & Hm2 & Hm3); [lia|lia|lia|reflexivity|..].
  { rewrite year_length. simpl. destruct (is_leap y); lia. }
  simpl in Hm3. change (days_before_month_nat y 0) with 0 in Hm3.
  assert (0 ≤ t mod us_per_day < us_per_day) as Hus by (apply Z.mod_pos_bound; reflexivity).
  split.
  - unfold instant, local_us, toordinal. cbn [year month day hour minute second microsecond utcoffset].
    unfold default, option_fmap, from_option, id.
    assert (t = n * us_per_day + t mod us_per_day) as Ht.
    { subst n. rewrite (Z.div_mod t us_per_day) at 1 by discriminate. lia. }
    set (us := t mod us_per_day) in *.
    assert (us = (us / 3600000000 * 3600 + us / 60000000 mod 60 * 60 + us / 1000000 mod 60) * 1000000
            + us mod 1000000) as Hs by (Z.to_euclidean_division_equations; lia).
    replace (days_before_year y + days_before_month_nat y (Z.to_nat (m - 1)) + d) with n by lia. lia.
  - intros Ht. assert (1 ≤ n ≤ max_ordinal) as Hn.
    { subst n. unfold us_per_day, max_ordinal in *. Z.to_euclidean_division_equations; lia. }
    assert (1 ≤ y ≤ 9999) as Hyr.
    { split.
      - destruct (Z.le_gt_cases 1 y) as [|Hlt]; [done|]. exfalso.
        assert (days_before_year (y + 1) ≤ 0); [|rewrite days_before_year_step in *; lia].
        unfold days_before_year. Z.to_euclidean_division_equations; lia.
      - destruct (Z.le_gt_cases y 9999) as [|Hlt]; [done|]. exfalso.
        assert (max_ordinal ≤ days_before_year y); [|lia].
        unfold days_before_year, max_ordinal. Z.to_euclidean_division_equations; lia. }
    unfold valid_fields. cbn [year month day hour minute second microsecond utcoffset].
    set (us := t mod us_per_day) in *. unfold us_per_day in Hus.
    rewrite !andb_true_iff, !Z.leb_le, !Z.ltb_lt.
    repeat split; try lia; Z.to_euclidean_division_equations; lia.
Qed.

(** Dropping the final [Z] *)
Lemma substring_app x y : String.substring 0 (String.length x) (x +:+ y) = x.
Proof. induction x as [|a x IH]; simpl; [by destruct y|by rewrite IH]. Qed.

Lemma length_app_z x : String.length (x +:+ "Z") = S (String.length x).
Proof. induction x as [|a x IH]; simpl; [done|by rewrite IH]. Qed.

Lemma ends_with_z x : ends_with "Z" (x +:+ "Z") = true.
Proof.
  unfold ends_with. rewrite length_app_z. simpl String.length.
  replace (S (String.length x) - 1)%nat with (String.length x) by lia.
  assert (String.substring (String.length x) 1 (x +:+ "Z") = "Z") as ->; [|done].
  induction x as [|a x IH]; simpl; [done|exact IH].
Qed.

Lemma parse_timestamp_z x :
  parse_timestamp (JStr (x +:+ "Z")) =
  match fromisoformat (x +:+ "+00:00") with
  | Some d => to_utc d
  | None => Err (ValidationError "authority time must be RFC 3339 UTC")
  end.
Proof.
  unfold parse_timestamp. rewrite ends_with_z. simpl. rewrite length_app_z.
  replace (S (String.length x) - 1)%nat with (String.length x) by lia. rewrite substring_app.
  by destruct (fromisoformat _).
Qed.

Lemma parse_utc_text t :
  us_per_day ≤ t < (max_ordinal + 1) * us_per_day →
  parse_timestamp (JStr (utc_text (of_instant t))) = Ok (of_instant t) ∧ instant (of_instant t) = t.
Proof.
  intros H. destruct (of_instant_spec t) as [H1 H2]. specialize (H2 H). split; [|exact H1].
  assert (set_utc (of_instant t) = of_instant t) as Hu.
  { unfold of_instant. by destruct (month_of _ _ _ _). }
  pose proof (fromisoformat_body (of_instant t) ("." +:+ print_digits 6 (microsecond (of_instant t)))) as Hp.
  rewrite Hu in Hp. specialize (Hp H2 (or_intror eq_refl)).
  set (d := of_instant t) in *.
  assert (∃ body, utc_text d = body +:+ "Z" ∧ utc_body d ("." +:+ print_digits 6 (microsecond d)) = body +:+ "+00:00")
    as (body & -> & E).
  { eexists. unfold utc_text, utc_body. rewrite <- !str_app_assoc. split; reflexivity. }
  rewrite parse_timestamp_z, <- E, Hp. unfold to_utc. rewrite H1.
  destruct (Z.ltb_spec t us_per_day); [lia|]. by destruct (Z.leb_spec ((max_ordinal + 1) * us_per_day) t); [lia|].
Qed.

(** C28: Timestamps round trip.  The text the authority code writes for an
    instant of years 1 to 9999 is read back by [parse_timestamp] as that very
    instant: neither an issue time nor a deadline drifts through storage. *)
Theorem timestamp_roundtrip t :
  us_per_day ≤ t < (max_ordinal + 1) * us_per_day →
  parse_timestamp (JStr (utc_text (of_instant t))) = Ok (of_instant t) ∧ instant (of_instant t) = t.
Proof. apply parse_utc_text. Qed.

Lemma timestamp_roundtrip_witness :
  parse_timestamp (JStr (utc_text (of_instant (instant leap_instant)))) = Ok (of_instant (instant leap_instant)).
Proof. apply (timestamp_roundtrip (instant leap_instant)). vm_compute. split; congruence. Defined.

Example leap_instant_back : utc_text (of_instant (instant leap_instant)) = "2024-02-29T23:59:59.000250Z".
Proof. vm_compute. reflexivity. Qed.

Example day_later : utc_text (plus_seconds_float leap_instant 86400) = "2024-03-01T23:59:59.000250Z".
Proof. vm_compute. reflexivity. Qed.
