(* ===== verification/Tables.v ===== *)
(** * The tables of the store ([store/schema.py])

    A database value holds the rows of the tables the canonical writer uses,
    in insertion order, and each SQL statement of the program is a function on
    it with the constraints of the schema: a [BEFORE] trigger first, then
    primary keys and unique indexes ([IntegrityError true]), then foreign
    keys, which are immediate, and [CHECK]s ([IntegrityError false]), with the
    [AFTER] triggers that keep the subject index and the content generation. *)
From S2P Require Import Prelude PyTime Urn Contracts Codec Json.

(** ** Rows *)
Record event_row : Type := {
  ev_id : string; ev_type : string; ev_operator : string; ev_system_time : string;
  ev_valid_time : string; ev_payload : string; ev_sha : string; ev_prior : option string;
  ev_status : string
}.

(** [event_disposition_subjects] *)
Record subject_row : Type := { sb_event : string; sb_role : string; sb_subject : string }.

Record node_row : Type := {
  nd_id : string; nd_type : string; nd_operator : string; nd_event : string
}.

Record edge_row : Type := {
  ed_id : string; ed_type : string; ed_source : string; ed_target : string;
  ed_operator : string; ed_event : string
}.

(** [node_versions] and [edge_versions]: the owner is the node or the edge. *)
Record version_row : Type := {
  vr_id : string; vr_owner : string; vr_payload : string; vr_sha : string;
  vr_status : string; vr_tier : string; vr_provenance : string; vr_evidence : string;
  vr_valid_from : string; vr_valid_to : option string;
  vr_system_from : string; vr_system_to : option string;
  vr_event : string; vr_prior : option string
}.

Record receipt_row : Type := {
  rc_source : string; rc_kind : string; rc_locator : string; rc_sha : string; rc_event : string
}.

(** [captured_feedback_dedup] *)
Record dedup_row : Type := {
  dd_operator : string; dd_sha : string; dd_event : string; dd_at : string
}.

(** [consumed_inputs] *)
Record consumed_row : Type := {
  cs_event : string; cs_sha : string; cs_at : string; cs_path : string
}.

(** [authority_prepared_mutations] *)
Record prepared_row : Type := {
  pm_operation : string; pm_command : string; pm_operator : string;
  pm_request : string; pm_request_sha : string; pm_intent : string; pm_intent_sha : string;
  pm_prior : string; pm_prior_sha : string; pm_execution : string; pm_execution_sha : string;
  pm_created : string; pm_expires : string; pm_status : string;
  pm_executed : option string; pm_provenance : option string
}.

(** [authority_challenges] *)
Record challenge_row : Type := {
  ch_nonce_sha : string; ch_operation : string; ch_sha : string; ch_issued : string;
  ch_expires : string; ch_consumed : option string; ch_provenance : option string
}.

(** [authority_provenance]: one consumed approval *)
Record grant_row : Type := {
  gr_id : string; gr_operation : string; gr_operator : string; gr_install : string;
  gr_key : string; gr_sequence : Z; gr_challenge : string; gr_challenge_sha : string;
  gr_signature : string; gr_transition : string; gr_at : string
}.

(** [authority_keys] *)
Record key_row : Type := {
  ky_id : string; ky_operator : string; ky_install : string; ky_store : string;
  ky_public : string; ky_fingerprint : string; ky_status : string; ky_sequence : Z;
  ky_blob_path : string; ky_blob_sha : string; ky_blob_size : Z; ky_suite : string;
  ky_nonce : string; ky_created : string
}.

Record ledger_row : Type := {
  lg_sequence : Z; lg_id : string; lg_type : string; lg_operator : string;
  lg_install : string; lg_key : string; lg_json : string; lg_sha : string;
  lg_signature : string; lg_previous : option string; lg_created : string
}.

(** [authority_trust_anchor]: what the installation trusts, and the switch that
    stops writes *)
Record anchor_row : Type := {
  an_operator : string; an_store : string; an_genesis : string; an_recovery : option string;
  an_recovery_public : option string; an_sequence : Z; an_head : string; an_state : string;
  an_checkpoint : option string; an_checkpoint_json : option string; an_certificate : option string;
  an_updated : string; an_blocked : bool; an_reason : option string
}.

(** [authority_checkpoint_pins] *)
Record pin_row : Type := {
  pn_sha : string; pn_operator : string; pn_store : string; pn_sequence : Z; pn_event : string;
  pn_state : string; pn_prior : option string; pn_certificate : string; pn_json : string;
  pn_accepted : string; pn_operation : string
}.

(** [authority_transfer_intents] *)
Record intent_row : Type := {
  ti_ticket : string; ti_checkpoint : string; ti_json : string; ti_operation : string; ti_anchor : string;
  ti_source : string; ti_destination : string; ti_sequence : Z; ti_head : string;
  ti_candidate : Z; ti_candidate_head : string; ti_prepared : string; ti_expires : string;
  ti_status : string; ti_finalized : option string
}.

(** [authority_equivocation_proofs] *)
Record proof_row : Type := {
  pf_id : string; pf_class : string; pf_local : string; pf_candidate : string;
  pf_local_sha : string; pf_candidate_sha : string; pf_detected : string;
  pf_adjudication : option string
}.

(** [authority_pairing_requests] *)
Record request_row : Type := {
  rq_id : string; rq_json : string; rq_sha : string; rq_key : string; rq_install : string;
  rq_blob_path : string; rq_blob_sha : string; rq_blob_size : Z; rq_nonce : string;
  rq_created : string; rq_expires : string; rq_status : string; rq_finalized : option string
}.

(** [semantic_node_versions]: the governed envelope of a node version *)
Record semantic_row : Type := {
  sv_version : string; sv_record : string; sv_schema : string; sv_record_schema : string;
  sv_ontology_schema : string; sv_provenance : string; sv_sensitivity : string;
  sv_policy : string; sv_consent : option string; sv_actor : string; sv_role : string;
  sv_scope : string; sv_contested : option string; sv_envelope : string; sv_sha : string
}.

(** [semantic_artifact_bytes] *)
Record artifact_row : Type := {
  ar_version : string; ar_content : string; ar_sha : string; ar_count : Z
}.

(** [semantic_relation_versions] *)
Record relation_row : Type := {
  sr_version : string; sr_relation : string; sr_predicate : string; sr_predicate_version : Z;
  sr_source : string; sr_target : string; sr_operator : string; sr_qualifier_schema : string;
  sr_qualifier : string; sr_envelope : string; sr_sha : string; sr_valid_from : string;
  sr_valid_to : option string; sr_system_from : string; sr_system_to : option string;
  sr_contested : option string
}.

(** [semantic_business_node_versions] *)
Record partition_row : Type := { bp_version : string; bp_partition : string }.

(** [semantic_business_relation_versions] *)
Record policy_row : Type := { bg_version : string; bg_policy : string; bg_minimum : string }.

(** [semantic_correction_events] *)
Record correction_row : Type := {
  cx_id : string; cx_record : string; cx_scope : string; cx_prior : string; cx_carry : string;
  cx_corrected : string; cx_from : string; cx_evidence : string; cx_diff : string; cx_event : string
}.

(** [semantic_contest_events] *)
Record contest_row : Type := {
  ct_id : string; ct_set : string; ct_record : string; ct_scope : string; ct_prior : string;
  ct_preserved : string; ct_competing : string; ct_evidence : string; ct_event : string
}.

(** [semantic_confidence_heads] *)
Record head_row : Type := {
  hd_subject : string; hd_assessor : string; hd_method : string; hd_scale : string;
  hd_assessment : string
}.

(** ** The database *)
Record graph : Type := {
  events : list event_row; subjects : list subject_row; nodes : list node_row;
  node_versions : list version_row; edges : list edge_row; edge_versions : list version_row;
  generation : Z
}.

Record intake : Type := {
  receipts : list receipt_row; dedup : list dedup_row; consumed : list consumed_row
}.

(** The tables of trust: the anchor is one row at most. *)
Record trust : Type := {
  tr_anchor : option anchor_row; pins : list pin_row; intents : list intent_row;
  proofs : list proof_row; requests : list request_row
}.

Record authority : Type := {
  prepared : list prepared_row; challenges : list challenge_row; grants : list grant_row;
  keys_ : list key_row; ledger : list ledger_row; trusted : trust
}.

Definition anchor (a : authority) : option anchor_row := tr_anchor (trusted a).
Definition no_trust : trust :=
  {| tr_anchor := None; pins := []; intents := []; proofs := []; requests := [] |}.

Record semantic : Type := {
  semantic_nodes : list semantic_row; artifacts : list artifact_row;
  semantic_relations : list relation_row; partitions : list partition_row;
  policies : list policy_row; corrections : list correction_row; contests : list contest_row;
  confidence_heads : list head_row
}.

Record db : Type := {
  the_graph : graph; the_intake : intake; the_authority : authority; the_semantic : semantic;
  store_identity : option string
}.

Definition with_graph (g : graph) (d : db) : db :=
  {| the_graph := g; the_intake := the_intake d; the_authority := the_authority d;
     the_semantic := the_semantic d; store_identity := store_identity d |}.
Definition with_intake (i : intake) (d : db) : db :=
  {| the_graph := the_graph d; the_intake := i; the_authority := the_authority d;
     the_semantic := the_semantic d; store_identity := store_identity d |}.
Definition with_authority (a : authority) (d : db) : db :=
  {| the_graph := the_graph d; the_intake := the_intake d; the_authority := a;
     the_semantic := the_semantic d; store_identity := store_identity d |}.
Definition with_semantic (m : semantic) (d : db) : db :=
  {| the_graph := the_graph d; the_intake := the_intake d; the_authority := the_authority d;
     the_semantic := m; store_identity := store_identity d |}.

Definition no_semantic : semantic :=
  {| semantic_nodes := []; artifacts := []; semantic_relations := []; partitions := [];
     policies := []; corrections := []; contests := []; confidence_heads := [] |}.

(** ** Queries shared by the statements *)
Definition has_event (g : graph) (id : string) : bool := mem id (map ev_id (events g)).
Definition has_node (g : graph) (id : string) : bool := mem id (map nd_id (nodes g)).
Definition has_edge (g : graph) (id : string) : bool := mem id (map ed_id (edges g)).

Definition is_open (v : version_row) : bool :=
  match vr_system_to v with None => true | Some _ => false end.

Definition unique (conflict : bool) : res unit := raise_if conflict (IntegrityError true).
Definition references (found : bool) : res unit := raise_if (negb found) (IntegrityError false).

(** ** [INSERT INTO events] with its trigger *)
Definition SUBJECT_ROLES := ["node_id"; "source_id"; "target_id"].

Definition subject_in (m : obj) (event role : string) : list subject_row :=
  match assoc role m with
  | Some (JStr s) => [{| sb_event := event; sb_role := role; sb_subject := s |}]
  | _ => []
  end.

Definition event_subjects (e : event_row) : list subject_row :=
  match loads (ev_payload e) with
  | Some (JObj m) => flat_map (subject_in m (ev_id e)) SUBJECT_ROLES
  | _ => []
  end.

Definition insert_event (e : event_row) (g : graph) : res graph :=
  unique (has_event g (ev_id e)) ;;
  raise_if match loads (ev_payload e) with None => true | Some _ => false end
    (OperationalError "malformed JSON") ;;
  Ok {| events := events g ++ [e]; subjects := subjects g ++ event_subjects e;
        nodes := nodes g; node_versions := node_versions g; edges := edges g;
        edge_versions := edge_versions g; generation := generation g |}.

(** ** The graph tables: every row written moves the content generation *)
Definition insert_node (n : node_row) (g : graph) : res graph :=
  unique (has_node g (nd_id n)) ;;
  references (has_event g (nd_event n)) ;;
  Ok {| events := events g; subjects := subjects g; nodes := nodes g ++ [n];
        node_versions := node_versions g; edges := edges g;
        edge_versions := edge_versions g; generation := generation g + 1 |}.

Definition insert_edge (e : edge_row) (g : graph) : res graph :=
  unique (has_edge g (ed_id e)) ;;
  references (has_node g (ed_source e) && has_node g (ed_target e) && has_event g (ed_event e)) ;;
  Ok {| events := events g; subjects := subjects g; nodes := nodes g;
        node_versions := node_versions g; edges := edges g ++ [e];
        edge_versions := edge_versions g; generation := generation g + 1 |}.

(** The origin/authority lattice of the triggers and of the Python validator *)
Definition LATTICE : list (string * list string) :=
  [("captured", ["observed_candidate"; "captured_judgment"; "ratified_knowledge"]);
   ("extracted", ["imported_floor"; "observed_candidate"; "ratified_knowledge"]);
   ("inferred", ["inferred_candidate"; "observed_candidate"; "ratified_knowledge"]);
   ("ratified", ["ratified_knowledge"])].

Definition lattice_ok (status tier : string) : bool :=
  match assoc status LATTICE with Some tiers => mem tier tiers | None => false end.

(** [json_extract(provenance, '$.key') IS NULL] *)
Definition extract_null (provenance : json) (key : string) : bool :=
  match provenance with JObj m => is_null (get key m) | _ => true end.

Definition lattice_trigger (v : version_row) : res unit :=
  raise_if (negb (lattice_ok (vr_status v) (vr_tier v))) (IntegrityError false) ;;
  if String.eqb (vr_tier v) "ratified_knowledge" then
    match loads (vr_provenance v) with
    | None => Err (OperationalError "malformed JSON")
    | Some p => raise_if (extract_null p "ratifier" && extract_null p "ratification_event_version_id")
                  (IntegrityError false)
    end
  else Ok tt.

Definition insert_version (v : version_row) (g : graph) : res graph :=
  lattice_trigger v ;;
  unique (mem (vr_id v) (map vr_id (node_versions g))) ;;
  references (has_node g (vr_owner v) && has_event g (vr_event v)) ;;
  Ok {| events := events g; subjects := subjects g; nodes := nodes g;
        node_versions := node_versions g ++ [v]; edges := edges g;
        edge_versions := edge_versions g; generation := generation g + 1 |}.

(** The unique index [one_current_edge_version] *)
Definition open_edge_version (g : graph) (edge : string) : bool :=
  existsb (λ v, String.eqb (vr_owner v) edge && is_open v) (edge_versions g).

Definition insert_edge_version (v : version_row) (g : graph) : res graph :=
  lattice_trigger v ;;
  unique (mem (vr_id v) (map vr_id (edge_versions g)) ||
          (is_open v && open_edge_version g (vr_owner v))) ;;
  references (has_edge g (vr_owner v) && has_event g (vr_event v)) ;;
  Ok {| events := events g; subjects := subjects g; nodes := nodes g;
        node_versions := node_versions g; edges := edges g;
        edge_versions := edge_versions g ++ [v]; generation := generation g + 1 |}.

(** ** [UPDATE ... SET system_to] *)
Definition closed (now : string) (valid_to : option string) (v : version_row) : version_row :=
  {| vr_id := vr_id v; vr_owner := vr_owner v; vr_payload := vr_payload v; vr_sha := vr_sha v;
     vr_status := vr_status v; vr_tier := vr_tier v; vr_provenance := vr_provenance v;
     vr_evidence := vr_evidence v; vr_valid_from := vr_valid_from v; vr_valid_to := valid_to;
     vr_system_from := vr_system_from v; vr_system_to := Some now; vr_event := vr_event v;
     vr_prior := vr_prior v |}.

(** [system_to], and [valid_to] where the statement sets it *)
Definition close (now : string) (valid_too : bool) (v : version_row) : version_row :=
  closed now (if valid_too then Some now else vr_valid_to v) v.

Definition update_where (p : version_row → bool) (f : version_row → version_row)
    (l : list version_row) : list version_row :=
  map (λ v, if p v then f v else v) l.

Definition matching (p : version_row → bool) (l : list version_row) : Z :=
  Z.of_nat (length (filter (λ v, p v = true) l)).

Definition close_version (id now : string) (valid_too : bool) (g : graph) : graph :=
  let p v := String.eqb (vr_id v) id in
  {| events := events g; subjects := subjects g; nodes := nodes g;
     node_versions := update_where p (close now valid_too) (node_versions g);
     edges := edges g; edge_versions := edge_versions g;
     generation := generation g + matching p (node_versions g) |}.

(** [UPDATE edge_versions SET system_to=? WHERE <p> AND system_to IS NULL] *)
Definition close_edges (p : version_row → bool) (now : string) (g : graph) : graph :=
  {| events := events g; subjects := subjects g; nodes := nodes g;
     node_versions := node_versions g; edges := edges g;
     edge_versions := update_where p (close now false) (edge_versions g);
     generation := generation g + matching p (edge_versions g) |}.

(** The open versions of the edges that touch a node, but one *)
Definition touches (g : graph) (node : string) (except : option string) (v : version_row) : bool :=
  is_open v &&
  existsb (λ e, String.eqb (ed_id e) (vr_owner v) &&
                (String.eqb (ed_source e) node || String.eqb (ed_target e) node) &&
                match except with None => true | Some x => negb (String.eqb (ed_id e) x) end)
    (edges g).

Definition edge_version_is (id : string) (v : version_row) : bool :=
  String.eqb (vr_id v) id.

(** ** Intake tables *)
Definition insert_receipt (r : receipt_row) (d : db) : res db :=
  let i := the_intake d in
  unique (mem (rc_source r) (map rc_source (receipts i))) ;;
  references (has_event (the_graph d) (rc_event r)) ;;
  Ok (with_intake {| receipts := receipts i ++ [r]; dedup := dedup i; consumed := consumed i |} d).

Definition dedup_key (r : dedup_row) : string * string := (dd_operator r, dd_sha r).

Definition is_dedup (operator sha : string) (r : dedup_row) : bool :=
  String.eqb (dd_operator r) operator && String.eqb (dd_sha r) sha.

Definition insert_dedup (r : dedup_row) (d : db) : res db :=
  let i := the_intake d in
  unique (existsb (is_dedup (dd_operator r) (dd_sha r)) (dedup i)) ;;
  references (has_event (the_graph d) (dd_event r)) ;;
  Ok (with_intake {| receipts := receipts i; dedup := dedup i ++ [r]; consumed := consumed i |} d).

Definition insert_consumed (r : consumed_row) (d : db) : res db :=
  let i := the_intake d in
  unique (mem (cs_event r) (map cs_event (consumed i))) ;;
  Ok (with_intake {| receipts := receipts i; dedup := dedup i; consumed := consumed i ++ [r] |} d).

(** ** Authority tables *)
Definition insert_prepared (r : prepared_row) (d : db) : res db :=
  let a := the_authority d in
  unique (mem (pm_operation r) (map pm_operation (prepared a))) ;;
  Ok (with_authority {| prepared := prepared a ++ [r]; challenges := challenges a;
        grants := grants a; keys_ := keys_ a; ledger := ledger a; trusted := trusted a |} d).

Definition insert_challenge (r : challenge_row) (d : db) : res db :=
  let a := the_authority d in
  unique (mem (ch_nonce_sha r) (map ch_nonce_sha (challenges a))) ;;
  Ok (with_authority {| prepared := prepared a; challenges := challenges a ++ [r];
        grants := grants a; keys_ := keys_ a; ledger := ledger a; trusted := trusted a |} d).

Definition insert_grant (r : grant_row) (d : db) : res db :=
  let a := the_authority d in
  unique (mem (gr_id r) (map gr_id (grants a)) ||
          mem (gr_operation r) (map gr_operation (grants a))) ;;
  Ok (with_authority {| prepared := prepared a; challenges := challenges a;
        grants := grants a ++ [r]; keys_ := keys_ a; ledger := ledger a; trusted := trusted a |} d).

(** [UPDATE authority_prepared_mutations SET status=...  WHERE operation_id=?
    AND status='pending'] and the number of rows it changed *)
Definition pending (operation : string) (r : prepared_row) : bool :=
  String.eqb (pm_operation r) operation && String.eqb (pm_status r) "pending".

Definition with_status (status : string) (executed provenance : option string)
    (r : prepared_row) : prepared_row :=
  {| pm_operation := pm_operation r; pm_command := pm_command r; pm_operator := pm_operator r;
     pm_request := pm_request r; pm_request_sha := pm_request_sha r;
     pm_intent := pm_intent r; pm_intent_sha := pm_intent_sha r;
     pm_prior := pm_prior r; pm_prior_sha := pm_prior_sha r;
     pm_execution := pm_execution r; pm_execution_sha := pm_execution_sha r;
     pm_created := pm_created r; pm_expires := pm_expires r; pm_status := status;
     pm_executed := executed; pm_provenance := provenance |}.

Definition count {A} (p : A → bool) (l : list A) : Z :=
  Z.of_nat (length (List.filter p l)).

Definition set_prepared (operation : string) (f : prepared_row → prepared_row) (d : db) : db * Z :=
  let a := the_authority d in
  (with_authority
     {| prepared := map (λ r, if pending operation r then f r else r) (prepared a);
        challenges := challenges a; grants := grants a; keys_ := keys_ a; ledger := ledger a;
        trusted := trusted a |} d,
   count (pending operation) (prepared a)).

(** [UPDATE authority_challenges SET consumed_at=?, consumed_provenance_id=?
    WHERE nonce_sha256=? AND consumed_at IS NULL] *)
Definition unconsumed (nonce_sha : string) (r : challenge_row) : bool :=
  String.eqb (ch_nonce_sha r) nonce_sha &&
  match ch_consumed r with None => true | Some _ => false end.

Definition spend_row (at_ provenance : string) (r : challenge_row) : challenge_row :=
  {| ch_nonce_sha := ch_nonce_sha r; ch_operation := ch_operation r; ch_sha := ch_sha r;
     ch_issued := ch_issued r; ch_expires := ch_expires r; ch_consumed := Some at_;
     ch_provenance := Some provenance |}.

Definition consume_challenge (nonce_sha at_ provenance : string) (d : db) : db * Z :=
  let a := the_authority d in
  (with_authority
     {| prepared := prepared a;
        challenges := map (λ r, if unconsumed nonce_sha r then spend_row at_ provenance r else r)
                        (challenges a);
        grants := grants a; keys_ := keys_ a; ledger := ledger a; trusted := trusted a |} d,
   count (unconsumed nonce_sha) (challenges a)).

(** ** Governed tables *)
Definition has_version (g : graph) (id : string) : bool := mem id (map vr_id (node_versions g)).
Definition has_semantic (m : semantic) (id : string) : bool :=
  mem id (map sv_version (semantic_nodes m)).
Definition has_relation (m : semantic) (id : string) : bool :=
  mem id (map sr_version (semantic_relations m)).

(** A [CHECK] constraint *)
Definition check (holds : bool) : res unit := raise_if (negb holds) (IntegrityError false).

Definition insert_semantic (r : semantic_row) (d : db) : res db :=
  let m := the_semantic d in
  unique (has_semantic m (sv_version r)) ;;
  references (has_version (the_graph d) (sv_version r)) ;;
  Ok (with_semantic {| semantic_nodes := semantic_nodes m ++ [r]; artifacts := artifacts m;
        semantic_relations := semantic_relations m; partitions := partitions m;
        policies := policies m; corrections := corrections m; contests := contests m;
        confidence_heads := confidence_heads m |} d).

Definition insert_artifact (r : artifact_row) (d : db) : res db :=
  let m := the_semantic d in
  check (0 <=? ar_count r) ;;
  unique (mem (ar_version r) (map ar_version (artifacts m))) ;;
  references (has_semantic m (ar_version r)) ;;
  Ok (with_semantic {| semantic_nodes := semantic_nodes m; artifacts := artifacts m ++ [r];
        semantic_relations := semantic_relations m; partitions := partitions m;
        policies := policies m; corrections := corrections m; contests := contests m;
        confidence_heads := confidence_heads m |} d).

Definition insert_relation (r : relation_row) (d : db) : res db :=
  let m := the_semantic d in
  unique (has_relation m (sr_version r)) ;;
  Ok (with_semantic {| semantic_nodes := semantic_nodes m; artifacts := artifacts m;
        semantic_relations := semantic_relations m ++ [r]; partitions := partitions m;
        policies := policies m; corrections := corrections m; contests := contests m;
        confidence_heads := confidence_heads m |} d).

Definition PARTITIONS := ["business_declared"; "business_observed"].

Definition insert_partition (r : partition_row) (d : db) : res db :=
  let m := the_semantic d in
  check (mem (bp_partition r) PARTITIONS) ;;
  unique (mem (bp_version r) (map bp_version (partitions m))) ;;
  references (has_semantic m (bp_version r)) ;;
  Ok (with_semantic {| semantic_nodes := semantic_nodes m; artifacts := artifacts m;
        semantic_relations := semantic_relations m; partitions := partitions m ++ [r];
        policies := policies m; corrections := corrections m; contests := contests m;
        confidence_heads := confidence_heads m |} d).

Definition POLICY_CODES := ["O"; "B"; "C"].
Definition AUTHORITY_MINIMA := ["I"; "J"; "R"].

Definition insert_policy (r : policy_row) (d : db) : res db :=
  let m := the_semantic d in
  check (mem (bg_policy r) POLICY_CODES && mem (bg_minimum r) AUTHORITY_MINIMA) ;;
  unique (mem (bg_version r) (map bg_version (policies m))) ;;
  references (has_relation m (bg_version r)) ;;
  Ok (with_semantic {| semantic_nodes := semantic_nodes m; artifacts := artifacts m;
        semantic_relations := semantic_relations m; partitions := partitions m;
        policies := policies m ++ [r]; corrections := corrections m; contests := contests m;
        confidence_heads := confidence_heads m |} d).

Definition insert_correction (r : correction_row) (d : db) : res db :=
  let m := the_semantic d in
  unique (mem (cx_id r) (map cx_id (corrections m))) ;;
  references (has_event (the_graph d) (cx_event r)) ;;
  Ok (with_semantic {| semantic_nodes := semantic_nodes m; artifacts := artifacts m;
        semantic_relations := semantic_relations m; partitions := partitions m;
        policies := policies m; corrections := corrections m ++ [r]; contests := contests m;
        confidence_heads := confidence_heads m |} d).

Definition insert_contest (r : contest_row) (d : db) : res db :=
  let m := the_semantic d in
  unique (mem (ct_id r) (map ct_id (contests m))) ;;
  references (has_event (the_graph d) (ct_event r)) ;;
  Ok (with_semantic {| semantic_nodes := semantic_nodes m; artifacts := artifacts m;
        semantic_relations := semantic_relations m; partitions := partitions m;
        policies := policies m; corrections := corrections m; contests := contests m ++ [r];
        confidence_heads := confidence_heads m |} d).

(** The key of a confidence head, and its upsert: with [replace] a row of the
    same key takes the new assessment, without it the key is a conflict. *)
Definition same_head (r s : head_row) : bool :=
  String.eqb (hd_subject s) (hd_subject r) && String.eqb (hd_assessor s) (hd_assessor r) &&
  String.eqb (hd_method s) (hd_method r) && String.eqb (hd_scale s) (hd_scale r).

Definition put_heads (r : head_row) (l : list head_row) : list head_row :=
  if existsb (same_head r) l then map (λ s, if same_head r s then r else s) l else l ++ [r].

Definition insert_head (replace : bool) (r : head_row) (d : db) : res db :=
  let m := the_semantic d in
  unique (negb replace && existsb (same_head r) (confidence_heads m)) ;;
  unique (mem (hd_assessment r)
            (map hd_assessment (List.filter (λ s, negb (same_head r s)) (confidence_heads m)))) ;;
  references (has_semantic m (hd_assessment r)) ;;
  Ok (with_semantic {| semantic_nodes := semantic_nodes m; artifacts := artifacts m;
        semantic_relations := semantic_relations m; partitions := partitions m;
        policies := policies m; corrections := corrections m; contests := contests m;
        confidence_heads := put_heads r (confidence_heads m) |} d).
