(* ===== verification/Integrity.v ===== *)
(** * Integrity of the store

    What every database the writer can reach satisfies ([db_ok]): keys are
    unique, references resolve, digests are those of the stored texts, the
    subject index is the index of the events, every version sits on the
    origin/authority lattice with a provenance record that agrees with its
    columns, an edge has one open version and so has a node without a governed
    envelope, governed rows have unique keys, references that resolve and
    digests of what they hold, and every version with authority was written by
    an event a signed approval names.  And what no
    statement undoes ([extends]): history is only appended to. *)
From S2P Require Import Prelude PyTime Urn Contracts Codec Json Names Clock Tables.

(** ** Signatures: [rfc8785.dumps] and [Ed25519PublicKey.verify] are library
    code, taken as functions. *)
Class crypto : Type := {
  jcs : json → option string;
  ed25519_verify : string → string → string → bool
}.

Definition CHALLENGE_DOMAIN := "imprint-authority-approval-v1" +:+ byte 0.

(** ** Provenance of a version row ([validate_base_version_values]) *)
Record provenance_agrees (v : version_row) (m : obj) : Prop := {
  pa_read : loads (vr_provenance v) = Some (JObj m);
  pa_origin : get_default "origin_status" (get "status" m) m = JStr (vr_status v);
  pa_tier : get "authority_tier" m = JStr (vr_tier v);
  pa_proof : vr_tier v = "ratified_knowledge" →
    truthy (get "ratifier" m) = true ∨ truthy (get "ratification_event_version_id" m) = true
}.

Definition AUTHORITATIVE := ["captured_judgment"; "ratified_knowledge"].
Definition authoritative (tier : string) : bool := mem tier AUTHORITATIVE.

Record version_ok (v : version_row) : Prop := {
  vo_sha : vr_sha v = sha256 (vr_payload v);
  vo_lattice : lattice_ok (vr_status v) (vr_tier v) = true;
  vo_provenance : ∃ m, provenance_agrees v m
}.

Definition version_refs (g : graph) (owners : list string) (v : version_row) : Prop :=
  In (vr_owner v) owners ∧ In (vr_event v) (map ev_id (events g)).

(** Two open versions of one owner are one row, but for the owners of [many]. *)
Definition one_open (many : string → Prop) (l : list version_row) : Prop :=
  ∀ v w, In v l → In w l → vr_owner v = vr_owner w →
         is_open v = true → is_open w = true → many (vr_owner v) ∨ v = w.

Definition none (_ : string) : Prop := False.

Record graph_ok (g : graph) : Prop := {
  go_events : List.NoDup (map ev_id (events g));
  go_nodes : List.NoDup (map nd_id (nodes g));
  go_edges : List.NoDup (map ed_id (edges g));
  go_node_versions : List.NoDup (map vr_id (node_versions g));
  go_edge_versions : List.NoDup (map vr_id (edge_versions g));
  go_subjects : subjects g = flat_map event_subjects (events g);
  go_event_sha : Forall (λ e, ev_sha e = sha256 (ev_payload e)) (events g);
  go_node_event : Forall (λ n, In (nd_event n) (map ev_id (events g))) (nodes g);
  go_edge_refs : Forall (λ e, In (ed_source e) (map nd_id (nodes g)) ∧
    In (ed_target e) (map nd_id (nodes g)) ∧ In (ed_event e) (map ev_id (events g))) (edges g);
  go_node_version_refs : Forall (version_refs g (map nd_id (nodes g))) (node_versions g);
  go_edge_version_refs : Forall (version_refs g (map ed_id (edges g))) (edge_versions g);
  go_node_version_ok : Forall version_ok (node_versions g);
  go_edge_version_ok : Forall version_ok (edge_versions g);
  go_one_edge : one_open none (edge_versions g)
}.

Record intake_ok (g : graph) (i : intake) : Prop := {
  io_receipts : List.NoDup (map rc_source (receipts i));
  io_dedup : List.NoDup (map dedup_key (dedup i));
  io_consumed : List.NoDup (map cs_event (consumed i));
  io_receipt_event : Forall (λ r, In (rc_event r) (map ev_id (events g))) (receipts i);
  io_dedup_event : Forall (λ r, In (dd_event r) (map ev_id (events g))) (dedup i)
}.

Record authority_ok (a : authority) : Prop := {
  ao_prepared : List.NoDup (map pm_operation (prepared a));
  ao_challenges : List.NoDup (map ch_nonce_sha (challenges a));
  ao_grants : List.NoDup (map gr_id (grants a));
  ao_operations : List.NoDup (map gr_operation (grants a))
}.

(** A record with a governed envelope: a correction or a contest leaves two of
    its versions open. *)
Definition governed (m : semantic) (record : string) : Prop :=
  In record (map sv_record (semantic_nodes m)).

#[export] Instance governed_dec m record : Decision (governed m record).
Proof. unfold governed. apply List.in_dec, string_dec. Defined.

(** The version, and the node it is a version of *)
Definition version_of (v : version_row) : string * string := (vr_id v, vr_owner v).

Definition head_key (r : head_row) : string * string * string * string :=
  (hd_subject r, hd_assessor r, hd_method r, hd_scale r).

Record semantic_ok (g : graph) (m : semantic) : Prop := {
  so_nodes : List.NoDup (map sv_version (semantic_nodes m));
  so_artifacts : List.NoDup (map ar_version (artifacts m));
  so_relations : List.NoDup (map sr_version (semantic_relations m));
  so_partitions : List.NoDup (map bp_version (partitions m));
  so_policies : List.NoDup (map bg_version (policies m));
  so_corrections : List.NoDup (map cx_id (corrections m));
  so_contests : List.NoDup (map ct_id (contests m));
  so_heads : List.NoDup (map head_key (confidence_heads m));
  so_node_sha : Forall (λ r, sv_sha r = sha256 (sv_envelope r)) (semantic_nodes m);
  so_relation_sha : Forall (λ r, sr_sha r = sha256 (sr_envelope r)) (semantic_relations m);
  so_artifact_sha : Forall (λ r, ar_sha r = sha256 (ar_content r) ∧
    ar_count r = Z.of_nat (String.length (ar_content r))) (artifacts m);
  so_node_refs : Forall (λ r, In (sv_version r, sv_record r) (map version_of (node_versions g)))
    (semantic_nodes m);
  so_artifact_refs : Forall (λ r, In (ar_version r) (map sv_version (semantic_nodes m))) (artifacts m);
  so_partition_refs : Forall (λ r, In (bp_version r) (map sv_version (semantic_nodes m)) ∧
    In (bp_partition r) PARTITIONS) (partitions m);
  so_policy_refs : Forall (λ r, In (bg_version r) (map sr_version (semantic_relations m)) ∧
    In (bg_policy r) POLICY_CODES ∧ In (bg_minimum r) AUTHORITY_MINIMA) (policies m);
  so_correction_refs : Forall (λ r, In (cx_event r) (map ev_id (events g))) (corrections m);
  so_contest_refs : Forall (λ r, In (ct_event r) (map ev_id (events g))) (contests m);
  so_head_refs : Forall (λ r, In (hd_assessment r) (map sv_version (semantic_nodes m)))
    (confidence_heads m)
}.

Section authorized.
Context `{signing : crypto}.

Definition REQUEST_FIELDS :=
  ["operation_id"; "purpose"; "payload_sha256"; "prior_state_sha256"; "execution_fields_sha256";
   "authority_transition"; "subject_ids"; "source_ids"; "target_ids"; "proposal_ids";
   "result_version_ids"; "scope"; "field_paths"].

(** A consumed approval of a prepared mutation: an active operator key signed
    a challenge that repeats every field of the stored request, among them
    the digest of the execution fields. *)
Record approved (a : authority) (r : prepared_row) (g : grant_row) : Prop := {
  ap_grant : In g (grants a) ∧ gr_operation g = pm_operation r ∧ pm_provenance r = Some (gr_id g);
  ap_key : ∃ k signature public, In k (keys_ a) ∧ ky_id k = gr_key g ∧ ky_status k = "active" ∧
    b64decode false (ky_public k) = Some public ∧ b64decode false (gr_signature g) = Some signature ∧
    ed25519_verify public signature (CHALLENGE_DOMAIN +:+ gr_challenge g) = true;
  ap_request : ∃ challenge request, jcs (JObj challenge) = Some (gr_challenge g) ∧
    loads (pm_request r) = Some (JObj request) ∧
    get "execution_fields_sha256" request = JStr (sha256 (pm_execution r)) ∧
    Forall (λ k, get k challenge = get k request) REQUEST_FIELDS
}.

(** The events the execution fields of a mutation name: its own, that of an
    assessment or of several, and those of the items of a bundle. *)
Definition text_values (v : json) : list string :=
  match v with
  | JStr s => [s]
  | JList l => strs l
  | JObj m => strs (map snd m)
  | _ => []
  end.

Definition EVENT_FIELDS := ["event_id"; "assessment_event_id"; "assessment_event_ids"; "event_ids"].

Definition named_events (fields : obj) : list string :=
  flat_map (λ k, text_values (get k fields)) EVENT_FIELDS.

(** The event [event] is one that the execution fields of an executed,
    approved mutation name. *)
Definition authorized (event : string) (a : authority) : Prop :=
  ∃ r g fields, In r (prepared a) ∧ pm_status r = "executed" ∧
    loads (pm_execution r) = Some (JObj fields) ∧ In event (named_events fields) ∧
    approved a r g.

Definition versions_authorized (a : authority) (l : list version_row) : Prop :=
  Forall (λ v, authoritative (vr_tier v) = true → authorized (vr_event v) a) l.

Record db_ok (d : db) : Prop := {
  do_graph : graph_ok (the_graph d);
  do_intake : intake_ok (the_graph d) (the_intake d);
  do_authority : authority_ok (the_authority d);
  do_semantic : semantic_ok (the_graph d) (the_semantic d);
  do_one_node : one_open (governed (the_semantic d)) (node_versions (the_graph d));
  do_node_versions : versions_authorized (the_authority d) (node_versions (the_graph d));
  do_edge_versions : versions_authorized (the_authority d) (edge_versions (the_graph d))
}.
End authorized.

(** ** Append-only history *)

(** A version row is only ever closed, once. *)
Definition closes (v w : version_row) : Prop :=
  w = v ∨ (is_open v = true ∧ ∃ now valid_to, w = closed now valid_to v).

(** A prepared mutation is only ever settled, once; its content is fixed. *)
Definition settles (r s : prepared_row) : Prop :=
  s = r ∨ (pm_status r = "pending" ∧
           ∃ status executed provenance, s = with_status status executed provenance r).

Definition spends (r s : challenge_row) : Prop :=
  s = r ∨ (ch_consumed r = None ∧ ∃ at_ provenance, s = spend_row at_ provenance r).

(** [l'] is [l] with rows advanced by [R] and rows appended. *)
Definition advances {A} (R : A → A → Prop) (l l' : list A) : Prop :=
  ∃ m k, l' = m ++ k ∧ Forall2 R l m.

(** A head may change its assessment, never its key. *)
Definition renews (r s : head_row) : Prop := head_key s = head_key r.

Record semantic_extends (m n : semantic) : Prop := {
  sx_nodes : advances eq (semantic_nodes m) (semantic_nodes n);
  sx_artifacts : advances eq (artifacts m) (artifacts n);
  sx_relations : advances eq (semantic_relations m) (semantic_relations n);
  sx_partitions : advances eq (partitions m) (partitions n);
  sx_policies : advances eq (policies m) (policies n);
  sx_corrections : advances eq (corrections m) (corrections n);
  sx_contests : advances eq (contests m) (contests n);
  sx_heads : advances renews (confidence_heads m) (confidence_heads n)
}.

Record graph_extends (g h : graph) : Prop := {
  gx_events : advances eq (events g) (events h);
  gx_nodes : advances eq (nodes g) (nodes h);
  gx_edges : advances eq (edges g) (edges h);
  gx_node_versions : advances closes (node_versions g) (node_versions h);
  gx_edge_versions : advances closes (edge_versions g) (edge_versions h);
  gx_generation : generation g ≤ generation h;
  gx_visible : generation g = generation h →
    nodes h = nodes g ∧ edges h = edges g ∧
    node_versions h = node_versions g ∧ edge_versions h = edge_versions g
}.

Record authority_extends (a b : authority) : Prop := {
  ax_prepared : advances settles (prepared a) (prepared b);
  ax_challenges : advances spends (challenges a) (challenges b);
  ax_grants : advances eq (grants a) (grants b);
  ax_keys : keys_ b = keys_ a;
  ax_ledger : ledger b = ledger a;
  ax_trust : trusted b = trusted a
}.

Record extends (d e : db) : Prop := {
  xt_graph : graph_extends (the_graph d) (the_graph e);
  xt_receipts : advances eq (receipts (the_intake d)) (receipts (the_intake e));
  xt_dedup : advances eq (dedup (the_intake d)) (dedup (the_intake e));
  xt_consumed : advances eq (consumed (the_intake d)) (consumed (the_intake e));
  xt_authority : authority_extends (the_authority d) (the_authority e);
  xt_semantic : semantic_extends (the_semantic d) (the_semantic e);
  xt_identity : store_identity e = store_identity d
}.

(** ** [extends] is a preorder *)
Lemma advances_refl {A} (R : A → A → Prop) `{!Reflexive R} l : advances R l l.
Proof. exists l, []. split; [by rewrite app_nil_r|]. induction l; by constructor. Qed.

Lemma advances_app {A} (R : A → A → Prop) `{!Reflexive R} l k : advances R l (l ++ k).
Proof. exists l, k. split; [done|]. induction l; by constructor. Qed.

Lemma advances_trans {A} (R : A → A → Prop) `{!Transitive R} l1 l2 l3 :
  advances R l1 l2 → advances R l2 l3 → advances R l1 l3.
Proof.
  intros (m1 & k1 & -> & H1) (m2 & k2 & -> & H2).
  apply Forall2_app_inv_l in H2 as (m & k & Hm & Hk & ->).
  exists m, (k ++ k2). split; [by rewrite app_assoc|].
  clear Hk. revert m Hm. induction H1 as [|x y l m1 Hxy H1 IH]; intros m Hm;
    inversion Hm; subst; constructor; [by etransitivity|auto].
Qed.

Lemma advances_map {A} (R : A → A → Prop) (f : A → A) l : (∀ x, R x (f x)) → advances R l (map f l).
Proof. intros H. exists (map f l), []. split; [by rewrite app_nil_r|]. induction l; constructor; auto. Qed.

(** What holds of the keys of a table is untouched by an update of other
    columns. *)
Lemma advances_eq_In {A} (x : A) l l' : advances eq l l' → In x l → In x l'.
Proof.
  intros (m & k & -> & H). assert (l = m) as -> by (induction H; by f_equal).
  intros ?. apply in_app_iff. by left.
Qed.

Lemma advances_In {A} (R : A → A → Prop) (x : A) l l' :
  advances R l l' → In x l → ∃ y, R x y ∧ In y l'.
Proof.
  intros (m & k & -> & H). induction H as [|a b l m Hab H IH]; simpl; [done|].
  intros [->|Hx]; [eauto|]. destruct (IH Hx) as (y & ? & ?). eauto.
Qed.

#[export] Instance closes_preorder : PreOrder closes.
Proof.
  split; [by left|]. intros v w x [->|(Ho & now & t & ->)] [->|(Hw & n2 & t2 & ->)]; [by left|..].
  - right. eauto.
  - right. eauto.
  - done.
Qed.

#[export] Instance settles_preorder : PreOrder settles.
Proof.
  split; [by left|]. intros r s t [->|(Hp & st & e & p & ->)] [->|(Hq & st2 & e2 & p2 & ->)];
    [by left|right; eauto|right; eauto|].
  right. split; [done|]. by exists st2, e2, p2.
Qed.

#[export] Instance spends_preorder : PreOrder spends.
Proof.
  split; [by left|]. intros r s t [->|(Hp & a & p & ->)] [->|(Hq & a2 & p2 & ->)];
    [by left|right; eauto|right; eauto|done].
Qed.

Create HintDb store.
Ltac advances_step := eapply advances_trans; [typeclasses eauto | eassumption | eassumption].
#[export] Hint Extern 1 (advances eq ?l ?l) => apply (advances_refl eq) : store.
#[export] Hint Resolve advances_refl advances_app : store.

#[export] Instance graph_extends_preorder : PreOrder graph_extends.
Proof.
  split.
  - intros g. split; try apply (advances_refl _); [lia|done].
  - intros g h k Hg Hh. pose proof (gx_generation _ _ Hg). pose proof (gx_generation _ _ Hh).
    destruct Hg as [?????? Vg], Hh as [?????? Vh].
    split; try advances_step; [lia|].
    intros E. destruct Vg as (H1 & H2 & H3 & H4); [lia|].
    destruct Vh as (H5 & H6 & H7 & H8); [lia|]. split_and!; congruence.
Qed.

#[export] Instance authority_extends_preorder : PreOrder authority_extends.
Proof.
  split.
  - intros a. split; try apply (advances_refl _); done.
  - intros a b c [] []. split; try advances_step; congruence.
Qed.

#[export] Instance renews_preorder : PreOrder renews.
Proof. unfold renews. split; [done|]. intros r s t; congruence. Qed.

#[export] Instance semantic_extends_preorder : PreOrder semantic_extends.
Proof.
  split.
  - intros m. split; apply (advances_refl _).
  - intros a b c [] []. split; advances_step.
Qed.

#[export] Instance extends_preorder : PreOrder extends.
Proof.
  split.
  - intros d. split; try apply (advances_refl _); done.
  - intros a b c [] []. split; try (etransitivity; eassumption);
      try advances_step; congruence.
Qed.

Lemma extends_graph d g : graph_extends (the_graph d) g → extends d (with_graph g d).
Proof. intros H. split; try done; apply (advances_refl _). Qed.

Lemma extends_semantic d m : semantic_extends (the_semantic d) m → extends d (with_semantic m d).
Proof. intros H. split; try done; apply (advances_refl _). Qed.

Lemma extends_authority d a : authority_extends (the_authority d) a → extends d (with_authority a d).
Proof. intros H. split; try done; apply (advances_refl _). Qed.

(** ** The statements keep the graph well formed *)
Lemma mem_map_not_In {A} (f : A → string) x l : mem x (map f l) = false ↔ ~ In x (map f l).
Proof. apply mem_not_In. Qed.

Lemma NoDup_snoc {A} (f : A → string) l x :
  List.NoDup (map f l) → mem (f x) (map f l) = false → List.NoDup (map f (l ++ [x])).
Proof.
  rewrite mem_not_In, map_app. intros Hn Hx. simpl.
  apply (Permutation_NoDup (l := f x :: map f l)).
  - rewrite <- (Permutation_app_comm [f x]). reflexivity.
  - by constructor.
Qed.

Lemma NoDup_map_inj {A B} (f : A → B) l x y :
  List.NoDup (map f l) → In x l → In y l → f x = f y → x = y.
Proof.
  induction l as [|z l IH]; simpl; [done|]. intros Hn Hx Hy E. inversion_clear Hn as [|? ? Hz Hl].
  destruct Hx as [->|Hx], Hy as [->|Hy]; [done|..|by apply IH];
    exfalso; apply Hz; [rewrite E|rewrite <- E]; by apply in_map.
Qed.

Lemma find_unique {A} (f : A → string) l x :
  List.NoDup (map f l) → In x l → List.find (λ y, String.eqb (f y) (f x)) l = Some x.
Proof.
  intros Hn Hx. destruct (List.find _ l) as [y|] eqn:E.
  - apply find_some in E as [Hy E]. apply String.eqb_eq in E. by rewrite (NoDup_map_inj f l y x Hn Hy Hx E).
  - apply (find_none _ _ E) in Hx. by rewrite String.eqb_refl in Hx.
Qed.

Lemma Forall_snoc {A} (P : A → Prop) l x : Forall P l → P x → Forall P (l ++ [x]).
Proof. intros Hl Hx. apply Forall_app. split; [done|]. by repeat constructor. Qed.

Lemma version_refs_mono g h owners owners' v :
  incl owners owners' → incl (map ev_id (events g)) (map ev_id (events h)) →
  version_refs g owners v → version_refs h owners' v.
Proof. intros Ho He [H1 H2]. split; auto. Qed.

Lemma incl_snoc {A B} (f : A → B) l x : incl (map f l) (map f (l ++ [x])).
Proof. rewrite map_app. apply incl_appl, incl_refl. Qed.

#[export] Hint Resolve NoDup_snoc Forall_snoc incl_snoc incl_refl : store.

(** The references of a graph survive when events and owners are only added. *)
Lemma graph_refs_mono g h :
  graph_ok g → incl (map ev_id (events g)) (map ev_id (events h)) →
  incl (map nd_id (nodes g)) (map nd_id (nodes h)) →
  incl (map ed_id (edges g)) (map ed_id (edges h)) →
  Forall (λ n, In (nd_event n) (map ev_id (events h))) (nodes g) ∧
  Forall (λ e, In (ed_source e) (map nd_id (nodes h)) ∧ In (ed_target e) (map nd_id (nodes h)) ∧
               In (ed_event e) (map ev_id (events h))) (edges g) ∧
  Forall (version_refs h (map nd_id (nodes h))) (node_versions g) ∧
  Forall (version_refs h (map ed_id (edges h))) (edge_versions g).
Proof.
  intros Hg He Hn Hd. split_and!.
  - eapply Forall_impl; [apply (go_node_event _ Hg)|]. intros n. apply He.
  - eapply Forall_impl; [apply (go_edge_refs _ Hg)|]. intros n (? & ? & ?). split_and!; auto.
  - eapply Forall_impl; [apply (go_node_version_refs _ Hg)|]. intros v. by apply version_refs_mono.
  - eapply Forall_impl; [apply (go_edge_version_refs _ Hg)|]. intros v. by apply version_refs_mono.
Qed.

Ltac table_step :=
  cbn [events subjects nodes edges node_versions edge_versions generation] in *;
  first [assumption | apply (advances_refl _) | apply (advances_app _) | lia
        | by apply NoDup_snoc | apply Forall_snoc; [assumption|] | idtac].

(** Both halves of a statement lemma: the new graph is well formed and it
    extends the old one. *)
Ltac graph_step :=
  intros Hg;
  match goal with |- graph_ok ?h =>
    destruct (graph_refs_mono _ h Hg) as (R1 & R2 & R3 & R4);
      [first [apply incl_refl | apply incl_snoc] .. | destruct Hg; split; table_step; try done]
  end.

Lemma insert_event_ok e g h :
  insert_event e g = Ok h → ev_sha e = sha256 (ev_payload e) →
  (graph_ok g → graph_ok h) ∧ graph_extends g h ∧ events h = events g ++ [e] ∧
  node_versions h = node_versions g ∧ edge_versions h = edge_versions g.
Proof.
  unfold insert_event, unique, has_event. intros H He. inv_ok. split_and!; try done.
  - graph_step. rewrite go_subjects0, flat_map_app. simpl. by rewrite app_nil_r.
  - split; table_step. done.
Qed.

Lemma insert_node_ok n g h :
  insert_node n g = Ok h →
  (graph_ok g → graph_ok h) ∧ graph_extends g h ∧ events h = events g ∧
  node_versions h = node_versions g ∧ edge_versions h = edge_versions g ∧
  nodes h = nodes g ++ [n] ∧ ~ In (nd_id n) (map nd_id (nodes g)).
Proof.
  unfold insert_node, unique, references, has_event, has_node. intros H. inv_ok. bool_hyps.
  split_and!; try done; [|split; table_step|by apply mem_not_In].
  graph_step. by apply mem_In.
Qed.

Lemma insert_edge_ok e g h :
  insert_edge e g = Ok h →
  (graph_ok g → graph_ok h) ∧ graph_extends g h ∧ events h = events g ∧
  node_versions h = node_versions g ∧ edge_versions h = edge_versions g.
Proof.
  unfold insert_edge, unique, references, has_event, has_node, has_edge. intros H. inv_ok. bool_hyps.
  split_and!; try done; [|split; table_step].
  graph_step. by rewrite <- !mem_In.
Qed.

(** An open version needs an owner without an open version, or one that may
    have several. *)
Definition owner_free (l : list version_row) (owner : string) : Prop :=
  ∀ v, In v l → vr_owner v = owner → is_open v = false.

Lemma one_open_snoc R l v :
  one_open R l → (is_open v = true → R (vr_owner v) ∨ owner_free l (vr_owner v)) →
  one_open R (l ++ [v]).
Proof.
  intros Hl Hf w x Hw Hx E Ow Ox. apply in_app_iff in Hw, Hx.
  destruct Hw as [Hw|[->|[]]], Hx as [Hx|[->|[]]]; [by apply Hl|..|by right].
  - rewrite E. destruct (Hf Ox) as [?|H]; [by left|]. by rewrite (H w Hw E) in Ow.
  - destruct (Hf Ow) as [?|H]; [by left|]. by rewrite (H x Hx (eq_sym E)) in Ox.
Qed.

Lemma one_open_mono (R S : string → Prop) l : (∀ o, R o → S o) → one_open R l → one_open S l.
Proof. intros H Hl v w Hv Hw E Ov Ow. destruct (Hl v w); auto. Qed.

Lemma insert_version_ok v g h :
  insert_version v g = Ok h → version_ok v →
  (graph_ok g → graph_ok h) ∧ graph_extends g h ∧ events h = events g ∧
  node_versions h = node_versions g ++ [v] ∧ edge_versions h = edge_versions g.
Proof.
  unfold insert_version, unique, references, has_event, has_node. intros H Hv. inv_ok. bool_hyps.
  split_and!; try done; [|split; table_step].
  graph_step. split; by apply mem_In.
Qed.

Lemma insert_edge_version_ok v g h :
  insert_edge_version v g = Ok h → version_ok v →
  (graph_ok g → graph_ok h) ∧ graph_extends g h ∧ events h = events g ∧
  node_versions h = node_versions g ∧ edge_versions h = edge_versions g ++ [v].
Proof.
  unfold insert_edge_version, unique, references, has_event, has_edge. intros H Hv. inv_ok. bool_hyps.
  split_and!; try done; [|split; table_step].
  graph_step; [split; by apply mem_In|]. apply one_open_snoc; [done|]. intros Ho. right.
  intros w Hw E. destruct (is_open w) eqn:Ow; [|done]. exfalso.
  match goal with H : _ && open_edge_version _ _ = false |- _ =>
    rewrite Ho in H; apply not_true_iff_false in H; apply H end.
  apply existsb_exists. exists w. rewrite E, Ow, String.eqb_refl. by split.
Qed.

(** *** Updates *)
Lemma update_where_ids p f l :
  (∀ v, vr_id (f v) = vr_id v) → map vr_id (update_where p f l) = map vr_id l.
Proof.
  intros Hf. unfold update_where. rewrite map_map. apply map_ext. intros v.
  destruct (p v); auto.
Qed.

Lemma update_where_Forall (P : version_row → Prop) p f l :
  Forall P l → (∀ v, P v → P (f v)) → Forall P (update_where p f l).
Proof.
  intros Hl Hf. unfold update_where. apply Forall_fmap. eapply Forall_impl; [exact Hl|].
  intros v Hv. simpl. destruct (p v); auto.
Qed.

Lemma update_where_none p f l : matching p l = 0 → update_where p f l = l.
Proof.
  unfold matching, update_where. induction l as [|v l IH]; simpl; [done|].
  rewrite filter_cons. case_decide as Hp; simpl.
  - intros H. lia.
  - intros H. destruct (p v); [done|]. by rewrite IH.
Qed.

Lemma closed_not_open now t v : is_open (closed now t v) = false.
Proof. reflexivity. Qed.

Lemma update_where_open p now b l v :
  In v (update_where p (close now b) l) → is_open v = true → In v l ∧ p v = false.
Proof.
  unfold update_where. rewrite in_map_iff. intros (w & E & Hw) Ho.
  destruct (p w) eqn:Hp; subst v; [discriminate Ho|]. by split.
Qed.

Lemma one_open_update R p now b l : one_open R l → one_open R (update_where p (close now b) l).
Proof.
  intros Hl v w Hv Hw E Ov Ow.
  apply update_where_open in Hv as [Hv _], Hw as [Hw _]; auto.
Qed.

Lemma version_ok_closed now t v : version_ok v → version_ok (closed now t v).
Proof. intros [H1 H2 (m & [])]. split; [done..|]. by exists m. Qed.

Lemma update_where_closes p now b l :
  (∀ v, In v l → p v = true → is_open v = true) → advances closes l (update_where p (close now b) l).
Proof.
  intros Hp. exists (update_where p (close now b) l), []. split; [by rewrite app_nil_r|].
  unfold update_where. induction l as [|v l IH]; simpl; constructor.
  - destruct (p v) eqn:E; [|by left]. right. split; [apply Hp; simpl; auto|]. by do 2 eexists.
  - apply IH. intros w Hw. apply Hp. by right.
Qed.

Lemma matching_nonneg p l : 0 ≤ matching p l.
Proof. unfold matching. lia. Qed.

Lemma close_version_ok id now b g :
  (∀ v, In v (node_versions g) → vr_id v = id → is_open v = true) →
  (graph_ok g → graph_ok (close_version id now b g)) ∧ graph_extends g (close_version id now b g).
Proof.
  intros Hid. unfold close_version.
  pose proof (matching_nonneg (λ v, String.eqb (vr_id v) id) (node_versions g)).
  split.
  - graph_step.
    + by rewrite update_where_ids.
    + by apply update_where_Forall.
    + apply update_where_Forall; [done|]. intros v. apply version_ok_closed.
  - split; table_step.
    + apply update_where_closes. intros v Hv E. apply Hid; [done|]. by apply String.eqb_eq.
    + intros E. rewrite update_where_none by lia. done.
Qed.

Lemma close_edges_ok p now g :
  (∀ v, In v (edge_versions g) → p v = true → is_open v = true) →
  (graph_ok g → graph_ok (close_edges p now g)) ∧ graph_extends g (close_edges p now g).
Proof.
  intros Hp. unfold close_edges. pose proof (matching_nonneg p (edge_versions g)).
  split.
  - graph_step.
    + by rewrite update_where_ids.
    + by apply update_where_Forall.
    + apply update_where_Forall; [done|]. intros v. apply version_ok_closed.
    + by apply one_open_update.
  - split; table_step.
    + by apply update_where_closes.
    + intros E. rewrite update_where_none by lia. done.
Qed.

(** ** The statements keep the database well formed *)
Lemma advances_eq_incl {A B} (f : A → B) l l' : advances eq l l' → incl (map f l) (map f l').
Proof.
  intros H x Hx. apply in_map_iff in Hx as (a & <- & Ha).
  apply in_map, (advances_eq_In a l l' H Ha).
Qed.

Lemma intake_ok_mono g h i : graph_extends g h → intake_ok g i → intake_ok h i.
Proof.
  intros Hx []. pose proof (advances_eq_incl ev_id _ _ (gx_events _ _ Hx)) as Hi.
  split; [done..| |]; (eapply Forall_impl; [eassumption|]); intros r; apply Hi.
Qed.

Lemma advances_map_incl {A B} (R : A → A → Prop) (f : A → B) l l' :
  (∀ x y, R x y → f y = f x) → advances R l l' → incl (map f l) (map f l').
Proof.
  intros Hf H x Hx. apply in_map_iff in Hx as (a & <- & Ha).
  destruct (advances_In _ _ _ _ H Ha) as (y & Hy & Hin). rewrite <- (Hf a y Hy). by apply in_map.
Qed.

Lemma closes_version_of v w : closes v w → version_of w = version_of v.
Proof. by intros [->|(_ & now & t & ->)]. Qed.

Lemma semantic_ok_mono g h m : graph_extends g h → semantic_ok g m → semantic_ok h m.
Proof.
  intros Hx []. pose proof (advances_eq_incl ev_id _ _ (gx_events _ _ Hx)) as He.
  pose proof (advances_map_incl _ version_of _ _ closes_version_of (gx_node_versions _ _ Hx)) as Hv.
  split; try done; (eapply Forall_impl; [eassumption|]); intros r; auto.
Qed.

Lemma governed_mono m n o : semantic_extends m n → governed m o → governed n o.
Proof. intros Hx. apply (advances_eq_incl sv_record _ _ (sx_nodes _ _ Hx)). Qed.

Section database.
Context `{signing : crypto}.

(** Approvals are never withdrawn. *)
Lemma approved_mono a b r g : authority_extends a b → approved a r g → approved b r g.
Proof.
  intros Hx [(Hg & ? & ?) (k & s & p & Hk & ?) ?]. split; [|exists k, s, p|done].
  - split; [|done]. by apply (advances_eq_In _ _ _ (ax_grants _ _ Hx)).
  - by rewrite (ax_keys _ _ Hx).
Qed.

Lemma authorized_mono event a b : authority_extends a b → authorized event a → authorized event b.
Proof.
  intros Hx (r & g & m & Hr & Hs & Hm & He & Ha).
  destruct (advances_In _ _ _ _ (ax_prepared _ _ Hx) Hr) as (s & [->|[Hp _]] & Hs').
  - exists r, g, m. split_and!; try done. by apply (approved_mono a).
  - rewrite Hs in Hp. discriminate.
Qed.

Lemma versions_authorized_mono a b l :
  authority_extends a b → versions_authorized a l → versions_authorized b l.
Proof.
  intros Hx H. eapply Forall_impl; [exact H|]. intros v Hv Ht. by apply (authorized_mono _ a), Hv.
Qed.

(** What a statement may assume and must restore. *)
Definition step (d e : db) : Prop := (db_ok d → db_ok e) ∧ extends d e.

#[export] Instance step_preorder : PreOrder step.
Proof.
  split; [done|]. intros a b c [H1 H2] [H3 H4]. split; [auto|by etransitivity].
Qed.

Lemma graph_step_db d h :
  (graph_ok (the_graph d) → graph_ok h) → graph_extends (the_graph d) h →
  (db_ok d → one_open (governed (the_semantic d)) (node_versions h) ∧
             versions_authorized (the_authority d) (node_versions h) ∧
             versions_authorized (the_authority d) (edge_versions h)) →
  step d (with_graph h d).
Proof.
  intros Hg Hx Hv. split; [|by apply extends_graph]. intros Hd.
  destruct (Hv Hd) as (H1 & H2 & H3). destruct Hd. split; simpl; auto.
  - by apply (intake_ok_mono (the_graph d)).
  - by apply (semantic_ok_mono (the_graph d)).
Qed.

Lemma insert_event_step e d h :
  insert_event e (the_graph d) = Ok h → ev_sha e = sha256 (ev_payload e) → step d (with_graph h d).
Proof.
  intros H He. destruct (insert_event_ok _ _ _ H He) as (H1 & H2 & _ & H3 & H4).
  apply graph_step_db; [done..|]. intros []. by rewrite H3, H4.
Qed.

Lemma insert_node_step n d h :
  insert_node n (the_graph d) = Ok h → step d (with_graph h d).
Proof.
  intros H. destruct (insert_node_ok _ _ _ H) as (H1 & H2 & _ & H3 & H4 & _).
  apply graph_step_db; [done..|]. intros []. by rewrite H3, H4.
Qed.

Lemma insert_edge_step e d h :
  insert_edge e (the_graph d) = Ok h → step d (with_graph h d).
Proof.
  intros H. destruct (insert_edge_ok _ _ _ H) as (H1 & H2 & _ & H3 & H4).
  apply graph_step_db; [done..|]. intros []. by rewrite H3, H4.
Qed.

(** A version row that may be written: with authority only under an approval. *)
Definition sanctioned (v : version_row) (a : authority) : Prop :=
  authoritative (vr_tier v) = true → authorized (vr_event v) a.

Lemma insert_version_step v d h :
  insert_version v (the_graph d) = Ok h → version_ok v → sanctioned v (the_authority d) →
  (is_open v = true → governed (the_semantic d) (vr_owner v) ∨
                      owner_free (node_versions (the_graph d)) (vr_owner v)) →
  step d (with_graph h d).
Proof.
  intros H Hv Hs Ho. destruct (insert_version_ok _ _ _ H Hv) as (H1 & H2 & _ & H3 & H4).
  apply graph_step_db; [done..|]. intros []. rewrite H3, H4. split_and!; [|by apply Forall_snoc|done].
  by apply one_open_snoc.
Qed.

Lemma insert_edge_version_step v d h :
  insert_edge_version v (the_graph d) = Ok h → version_ok v → sanctioned v (the_authority d) →
  step d (with_graph h d).
Proof.
  intros H Hv Hs. destruct (insert_edge_version_ok _ _ _ H Hv) as (H1 & H2 & _ & H3 & H4).
  apply graph_step_db; [done..|]. intros []. rewrite H3, H4. split_and!; [done..|].
  by apply Forall_snoc.
Qed.

Lemma close_authorized a p now b l :
  versions_authorized a l → versions_authorized a (update_where p (close now b) l).
Proof. intros H. apply update_where_Forall; [done|]. intros v Hv. exact Hv. Qed.

Lemma close_version_step id now b d :
  (∀ v, In v (node_versions (the_graph d)) → vr_id v = id → is_open v = true) →
  step d (with_graph (close_version id now b (the_graph d)) d).
Proof.
  intros H. destruct (close_version_ok id now b _ H) as [H1 H2].
  apply graph_step_db; [done..|]. intros [].
  split_and!; [by apply one_open_update|by apply close_authorized|done].
Qed.

Lemma close_edges_step p now d :
  (∀ v, In v (edge_versions (the_graph d)) → p v = true → is_open v = true) →
  step d (with_graph (close_edges p now (the_graph d)) d).
Proof.
  intros H. destruct (close_edges_ok p now _ H) as [H1 H2].
  apply graph_step_db; [done..|]. intros []. split_and!; [done..|by apply close_authorized].
Qed.

(** *** Intake *)
Ltac intake_step :=
  unfold unique, references, has_event in *; inv_ok; bool_hyps;
  split; [intros [? [] ? ? ? ? ?]; split; try done; split; simpl; try done | split; simpl; try done; try apply (advances_refl _); apply (advances_app _)].

Lemma insert_receipt_step r d e : insert_receipt r d = Ok e → step d e.
Proof.
  unfold insert_receipt. intros H. intake_step.
  - by apply NoDup_snoc.
  - apply Forall_snoc; [done|]. by apply mem_In.
Qed.

Lemma insert_dedup_step r d e : insert_dedup r d = Ok e → step d e.
Proof.
  unfold insert_dedup. intros H. intake_step.
  - rewrite map_app. simpl. apply (Permutation_NoDup (l := dedup_key r :: map dedup_key (dedup (the_intake d)))).
    { rewrite <- (Permutation_app_comm [dedup_key r]). reflexivity. }
    constructor; [|done]. intros Hin. apply in_map_iff in Hin as (y & E & Hy).
    match goal with H : existsb _ _ = false |- _ => apply not_true_iff_false in H; apply H end.
    apply existsb_exists. exists y. split; [done|]. unfold dedup_key in E. injection E as E1 E2.
    unfold is_dedup. by rewrite E1, E2, !String.eqb_refl.
  - apply Forall_snoc; [done|]. by apply mem_In.
Qed.

Lemma insert_consumed_step r d e : insert_consumed r d = Ok e → step d e.
Proof. unfold insert_consumed. intros H. intake_step. by apply NoDup_snoc. Qed.

(** *** Governed tables *)
Lemma semantic_step_db d m :
  (semantic_ok (the_graph d) (the_semantic d) → semantic_ok (the_graph d) m) →
  semantic_extends (the_semantic d) m → step d (with_semantic m d).
Proof.
  intros Hm Hx. split; [|by apply extends_semantic]. intros []. split; simpl; auto.
  eapply one_open_mono; [|done]. intros o. by apply governed_mono.
Qed.

Lemma Forall_In_snoc {A B} (f : A → string) (l : list A) x (Q : B → string) (P : B → Prop) (k : list B) :
  Forall (λ r, In (Q r) (map f l) ∧ P r) k → Forall (λ r, In (Q r) (map f (l ++ [x])) ∧ P r) k.
Proof.
  intros H. eapply Forall_impl; [exact H|]. intros r [Hr ?]. split; [|done]. by apply incl_snoc.
Qed.

Lemma Forall_in_snoc {A B} (f : A → string) (l : list A) x (Q : B → string) (k : list B) :
  Forall (λ r, In (Q r) (map f l)) k → Forall (λ r, In (Q r) (map f (l ++ [x]))) k.
Proof. intros H. eapply Forall_impl; [exact H|]. intros r Hr. by apply incl_snoc. Qed.

Ltac semantic_cbn :=
  cbn [semantic_nodes artifacts semantic_relations partitions policies corrections contests
       confidence_heads].

Ltac semantic_step :=
  unfold unique, references, check, has_event, has_version, has_semantic, has_relation in *;
  inv_ok; bool_hyps;
  repeat match goal with H : negb _ = false |- _ => apply negb_false_iff in H end;
  apply semantic_step_db;
  [intros []; split; semantic_cbn; try done;
     try first [by apply NoDup_snoc|by apply Forall_In_snoc|by apply Forall_in_snoc]
  |split; semantic_cbn; try done; try apply (advances_refl _); try apply (advances_app _)].

Lemma insert_semantic_step r d e :
  insert_semantic r d = Ok e → sv_sha r = sha256 (sv_envelope r) →
  In (sv_version r, sv_record r) (map version_of (node_versions (the_graph d))) → step d e.
Proof. unfold insert_semantic. intros H Hs Hr. semantic_step; by apply Forall_snoc. Qed.

Lemma insert_artifact_step r d e :
  insert_artifact r d = Ok e → ar_sha r = sha256 (ar_content r) →
  ar_count r = Z.of_nat (String.length (ar_content r)) → step d e.
Proof.
  unfold insert_artifact. intros H Hs Hr.
  semantic_step; apply Forall_snoc; try done. by apply mem_In.
Qed.

Lemma insert_relation_step r d e :
  insert_relation r d = Ok e → sr_sha r = sha256 (sr_envelope r) → step d e.
Proof. unfold insert_relation. intros H Hs. semantic_step. by apply Forall_snoc. Qed.

Lemma insert_partition_step r d e : insert_partition r d = Ok e → step d e.
Proof. unfold insert_partition. intros H. semantic_step. apply Forall_snoc; [done|]. by rewrite <- !mem_In. Qed.

Lemma insert_policy_step r d e : insert_policy r d = Ok e → step d e.
Proof.
  unfold insert_policy. intros H. semantic_step. bool_hyps. apply Forall_snoc; [done|].
  by rewrite <- !mem_In.
Qed.

Lemma insert_correction_step r d e : insert_correction r d = Ok e → step d e.
Proof. unfold insert_correction. intros H. semantic_step. apply Forall_snoc; [done|]. by apply mem_In. Qed.

Lemma insert_contest_step r d e : insert_contest r d = Ok e → step d e.
Proof. unfold insert_contest. intros H. semantic_step. apply Forall_snoc; [done|]. by apply mem_In. Qed.

(** A head of the key is replaced, another key is added. *)
Lemma same_head_key r s : same_head r s = true ↔ head_key s = head_key r.
Proof.
  unfold same_head, head_key. rewrite !andb_true_iff, !String.eqb_eq. split.
  - by intros [[[-> ->] ->] ->].
  - by intros [= -> -> -> ->].
Qed.

Lemma put_heads_renews r l : advances renews l (put_heads r l).
Proof.
  unfold put_heads. destruct (existsb _ l); [|apply (advances_app _)].
  apply advances_map. intros s. destruct (same_head r s) eqn:E; [|done]. by apply same_head_key in E.
Qed.

Lemma put_heads_keys r l : List.NoDup (map head_key l) → List.NoDup (map head_key (put_heads r l)).
Proof.
  unfold put_heads. destruct (existsb (same_head r) l) eqn:E; intros H.
  - rewrite map_map. erewrite map_ext; [exact H|]. intros s. simpl.
    destruct (same_head r s) eqn:F; [|done]. by apply same_head_key in F.
  - rewrite map_app. apply (Permutation_NoDup (l := head_key r :: map head_key l)).
    { rewrite <- (Permutation_app_comm [head_key r]). reflexivity. }
    constructor; [|done]. intros Hin. apply in_map_iff in Hin as (y & Ey & Hy).
    apply not_true_iff_false in E. apply E, existsb_exists. exists y. split; [done|].
    by apply same_head_key.
Qed.

Lemma put_heads_Forall (P : head_row → Prop) r l : Forall P l → P r → Forall P (put_heads r l).
Proof.
  intros Hl Hr. unfold put_heads. destruct (existsb _ l); [|by apply Forall_snoc].
  apply Forall_fmap. eapply Forall_impl; [exact Hl|]. intros s Hs. simpl. by destruct (same_head r s).
Qed.

Lemma insert_head_step b r d e : insert_head b r d = Ok e → step d e.
Proof.
  unfold insert_head. intros H. semantic_step.
  - by apply put_heads_keys.
  - apply put_heads_Forall; [done|]. by apply mem_In.
  - apply put_heads_renews.
Qed.

(** *** Authority *)
Lemma authority_step_db d b :
  (authority_ok (the_authority d) → authority_ok b) → authority_extends (the_authority d) b →
  step d (with_authority b d).
Proof.
  intros Hb Hx. split; [|by apply extends_authority]. intros []. split; simpl; auto;
    by apply (versions_authorized_mono (the_authority d)).
Qed.

Ltac authority_step :=
  unfold unique in *; inv_ok; bool_hyps;
  apply authority_step_db;
  [intros []; split; simpl; try done
  |split; simpl; try done; try apply (advances_refl _); try apply (advances_app _)].

Lemma insert_prepared_step r d e : insert_prepared r d = Ok e → step d e.
Proof. unfold insert_prepared. intros H. authority_step. by apply NoDup_snoc. Qed.

Lemma insert_challenge_step r d e : insert_challenge r d = Ok e → step d e.
Proof. unfold insert_challenge. intros H. authority_step. by apply NoDup_snoc. Qed.

Lemma insert_grant_step r d e : insert_grant r d = Ok e → step d e.
Proof. unfold insert_grant. intros H. authority_step; by apply NoDup_snoc. Qed.

Lemma set_prepared_step op f d e n :
  (∀ r, ∃ status executed provenance, f r = with_status status executed provenance r) →
  set_prepared op f d = (e, n) → step d e.
Proof.
  unfold set_prepared. intros Hf H. injection H as <- _. authority_step.
  - rewrite map_map. erewrite map_ext; [exact ao_prepared0|]. intros r.
    destruct (Hf r) as (? & ? & ? & ->). by destruct (pending op r).
  - apply advances_map. intros r. destruct (pending op r) eqn:E; [|by left]. right.
    unfold pending in E. bool_hyps. split; [by apply String.eqb_eq|apply Hf].
Qed.

Lemma consume_challenge_step nonce at_ pr d e n :
  consume_challenge nonce at_ pr d = (e, n) → step d e.
Proof.
  unfold consume_challenge. intros H. injection H as <- _. authority_step.
  - rewrite map_map. erewrite map_ext; [exact ao_challenges0|]. intros r. by destruct (unconsumed nonce r).
  - apply advances_map. intros r. destruct (unconsumed nonce r) eqn:E; [|by left]. right.
    unfold unconsumed in E. bool_hyps. destruct (ch_consumed r); [discriminate|]. split; [done|eauto].
Qed.
End database.
