(* ===== verification/Txn.v ===== *)
(** * Transactions of the writer ([ImprintStore.connect])

    A write runs on a connection: the rows it sees ([live]), the rows last
    committed ([saved]) and how many identifiers and clock readings it has
    drawn.  Leaving [connect] commits, an exception rolls back to the last
    commit; a commit in the middle keeps what it made durable.  File checks,
    locks and permissions of [connect] are outside the model.

    The second half is a program logic for such writes: a triple
    [hoare P m Q] that carries the integrity of the store along. *)
From S2P Require Import Prelude PyTime Urn Contracts Codec Json Names Clock Tables Integrity.

(** [uuid.uuid4], [secrets.token_bytes(32)] and [datetime.now(timezone.utc)]:
    the [n]-th value drawn *)
Class environment : Type := {
  uuids : nat → Z; tokens : nat → string; clock : nat → datetime
}.

Record conn : Type := { live : db; saved : db; drawn : nat; ticks : nat }.

Definition txn (A : Type) : Type := conn → res A * conn.

#[export] Instance txn_ret : MRet txn := λ A a c, (Ok a, c).
#[export] Instance txn_bind : MBind txn := λ A B f m c,
  match m c with (Ok a, c') => f a c' | (Err e, c') => (Err e, c') end.

Definition raise {A} (e : exn) : txn A := λ c, (Err e, c).
Definition lift {A} (m : res A) : txn A := λ c, (m, c).
Definition guard (bad : bool) (e : exn) : txn unit := lift (raise_if bad e).
Definition query {A} (f : db → A) : txn A := λ c, (Ok (f (live c)), c).

Definition with_live (d : db) (c : conn) : conn :=
  {| live := d; saved := saved c; drawn := drawn c; ticks := ticks c |}.

Definition exec (f : db → res db) : txn unit := λ c,
  match f (live c) with Ok d => (Ok tt, with_live d c) | Err e => (Err e, c) end.

Definition on_graph (f : graph → res graph) (d : db) : res db :=
  g ← f (the_graph d); Ok (with_graph g d).

Definition update (f : db → db * Z) : txn Z := λ c,
  let '(d, n) := f (live c) in (Ok n, with_live d c).

Definition on_graph_update (f : graph → graph) (d : db) : res db :=
  Ok (with_graph (f (the_graph d)) d).

Definition commit : txn unit := λ c,
  (Ok tt, {| live := live c; saved := live c; drawn := drawn c; ticks := ticks c |}).
Definition rollback (c : conn) : conn :=
  {| live := saved c; saved := saved c; drawn := drawn c; ticks := ticks c |}.

(** [with self.connect() as conn: ...] *)
Definition connect {A} (body : txn A) : txn A := λ c,
  match body (rollback c) with
  | (Ok a, c') => (Ok a, (commit c').2)
  | (Err e, c') => (Err e, rollback c')
  end.

(** [SAVEPOINT s; try: ... except: ROLLBACK TO s; RELEASE s] *)
Definition savepoint {A} (m : txn A) : txn (res A) := λ c,
  match m c with
  | (Ok a, c') => (Ok (Ok a), c')
  | (Err e, c') => (Ok (Err e), with_live (live c) c')
  end.

Fixpoint for_all {A} (f : A → txn unit) (l : list A) : txn unit :=
  match l with
  | [] => mret tt
  | x :: r => f x ;; for_all f r
  end.

Section draws.
Context `{env : environment}.

Definition fresh (kind : string) : txn string := λ c,
  (make_urn (uuids (drawn c)) kind,
   {| live := live c; saved := saved c; drawn := S (drawn c); ticks := ticks c |}).

Definition fresh_token : txn string := λ c,
  (Ok (tokens (drawn c)),
   {| live := live c; saved := saved c; drawn := S (drawn c); ticks := ticks c |}).

Definition now_ : txn datetime := λ c,
  (Ok (clock (ticks c)),
   {| live := live c; saved := saved c; drawn := drawn c; ticks := S (ticks c) |}).

(** [utc_now] of the store *)
Definition utc_now : txn string := t ← now_; mret (isoformat_utc t).
End draws.

(** ** Columns and JSON values *)

(** A value bound to a [TEXT] column: the contracts give strings. *)
Definition text_of (v : json) : res string :=
  match v with JStr s => Ok s | _ => Err TypeError end.
Definition text_item (k : string) (m : obj) : res string := v ← item k m; text_of v.
Definition obj_of (v : json) : res obj := match v with JObj m => Ok m | _ => Err TypeError end.
Definition int_of (v : json) : res Z := match v with JInt z => Ok z | _ => Err TypeError end.
Definition obj_item (k : string) (m : obj) : res obj := v ← item k m; obj_of v.
Definition list_item (k : string) (m : obj) : res (list json) :=
  v ← item k m; match v with JList l => Ok l | _ => Err TypeError end.
Definition texts_item (k : string) (m : obj) : res (list string) :=
  l ← list_item k m; map_res text_of l.
Definition opt_text (v : json) : res (option string) :=
  match v with JStr s => Ok (Some s) | JNull => Ok None | _ => Err TypeError end.

Definition load_json (text : string) : res json :=
  match loads text with Some v => Ok v | None => Err (ValueError "malformed JSON") end.

(** [json.loads(column)] of a column holding an object *)
Definition read_obj (text : string) : res obj :=
  match loads text with
  | Some (JObj m) => Ok m
  | Some _ => Err AttributeError
  | None => Err (ValueError "malformed JSON")
  end.

(** ** Runs: what a result says of the steps *)
Lemma txn_bind_Ok {A B} (m : txn A) (f : A → txn B) c b c2 :
  (m ≫= f) c = (Ok b, c2) ↔ ∃ a c1, m c = (Ok a, c1) ∧ f a c1 = (Ok b, c2).
Proof.
  unfold mbind, txn_bind. destruct (m c) as [[a|e] c1]; split.
  - intros H. by exists a, c1.
  - intros (? & ? & [= <- <-] & H). exact H.
  - intros [=].
  - intros (? & ? & [=] & _).
Qed.

Lemma txn_bind_run {A B} (m : txn A) (f : A → txn B) c a c1 :
  m c = (Ok a, c1) → (m ≫= f) c = f a c1.
Proof. unfold mbind, txn_bind. by intros ->. Qed.

Lemma txn_bind_fail {A B} (m : txn A) (f : A → txn B) c e c1 :
  m c = (Err e, c1) → (m ≫= f) c = (Err e, c1).
Proof. unfold mbind, txn_bind. by intros ->. Qed.

Lemma txn_lift_Ok {A} (m : res A) c a c1 : lift m c = (Ok a, c1) ↔ m = Ok a ∧ c1 = c.
Proof. unfold lift. split; [by intros [= -> <-]|by intros [-> ->]]. Qed.

Lemma guard_Ok b e c u c1 : guard b e c = (Ok u, c1) ↔ b = false ∧ c1 = c.
Proof. destruct u. unfold guard. rewrite txn_lift_Ok. destruct b; simpl; intuition congruence. Qed.

Lemma query_Ok {A} (f : db → A) c a c1 : query f c = (Ok a, c1) ↔ a = f (live c) ∧ c1 = c.
Proof. unfold query. split; [by intros [= <- <-]|by intros [-> ->]]. Qed.

Lemma exec_Ok f c u c1 : exec f c = (Ok u, c1) ↔ ∃ d, f (live c) = Ok d ∧ c1 = with_live d c.
Proof.
  destruct u. unfold exec. destruct (f (live c)); split.
  - intros [= <-]. eauto.
  - by intros (? & [= <-] & ->).
  - intros [=].
  - by intros (? & [=] & _).
Qed.

Lemma ret_Ok {A} (a b : A) c c1 : mret (M := txn) a c = (Ok b, c1) ↔ b = a ∧ c1 = c.
Proof. split; [by intros [= <- <-]|by intros [-> ->]]. Qed.

(** Decompose a successful run into its statements. *)
Ltac inv_txn :=
  repeat match goal with
  | H : (_ ≫= _) _ = (Ok _, _) |- _ => apply txn_bind_Ok in H as (? & ? & ? & H); cbv beta in H
  | H : lift _ _ = (Ok _, _) |- _ => apply txn_lift_Ok in H as [? ?]; subst
  | H : guard _ _ _ = (Ok _, _) |- _ => apply guard_Ok in H as [? ?]; subst
  | H : query _ _ = (Ok _, _) |- _ => apply query_Ok in H as [? ?]; subst
  | H : exec _ _ = (Ok _, _) |- _ => apply exec_Ok in H as (? & ? & ?); subst
  | H : mret _ _ = (Ok _, _) |- _ => apply ret_Ok in H as [? ?]; subst
  | H : raise _ _ = (Ok _, _) |- _ => discriminate H
  end.

(** ** The logic *)
Section logic.
Context `{signing : crypto} (d0 : db).

Definition good (d : db) : Prop := db_ok d ∧ extends d0 d.
Definition good_conn (c : conn) : Prop := good (live c) ∧ good (saved c).

Definition hoare {A} (P : db → Prop) (m : txn A) (Q : A → db → Prop) : Prop :=
  ∀ c, good_conn c → P (live c) →
  good_conn (m c).2 ∧ match (m c).1 with Ok a => Q a (live (m c).2) | Err _ => True end.

Lemma step_good d e : step d e → good d → good e.
Proof. intros [H1 H2] [H3 H4]. split; [auto|by etransitivity]. Qed.

Lemma hoare_ret {A} (P : db → Prop) (a : A) (Q : A → db → Prop) :
  (∀ d, P d → Q a d) → hoare P (mret a) Q.
Proof. intros H c Hc HP. split; [done|]. by apply H. Qed.

Lemma hoare_bind {A B} (P : db → Prop) (m : txn A) (R : A → db → Prop) (f : A → txn B) Q :
  hoare P m R → (∀ a, hoare (R a) (f a) Q) → hoare P (m ≫= f) Q.
Proof.
  intros Hm Hf c Hc HP. specialize (Hm c Hc HP). unfold mbind, txn_bind.
  destruct (m c) as [[a|e] c']; simpl in *; [|by destruct Hm]. destruct Hm as [Hc' HR].
  by apply Hf.
Qed.

Lemma hoare_conseq {A} (P P' : db → Prop) (m : txn A) (Q Q' : A → db → Prop) :
  (∀ d, db_ok d → P d → P' d) → hoare P' m Q' → (∀ a d, Q' a d → Q a d) → hoare P m Q.
Proof.
  intros HP Hm HQ c Hc Hp. destruct (Hm c Hc) as [H1 H2].
  { apply HP; [apply Hc|done]. }
  split; [done|]. destruct (m c).1; auto.
Qed.

Lemma hoare_pre {A} (P P' : db → Prop) (m : txn A) Q :
  (∀ d, db_ok d → P d → P' d) → hoare P' m Q → hoare P m Q.
Proof. intros H Hm. eapply hoare_conseq; eauto. Qed.

Lemma hoare_post {A} (P : db → Prop) (m : txn A) (Q Q' : A → db → Prop) :
  hoare P m Q' → (∀ a d, Q' a d → Q a d) → hoare P m Q.
Proof. intros Hm H. eapply hoare_conseq; eauto. Qed.

Lemma hoare_pure {A} (φ : Prop) (P : db → Prop) (m : txn A) Q :
  (φ → hoare P m Q) → hoare (λ d, P d ∧ φ) m Q.
Proof. intros H c Hc [HP Hφ]. by apply H. Qed.

Lemma hoare_raise {A} P e Q : hoare P (raise (A := A) e) Q.
Proof. intros c Hc HP. by split. Qed.

Lemma hoare_lift {A B} P (m : res A) (f : A → txn B) Q :
  (∀ a, m = Ok a → hoare P (f a) Q) → hoare P (lift m ≫= f) Q.
Proof.
  intros H c Hc HP. unfold mbind, txn_bind, lift. destruct m as [a|e]; [by apply H|by split].
Qed.

Lemma hoare_guard {B} P b e (f : unit → txn B) Q :
  (b = false → hoare P (f tt) Q) → hoare P (guard b e ≫= f) Q.
Proof.
  intros H. unfold guard. apply hoare_lift. intros [] Hb. apply H. by apply raise_if_Ok in Hb.
Qed.

Lemma hoare_query {A B} (P : db → Prop) (f : db → A) (R : A → db → Prop) (k : A → txn B) Q :
  (∀ d, db_ok d → P d → R (f d) d) → (∀ a, hoare (R a) (k a) Q) → hoare P (query f ≫= k) Q.
Proof.
  intros H Hk c Hc HP. unfold mbind, txn_bind, query. apply Hk; [done|]. apply H; [apply Hc|done].
Qed.

(** The value read is remembered by the assertion, or forgotten. *)
Lemma hoare_query_keep {A B} (P : db → Prop) (f : db → A) (k : A → txn B) Q :
  (∀ a, hoare P (k a) Q) → hoare P (query f ≫= k) Q.
Proof. intros Hk. by apply (hoare_query _ _ (λ _, P)). Qed.

Lemma hoare_exec (P Q : db → Prop) f :
  (∀ d e, db_ok d → P d → f d = Ok e → step d e ∧ Q e) → hoare P (exec f) (λ _, Q).
Proof.
  intros H c [Hl Hs] HP. unfold exec. destruct (f (live c)) as [e|x] eqn:E; simpl; [|by split].
  destruct (H _ _ (proj1 Hl) HP E) as [H1 H2]. split; [|done]. split; [|done]. by apply (step_good (live c)).
Qed.

Lemma hoare_update (P : db → Prop) (Q : Z → db → Prop) f :
  (∀ d e n, db_ok d → P d → f d = (e, n) → step d e ∧ Q n e) → hoare P (update f) Q.
Proof.
  intros H c [Hl Hs] HP. unfold update. destruct (f (live c)) as [e n] eqn:E; simpl.
  destruct (H _ _ _ (proj1 Hl) HP E) as [H1 H2]. split; [|done]. split; [|done]. by apply (step_good (live c)).
Qed.

Lemma hoare_commit P : hoare P commit (λ _, P).
Proof. intros c [Hl Hs] HP. split; [by split|done]. Qed.

Lemma hoare_fresh `{env : environment} P kind : hoare P (fresh kind) (λ _, P).
Proof. intros c Hc HP. split; [done|]. simpl. by destruct (make_urn _ _). Qed.

Lemma hoare_fresh_token `{env : environment} P : hoare P fresh_token (λ _, P).
Proof. intros c Hc HP. by split. Qed.

Lemma hoare_now_ `{env : environment} P : hoare P now_ (λ _, P).
Proof. intros c Hc HP. by split. Qed.

Lemma hoare_utc_now `{env : environment} P : hoare P utc_now (λ _, P).
Proof.
  unfold utc_now. eapply hoare_bind; [apply hoare_now_|]. intros t. by apply hoare_ret.
Qed.

Lemma hoare_savepoint {A} P (m : txn A) Q :
  hoare P m (λ _, Q) → (∀ d, P d → Q d) → hoare P (savepoint m) (λ _, Q).
Proof.
  intros Hm HPQ c Hc HP. specialize (Hm c Hc HP). unfold savepoint.
  destruct (m c) as [[a|e] c']; simpl in *; [done|]. destruct Hm as [[_ Hs] _].
  split; [split; [apply Hc|done]|]. by apply HPQ.
Qed.

Lemma hoare_for_all {A} (P : db → Prop) (f : A → txn unit) l :
  (∀ x, In x l → hoare P (f x) (λ _, P)) → hoare P (for_all f l) (λ _, P).
Proof.
  induction l as [|x l IH]; intros H; simpl; [by apply hoare_ret|].
  eapply hoare_bind; [apply H; by left|]. intros u. cbv beta. apply IH. intros y Hy. apply H. by right.
Qed.

(** Assertions that survive every statement, and those that survive every
    statement but the closing of a node version. *)
Definition durable (P : db → Prop) : Prop := ∀ d e, extends d e → P d → P e.
Definition grows (d e : db) : Prop := extends d e ∧
  (∃ k, node_versions (the_graph e) = node_versions (the_graph d) ++ k) ∧
  (∃ k, edge_versions (the_graph e) = edge_versions (the_graph d) ++ k).
Definition steady (P : db → Prop) : Prop := ∀ d e, grows d e → P d → P e.

Definition always (_ : db) : Prop := True.
Definition is_authorized (event : string) (d : db) : Prop := authorized event (the_authority d).
Definition current (v : version_row) (d : db) : Prop :=
  In v (node_versions (the_graph d)) ∧ is_open v = true.
Definition current_edge (v : version_row) (d : db) : Prop :=
  In v (edge_versions (the_graph d)) ∧ is_open v = true.
Definition is_governed (id : string) (d : db) : Prop := governed (the_semantic d) id.
Definition free_owner (id : string) (d : db) : Prop :=
  is_governed id d ∨ owner_free (node_versions (the_graph d)) id.

Lemma always_durable : durable always.
Proof. done. Qed.
Lemma authorized_durable event : durable (is_authorized event).
Proof. intros d e Hx. apply authorized_mono, (xt_authority _ _ Hx). Qed.
Lemma governed_durable id : durable (is_governed id).
Proof. intros d e Hx. apply governed_mono, (xt_semantic _ _ Hx). Qed.
Lemma durable_and P Q : durable P → durable Q → durable (λ d, P d ∧ Q d).
Proof. intros HP HQ d e Hx [? ?]. split; [by apply (HP d)|by apply (HQ d)]. Qed.
Lemma durable_steady P : durable P → steady P.
Proof. intros HP d e [Hx _]. by apply HP. Qed.
Lemma steady_and P Q : steady P → steady Q → steady (λ d, P d ∧ Q d).
Proof. intros HP HQ d e Hx [? ?]. split; [by apply (HP d)|by apply (HQ d)]. Qed.
Lemma current_steady v : steady (current v).
Proof. intros d e (_ & (k & Hk) & _) [Hv Ho]. split; [|done]. rewrite Hk. apply in_app_iff. by left. Qed.
Lemma current_edge_steady v : steady (current_edge v).
Proof. intros d e (_ & _ & k & Hk) [Hv Ho]. split; [|done]. rewrite Hk. apply in_app_iff. by left. Qed.
Lemma steady_imp (φ : Prop) P : steady P → steady (λ d, φ → P d).
Proof. intros HP d e Hx H Hφ. by apply (HP d), H. Qed.

Lemma steady_same (P : db → Prop) d e :
  steady P → step d e → node_versions (the_graph e) = node_versions (the_graph d) →
  edge_versions (the_graph e) = edge_versions (the_graph d) → P d → P e.
Proof.
  intros HP [_ Hx] E1 E2. apply HP. split_and!; [done|exists []..]; by rewrite app_nil_r.
Qed.
Lemma durable_imp (φ : Prop) P : durable P → durable (λ d, φ → P d).
Proof. intros HP d e Hx H Hφ. by apply (HP d), H. Qed.
End logic.

Create HintDb steady.
#[export] Hint Resolve always_durable authorized_durable governed_durable durable_and durable_steady steady_and
  current_steady current_edge_steady steady_imp durable_imp : steady.
