(* ===== verification/Approval.v ===== *)
(** * Signed approvals ([authority/challenge.py], [authority/ledger.py],
    [AuthorityService], [ImprintStore._consume_authority])

    An authority-raising write runs twice.  Without a token it stores a
    prepared mutation, commits it and refuses; with a token it consumes the
    signed challenge of exactly that mutation and goes on with the stored
    execution fields.  The private key, the console and the files of the
    ceremony are outside the model: a token is any challenge with any
    signature, and [ed25519_verify] decides. *)
From S2P Require Import Prelude PyTime Urn Contracts Codec Json Names Clock Tables Integrity Txn.

Definition CONTRACT_VERSION := "imprint.authority.approval/1.1.0".
Definition DOMAIN_SEPARATOR := "imprint-authority-approval-v1".
Definition MAX_TTL_SECONDS : Z := 120.
Definition PREPARED_TTL_SECONDS : Z := 24 * 60 * 60.
Definition LIST_FIELDS :=
  ["subject_ids"; "source_ids"; "target_ids"; "proposal_ids"; "result_version_ids"; "scope";
   "field_paths"].
Definition TEXT_FIELDS :=
  ["contract_version"; "domain_separator"; "operator_id"; "install_id"; "key_id";
   "store_identity"; "operation_id"; "purpose"; "payload_sha256"; "prior_state_sha256";
   "execution_fields_sha256"; "authority_transition"; "nonce"; "issued_at"; "expires_at"].
Definition _REQUIRED_FIELDS := TEXT_FIELDS ++ "ledger_sequence" :: LIST_FIELDS.

(** [_string_list] *)
Definition _string_list (name : string) (values : list string) : res (list string) :=
  raise_if (existsb (String.eqb "") values) (ValidationError (name +:+ " must contain non-empty strings")) ;;
  raise_if (negb (Nat.eqb (length (dedup_strs values)) (length values)))
    (ValidationError (name +:+ " must not contain duplicates")) ;;
  Ok values.

(** ** [ChallengeRequest] *)
Record ChallengeRequest : Type := {
  cr_operation_id : string; cr_purpose : string; cr_payload_sha256 : string;
  cr_prior_state_sha256 : string; cr_execution_fields_sha256 : string;
  cr_authority_transition : string;
  cr_subject_ids : list string; cr_source_ids : list string; cr_target_ids : list string;
  cr_proposal_ids : list string; cr_result_version_ids : list string;
  cr_scope : list string; cr_field_paths : list string
}.

Definition request_texts (r : ChallengeRequest) : list (string * string) :=
  [("operation_id", cr_operation_id r); ("purpose", cr_purpose r);
   ("payload_sha256", cr_payload_sha256 r); ("prior_state_sha256", cr_prior_state_sha256 r);
   ("execution_fields_sha256", cr_execution_fields_sha256 r);
   ("authority_transition", cr_authority_transition r)].

Definition request_lists (r : ChallengeRequest) : list (string * list string) :=
  [("subject_ids", cr_subject_ids r); ("source_ids", cr_source_ids r);
   ("target_ids", cr_target_ids r); ("proposal_ids", cr_proposal_ids r);
   ("result_version_ids", cr_result_version_ids r); ("scope", cr_scope r);
   ("field_paths", cr_field_paths r)].

Definition texts_json (l : list string) : json := JList (map JStr l).

Definition request_value (r : ChallengeRequest) : obj :=
  map (λ kv, (kv.1, JStr kv.2)) (request_texts r) ++
  map (λ kv, (kv.1, texts_json kv.2)) (request_lists r).

Definition validate_request (r : ChallengeRequest) : res unit :=
  for_each (λ kv, raise_if (String.eqb kv.2 "") (ValidationError (kv.1 +:+ " must be a non-empty string")))
    [("operation_id", cr_operation_id r); ("purpose", cr_purpose r);
     ("authority_transition", cr_authority_transition r)] ;;
  for_each (λ kv, raise_if (negb (is_sha256_hex kv.2)) (ValidationError (kv.1 +:+ " must be lowercase SHA-256")))
    [("payload_sha256", cr_payload_sha256 r); ("prior_state_sha256", cr_prior_state_sha256 r);
     ("execution_fields_sha256", cr_execution_fields_sha256 r)] ;;
  for_each (λ kv, _string_list kv.1 kv.2 ;; Ok tt) (request_lists r).

(** The request a stored mutation holds *)
Definition request_of (m : obj) : res ChallengeRequest :=
  operation_id ← text_item "operation_id" m;
  purpose ← text_item "purpose" m;
  payload_sha256 ← text_item "payload_sha256" m;
  prior_state_sha256 ← text_item "prior_state_sha256" m;
  execution_fields_sha256 ← text_item "execution_fields_sha256" m;
  authority_transition ← text_item "authority_transition" m;
  subject_ids ← texts_item "subject_ids" m;
  source_ids ← texts_item "source_ids" m;
  target_ids ← texts_item "target_ids" m;
  proposal_ids ← texts_item "proposal_ids" m;
  result_version_ids ← texts_item "result_version_ids" m;
  scope ← texts_item "scope" m;
  field_paths ← texts_item "field_paths" m;
  Ok {| cr_operation_id := operation_id; cr_purpose := purpose;
        cr_payload_sha256 := payload_sha256; cr_prior_state_sha256 := prior_state_sha256;
        cr_execution_fields_sha256 := execution_fields_sha256;
        cr_authority_transition := authority_transition;
        cr_subject_ids := subject_ids; cr_source_ids := source_ids; cr_target_ids := target_ids;
        cr_proposal_ids := proposal_ids; cr_result_version_ids := result_version_ids;
        cr_scope := scope; cr_field_paths := field_paths |}.

(** ** Challenges *)
Definition nonempty_text (v : json) : bool :=
  match v with JStr s => negb (String.eqb s "") | _ => false end.

(** A list of distinct non-empty strings *)
Definition distinct_texts (v : json) : bool :=
  match v with
  | JList l => forallb nonempty_text l &&
               Nat.eqb (length (dedup_strs (strs l))) (length l)
  | _ => false
  end.

Definition pad_to_four (s : string) : string :=
  match (String.length s mod 4)%nat with
  | 1%nat => s +:+ "===" | 2%nat => s +:+ "==" | 3%nat => s +:+ "=" | _ => s
  end.

(** 32 bytes in canonical unpadded url-safe base64.  [urlsafe_b64decode]
    skips foreign characters, but a nonce that holds one is not the encoding
    of what it decodes to. *)
Definition nonce_ok (s : string) : bool :=
  match b64decode true (pad_to_four s) with
  | Some raw => Nat.eqb (String.length raw) 32 && String.eqb (strip_pad (b64encode true raw)) s
  | None => false
  end.

Definition field_error (name : string) : exn :=
  ValidationError ("authority challenge field " +:+ name +:+ " is invalid").

Definition validate_challenge_shape (challenge : obj) : res unit :=
  raise_if (negb (set_eq (keys challenge) _REQUIRED_FIELDS))
    (ValidationError "authority challenge has unknown or missing fields") ;;
  raise_if (negb (py_eq (get "contract_version" challenge) (JStr CONTRACT_VERSION) &&
                  py_eq (get "domain_separator" challenge) (JStr DOMAIN_SEPARATOR)))
    (ValidationError "authority challenge contract is unsupported") ;;
  raise_if (negb match get "ledger_sequence" challenge with JInt z => 1 <=? z | _ => false end)
    (ValidationError "authority ledger sequence is invalid") ;;
  for_each (λ k, raise_if (negb (nonempty_text (get k challenge))) (field_error k)) TEXT_FIELDS ;;
  for_each (λ k, raise_if (negb (distinct_texts (get k challenge))) (field_error k)) LIST_FIELDS ;;
  nonce ← text_item "nonce" challenge;
  raise_if (negb (nonce_ok nonce)) (ValidationError "authority nonce is invalid") ;;
  issued ← parse_timestamp (get "issued_at" challenge);
  expires ← parse_timestamp (get "expires_at" challenge);
  let ttl := instant expires - instant issued in
  raise_if ((ttl <=? 0) || (MAX_TTL_SECONDS * 1000000 <? ttl))
    (ValidationError "authority challenge expiry is invalid").

Record ApprovalToken : Type := { tk_challenge : obj; tk_signature : string }.

Definition token_from_dict (value : obj) : res ApprovalToken :=
  raise_if (negb (set_eq (keys value) ["challenge"; "signature_b64"]))
    (ValidationError "approval token has unknown or missing fields") ;;
  match get "challenge" value, get "signature_b64" value with
  | JObj challenge, JStr signature =>
      validate_challenge_shape challenge ;;
      match b64decode false signature with
      | None => Err (ValidationError "approval signature is not canonical base64")
      | Some decoded =>
          raise_if (negb (Nat.eqb (String.length decoded) 64) ||
                    negb (String.eqb (b64encode false decoded) signature))
            (ValidationError "approval signature is not canonical Ed25519 bytes") ;;
          Ok {| tk_challenge := challenge; tk_signature := signature |}
      end
  | _, _ => Err (ValidationError "approval token is malformed")
  end.

Section approval.
Context `{signing : crypto} `{env : environment}.

(** [canonical_bytes] of [authority/challenge.py] *)
Definition rfc8785_bytes (v : json) : res string :=
  match jcs v with
  | Some s => Ok s
  | None => Err (ValidationError "E_AUTH_CANONICALIZATION")
  end.

(** The key order of the dictionary is immaterial: its bytes are canonical. *)
Definition build_challenge (r : ChallengeRequest) (operator_id install_id key_id store : string)
    (ledger_sequence ttl_seconds : Z) : txn obj :=
  lift (validate_request r) ;;
  guard (negb ((1 <=? ttl_seconds) && (ttl_seconds <=? MAX_TTL_SECONDS)))
    (ValidationError "authority challenge TTL must be 1..120 seconds") ;;
  now ← now_;
  raw ← fresh_token;
  for_all (λ kv, lift (_string_list kv.1 kv.2 ;; Ok tt)) (request_lists r) ;;
  expires ← lift (plus_seconds now ttl_seconds);
  let value :=
    [("contract_version", JStr CONTRACT_VERSION); ("domain_separator", JStr DOMAIN_SEPARATOR);
     ("operator_id", JStr operator_id); ("install_id", JStr install_id); ("key_id", JStr key_id);
     ("store_identity", JStr store); ("ledger_sequence", JInt ledger_sequence)] ++
    request_value r ++
    [("nonce", JStr (strip_pad (b64encode true raw)));
     ("issued_at", JStr (utc_text now)); ("expires_at", JStr (utc_text expires))] in
  lift (validate_challenge_shape value) ;;
  lift (rfc8785_bytes (JObj value)) ;;
  mret value.

(** ** The ledger of keys *)
Definition max_sequence (rows : list ledger_row) : option Z :=
  fold_right (λ r m, Some (match m with None => lg_sequence r | Some z => Z.max (lg_sequence r) z end))
    None rows.

Definition is_active (k : key_row) : bool := String.eqb (ky_status k) "active".

Definition active_binding (expected_operator_id : string) (a : authority) : res (key_row * Z) :=
  match List.filter is_active (keys_ a) with
  | [binding] =>
      raise_if (negb (String.eqb (ky_operator binding) expected_operator_id))
        (ValidationError "authority key does not match configured operator") ;;
      match max_sequence (ledger a) with
      | Some head =>
          raise_if (head <? ky_sequence binding)
            (ValidationError "authority ledger is missing its active key binding") ;;
          Ok (binding, head)
      | None => Err (ValidationError "authority ledger is missing its active key binding")
      end
  | _ => Err (ValidationError "authority requires exactly one active local key")
  end.

(** The anchor; the checkpoint it names is not needed by any caller, but the
    column has to read back. *)
Definition load_authority_trust_anchor (a : authority) : res (option anchor_row) :=
  match anchor a with
  | None => Ok None
  | Some t =>
      match an_checkpoint_json t with
      | None | Some EmptyString => Ok (Some t)
      | Some text =>
          match loads text with
          | Some _ => Ok (Some t)
          | None => Err (ValidationError "local authority trust anchor is corrupt")
          end
      end
  end.

Definition assert_authority_writes_allowed (a : authority) : res anchor_row :=
  loaded ← load_authority_trust_anchor a;
  match loaded with
  | None => Err (ValidationError "authority writes require a destination-owned trust anchor")
  | Some t =>
      raise_if (an_blocked t)
        (ValidationError ("authority writes are blocked pending native signed adjudication: " +:+
                          default "None" (an_reason t))) ;;
      Ok t
  end.

Definition read_authority {A} (f : authority → res A) : txn A :=
  a ← query the_authority; lift (f a).

(** [except sqlite3.IntegrityError as exc: raise ConflictError] *)
Definition is_integrity (e : exn) : bool := match e with IntegrityError _ => true | _ => false end.
Definition conflict_on_integrity {A} (m : txn A) (msg : string) : txn A := λ c,
  match m c with
  | (Err e, c') => ((if is_integrity e then Err (ConflictError msg) else Err e), c')
  | r => r
  end.

Definition issue_challenge (r : ChallengeRequest) (operator_id : string) (ttl_seconds : Z)
    : txn (obj * key_row) :=
  '(binding, head) ← read_authority (active_binding operator_id);
  challenge ← build_challenge r (ky_operator binding) (ky_install binding) (ky_id binding)
                (ky_store binding) head ttl_seconds;
  encoded ← lift (rfc8785_bytes (JObj challenge));
  nonce ← lift (text_item "nonce" challenge);
  operation ← lift (text_item "operation_id" challenge);
  issued ← lift (text_item "issued_at" challenge);
  expires ← lift (text_item "expires_at" challenge);
  conflict_on_integrity
    (exec (insert_challenge
       {| ch_nonce_sha := sha256 nonce; ch_operation := operation; ch_sha := sha256 encoded;
          ch_issued := issued; ch_expires := expires; ch_consumed := None; ch_provenance := None |}))
    "authority nonce or operation collision" ;;
  mret (challenge, binding).

(** ** Prepared mutations *)
Definition prepare_mutation (command_name : string) (request : ChallengeRequest)
    (intent prior_state execution_fields : obj) (operator_id : string) : txn json :=
  lift (validate_request request) ;;
  guard (String.eqb command_name "") (ValidationError "prepared mutation command is required") ;;
  created ← now_;
  let expires_at := plus_seconds_float created PREPARED_TTL_SECONDS in
  execution_json ← lift (rfc8785_bytes (JObj execution_fields));
  guard (negb (String.eqb (cr_execution_fields_sha256 request) (sha256 execution_json)))
    (ValidationError "prepared mutation execution-fields digest mismatch") ;;
  request_json ← lift (rfc8785_bytes (JObj (request_value request)));
  intent_json ← lift (rfc8785_bytes (JObj intent));
  prior_json ← lift (rfc8785_bytes (JObj prior_state));
  conflict_on_integrity
    (exec (insert_prepared
       {| pm_operation := cr_operation_id request; pm_command := command_name;
          pm_operator := operator_id; pm_request := request_json;
          pm_request_sha := sha256 request_json; pm_intent := intent_json;
          pm_intent_sha := sha256 intent_json; pm_prior := prior_json;
          pm_prior_sha := sha256 prior_json; pm_execution := execution_json;
          pm_execution_sha := sha256 execution_json; pm_created := utc_text created;
          pm_expires := utc_text expires_at; pm_status := "pending";
          pm_executed := None; pm_provenance := None |}))
    "prepared mutation operation already exists" ;;
  lift (load_json request_json).

Definition find_prepared (operation_id : string) (a : authority) : option prepared_row :=
  List.find (λ r, String.eqb (pm_operation r) operation_id) (prepared a).

Definition expire (r : prepared_row) : prepared_row :=
  with_status "expired" (pm_executed r) (pm_provenance r) r.

Definition corrupt {A} (m : option A) : res A :=
  match m with Some a => Ok a | None => Err (ValidationError "prepared mutation storage is corrupt") end.

(** The stored row with its decoded request and execution fields *)
Definition load_prepared_mutation (operation_id command_name : string) (intent prior_state : obj)
    (operator_id : string) : txn (prepared_row * obj * json) :=
  a ← query the_authority;
  match find_prepared operation_id a with
  | None => raise (ValidationError "authority token does not name a stored prepared mutation")
  | Some row =>
      guard (negb (String.eqb (pm_status row) "pending")) (ConflictError "prepared mutation is not pending") ;;
      guard (negb (String.eqb (pm_command row) command_name && String.eqb (pm_operator row) operator_id))
        (ValidationError "authority token is for another command or operator") ;;
      now ← now_;
      deadline ← lift (parse_timestamp (JStr (pm_expires row)));
      (if instant deadline <=? instant now then
         update (set_prepared operation_id expire) ;;
         raise (ValidationError "prepared mutation has expired")
       else mret tt) ;;
      intent_json ← lift (rfc8785_bytes (JObj intent));
      prior_json ← lift (rfc8785_bytes (JObj prior_state));
      guard (negb (String.eqb intent_json (pm_intent row) && String.eqb prior_json (pm_prior row)))
        (ValidationError "prepared mutation intent or prior state changed") ;;
      guard (negb (String.eqb (sha256 (pm_request row)) (pm_request_sha row)))
        (ValidationError "prepared mutation request digest mismatch") ;;
      guard (negb (String.eqb (sha256 (pm_intent row)) (pm_intent_sha row)))
        (ValidationError "prepared mutation intent digest mismatch") ;;
      guard (negb (String.eqb (sha256 (pm_prior row)) (pm_prior_sha row)))
        (ValidationError "prepared mutation prior-state digest mismatch") ;;
      guard (negb (String.eqb (sha256 (pm_execution row)) (pm_execution_sha row)))
        (ValidationError "prepared mutation execution-fields digest mismatch") ;;
      request ← lift (corrupt (loads (pm_request row)));
      execution ← lift (corrupt (loads (pm_execution row)));
      match request with
      | JObj request =>
          guard (negb (py_eq (get "execution_fields_sha256" request) (JStr (sha256 (pm_execution row)))))
            (ValidationError "signed request does not bind prepared execution fields") ;;
          mret (row, request, execution)
      | _ => raise AttributeError
      end
  end.

Definition mark_prepared_executed (operation_id provenance_id : string) : txn unit :=
  now ← now_;
  changed ← update (set_prepared operation_id
                      (with_status "executed" (Some (utc_text now)) (Some provenance_id)));
  guard (negb (changed =? 1)) (ConflictError "prepared mutation was already executed or expired").

(** ** Verification and consumption *)
Definition _assert_request_exact (challenge : obj) (expected : ChallengeRequest) : res unit :=
  validate_request expected ;;
  raise_if (existsb (λ kv, negb (py_eq (get kv.1 challenge) kv.2)) (request_value expected))
    (ValidationError "authority token does not match the exact mutation").

Definition signature_valid (public_b64 signature_b64 encoded : string) : res unit :=
  let invalid := ValidationError "authority signature is invalid" in
  match b64decode false signature_b64 with
  | None => Err invalid
  | Some signature =>
      match b64decode false public_b64 with
      | Some raw =>
          raise_if (negb (Nat.eqb (String.length raw) 32)) (ValidationError "authority public key is invalid") ;;
          raise_if (negb (ed25519_verify raw signature (CHALLENGE_DOMAIN +:+ encoded))) invalid
      | None => Err (ValidationError "authority public key is invalid")
      end
  end.

Definition find_challenge (nonce_sha : string) (a : authority) : option challenge_row :=
  List.find (λ r, String.eqb (ch_nonce_sha r) nonce_sha) (challenges a).

Definition BOUND_FIELDS (k : key_row) : list (string * string) :=
  [("operator_id", ky_operator k); ("install_id", ky_install k); ("key_id", ky_id k);
   ("store_identity", ky_store k)].

Definition verify_and_consume (token : ApprovalToken) (expected : ChallengeRequest)
    (operator_id : string) : txn string :=
  let challenge := tk_challenge token in
  lift (validate_challenge_shape challenge) ;;
  lift (_assert_request_exact challenge expected) ;;
  '(binding, head) ← read_authority (active_binding operator_id);
  guard (existsb (λ kv, negb (py_eq (get kv.1 challenge) (JStr kv.2))) (BOUND_FIELDS binding))
    (ValidationError "authority token is bound to another operator or installation") ;;
  guard (negb (py_eq (get "ledger_sequence" challenge) (JInt head)))
    (ValidationError "authority token is stale relative to the ledger") ;;
  encoded ← lift (rfc8785_bytes (JObj challenge));
  nonce_text ← lift (text_item "nonce" challenge);
  operation ← lift (text_item "operation_id" challenge);
  transition ← lift (text_item "authority_transition" challenge);
  let challenge_sha := sha256 encoded in
  let nonce_sha := sha256 nonce_text in
  a ← query the_authority;
  let not_issued := ValidationError "authority nonce was not issued by this store" in
  match find_challenge nonce_sha a with
  | None => raise not_issued
  | Some nonce =>
      guard (negb (String.eqb (ch_sha nonce) challenge_sha && String.eqb (ch_operation nonce) operation))
        not_issued ;;
      guard match ch_consumed nonce with Some _ => true | None => false end
        (ConflictError "authority nonce has already been consumed") ;;
      now ← now_;
      issued ← lift (parse_timestamp (get "issued_at" challenge));
      expires ← lift (parse_timestamp (get "expires_at" challenge));
      guard ((instant now <? instant issued) || (instant expires <=? instant now))
        (ValidationError "authority token is not currently valid") ;;
      lift (signature_valid (ky_public binding) (tk_signature token) encoded) ;;
      provenance_id ← fresh "authority-provenance";
      let committed_at := utc_text now in
      updated ← conflict_on_integrity
        (exec (insert_grant
           {| gr_id := provenance_id; gr_operation := operation; gr_operator := ky_operator binding;
              gr_install := ky_install binding; gr_key := ky_id binding; gr_sequence := head;
              gr_challenge := encoded; gr_challenge_sha := challenge_sha;
              gr_signature := tk_signature token; gr_transition := transition;
              gr_at := committed_at |}) ;;
         update (consume_challenge nonce_sha committed_at provenance_id))
        "authority operation or provenance already exists";
      guard (negb (updated =? 1)) (ConflictError "authority nonce was consumed concurrently") ;;
      mret provenance_id
  end.

(** ** [ImprintStore._consume_authority] *)
Definition is_version_name (field : string) : bool :=
  ends_with "version_id" field || ends_with "version_ids" field.

Fixpoint generated_versions (value : json) (field : string) (inside : bool) : list string :=
  let is_version_field := inside || is_version_name field in
  match value with
  | JObj m => flat_map (λ kv, generated_versions kv.2 kv.1 is_version_field) m
  | JList l => flat_map (λ v, generated_versions v field is_version_field) l
  | JStr s => if is_version_field then [s] else []
  | _ => []
  end.

(** What a call site binds *)
Record demand : Type := {
  dm_command : string; dm_purpose : string; dm_transition : string;
  dm_intent : obj; dm_prior : obj; dm_execution : obj;
  dm_subjects : list string; dm_sources : list string; dm_targets : list string;
  dm_proposals : list string; dm_results : list string; dm_scope : list string;
  dm_paths : list string
}.

Definition request_for (dm : demand) (operation_id execution_json : string) : ChallengeRequest :=
  {| cr_operation_id := operation_id; cr_purpose := dm_purpose dm;
     cr_payload_sha256 := payload_sha256 (JObj (dm_intent dm));
     cr_prior_state_sha256 := payload_sha256 (JObj (dm_prior dm));
     cr_execution_fields_sha256 := sha256 execution_json;
     cr_authority_transition := dm_transition dm;
     cr_subject_ids := dm_subjects dm; cr_source_ids := dm_sources dm;
     cr_target_ids := dm_targets dm; cr_proposal_ids := dm_proposals dm;
     cr_result_version_ids := dedup_strs (dm_results dm ++ generated_versions (JObj (dm_execution dm)) "" false);
     cr_scope := dm_scope dm; cr_field_paths := dm_paths dm |}.

Definition approval_required {A} (request : json) : txn A :=
  raise (ValidationError ("E_AUTH_APPROVAL_REQUIRED approval_request=" +:+ canonical_bytes request)).

Definition OPERATOR_PREFIX := "urn:imprint:operator:".

Definition _consume_authority (expected_operator_id : option string) (approval_token : option obj)
    (dm : demand) : txn obj :=
  match expected_operator_id with
  | None => raise (ValidationError "authority-raising mutation requires a configured operator")
  | Some operator =>
      token ← lift match approval_token with
                   | None => Ok None
                   | Some v => t ← token_from_dict v; Ok (Some t)
                   end;
      operation_id ← match token with
                     | Some t => lift (text_item "operation_id" (tk_challenge t))
                     | None => fresh "operation"
                     end;
      execution_json ← lift (rfc8785_bytes (JObj (dm_execution dm)));
      match token with
      | None =>
          request ← prepare_mutation (dm_command dm) (request_for dm operation_id execution_json)
                      (dm_intent dm) (dm_prior dm) (dm_execution dm) operator;
          commit ;;
          approval_required request
      | Some t =>
          '(row, stored, execution) ←
            load_prepared_mutation operation_id (dm_command dm) (dm_intent dm) (dm_prior dm) operator;
          expected ← lift (request_of stored);
          guard (negb (starts_with OPERATOR_PREFIX operator))
            (ValidationError "configured operator identity is invalid") ;;
          read_authority assert_authority_writes_allowed ;;
          provenance_id ← verify_and_consume t expected operator;
          mark_prepared_executed operation_id provenance_id ;;
          lift (obj_of execution)
      end
  end.

(** [AuthorityService.approve] up to the signature: the challenge it shows
    and signs is issued for a pending mutation whose request is the one asked
    for, and is recorded before anything is signed. *)
Definition approve_challenge (operator_id : string) (r : ChallengeRequest) (ttl_seconds : Z)
    : txn (obj * key_row) :=
  connect (
    read_authority assert_authority_writes_allowed ;;
    a ← query the_authority;
    match find_prepared (cr_operation_id r) a with
    | None => raise (ValidationError "authority approval requires a pending stored mutation")
    | Some row =>
        guard (negb (String.eqb (pm_status row) "pending"))
          (ValidationError "authority approval requires a pending stored mutation") ;;
        request_json ← lift (rfc8785_bytes (JObj (request_value r)));
        guard (negb (String.eqb request_json (pm_request row)))
          (ValidationError "authority approval request differs from stored mutation") ;;
        now ← now_;
        deadline ← lift (parse_timestamp (JStr (pm_expires row)));
        guard (instant deadline <=? instant now) (ValidationError "prepared mutation has expired") ;;
        issue_challenge r operator_id ttl_seconds
    end).
End approval.

(** ** Lemmas *)
Lemma py_eq_texts v l : py_eq v (texts_json l) = true → v = texts_json l.
Proof.
  unfold texts_json. destruct v as [| | | | |k|]; try discriminate. simpl.
  revert l. induction k as [|x k IH]; intros [|y l]; simpl; try discriminate; [done|].
  intros H. apply andb_true_iff in H as [H1 H2]. apply py_eq_str in H1 as ->.
  specialize (IH l H2). by injection IH as ->.
Qed.

Lemma map_res_text_of l ss : map_res text_of l = Ok ss → l = map JStr ss.
Proof.
  revert ss. induction l as [|v l IH]; simpl; intros ss H; inv_ok; [done|].
  destruct v; inv_ok. simpl in *. simplify_eq. f_equal. by apply IH.
Qed.

Lemma text_item_Ok k m s : text_item k m = Ok s ↔ assoc k m = Some (JStr s).
Proof.
  unfold text_item. rewrite bind_Ok. split.
  - intros (v & Hv & H). apply item_Ok in Hv. destruct v; simpl in H; by simplify_eq.
  - intros H. exists (JStr s). by rewrite item_Ok.
Qed.

Lemma texts_item_Ok k m l : texts_item k m = Ok l → assoc k m = Some (texts_json l).
Proof.
  unfold texts_item, list_item. intros H. apply bind_Ok in H as (v & H & Hl).
  apply bind_Ok in H as (w & Hw & H). apply item_Ok in Hw. destruct w; simpl in H; inv_ok.
  apply map_res_text_of in Hl as ->. done.
Qed.

Lemma assoc_get k m v : assoc k m = Some v → get k m = v.
Proof. unfold get. by intros ->. Qed.

Lemma request_of_value m r :
  request_of m = Ok r → Forall (λ kv, get kv.1 m = kv.2) (request_value r).
Proof.
  unfold request_of. intros H.
  repeat (apply bind_Ok in H as (? & ? & H); cbv beta in H). injection H as <-.
  repeat match goal with
  | H : text_item _ _ = Ok _ |- _ => apply text_item_Ok, assoc_get in H
  | H : texts_item _ _ = Ok _ |- _ => apply texts_item_Ok, assoc_get in H
  end.
  unfold request_value, request_texts, request_lists. simpl. repeat constructor; done.
Qed.

Lemma request_value_keys r : keys (request_value r) = REQUEST_FIELDS.
Proof. reflexivity. Qed.

Lemma request_fields_agree challenge m r :
  Forall (λ kv, get kv.1 challenge = kv.2) (request_value r) →
  Forall (λ kv, get kv.1 m = kv.2) (request_value r) →
  Forall (λ k, get k challenge = get k m) REQUEST_FIELDS.
Proof.
  intros H1 H2. rewrite <- (request_value_keys r). unfold keys. apply Forall_fmap.
  rewrite Forall_forall in *. intros kv Hkv. simpl. by rewrite H1, H2.
Qed.

Lemma assert_exact_Ok challenge r u :
  _assert_request_exact challenge r = Ok u → Forall (λ kv, get kv.1 challenge = kv.2) (request_value r).
Proof.
  unfold _assert_request_exact. intros H. apply bind_Ok in H as (? & _ & H).
  apply raise_if_Ok in H. apply not_true_iff_false in H.
  assert (Forall (λ kv, py_eq (get kv.1 challenge) kv.2 = true) (request_value r)) as Hf.
  { apply List.Forall_forall. intros kv Hkv. destruct (py_eq _ _) eqn:E; [done|].
    exfalso. apply H, existsb_exists. exists kv. by rewrite E. }
  unfold request_value, request_texts, request_lists in *. simpl in *.
  repeat match goal with H : Forall _ (_ :: _) |- _ => inversion_clear H end.
  repeat constructor; simpl in *; by first [apply py_eq_str | apply py_eq_texts].
Qed.

(** ** What a successful consumption establishes *)
Section consumption.
Context `{signing : crypto} `{env : environment} (d0 : db).

Definition awaits (row : prepared_row) (d : db) : Prop := In row (prepared (the_authority d)).

Lemma expire_settles r : ∃ status executed provenance, expire r = with_status status executed provenance r.
Proof. by do 3 eexists. Qed.

Lemma hoare_read_authority {A B} (P : db → Prop) (f : authority → res A) (k : A → txn B) Q :
  (∀ a, hoare d0 (λ d, P d ∧ f (the_authority d) = Ok a) (k a) Q) →
  hoare d0 P (read_authority f ≫= k) Q.
Proof.
  intros Hk c Hc HP. unfold read_authority, mbind, txn_bind, query, lift.
  destruct (f (the_authority (live c))) as [a|e] eqn:E; [|by split]. by apply Hk.
Qed.

Lemma hoare_conflict {A} (P : db → Prop) (m : txn A) msg Q :
  hoare d0 P m Q → hoare d0 P (conflict_on_integrity m msg) Q.
Proof.
  intros Hm c Hc HP. specialize (Hm c Hc HP). unfold conflict_on_integrity.
  destruct (m c) as [[a|e] c']; simpl in *; [done|]. destruct Hm. split; [done|].
  by destruct (is_integrity e).
Qed.

Lemma find_prepared_In op a r :
  find_prepared op a = Some r → In r (prepared a) ∧ pm_operation r = op.
Proof. intros H. apply find_some in H as [H1 H2]. split; [done|by apply String.eqb_eq]. Qed.

Lemma load_prepared_spec P op command intent prior operator :
  steady P →
  hoare d0 P (load_prepared_mutation op command intent prior operator)
    (λ x d, (P d ∧ awaits x.1.1 d) ∧
       pm_status x.1.1 = "pending" ∧ pm_operation x.1.1 = op ∧
       loads (pm_request x.1.1) = Some (JObj x.1.2) ∧ loads (pm_execution x.1.1) = Some x.2 ∧
       get "execution_fields_sha256" x.1.2 = JStr (sha256 (pm_execution x.1.1))).
Proof.
  intros HP. unfold load_prepared_mutation.
  apply (hoare_query _ _ _ (λ a d, P d ∧ a = the_authority d)); [done|]. intros a.
  destruct (find_prepared op a) as [row|] eqn:E; [|apply hoare_raise].
  apply find_prepared_In in E as [Hrow Hop].
  apply (hoare_pre _ _ (λ d, P d ∧ awaits row d)). { intros d _ [Hd ->]. by split. }
  apply hoare_guard. intros Hs. apply negb_false_iff, String.eqb_eq in Hs.
  apply hoare_guard. intros _.
  eapply hoare_bind; [apply hoare_now_|]. intros now. cbv beta.
  apply hoare_lift. intros deadline _.
  eapply (hoare_bind _ _ _ (λ _ d, P d ∧ awaits row d)).
  { destruct (instant deadline <=? instant now); [|by apply hoare_ret].
    eapply (hoare_bind _ _ _ (λ _, always)); [|intros; apply hoare_raise].
    apply hoare_update. intros d e n Hd _ He. split; [|done].
    by apply (set_prepared_step _ _ _ _ _ expire_settles He). }
  intros []. do 2 (apply hoare_lift; intros ? _). do 5 (apply hoare_guard; intros _).
  apply hoare_lift. intros request Hreq. apply hoare_lift. intros execution Hex.
  destruct request as [| | | | | |request]; try apply hoare_raise.
  apply hoare_guard. intros Hsha. apply negb_false_iff, py_eq_str in Hsha.
  apply hoare_ret. intros d Hd. simpl.
  unfold corrupt in *. destruct (loads (pm_request row)); [|done]. destruct (loads (pm_execution row)); [|done].
  split_and!; try done; try apply Hd; congruence.
Qed.

(** The grant a verified token leaves behind *)
Definition spent (t : ApprovalToken) (expected : ChallengeRequest) (id : string) (a : authority) : Prop :=
  ∃ g, In g (grants a) ∧ gr_id g = id ∧
    assoc "operation_id" (tk_challenge t) = Some (JStr (gr_operation g)) ∧
    jcs (JObj (tk_challenge t)) = Some (gr_challenge g) ∧
    Forall (λ kv, get kv.1 (tk_challenge t) = kv.2) (request_value expected) ∧
    ∃ k signature public, In k (keys_ a) ∧ ky_id k = gr_key g ∧ ky_status k = "active" ∧
      b64decode false (ky_public k) = Some public ∧ b64decode false (gr_signature g) = Some signature ∧
      ed25519_verify public signature (CHALLENGE_DOMAIN +:+ gr_challenge g) = true.

Lemma active_binding_Ok op a k head :
  active_binding op a = Ok (k, head) → In k (keys_ a) ∧ ky_status k = "active".
Proof.
  unfold active_binding. intros H.
  destruct (List.filter is_active (keys_ a)) as [|b [|]] eqn:E; try discriminate.
  inv_ok. destruct (max_sequence _); [|discriminate]. inv_ok.
  assert (In k (List.filter is_active (keys_ a))) as Hk by (rewrite E; by left).
  apply filter_In in Hk as [Hk Ha]. split; [done|by apply String.eqb_eq].
Qed.

Lemma signature_valid_Ok public_b64 signature_b64 encoded u :
  signature_valid public_b64 signature_b64 encoded = Ok u →
  ∃ signature public, b64decode false public_b64 = Some public ∧
    b64decode false signature_b64 = Some signature ∧
    ed25519_verify public signature (CHALLENGE_DOMAIN +:+ encoded) = true.
Proof.
  unfold signature_valid. destruct (b64decode false signature_b64) as [s|]; [|discriminate].
  destruct (b64decode false public_b64) as [p|]; [|discriminate]. intros H. inv_ok. bool_hyps. eauto.
Qed.

Lemma awaits_intake row d e : prepared (the_authority e) = prepared (the_authority d) →
  awaits row d → awaits row e.
Proof. unfold awaits. by intros ->. Qed.

Lemma verify_and_consume_spec P t expected operator row :
  steady P →
  hoare d0 (λ d, P d ∧ awaits row d) (verify_and_consume t expected operator)
    (λ id d, (P d ∧ awaits row d) ∧ spent t expected id (the_authority d)).
Proof.
  intros HP. unfold verify_and_consume.
  apply hoare_lift. intros _ _. apply hoare_lift. intros u Hexact. apply assert_exact_Ok in Hexact.
  apply hoare_read_authority. intros [binding head]. apply hoare_pre with
    (P' := λ d, (P d ∧ awaits row d) ∧ In binding (keys_ (the_authority d)) ∧ ky_status binding = "active").
  { intros d _ [Hd Hb]. split; [done|by eapply active_binding_Ok]. }
  do 2 (apply hoare_guard; intros _). apply hoare_lift. intros encoded Henc.
  apply hoare_lift. intros nonce_text _. apply hoare_lift. intros operation Hop. apply text_item_Ok in Hop.
  apply hoare_lift. intros transition _.
  apply hoare_query_keep. intros a.
  destruct (find_challenge _ a) as [nonce|]; [|apply hoare_raise].
  do 2 (apply hoare_guard; intros _). eapply hoare_bind; [apply hoare_now_|]. intros now. cbv beta.
  do 2 (apply hoare_lift; intros ? _). apply hoare_guard. intros _.
  apply hoare_lift. intros v Hsig. apply signature_valid_Ok in Hsig as (signature & public & Hpub & Hsg & Hver).
  eapply hoare_bind; [apply hoare_fresh|]. intros id. cbv beta.
  eapply (hoare_bind _ _ _ (λ _ d, (P d ∧ awaits row d) ∧ spent t expected id (the_authority d))).
  2:{ intros n. apply hoare_guard. intros _. by apply hoare_ret. }
  assert (jcs (JObj (tk_challenge t)) = Some encoded) as Hjcs.
  { unfold rfc8785_bytes in Henc. destruct (jcs _); by inv_ok. }
  apply hoare_conflict. eapply (hoare_bind _ _ _ (λ _ d, (P d ∧ awaits row d) ∧ spent t expected id (the_authority d))).
  - apply hoare_exec. intros d e Hd [[HPd Ha] [Hk Hact]] He.
    pose proof (insert_grant_step _ _ _ He) as Hstep. split; [done|].
    unfold insert_grant in He. inv_ok. split; [split|].
    + by apply (steady_same _ d).
    + exact Ha.
    + eexists. split; [apply in_app_iff; right; left; reflexivity|]. simpl.
      split_and!; try done. exists binding, signature, public. by split_and!.
  - intros []. apply hoare_update. intros d e n Hd [[HPd Ha] Hs] He.
    pose proof (consume_challenge_step _ _ _ _ _ _ He) as Hstep. split; [done|].
    unfold consume_challenge in He. injection He as <- <-. split; [split|].
    + by apply (steady_same _ d).
    + exact Ha.
    + exact Hs.
Qed.

(** Approvals name the event of every write they sanction. *)
Definition sanctions (execution : obj) (d : db) : Prop :=
  ∀ event, In event (named_events execution) → is_authorized event d.

Lemma spent_approved t expected id a row stored :
  spent t expected id a → request_of stored = Ok expected →
  assoc "operation_id" (tk_challenge t) = Some (JStr (pm_operation row)) →
  loads (pm_request row) = Some (JObj stored) →
  get "execution_fields_sha256" stored = JStr (sha256 (pm_execution row)) →
  ∀ at_, ∃ g, approved a (with_status "executed" at_ (Some id) row) g.
Proof.
  intros (g & Hg & <- & Hop & Hj & Hf & Hkey) Hreq Hop' Hload Hsha at_. exists g. split; simpl.
  - split_and!; [done|congruence|done].
  - done.
  - exists (tk_challenge t), stored. split_and!; try done.
    by apply (request_fields_agree _ _ expected), request_of_value.
Qed.

Lemma consume_authority_spec P operator token dm :
  steady P →
  hoare d0 P (_consume_authority operator token dm) (λ x d, P d ∧ sanctions x d).
Proof.
  intros HP. unfold _consume_authority. destruct operator as [operator|]; [|apply hoare_raise].
  apply hoare_lift. intros [t|] _; cbn [mbind].
  - apply hoare_lift. intros op Hop. apply text_item_Ok in Hop. apply hoare_lift. intros ? _.
    eapply hoare_bind; [by apply load_prepared_spec|]. intros [[row stored] execution]. simpl.
    apply hoare_pure. intros (Hpend & <- & Hreq & Hex & Hsha).
    apply hoare_lift. intros expected Hexp. apply hoare_guard. intros _.
    apply hoare_read_authority. intros []. eapply hoare_pre; [intros d _ [Hd _]; exact Hd|].
    eapply hoare_bind; [by apply verify_and_consume_spec|]. intros id. cbv beta.
    eapply (hoare_bind _ _ _ (λ _ d, P d ∧ ∃ at_, awaits (with_status "executed" at_ (Some id) row) d ∧
                                  spent t expected id (the_authority d))).
    + unfold mark_prepared_executed. eapply hoare_bind; [apply hoare_now_|]. intros now. cbv beta.
      eapply (hoare_bind _ _ _ (λ _ d, P d ∧ ∃ at_, awaits (with_status "executed" at_ (Some id) row) d ∧
                                  spent t expected id (the_authority d))).
      2:{ intros n c Hc Hd. unfold guard, lift. split; [done|]. by destruct (raise_if _ _). }
      apply hoare_update. intros d e n Hd [[HPd Ha] Hs] He.
      assert (step d e) as Hstep by (eapply (set_prepared_step _ _ _ _ _); [|exact He]; by do 3 eexists).
      split; [done|]. unfold set_prepared in He. injection He as <- <-. split.
      { by apply (steady_same _ d). }
      exists (Some (utc_text now)). split; [|exact Hs]. unfold awaits. simpl. apply in_map_iff.
      exists row. unfold pending. rewrite Hpend, !String.eqb_refl. by split.
    + intros []. destruct execution as [| | | | | |fields];
        try (intros c Hc Hd; split; [done|exact I]).
      intros c Hc [Hd (at_ & Ha & Hs)]. split; [done|]. simpl. split; [done|].
      intros event He. destruct (spent_approved _ _ _ _ row stored Hs Hexp Hop Hreq Hsha at_) as [g Hg].
      exists (with_status "executed" at_ (Some id) row), g, fields. by split_and!.
  - eapply hoare_bind; [apply hoare_fresh|]. intros op. cbv beta. apply hoare_lift. intros ex _.
    eapply (hoare_bind _ _ _ (λ _, P)).
    + unfold prepare_mutation. apply hoare_lift. intros _ _. apply hoare_guard. intros _.
      eapply hoare_bind; [apply hoare_now_|]. intros now. cbv beta.
      apply hoare_lift. intros ? _. apply hoare_guard. intros _. do 3 (apply hoare_lift; intros ? _).
      eapply (hoare_bind _ _ _ (λ _, P)).
      * apply hoare_conflict, hoare_exec. intros d e Hd HPd He.
        pose proof (insert_prepared_step _ _ _ He) as Hstep. split; [done|].
        unfold insert_prepared in He. inv_ok.
        by apply (steady_same _ d).
      * intros [] c Hc Hd. split; [done|]. simpl. by destruct (load_json _).
    + intros request. eapply hoare_bind; [apply hoare_commit|]. intros []. apply hoare_raise.
Qed.
End consumption.
