(* ===== verification/Chain.v ===== *)
(** * The ledger of authority keys ([authority/ledger.py])

    Every change of a key is an event of [authority_ledger]: canonical bytes,
    their digest, the digest of the event before it and a signature.
    [verify_authority_chain] replays the ledger into the keys it certifies;
    [insert_genesis], [append_ledger_event] and [create_checkpoint] write what
    it reads.  Text the program parses from the ledger is any JSON, so the
    dictionary of keys is indexed by JSON scalars.

    An Ed25519 private key is the function that signs with it. *)
From S2P Require Import Prelude PyTime Urn Contracts Codec Json Names Clock Tables Integrity Txn Approval.

Definition LEDGER_DOMAIN := "imprint-authority-ledger-v1" +:+ byte 0.
Definition CHECKPOINT_DOMAIN := "imprint-authority-checkpoint-v1" +:+ byte 0.
Definition MAX_CHECKPOINT_AGE_SECONDS : Z := 24 * 60 * 60.

Definition KEY_FIELDS := ["key_id"; "public_key_b64"; "public_key_fingerprint"; "install_id"].
Definition BLOB_FIELDS := ["blob_rel_path"; "blob_sha256"; "blob_size"; "algorithm_suite"].

(** ** Dictionaries whose keys are JSON values *)
Fixpoint jassoc {A} (k : json) (m : list (json * A)) : option A :=
  match m with
  | [] => None
  | (x, a) :: r => if scalar_eq k x then Some a else jassoc k r
  end.

(** [m.get(k)] and [k in m]: an unhashable [k] raises *)
Definition dict_get {A} (k : json) (m : list (json * A)) : res (option A) :=
  if hashable k then Ok (jassoc k m) else Err TypeError.

(** [m[k].update(...)] of an existing key *)
Definition jupdate {A} (k : json) (f : A → A) (m : list (json * A)) : list (json * A) :=
  map (λ kv, if scalar_eq k kv.1 then (kv.1, f kv.2) else kv) m.

(** [int(v)]; decimal digits are those of ASCII. *)
Fixpoint int_digits (s : string) (after_digit : bool) (acc : Z) : option Z :=
  match s with
  | EmptyString => if after_digit then Some acc else None
  | String a r =>
      if is_digit a then int_digits r true (10 * acc + (byte_val a - 48))
      else if Ascii.eqb a "_" && after_digit then int_digits r false acc
      else None
  end.

Definition int_text (s : string) : option Z :=
  match strip s with
  | String a r =>
      if Ascii.eqb a "-" then option_map Z.opp (int_digits r false 0)
      else if Ascii.eqb a "+" then int_digits r false 0
      else int_digits (String a r) false 0
  | EmptyString => None
  end.

Definition py_int (v : json) : res Z :=
  match v with
  | JInt z => Ok z
  | JBool b => Ok (if b then 1 else 0)
  | JFloat (S754_zero _) => Ok 0
  | JFloat (S754_finite s m e) =>
      let t := if e <? 0 then Z.pos m / 2 ^ (- e) else Z.pos m * 2 ^ e in
      Ok (if s then - t else t)
  | JFloat (S754_infinity _) => Err OverflowError
  | JFloat S754_nan => Err (ValueError "cannot convert float NaN to integer")
  | JStr s => match int_text s with
              | Some z => Ok z
              | None => Err (ValueError "invalid literal for int() with base 10")
              end
  | _ => Err TypeError
  end.

(** [isinstance(v, int)] *)
Definition as_int (v : json) : option Z :=
  match v with JInt z => Some z | JBool b => Some (if b then 1 else 0) | _ => None end.

(** ** The keys a ledger certifies *)
Inductive key_kind : Type := Installation | Recovery.
Inductive key_status : Type := Active | Retired | Revoked | Compromised.

#[export] Instance key_kind_eq : EqDecision key_kind.
Proof. solve_decision. Defined.
#[export] Instance key_status_eq : EqDecision key_status.
Proof. solve_decision. Defined.

Definition kind_text (k : key_kind) : string :=
  match k with Installation => "installation" | Recovery => "recovery" end.
Definition status_text (s : key_status) : string :=
  match s with
  | Active => "active" | Retired => "retired" | Revoked => "revoked" | Compromised => "compromised"
  end.

(** What a certificate says of a key; [ce_blob] holds the values of [BLOB_FIELDS]. *)
Record certificate : Type := {
  ce_id : json; ce_public : json; ce_fingerprint : json; ce_install : json;
  ce_kind : key_kind; ce_blob : option (list json)
}.

Record chain_key : Type := {
  ck_certificate : certificate; ck_status : key_status;
  ck_sequence : Z; ck_sha : option string;
  ck_effective : json; ck_compromised : json; ck_replacement : json
}.

Definition ck_kind (k : chain_key) : key_kind := ce_kind (ck_certificate k).
Definition ck_install (k : chain_key) : json := ce_install (ck_certificate k).

Abbreviation keyring := (list (json * chain_key)).

(** A key that has just been certified *)
Definition certified (c : certificate) (sequence : Z) (sha : option string) (effective : json) : chain_key :=
  {| ck_certificate := c; ck_status := Active; ck_sequence := sequence; ck_sha := sha;
     ck_effective := effective; ck_compromised := JNull; ck_replacement := JNull |}.

Definition with_sha (sha : string) (k : chain_key) : chain_key :=
  {| ck_certificate := ck_certificate k; ck_status := ck_status k; ck_sequence := ck_sequence k;
     ck_sha := Some sha; ck_effective := ck_effective k; ck_compromised := ck_compromised k;
     ck_replacement := ck_replacement k |}.

Definition ended (status : key_status) (effective compromised replacement : json) (k : chain_key) : chain_key :=
  {| ck_certificate := ck_certificate k; ck_status := status; ck_sequence := ck_sequence k;
     ck_sha := ck_sha k; ck_effective := effective; ck_compromised := compromised;
     ck_replacement := replacement |}.

Definition retired (effective : json) (k : chain_key) : chain_key :=
  ended Retired effective (ck_compromised k) (ck_replacement k) k.

Definition is_live (k : chain_key) : bool := bool_decide (ck_status k = Active).
Definition is_installation (k : chain_key) : bool := bool_decide (ck_kind k = Installation).

Definition refuse {A} (msg : string) : res A := Err (ValidationError msg).
Definition refuse_if (bad : bool) (msg : string) : res unit := raise_if bad (ValidationError msg).

(** [base64.b64decode(v, validate=True)] *)
Definition decode_b64 (v : json) : option string :=
  match v with JStr s => b64decode false s | _ => None end.

Definition blob_valid (details : obj) : bool :=
  is_str (get "blob_rel_path" details) &&
  match get "blob_sha256" details with JStr s => py_len s =? 64 | _ => false end &&
  match as_int (get "blob_size" details) with Some z => 0 <? z | None => false end &&
  is_str (get "algorithm_suite" details).

Definition _new_chain_key (details : obj) (kind : key_kind) : res certificate :=
  refuse_if (negb (subset KEY_FIELDS (keys details))) "authority ledger key certificate is incomplete" ;;
  match decode_b64 (get "public_key_b64" details) with
  | None => refuse "authority ledger public key is invalid"
  | Some raw =>
      refuse_if (negb (Nat.eqb (String.length raw) 32 &&
                       py_eq (get "public_key_fingerprint" details) (JStr ("sha256:" +:+ sha256 raw))))
        "authority ledger public key fingerprint mismatch" ;;
      let some := existsb (λ k, has_key k details) BLOB_FIELDS in
      let all := forallb (λ k, has_key k details) BLOB_FIELDS in
      refuse_if (some && negb all) "authority ledger blob binding is incomplete" ;;
      refuse_if (some && negb (blob_valid details)) "authority ledger blob binding is invalid" ;;
      Ok {| ce_id := get "key_id" details; ce_public := get "public_key_b64" details;
            ce_fingerprint := get "public_key_fingerprint" details;
            ce_install := get "install_id" details; ce_kind := kind;
            ce_blob := if some then Some (map (λ k, get k details) BLOB_FIELDS) else None |}
  end.

(** ** The state of the keys, as it is hashed *)
Definition opt_json (o : option string) : json := match o with Some s => JStr s | None => JNull end.

Definition key_value (k : chain_key) : obj :=
  let c := ck_certificate k in
  [("key_id", ce_id c); ("public_key_b64", ce_public c);
   ("public_key_fingerprint", ce_fingerprint c); ("install_id", ce_install c);
   ("kind", JStr (kind_text (ce_kind c))); ("status", JStr (status_text (ck_status k)));
   ("paired", JBool (is_installation k)); ("certificate_sequence", JInt (ck_sequence k));
   ("certificate_event_sha256", opt_json (ck_sha k)); ("effective_at", ck_effective k);
   ("compromised_at", ck_compromised k); ("replacement_key_id", ck_replacement k)].

Definition key_name (kv : json * chain_key) : string := match kv.1 with JStr s => s | _ => "" end.

(** [sorted(keys.items())]: text does not compare with other keys, and the
    first key of a ledger is text when its state is hashed. *)
Definition sorted_keys (m : keyring) : res keyring :=
  if forallb (λ kv, is_str kv.1) m || Nat.leb (length m) 1
  then Ok (sort_by (λ a b, String.leb (key_name a) (key_name b)) m)
  else Err TypeError.

Definition _key_state_value (m : keyring) : res obj :=
  sorted ← sorted_keys m;
  Ok [("key_state_version", JStr "imprint.authority.key-state/1.0.0");
      ("keys", JList (map (λ kv, JObj (key_value kv.2)) sorted))].

Definition _signer_certificate (k : chain_key) : obj :=
  let c := ck_certificate k in
  [("certificate_version", JStr "imprint.authority.installation-certificate/1.0.0");
   ("key_id", ce_id c); ("install_id", ce_install c); ("public_key_b64", ce_public c);
   ("public_key_fingerprint", ce_fingerprint c); ("kind", JStr (kind_text (ce_kind c)));
   ("paired", JBool (is_installation k)); ("authorization_sequence", JInt (ck_sequence k));
   ("authorization_event_sha256", opt_json (ck_sha k)); ("status_at_checkpoint", JStr "active")].

(** ** One event of the ledger *)
Definition AUTHORIZATION_FIELDS :=
  ["certificate_version"; "operator_id"; "store_identity"; "new_install_id"; "new_key_id";
   "new_public_key_b64"; "pairing_nonce"; "pairing_request_sha256";
   "preceding_authority_head_sha256"; "expires_at"].
Definition LIFECYCLE_FIELDS :=
  ["contract_version"; "domain_separator"; "sequence"; "event_id"; "event_type"; "operator_id";
   "install_id"; "key_id"; "signed_by_key_id"; "details"; "created_at"; "previous_event_sha256"].
Definition KEY_STATE_FIELDS :=
  ["target_key_id"; "effective_at"; "compromised_at"; "reason"; "replacement_key_id";
   "affected_installation_ids"; "evidence_sha256s"; "required_revocation_key_ids"].
Definition ADJUDICATION_FIELDS :=
  ["proof_id"; "chosen_checkpoint_sha256"; "rejected_proof_sha256"; "reason"; "effective_at"].

Definition differs (k : string) (m : obj) (v : json) : bool := negb (py_eq (get k m) v).

(** An installation key of this installation is active. *)
Definition installed_at (install : json) (m : keyring) : bool :=
  existsb (λ kv, is_installation kv.2 && py_eq (ck_install kv.2) install && is_live kv.2) m.

(** The certificate that pairs or rebinds an installation *)
Definition authorization_valid (operator : string) (store : json) (c : certificate)
    (details event : obj) (msg : string) : res unit :=
  match get "authorization" details with
  | JObj a =>
      refuse_if (negb (set_eq (keys a) AUTHORIZATION_FIELDS) ||
                 differs "certificate_version" a (JStr "imprint.authority.authorize-installation/1.0.0") ||
                 differs "operator_id" a (JStr operator) || differs "store_identity" a store ||
                 differs "new_install_id" a (ce_install c) || differs "new_key_id" a (ce_id c) ||
                 differs "new_public_key_b64" a (ce_public c) ||
                 differs "preceding_authority_head_sha256" a (get "previous_event_sha256" event)) msg ;;
      parse_timestamp (get "expires_at" a) ;; Ok tt
  | _ => refuse msg
  end.

(** The facts of an event the lifecycle rules read *)
Record context : Type := {
  cx_operator : string; cx_store : json; cx_event : obj; cx_details : obj;
  cx_signer : json; cx_signed_by : chain_key; cx_sequence : Z; cx_digest : string
}.

Definition cx_created (x : context) : json := get "created_at" (cx_event x).

(** [keys[certified["key_id"]] = certified], a new key at the end *)
Definition enter (x : context) (c : certificate) (m : keyring) : keyring :=
  m ++ [(ce_id c, certified c (cx_sequence x) (Some (cx_digest x)) (cx_created x))].

Definition new_id (c : certificate) (m : keyring) (msg : string) : res unit :=
  found ← dict_get (ce_id c) m;
  refuse_if (bool_decide (is_Some found)) msg.

(** ["recovery_created"] and ["installation_paired"] *)
Definition pair_key (kind : key_kind) (x : context) (m : keyring) : res keyring :=
  let details := cx_details x in
  let expected := match kind with
                  | Recovery => KEY_FIELDS
                  | Installation => KEY_FIELDS ++ BLOB_FIELDS ++ ["authorization"]
                  end in
  refuse_if (negb (set_eq (keys details) expected)) "authority key certificate has unknown or missing fields" ;;
  c ← _new_chain_key details kind;
  refuse_if (differs "key_id" (cx_event x) (ce_id c) || differs "install_id" (cx_event x) (ce_install c))
    "authority key certificate subject mismatch" ;;
  new_id c m "authority key identity was certified twice" ;;
  match kind with
  | Recovery => Ok tt
  | Installation =>
      refuse_if (installed_at (ce_install c) m) "authority installation already has an active key" ;;
      authorization_valid (cx_operator x) (cx_store x) c details (cx_event x)
        "installation authorization certificate is invalid"
  end ;;
  Ok (enter x c m).

(** ["key_rotated"] *)
Definition rotate_key (x : context) (m : keyring) : res keyring :=
  let details := cx_details x in
  refuse_if (negb (set_eq (keys details) (KEY_FIELDS ++ BLOB_FIELDS ++ ["old_key_id"])))
    "authority rotation has unknown or missing fields" ;;
  let old_id := get "old_key_id" details in
  let broken := "authority rotation does not continue the active key" in
  refuse_if (negb (py_eq (cx_signer x) old_id)) broken ;;
  found ← dict_get old_id m;
  match found with
  | None => refuse broken
  | Some old =>
      refuse_if (negb (is_live old)) broken ;;
      c ← _new_chain_key details Installation;
      new_id c m "authority rotation key already exists" ;;
      refuse_if (negb (py_eq (ce_install c) (ck_install old)))
        "authority rotation changed installation identity" ;;
      Ok (enter x c (jupdate old_id (retired (cx_created x)) m))
  end.

Inductive ending : Type := KeyRevoked | KeyCompromised | RecoveryRevoked.

Definition ending_status (e : ending) : key_status :=
  match e with KeyCompromised => Compromised | _ => Revoked end.

Definition hex_text (v : json) : bool := match v with JStr s => is_sha256_hex s | _ => false end.

Definition scope_valid (details : obj) (target install : json) : bool :=
  py_eq (get "affected_installation_ids" details) (JList [install]) &&
  py_eq (get "required_revocation_key_ids" details) (JList [target]) &&
  match get "evidence_sha256s" details with JList l => forallb hex_text l | _ => false end.

Definition reason_given (details : obj) : bool :=
  match get "reason" details with JStr s => negb (blank s) | _ => false end.

(** ["key_revoked"], ["key_compromised"] and ["recovery_revoked"] *)
Definition end_key (e : ending) (x : context) (m : keyring) : res keyring :=
  let details := cx_details x in
  refuse_if (negb (set_eq (keys details) KEY_STATE_FIELDS && reason_given details))
    "authority key-state event has unknown or missing fields" ;;
  let target := get "target_key_id" details in
  refuse_if (differs "key_id" (cx_event x) target) "authority key-state subject mismatch" ;;
  found ← dict_get target m;
  let equivocation := "authority key-state equivocation" in
  match found with
  | None => refuse equivocation
  | Some key =>
      refuse_if (negb (is_live key)) equivocation ;;
      refuse_if (bool_decide (ending_status e = Compromised) && py_eq (cx_signer x) target)
        "a compromised key cannot revoke itself" ;;
      refuse_if (match e with RecoveryRevoked => is_installation key | _ => false end)
        "recovery revocation targets a non-recovery key" ;;
      refuse_if (negb (scope_valid details target (ck_install key)))
        "authority compromise scope or evidence is invalid" ;;
      let effective_at := get "effective_at" details in
      let stated := get "compromised_at" details in
      effective ← parse_timestamp effective_at;
      (if is_null stated then Ok tt else parse_timestamp stated ;; Ok tt) ;;
      let compromised_at := match e with
                            | KeyCompromised => if is_null stated then effective_at else stated
                            | _ => stated
                            end in
      (if is_null compromised_at then Ok tt
       else compromised ← parse_timestamp compromised_at;
            refuse_if (instant effective <? instant compromised)
              "authority compromise boundary follows its effective time") ;;
      let replacement := get "replacement_key_id" details in
      (if is_null replacement then Ok tt
       else known ← dict_get replacement m;
            refuse_if (negb (bool_decide (is_Some known))) "authority key-state replacement is unknown") ;;
      Ok (jupdate target (ended (ending_status e) effective_at compromised_at replacement) m)
  end.

(** ["installation_rebound"] *)
Definition rebind (x : context) (m : keyring) : res keyring :=
  let details := cx_details x in
  refuse_if (negb (set_eq (keys details) (KEY_FIELDS ++ BLOB_FIELDS ++ ["old_install_id"; "authorization"])))
    "authority rebind has unknown or missing fields" ;;
  let old_install := get "old_install_id" details in
  match List.filter (λ kv, py_eq (ck_install kv.2) old_install && is_live kv.2) m with
  | [(old_id, _)] =>
      let m' := jupdate old_id (retired (cx_created x)) m in
      c ← _new_chain_key details Installation;
      new_id c m' "authority rebind key already exists" ;;
      refuse_if (installed_at (ce_install c) m') "authority rebind target installation is already active" ;;
      authorization_valid (cx_operator x) (cx_store x) c details (cx_event x)
        "installation rebind authorization is invalid" ;;
      Ok (enter x c m')
  | _ => refuse "authority rebind source installation is ambiguous"
  end.

(** ["authority_conflict_adjudicated"] *)
Definition adjudicate (x : context) (m : keyring) : res keyring :=
  let details := cx_details x in
  refuse_if (negb (set_eq (keys details) ADJUDICATION_FIELDS && reason_given details &&
                   negb (is_installation (cx_signed_by x))))
    "authority conflict adjudication is invalid" ;;
  refuse_if (negb (hex_text (get "chosen_checkpoint_sha256" details) &&
                   hex_text (get "rejected_proof_sha256" details)))
    "authority conflict adjudication digest is invalid" ;;
  parse_timestamp (get "effective_at" details) ;;
  Ok m.

Definition LIFECYCLE : list (string * (context → keyring → res keyring)) :=
  [("recovery_created", pair_key Recovery); ("installation_paired", pair_key Installation);
   ("key_rotated", rotate_key);
   ("key_revoked", end_key KeyRevoked); ("key_compromised", end_key KeyCompromised);
   ("recovery_revoked", end_key RecoveryRevoked);
   ("installation_rebound", rebind); ("authority_conflict_adjudicated", adjudicate)].

(** The keys after an event that is not the first *)
Definition lifecycle (operator : string) (store : json) (event : obj) (signer : json)
    (signed_by : chain_key) (sequence : Z) (digest : string) (m : keyring) : res keyring :=
  refuse_if (negb (set_eq (keys event) LIFECYCLE_FIELDS) ||
             differs "contract_version" event (JStr "imprint.authority.ledger-event/1.1.0") ||
             differs "domain_separator" event (JStr "imprint-authority-ledger-v1"))
    "authority lifecycle event has unknown fields or version" ;;
  match get "details" event with
  | JObj details =>
      match get "event_type" event with
      | JStr event_type =>
          match assoc event_type LIFECYCLE with
          | Some rule =>
              rule {| cx_operator := operator; cx_store := store; cx_event := event; cx_details := details;
                      cx_signer := signer; cx_signed_by := signed_by; cx_sequence := sequence;
                      cx_digest := digest |} m
          | None => refuse "authority ledger event type is unsupported"
          end
      | _ => refuse "authority ledger event type is unsupported"
      end
  | _ => refuse "authority ledger lifecycle details are invalid"
  end.

(** ** Replaying the ledger *)

(** What is kept of the keys after each event: [hashes], [states_by_sequence],
    [key_snapshots_by_sequence] and [key_state_hashes] at one sequence *)
Record mark : Type := { mk_sha : string; mk_keys : keyring; mk_state : string }.

(** The events seen are as many as the marks. *)
Record chain : Type := { held : keyring; head_sha : option string; marks : list mark }.

Definition row_values (r : ledger_row) : obj :=
  [("event_id", JStr (lg_id r)); ("event_type", JStr (lg_type r)); ("operator_id", JStr (lg_operator r));
   ("install_id", JStr (lg_install r)); ("key_id", JStr (lg_key r));
   ("previous_event_sha256", opt_json (lg_previous r)); ("created_at", JStr (lg_created r))].

(** [json.loads(row["event_json"])] of an object.  Of another value the program
    raises [AttributeError], or [ValidationError] where it has no canonical
    bytes. *)
Definition event_object (row : ledger_row) (msg : string) : res obj :=
  match loads (lg_json row) with
  | None => refuse msg
  | Some (JObj m) => Ok m
  | Some _ => Err AttributeError
  end.

Definition signer_of (event : obj) : json :=
  match assoc "signed_by_key_id" event with Some v => v | None => get "key_id" event end.

Definition by_sequence (a b : ledger_row) : bool :=
  (lg_sequence a <? lg_sequence b) || ((lg_sequence a =? lg_sequence b) && String.leb (lg_sha a) (lg_sha b)).

Fixpoint consecutive (n : Z) (l : list ledger_row) : bool :=
  match l with
  | [] => true
  | r :: rest => (lg_sequence r =? n) && consecutive (n + 1) rest
  end.

Section chain.
Context `{signing : crypto}.

Definition key_state_sha256 (m : keyring) : res string :=
  value ← _key_state_value m;
  encoded ← rfc8785_bytes (JObj value);
  Ok (sha256 encoded).

(** [public_key_from_b64(public).verify(signature, domain + message)]; the
    message is encoded last. *)
Definition verify_signature (domain : string) (public signature : json) (message : res string)
    (invalid : string) : res unit :=
  match decode_b64 signature with
  | None => refuse invalid
  | Some sig =>
      match public with
      | JStr _ =>
          match decode_b64 public with
          | Some raw =>
              refuse_if (negb (Nat.eqb (String.length raw) 32)) "authority public key is invalid" ;;
              encoded ← message;
              refuse_if (negb (ed25519_verify raw sig (domain +:+ encoded))) invalid
          | None => refuse "authority public key is invalid"
          end
      | _ => refuse invalid
      end
  end.

(** The keys of the first event *)
Definition genesis_keys (genesis : obj) : res keyring :=
  key_id ← item "key_id" genesis;
  public ← item "public_key_b64" genesis;
  fingerprint ← item "public_key_fingerprint" genesis;
  install ← item "install_id" genesis;
  raise_if (negb (hashable key_id)) TypeError ;;
  let effective := get "created_at" genesis in
  let first := {| ce_id := key_id; ce_public := public; ce_fingerprint := fingerprint;
                  ce_install := install; ce_kind := Installation; ce_blob := None |} in
  let held := [(key_id, certified first 1 None effective)] in
  match get "recovery_binding" genesis with
  | JNull => Ok held
  | JObj binding =>
      refuse_if (negb (set_eq (keys binding) KEY_FIELDS)) "authority genesis recovery binding is invalid" ;;
      recovery ← _new_chain_key binding Recovery;
      new_id recovery held "authority genesis key identities collide" ;;
      Ok (held ++ [(ce_id recovery, certified recovery 1 None effective)])
  | _ => refuse "authority genesis recovery binding is invalid"
  end.

Definition verify_event (operator : string) (store : json) (st : chain) (row : ledger_row) : res chain :=
  let index := Z.of_nat (length (marks st)) in
  event ← event_object row "authority ledger event is malformed";
  encoded ← rfc8785_bytes (JObj event);
  let digest := sha256 encoded in
  let mismatch := "authority ledger event digest or sequence mismatch" in
  refuse_if (negb (String.eqb digest (lg_sha row))) mismatch ;;
  sequence ← py_int (default (JInt (-1)) (assoc "sequence" event));
  refuse_if (negb (sequence =? index + 1)) mismatch ;;
  refuse_if (existsb (λ kv, differs kv.1 event kv.2) (row_values row))
    "authority ledger row and signed event disagree" ;;
  refuse_if (differs "operator_id" event (JStr operator)) "authority ledger operator equivocation" ;;
  refuse_if (differs "previous_event_sha256" event (opt_json (head_sha st)))
    "authority ledger rollback, fork, or missing intermediate" ;;
  let signer_id := signer_of event in
  found ← dict_get signer_id (held st);
  match found with
  | None => refuse "authority ledger event signer is unknown or inactive"
  | Some signer =>
      refuse_if (negb (is_live signer)) "authority ledger event signer is unknown or inactive" ;;
      verify_signature LEDGER_DOMAIN (ce_public (ck_certificate signer)) (JStr (lg_signature row)) (Ok encoded)
        "authority ledger signature is invalid" ;;
      held' ← (if index =? 0 then Ok (map (λ kv, (kv.1, with_sha digest kv.2)) (held st))
               else lifecycle operator store event signer_id signer (index + 1) digest (held st));
      state ← key_state_sha256 held';
      Ok {| held := held'; head_sha := Some digest;
            marks := marks st ++ [{| mk_sha := digest; mk_keys := held'; mk_state := state |}] |}
  end.

(** The store a ledger is of and the state before its first event *)
Definition opening (operator : string) (expected_store : option string) (first : ledger_row)
    : res (json * chain) :=
  genesis ← event_object first "authority ledger genesis is malformed";
  refuse_if (differs "operator_id" genesis (JStr operator)) "authority ledger operator mismatch" ;;
  let store := get "store_identity" genesis in
  refuse_if match expected_store with Some s => negb (py_eq store (JStr s)) | None => false end
    "authority ledger store identity mismatch" ;;
  held ← genesis_keys genesis;
  Ok (store, {| held := held; head_sha := None; marks := [] |}).

(** The loop over the rows in order *)
Definition replay (operator : string) (expected_store : option string) (rows : list ledger_row)
    : res (json * chain) :=
  match rows with
  | [] => refuse "authority ledger is absent"
  | first :: _ =>
      refuse_if (negb (consecutive 1 rows)) "authority ledger sequence is broken or forked" ;;
      '(store, st) ← opening operator expected_store first;
      st' ← fold_res (verify_event operator store) st rows;
      Ok (store, st')
  end.

(** ** Pinned heads and checkpoints *)
Definition mark_at (st : chain) (sequence : Z) : option mark :=
  if 1 <=? sequence then nth_error (marks st) (Z.to_nat (sequence - 1)) else None.

Definition check_pinned (pinned : obj) (st : chain) : res unit :=
  refuse_if (negb (set_eq (keys pinned) ["sequence"; "event_sha256"])) "authority pinned head is malformed" ;;
  match as_int (get "sequence" pinned) with
  | None => refuse "authority source ledger is older than the pinned head"
  | Some sequence =>
      match mark_at st sequence with
      | None => refuse "authority source ledger is older than the pinned head"
      | Some m => refuse_if (differs "event_sha256" pinned (JStr (mk_sha m)))
                    "authority ledger fork or equivocation against pinned head"
      end
  end.

Definition CHECKPOINT_FIELDS :=
  ["checkpoint_version"; "domain_separator"; "operator_id"; "store_identity"; "sequence";
   "event_sha256"; "genesis_event_sha256"; "key_state_sha256"; "prior_checkpoint_sha256";
   "signer_key_id"; "signer_certificate"; "issued_at"; "expires_at"; "signature_b64"].

Definition unsigned (checkpoint : obj) : obj :=
  List.filter (λ kv, negb (String.eqb kv.1 "signature_b64")) checkpoint.

(** What is returned of a checkpoint; [ac_checkpoint] is the checkpoint itself. *)
Record accepted : Type := {
  ac_sequence : Z; ac_mark : mark; ac_signer : chain_key; ac_checkpoint : obj; ac_sha : string
}.

(** [now], [max_checkpoint_age_seconds] and [enforce_checkpoint_freshness] *)
Record freshness : Type := { fr_now : datetime; fr_max_age : Z; fr_enforce : bool }.

(** The age bound compares whole microseconds: [total_seconds] is exact enough
    for bounds below 2^32 seconds. *)
Definition check_window (checkpoint : obj) (fr : freshness) : res unit :=
  issued ← parse_timestamp (get "issued_at" checkpoint);
  expires ← parse_timestamp (get "expires_at" checkpoint);
  refuse_if ((instant expires <=? instant issued) || (fr_max_age fr * 1000000 <? instant expires - instant issued))
    "authority checkpoint freshness window is invalid" ;;
  refuse_if (fr_enforce fr && ((instant (fr_now fr) <? instant issued) || (instant expires <=? instant (fr_now fr))))
    "authority checkpoint is absent or stale".

Definition check_checkpoint (value : json) (operator : string) (store : json) (st : chain)
    (fr : freshness) : res accepted :=
  match value with
  | JObj checkpoint =>
      let absent := "authority checkpoint names an absent, rolled-back, or forked head" in
      let inactive := "authority checkpoint signer is inactive" in
      refuse_if (negb (set_eq (keys checkpoint) CHECKPOINT_FIELDS)) "authority checkpoint is malformed" ;;
      refuse_if (differs "checkpoint_version" checkpoint (JStr "imprint.authority.checkpoint/1.1.0") ||
                 differs "domain_separator" checkpoint (JStr "imprint-authority-checkpoint-v1"))
        "authority checkpoint version is unsupported" ;;
      let signer_id := get "signer_key_id" checkpoint in
      signer ← dict_get signer_id (held st);
      refuse_if (differs "operator_id" checkpoint (JStr operator) || differs "store_identity" checkpoint store)
        "authority checkpoint identity mismatch" ;;
      refuse_if match marks st with m :: _ => differs "genesis_event_sha256" checkpoint (JStr (mk_sha m)) | [] => true end
        "authority checkpoint trust genesis mismatch" ;;
      match as_int (get "sequence" checkpoint) ≫= λ n, option_map (pair n) (mark_at st n) with
      | None => refuse absent
      | Some (sequence, m) =>
          refuse_if (differs "event_sha256" checkpoint (JStr (mk_sha m))) absent ;;
          refuse_if (differs "key_state_sha256" checkpoint (JStr (mk_state m)))
            "authority checkpoint key-state digest mismatch" ;;
          let prior := get "prior_checkpoint_sha256" checkpoint in
          refuse_if (negb (is_null prior || hex_text prior)) "authority checkpoint prior hash is invalid" ;;
          match signer, jassoc signer_id (mk_keys m) with
          | Some signer, Some then_ =>
              refuse_if (negb (is_live then_)) inactive ;;
              refuse_if (differs "signer_certificate" checkpoint (JObj (_signer_certificate then_)))
                "authority checkpoint signer certificate mismatch" ;;
              check_window checkpoint fr ;;
              verify_signature CHECKPOINT_DOMAIN (ce_public (ck_certificate signer))
                (get "signature_b64" checkpoint) (rfc8785_bytes (JObj (unsigned checkpoint)))
                "authority checkpoint signature is invalid" ;;
              whole ← rfc8785_bytes (JObj checkpoint);
              Ok {| ac_sequence := sequence; ac_mark := m; ac_signer := signer;
                    ac_checkpoint := checkpoint; ac_sha := sha256 whole |}
          | _, _ => refuse inactive
          end
      end
  | _ => refuse "authority checkpoint is malformed"
  end.

(** ** [verify_authority_chain] *)
Record report : Type := {
  rp_store : json; rp_chain : chain; rp_genesis_sha : string; rp_head : Z; rp_head_sha : string;
  rp_state : string; rp_checkpoint : option accepted; rp_valid_as_of : json;
  rp_unseen : bool; rp_active : keyring
}.

Definition verify_authority_chain (operator : string) (expected_store : option string)
    (checkpoint : option (json * freshness)) (pinned_head : option obj) (a : authority) : res report :=
  let rows := sort_by by_sequence (ledger a) in
  '(store, st) ← replay operator expected_store rows;
  match pinned_head with Some p => check_pinned p st | None => Ok tt end ;;
  accepted ← match checkpoint with
             | Some (v, fr) => c ← check_checkpoint v operator store st fr; Ok (Some c)
             | None => Ok None
             end;
  match marks st, last (marks st), last rows with
  | genesis :: _, Some head, Some row =>
      Ok {| rp_store := store; rp_chain := st; rp_genesis_sha := mk_sha genesis;
            rp_head := Z.of_nat (length rows); rp_head_sha := mk_sha head; rp_state := mk_state head;
            rp_checkpoint := accepted;
            rp_valid_as_of := match accepted with
                              | Some c => get "issued_at" (ac_checkpoint c)
                              | None => JStr (lg_created row)
                              end;
            rp_unseen := match accepted with
                         | Some c => ac_sequence c <? Z.of_nat (length rows)
                         | None => false
                         end;
            rp_active := List.filter (λ kv, is_installation kv.2 && is_live kv.2) (held st) |}
  | _, _, _ => Err (KeyError "1")
  end.

(** ** Writing the ledger *)

(** [INSERT INTO authority_ledger] *)
Definition insert_ledger (r : ledger_row) (d : db) : res db :=
  let a := the_authority d in
  raise_if (lg_sequence r <=? 0) (IntegrityError false) ;;
  unique (existsb (λ x, (lg_sequence x =? lg_sequence r) || String.eqb (lg_id x) (lg_id r)) (ledger a)) ;;
  Ok (with_authority {| prepared := prepared a; challenges := challenges a; grants := grants a;
        keys_ := keys_ a; ledger := ledger a ++ [r]; trusted := trusted a |} d).

(** [INSERT INTO authority_keys], with its unique columns, its checks and
    [one_active_authority_key_per_install]; a [CHECK] precedes a unique
    conflict. *)
Definition key_clash (k x : key_row) : bool :=
  String.eqb (ky_id x) (ky_id k) || String.eqb (ky_fingerprint x) (ky_fingerprint k) ||
  String.eqb (ky_blob_path x) (ky_blob_path k) || String.eqb (ky_nonce x) (ky_nonce k) ||
  is_active x && is_active k && String.eqb (ky_operator x) (ky_operator k) &&
  String.eqb (ky_install x) (ky_install k).

Definition KEY_STATUSES := ["active"; "retired"; "revoked"; "compromised"].

Definition insert_key (k : key_row) (d : db) : res db :=
  let a := the_authority d in
  raise_if (negb (mem (ky_status k) KEY_STATUSES) || (ky_blob_size k <=? 0)) (IntegrityError false) ;;
  unique (existsb (key_clash k) (keys_ a)) ;;
  Ok (with_authority {| prepared := prepared a; challenges := challenges a; grants := grants a;
        keys_ := keys_ a ++ [k]; ledger := ledger a; trusted := trusted a |} d).

(** The metadata of an enrolled key and the file that holds it *)
Record metadata : Type := {
  md_operator : string; md_install : string; md_store : string; md_key : string;
  md_public : string; md_fingerprint : string; md_suite : string; md_nonce : string;
  md_created : string; md_blob_path : string; md_blob_sha : string; md_blob_size : Z
}.

Section writing.
Context `{env : environment}.

Definition genesis_event (md : metadata) (recovery_binding : option obj) : txn obj :=
  event_id ← fresh "authority-event";
  let event :=
    [("contract_version", JStr "imprint.authority.ledger-event/1.0.0");
     ("domain_separator", JStr "imprint-authority-ledger-v1"); ("sequence", JInt 1);
     ("event_id", JStr event_id); ("event_type", JStr "enrollment");
     ("operator_id", JStr (md_operator md)); ("install_id", JStr (md_install md));
     ("store_identity", JStr (md_store md)); ("key_id", JStr (md_key md));
     ("public_key_b64", JStr (md_public md)); ("public_key_fingerprint", JStr (md_fingerprint md));
     ("algorithm_suite", JStr (md_suite md)); ("enrollment_nonce", JStr (md_nonce md));
     ("blob_rel_path", JStr (md_blob_path md)); ("blob_sha256", JStr (md_blob_sha md));
     ("blob_size", JInt (md_blob_size md)); ("status", JStr "active");
     ("created_at", JStr (md_created md)); ("previous_event_sha256", JNull)] in
  match recovery_binding with
  | None => mret event
  | Some binding =>
      guard (negb (set_eq (keys binding) KEY_FIELDS)) (ValidationError "genesis recovery binding is incomplete") ;;
      mret (event ++ [("recovery_binding", JObj binding)])
  end.

Definition insert_genesis (md : metadata) (sign : string → string) (recovery_binding : option obj)
    (approve : obj → txn unit) : txn ledger_row :=
  a ← query the_authority;
  guard match ledger a with [] => false | _ => true end (ConflictError "authority is already enrolled") ;;
  event ← genesis_event md recovery_binding;
  encoded ← lift (rfc8785_bytes (JObj event));
  approve event ;;
  event_id ← lift (text_item "event_id" event);
  let row := {| lg_sequence := 1; lg_id := event_id; lg_type := "enrollment";
                lg_operator := md_operator md; lg_install := md_install md; lg_key := md_key md;
                lg_json := encoded; lg_sha := sha256 encoded;
                lg_signature := b64encode false (sign (LEDGER_DOMAIN +:+ encoded));
                lg_previous := None; lg_created := md_created md |} in
  exec (insert_ledger row) ;;
  exec (insert_key {| ky_id := md_key md; ky_operator := md_operator md; ky_install := md_install md;
                      ky_store := md_store md; ky_public := md_public md;
                      ky_fingerprint := md_fingerprint md; ky_status := "active"; ky_sequence := 1;
                      ky_blob_path := md_blob_path md; ky_blob_sha := md_blob_sha md;
                      ky_blob_size := md_blob_size md; ky_suite := md_suite md;
                      ky_nonce := md_nonce md; ky_created := md_created md |}) ;;
  mret row.

(** [SELECT ... ORDER BY sequence DESC LIMIT 1] *)
Definition last_event (a : authority) : option ledger_row := last (sort_by by_sequence (ledger a)).

Definition append_ledger_event (event_type operator install key : string) (details : obj)
    (signer : string) (sign : string → string) (approve : obj → txn unit) : txn (obj * ledger_row) :=
  a ← query the_authority;
  match last_event a with
  | None => raise (ValidationError "authority lifecycle event requires an enrolled ledger")
  | Some head =>
      event_id ← fresh "authority-event";
      now ← now_;
      let sequence := lg_sequence head + 1 in
      let created := utc_text now in
      let event :=
        [("contract_version", JStr "imprint.authority.ledger-event/1.1.0");
         ("domain_separator", JStr "imprint-authority-ledger-v1"); ("sequence", JInt sequence);
         ("event_id", JStr event_id); ("event_type", JStr event_type);
         ("operator_id", JStr operator); ("install_id", JStr install); ("key_id", JStr key);
         ("signed_by_key_id", JStr signer); ("details", JObj details);
         ("created_at", JStr created); ("previous_event_sha256", JStr (lg_sha head))] in
      encoded ← lift (rfc8785_bytes (JObj event));
      approve event ;;
      let row := {| lg_sequence := sequence; lg_id := event_id; lg_type := event_type;
                    lg_operator := operator; lg_install := install; lg_key := key;
                    lg_json := encoded; lg_sha := sha256 encoded;
                    lg_signature := b64encode false (sign (LEDGER_DOMAIN +:+ encoded));
                    lg_previous := Some (lg_sha head); lg_created := created |} in
      exec (insert_ledger row) ;;
      mret (event, row)
  end.

Definition create_checkpoint (operator signer_key_id : string) (sign : string → string) (ttl_seconds : Z)
    (prior : option string) (approve : obj → txn unit) : txn obj :=
  guard (negb ((1 <=? ttl_seconds) && (ttl_seconds <=? MAX_CHECKPOINT_AGE_SECONDS)))
    (ValidationError "authority checkpoint TTL must be within 24 hours") ;;
  current ← query the_authority;
  verified ← lift (verify_authority_chain operator None None None current);
  match jassoc (JStr signer_key_id) (held (rp_chain verified)) with
  | None => raise (ValidationError "authority checkpoint signer is not active")
  | Some signer =>
      guard (negb (is_live signer)) (ValidationError "authority checkpoint signer is not active") ;;
      issued ← now_;
      expires ← lift (plus_seconds issued ttl_seconds);
      let value :=
        [("checkpoint_version", JStr "imprint.authority.checkpoint/1.1.0");
         ("domain_separator", JStr "imprint-authority-checkpoint-v1");
         ("operator_id", JStr operator); ("store_identity", rp_store verified);
         ("sequence", JInt (rp_head verified)); ("event_sha256", JStr (rp_head_sha verified));
         ("genesis_event_sha256", JStr (rp_genesis_sha verified));
         ("key_state_sha256", JStr (rp_state verified)); ("prior_checkpoint_sha256", opt_json prior);
         ("signer_certificate", JObj (_signer_certificate signer));
         ("issued_at", JStr (utc_text issued)); ("expires_at", JStr (utc_text expires));
         ("signer_key_id", JStr signer_key_id)] in
      approve value ;;
      encoded ← lift (rfc8785_bytes (JObj value));
      mret (value ++ [("signature_b64", JStr (b64encode false (sign (CHECKPOINT_DOMAIN +:+ encoded))))])
  end.
End writing.
End chain.
