(* ===== verification/Store.v ===== *)
(** * The canonical writer: rows, raw captures and reads ([store/service.py])

    [validate_base_version_values] and the row writers every operation goes
    through, [apply_capture] with its batch form, and the read side
    ([current_nodes], [current_edges], [node_history],
    [retrieval_generation]). *)
From S2P Require Import Prelude PyTime Urn Contracts Codec Unicode Retrieval Json Names.
From S2P Require Import Clock Capture Tables Integrity Txn.

Definition PRODUCT_VERSION := "3.1.2".

(** [ImprintStore(path, expected_operator_id=..., expected_node_id=...)] *)
Record store : Type := { expected_operator_id : option string; expected_node_id : option string }.

(** ** Rows of versions *)
Definition validate_base_version_values (v : version_row) : res unit :=
  raise_if (negb (lattice_ok (vr_status v) (vr_tier v)))
    (ValidationError "base version violates origin/authority lattice") ;;
  match loads (vr_provenance v) with
  | None => Err (ValidationError "base version provenance must be canonical JSON")
  | Some (JObj m) =>
      raise_if (negb (py_eq (get_default "origin_status" (get "status" m) m) (JStr (vr_status v))) ||
                negb (py_eq (get "authority_tier" m) (JStr (vr_tier v))))
        (ValidationError "base version provenance disagrees with origin/authority columns") ;;
      raise_if (String.eqb (vr_tier v) "ratified_knowledge" &&
                negb (truthy (get "ratifier" m) || truthy (get "ratification_event_version_id" m)))
        (ValidationError "ratified base version requires signed-promotion proof")
  | Some _ => Err (ValidationError "base version provenance must be an object")
  end.

Definition graph_exec (f : graph → res graph) : txn unit := exec (on_graph f).

Definition insert_node_version (v : version_row) : txn unit :=
  lift (validate_base_version_values v) ;; graph_exec (insert_version v).

Definition insert_edge_version_row (v : version_row) : txn unit :=
  lift (validate_base_version_values v) ;; graph_exec (insert_edge_version v).

Definition version_provenance (status authority_tier actor_class : string) (actor_id mechanism : json)
    (event_id : string) (model prompt_recipe proposal_id ratifier relation : json) : obj :=
  [("provenance_schema_version", JStr "1.0.0"); ("status", JStr status);
   ("authority_tier", JStr authority_tier); ("actor_class", JStr actor_class);
   ("actor_id", actor_id); ("mechanism", mechanism);
   ("software", JObj [("name", JStr "imprint-local"); ("version", JStr PRODUCT_VERSION)]);
   ("model", model); ("prompt_recipe", prompt_recipe);
   ("proposal_id", proposal_id); ("ratifier", ratifier);
   ("event_id", JStr event_id); ("relation", relation)].

(** [INSERT INTO events VALUES(...)] with a canonical payload *)
Definition write_event (id type operator now valid_time : string) (payload : obj)
    (prior : option string) (status : string) : txn unit :=
  graph_exec (insert_event
    {| ev_id := id; ev_type := type; ev_operator := operator; ev_system_time := now;
       ev_valid_time := valid_time; ev_payload := canonical_bytes (JObj payload);
       ev_sha := payload_sha256 (JObj payload); ev_prior := prior; ev_status := status |}).

Definition write_node (id type operator event : string) : txn unit :=
  graph_exec (insert_node {| nd_id := id; nd_type := type; nd_operator := operator; nd_event := event |}).

Definition write_edge (id type source target operator event : string) : txn unit :=
  graph_exec (insert_edge {| ed_id := id; ed_type := type; ed_source := source; ed_target := target;
                             ed_operator := operator; ed_event := event |}).

(** The 14 columns of a version, open since [now] *)
Definition version_values (id owner : string) (payload : string * string) (status tier : string)
    (provenance : obj) (evidence valid_from : string) (valid_to : option string)
    (now event : string) (prior : option string) : version_row :=
  {| vr_id := id; vr_owner := owner; vr_payload := payload.1; vr_sha := payload.2;
     vr_status := status; vr_tier := tier; vr_provenance := canonical_bytes (JObj provenance);
     vr_evidence := evidence; vr_valid_from := valid_from; vr_valid_to := valid_to;
     vr_system_from := now; vr_system_to := None; vr_event := event; vr_prior := prior |}.

(** [canonical_bytes(payload).decode(), payload_sha256(payload)] *)
Definition sealed (payload : json) : string * string := (canonical_bytes payload, payload_sha256 payload).

Definition close_node_version (id now : string) (valid_too : bool) : txn unit :=
  exec (on_graph_update (close_version id now valid_too)).

(** ** Lookups *)
Definition find_node (id : string) (d : db) : option node_row :=
  List.find (λ n, String.eqb (nd_id n) id) (nodes (the_graph d)).

Definition find_event (id : string) (d : db) : option event_row :=
  List.find (λ e, String.eqb (ev_id e) id) (events (the_graph d)).

Definition find_receipt (id : string) (d : db) : option receipt_row :=
  List.find (λ r, String.eqb (rc_source r) id) (receipts (the_intake d)).

(** [WHERE n.node_id=? AND nv.system_to IS NULL] *)
Definition current_of (id : string) (v : version_row) : bool :=
  String.eqb (vr_owner v) id && is_open v.

Definition find_current (id : string) (d : db) : option version_row :=
  List.find (current_of id) (node_versions (the_graph d)).

(** [_require_configured_operator] *)
Definition differs (expected : option string) (actual : string) : bool :=
  match expected with Some e => negb (String.eqb actual e) | None => false end.

Definition _require_configured_operator (s : store) (operator_id : string) : res unit :=
  raise_if (differs (expected_operator_id s) operator_id)
    (ValidationError "operator does not match configured identity").

(** ** Raw capture *)

(** [unicodedata.normalize("NFKC", text)], data of the runtime *)
Class normalization : Type := { nfkc : string → string }.

Section capture.
Context `{env : environment} `{ucd : unicode_data} `{norm : normalization}.

Definition _feedback_content_sha256 (text : string) : string :=
  sha256 (join_with " " (words_of (chars (py_casefold (nfkc text))) "")).

Definition evidence_ids_of (envelope : obj) : res (list string) :=
  l ← match get_default "evidence" (JList []) envelope with JList l => Ok l | _ => Err TypeError end;
  map_res (λ e, m ← obj_of e; text_item "evidence_id" m) l.

Definition captured_provenance (envelope : obj) (event_id : string) (relation : json) : res obj :=
  mechanism ← item "capture_mechanism" envelope;
  Ok (version_provenance "captured" "observed_candidate" "software"
        (get_default "captured_by" (JStr "imprint-recorder") envelope) mechanism event_id
        JNull JNull JNull JNull relation).

Definition _insert_node (node_id node_type : string) (payload : obj) (envelope : obj)
    (event_id now : string) : txn unit :=
  operator ← lift (text_item "operator_id" envelope);
  write_node node_id node_type operator event_id ;;
  version_id ← fresh "node-version";
  evidence ← lift (evidence_ids_of envelope);
  provenance ← lift (captured_provenance envelope event_id JNull);
  captured_at ← lift (text_item "captured_at" envelope);
  insert_node_version
    (version_values version_id node_id (sealed (JObj payload)) "captured" "observed_candidate"
       provenance (dumps_strings evidence) captured_at None now event_id None).

Definition _insert_edge (edge_type source target : string) (envelope : obj)
    (event_id now : string) : txn unit :=
  edge_id ← fresh "edge";
  let payload := [("why", JStr "witnessed in raw capture"); ("relation", JStr edge_type)] in
  operator ← lift (text_item "operator_id" envelope);
  write_edge edge_id edge_type source target operator event_id ;;
  version_id ← fresh "edge-version";
  provenance ← lift (captured_provenance envelope event_id (JStr edge_type));
  evidence ← lift (evidence_ids_of envelope);
  captured_at ← lift (text_item "captured_at" envelope);
  insert_edge_version_row
    (version_values version_id edge_id (sealed (JObj payload)) "captured" "observed_candidate"
       provenance (dumps_strings evidence) captured_at None now event_id None).

(** One item of the evidence list: its node, its edge and its receipt *)
Definition insert_evidence (verdict_id : string) (envelope : obj) (event_id now : string)
    (value : json) : txn unit :=
  evidence ← lift (obj_of value);
  id ← lift (text_item "evidence_id" evidence);
  _insert_node id "Evidence" evidence envelope event_id now ;;
  _insert_edge "supported_by" verdict_id id envelope event_id now ;;
  kind ← lift (text_of (get_default "kind" (JStr "operator_verbatim") evidence));
  locator ← lift (text_of (get_default "source_locator" (JStr "") evidence));
  sha ← lift (text_item "content_sha256" evidence);
  exec (insert_receipt {| rc_source := id; rc_kind := kind; rc_locator := locator; rc_sha := sha;
                          rc_event := event_id |}).

Definition by_alternative (acc : list (string * obj)) (value : json) : res (list (string * obj)) :=
  m ← obj_of value; id ← text_item "alternative_id" m; Ok (set_item id m acc).

Definition default_list (k : string) (m : obj) : res (list json) :=
  match get_default k (JList []) m with JList l => Ok l | _ => Err TypeError end.

Definition choice_edges (edge_type verdict_id : string) (ids : list json) (envelope : obj)
    (event_id now : string) : txn unit :=
  for_all (λ v, id ← lift (text_of v); _insert_edge edge_type verdict_id id envelope event_id now) ids.

Definition SAME_ID := "same input_event_id has different bytes".

Definition find_consumed (event_id : string) (d : db) : option consumed_row :=
  List.find (λ r, String.eqb (cs_event r) event_id) (consumed (the_intake d)).

(** The rows of a capture that is new *)
Definition write_capture (value : json) (envelope : obj) (event_id operator event_hash content_hash
    now source_path : string) : txn unit :=
  captured_at ← lift (text_item "captured_at" envelope);
  graph_exec (insert_event
    {| ev_id := event_id; ev_type := "captured"; ev_operator := operator; ev_system_time := now;
       ev_valid_time := captured_at; ev_payload := canonical_bytes value; ev_sha := event_hash;
       ev_prior := None; ev_status := "captured" |}) ;;
  case ← lift (obj_item "case" envelope);
  verdict ← lift (obj_item "verdict" envelope);
  call ← lift (obj_item "call" verdict);
  case_id ← lift (text_item "case_id" case);
  verdict_id ← lift (text_item "verdict_id" verdict);
  call_id ← lift (text_item "call_id" call);
  _insert_node case_id "Case" case envelope event_id now ;;
  _insert_node verdict_id "Verdict" verdict envelope event_id now ;;
  _insert_node call_id "Call" call envelope event_id now ;;
  _insert_edge "verdict_about_case" verdict_id case_id envelope event_id now ;;
  _insert_edge "made_call" verdict_id call_id envelope event_id now ;;
  evidence ← lift (list_item "evidence" envelope);
  for_all (insert_evidence verdict_id envelope event_id now) evidence ;;
  items ← lift (default_list "alternatives" envelope);
  alternatives ← lift (fold_res by_alternative [] items);
  for_all (λ kv, _insert_node kv.1 "Alternative" kv.2 envelope event_id now) alternatives ;;
  chosen ← lift (default_list "chosen_alternative_ids" verdict);
  choice_edges "chose_alternative" verdict_id chosen envelope event_id now ;;
  rejected ← lift (default_list "rejected_alternative_ids" verdict);
  choice_edges "rejected_alternative" verdict_id rejected envelope event_id now ;;
  exec (insert_consumed {| cs_event := event_id; cs_sha := event_hash; cs_at := now;
                           cs_path := source_path |}) ;;
  exec (insert_dedup {| dd_operator := operator; dd_sha := content_hash; dd_event := event_id;
                        dd_at := captured_at |}).

Definition _apply_capture_on_connection (s : store) (value : json) (source_path : string) : txn string :=
  envelope ← lift (validate_capture_envelope value);
  operator ← lift (text_item "operator_id" envelope);
  guard (differs (expected_operator_id s) operator)
    (ValidationError "capture operator does not match the configured canonical operator") ;;
  node ← lift (text_item "node_id" envelope);
  guard (differs (expected_node_id s) node)
    (ValidationError "capture node does not match the configured producer node") ;;
  event_id ← lift (text_item "input_event_id" envelope);
  let event_hash := payload_sha256 value in
  verdict ← lift (obj_item "verdict" envelope);
  text ← lift (text_item "raw_operator_text" verdict);
  let content_hash := _feedback_content_sha256 text in
  now ← utc_now;
  prior ← query (find_consumed event_id);
  match prior with
  | Some row => if String.eqb (cs_sha row) event_hash then mret "duplicate"
                else raise (ConflictError SAME_ID)
  | None =>
      known ← query (λ d, existsb (is_dedup operator content_hash) (dedup (the_intake d)));
      if (known : bool) then mret "duplicate"
      else
        write_capture value envelope event_id operator event_hash content_hash now source_path ;;
        mret "captured"
  end.

Definition IDENTITY_CONFLICT :=
  "capture conflicts with an existing canonical node, version, edge, or event identity".

(** [_sqlite_is_identity_conflict] *)
Definition is_identity_conflict (e : exn) : bool :=
  match e with IntegrityError unique => unique | _ => false end.

Definition apply_capture (s : store) (value : json) (source_path : string) : txn string := λ c,
  match connect (_apply_capture_on_connection s value source_path) c with
  | (Err e, c') => (Err (if is_identity_conflict e then ConflictError IDENTITY_CONFLICT else e), c')
  | r => r
  end.

(** What one item of a batch contributes: its result, or an exception that
    aborts the group *)
Definition batch_outcome (r : res string) : txn (res string) :=
  match r with
  | Ok a => mret (Ok a)
  | Err (IntegrityError true) => mret (Err (ConflictError IDENTITY_CONFLICT))
  | Err (ConflictError m) => mret (Err (ConflictError m))
  | Err e => if is_validation e then mret (Err e) else raise e
  end.

Fixpoint capture_group (s : store) (items : list (json * string)) : txn (list (res string)) :=
  match items with
  | [] => mret []
  | (envelope, path) :: rest =>
      r ← savepoint (_apply_capture_on_connection s envelope path);
      o ← batch_outcome r;
      os ← capture_group s rest;
      mret (o :: os)
  end.

(** [for start in range(0, len(items), batch_size)]; [fuel] bounds the number
    of groups. *)
Fixpoint capture_groups (fuel : nat) (s : store) (batch_size : nat) (items : list (json * string))
    : txn (list (res string)) :=
  match fuel, items with
  | S fuel, _ :: _ =>
      os ← capture_group s (firstn batch_size items);
      commit ;;
      rest ← capture_groups fuel s batch_size (skipn batch_size items);
      mret (os ++ rest)
  | _, _ => mret []
  end.

Definition apply_capture_batch (s : store) (items : list (json * string)) (batch_size : Z)
    : txn (list (res string)) :=
  guard (negb ((1 <=? batch_size) && (batch_size <=? 1000)))
    (ValidationError "capture batch_size must be 1..1000") ;;
  connect (capture_groups (length items) s (Z.to_nat batch_size) items).
End capture.

(** ** Reads: functions of the committed database *)
Definition opt_json (o : option string) : json := match o with Some s => JStr s | None => JNull end.

(** [ORDER BY a, b] on text columns *)
Definition text_order (a b : string * string) : bool :=
  match String.compare a.1 b.1 with Lt => true | Gt => false | Eq => String.leb a.2 b.2 end.

Definition order_by {A} (key : A → string * string) (l : list A) : list A :=
  sort_by (λ a b, text_order (key a) (key b)) l.

(** The columns a read decodes *)
Definition decoded (v : version_row) : res obj :=
  payload ← load_json (vr_payload v);
  provenance ← load_json (vr_provenance v);
  evidence ← load_json (vr_evidence v);
  Ok [("payload", payload); ("provenance", provenance); ("evidence", evidence)].

Definition version_columns (v : version_row) : obj :=
  [("payload_sha256", JStr (vr_sha v)); ("provenance_status", JStr (vr_status v));
   ("authority_tier", JStr (vr_tier v)); ("valid_from", JStr (vr_valid_from v));
   ("valid_to", opt_json (vr_valid_to v)); ("system_from", JStr (vr_system_from v));
   ("system_to", opt_json (vr_system_to v)); ("event_id", JStr (vr_event v))].

(** [nodes n JOIN node_versions nv USING(node_id)] *)
Definition joined (d : db) : list (node_row * version_row) :=
  flat_map (λ v, match find_node (vr_owner v) d with Some n => [(n, v)] | None => [] end)
    (node_versions (the_graph d)).

Definition wanted (types : option (list string)) (n : node_row) : bool :=
  match types with
  | None | Some [] => true
  | Some l => mem (nd_type n) l
  end.

Definition current_rows (types : option (list string)) (d : db) : list (node_row * version_row) :=
  order_by (λ nv, (nd_type nv.1, nd_id nv.1))
    (List.filter (λ nv, is_open nv.2 && wanted types nv.1) (joined d)).

Definition node_item (nv : node_row * version_row) : res obj :=
  rest ← decoded nv.2;
  Ok ([("node_id", JStr (nd_id nv.1)); ("node_type", JStr (nd_type nv.1));
       ("operator_id", JStr (nd_operator nv.1)); ("version_id", JStr (vr_id nv.2))] ++
      version_columns nv.2 ++ rest).

Definition current_nodes (types : option (list string)) (d : db) : res (list obj) :=
  map_res node_item (current_rows types d).

Definition list_domains (d : db) : res (list obj) := current_nodes (Some ["Domain"]) d.

Definition find_edge (id : string) (d : db) : option edge_row :=
  List.find (λ e, String.eqb (ed_id e) id) (edges (the_graph d)).

Definition joined_edges (d : db) : list (edge_row * version_row) :=
  flat_map (λ v, match find_edge (vr_owner v) d with Some e => [(e, v)] | None => [] end)
    (edge_versions (the_graph d)).

Definition edge_item (ev : edge_row * version_row) : res obj :=
  rest ← decoded ev.2;
  Ok ([("edge_id", JStr (ed_id ev.1)); ("edge_type", JStr (ed_type ev.1));
       ("source_id", JStr (ed_source ev.1)); ("target_id", JStr (ed_target ev.1))] ++
      version_columns ev.2 ++ rest).

Definition current_edges (d : db) : res (list obj) :=
  map_res edge_item
    (order_by (λ ev, (ed_type ev.1, ed_id ev.1))
       (List.filter (λ ev, is_open ev.2) (joined_edges d))).

Definition snapshot (d : db) : res obj :=
  ns ← current_nodes None d;
  es ← current_edges d;
  Ok [("store_schema_version", JStr STORE_SCHEMA_VERSION);
      ("ontology_schema_version", JStr ONTOLOGY_SCHEMA_VERSION);
      ("nodes", JList (map JObj ns)); ("edges", JList (map JObj es))].

Definition DISPOSITIONS :=
  ["ratified"; "rejected"; "deferred"; "corrected"; "contested"; "consent_revoked"; "tombstoned";
   "reason_added"; "reinforced"; "contradicts"; "supersedes"; "domain_selected"; "domain_frozen";
   "proposal_succeeded"].

Definition history_rows (node_id : string) (d : db) : list (node_row * version_row * event_row) :=
  order_by (λ x, (vr_system_from x.1.2, vr_id x.1.2))
    (flat_map (λ nv : node_row * version_row,
       match find_event (vr_event nv.2) d with Some e => [(nv, e)] | None => [] end)
     (List.filter (λ nv, String.eqb (nd_id nv.1) node_id) (joined d))).

(** [event_disposition_subjects ds JOIN events e USING(event_id)] *)
Definition disposition_rows (node_id : string) (d : db) : list event_row :=
  order_by (λ e, (ev_system_time e, ev_id e))
    (flat_map (λ s, match find_event (sb_event s) d with
                    | Some e => if mem (ev_type e) DISPOSITIONS then [e] else []
                    | None => []
                    end)
       (List.filter (λ s, String.eqb (sb_subject s) node_id) (subjects (the_graph d)))).

Definition history_item (x : node_row * version_row * event_row) : res obj :=
  let '(n, v, e) := x in
  payload ← load_json (vr_payload v);
  event_payload ← load_json (ev_payload e);
  provenance ← load_json (vr_provenance v);
  evidence ← load_json (vr_evidence v);
  Ok ([("version_id", JStr (vr_id v)); ("node_id", JStr (vr_owner v))] ++ version_columns v ++
      [("prior_version_id", opt_json (vr_prior v)); ("node_type", JStr (nd_type n));
       ("operator_id", JStr (nd_operator n)); ("event_type", JStr (ev_type e));
       ("payload", payload); ("event_payload", event_payload); ("provenance", provenance);
       ("evidence", evidence)]).

Definition disposition_item (e : event_row) : res obj :=
  payload ← load_json (ev_payload e);
  Ok [("event_id", JStr (ev_id e)); ("event_type", JStr (ev_type e));
      ("system_time", JStr (ev_system_time e)); ("payload", payload)].

Definition node_history (node_id : string) (d : db) : res obj :=
  let rows := history_rows node_id d in
  raise_if (Nat.eqb (length rows) 0) (ValidationError "node does not exist") ;;
  versions ← map_res history_item rows;
  dispositions ← map_res disposition_item (disposition_rows node_id d);
  Ok [("node_id", JStr node_id); ("versions", JList (map JObj versions));
      ("dispositions", JList (map JObj dispositions))].

Definition STORE_PREFIX := "urn:imprint:store:".

(** The counter of [meta] is a decimal text; its value is kept. *)
Definition retrieval_generation (d : db) : res (string * Z) :=
  match store_identity d with
  | Some identity =>
      raise_if (negb (starts_with STORE_PREFIX identity))
        (ValidationError "store identity metadata is missing or invalid") ;;
      raise_if (generation (the_graph d) <? 0)
        (ValidationError "content generation metadata is missing or invalid") ;;
      Ok (identity, generation (the_graph d))
  | None => Err (ValidationError "store identity metadata is missing or invalid")
  end.

(** A store as [initialize] leaves it *)
Definition fresh_store (identity : string) : db :=
  {| the_graph := {| events := []; subjects := []; nodes := []; node_versions := []; edges := [];
                     edge_versions := []; generation := 0 |};
     the_intake := {| receipts := []; dedup := []; consumed := [] |};
     the_authority := {| prepared := []; challenges := []; grants := []; keys_ := []; ledger := [];
                         trusted := no_trust |};
     the_semantic := no_semantic; store_identity := Some identity |}.

(** ** The writers keep the store well formed *)
Lemma validate_base_Ok v u :
  validate_base_version_values v = Ok u →
  lattice_ok (vr_status v) (vr_tier v) = true ∧ ∃ m, provenance_agrees v m.
Proof.
  unfold validate_base_version_values. intros H. apply bind_Ok in H as (? & Hl & H).
  apply raise_if_Ok, negb_false_iff in Hl. split; [done|].
  destruct (loads (vr_provenance v)) as [[| | | | | |m]|] eqn:Em; try discriminate. exists m.
  apply bind_Ok in H as (? & Ha & Hp). apply raise_if_Ok in Ha, Hp. bool_hyps.
  split; [done|by apply py_eq_str..|].
  intros E. rewrite E in Hp. simpl in Hp. apply negb_false_iff, orb_true_iff in Hp. done.
Qed.

(** Two guards, one lattice.  A row the Python validator admits passes the
    SQL trigger of both version tables: the trigger never refuses what the
    writer checked, and no admitted row is off the origin/authority lattice or
    ratified without a proof of promotion. *)
Theorem base_values_imply_trigger v :
  validate_base_version_values v = Ok tt → lattice_trigger v = Ok tt.
Proof.
  intros H. apply validate_base_Ok in H as (Hl & m & [Hm _ _ Hp]). unfold lattice_trigger.
  rewrite Hl. simpl. destruct (String.eqb_spec (vr_tier v) "ratified_knowledge") as [E|]; [|done].
  rewrite Hm. unfold raise_if, extract_null.
  destruct (Hp E) as [H|H]; [destruct (get "ratifier" m)|destruct (get "ratification_event_version_id" m)];
    try discriminate H; rewrite ?andb_false_r; done.
Qed.

Definition ratified_version (ratifier : json) : version_row :=
  version_values "urn:v" "urn:n" (sealed (JObj [])) "ratified" "ratified_knowledge"
    (version_provenance "ratified" "ratified_knowledge" "operator" (JStr "op") (JStr "m") "urn:e"
       JNull JNull JNull ratifier JNull) "[]" "t" None "t" "urn:e" None.

Lemma base_values_imply_trigger_witness : lattice_trigger (ratified_version (JStr "op")) = Ok tt.
Proof. apply (base_values_imply_trigger (ratified_version (JStr "op"))). vm_compute. reflexivity. Defined.

Example unratified_refused :
  validate_base_version_values (ratified_version JNull) =
  Err (ValidationError "ratified base version requires signed-promotion proof").
Proof. vm_compute. reflexivity. Qed.

(** *** Triples of the row writers *)
Section writers.
Context `{signing : crypto} (d0 : db).

Lemma hoare_graph_exec (P Q : db → Prop) f :
  (∀ d g, db_ok d → P d → f (the_graph d) = Ok g → step d (with_graph g d) ∧ Q (with_graph g d)) →
  hoare d0 P (graph_exec f) (λ _, Q).
Proof.
  intros H. apply hoare_exec. intros d e Hd HP He. unfold on_graph in He. inv_ok. by apply H.
Qed.

Lemma insert_event_spec (P : db → Prop) e :
  steady P → ev_sha e = sha256 (ev_payload e) → hoare d0 P (graph_exec (insert_event e)) (λ _, P).
Proof.
  intros HP He. apply hoare_graph_exec. intros d g _ Hd H.
  pose proof (insert_event_step _ _ _ H He) as Hs. split; [done|].
  destruct (insert_event_ok _ _ _ H He) as (_ & _ & _ & E & E').
  by apply (steady_same P d).
Qed.

Lemma write_event_spec (P : db → Prop) id type op now valid payload prior status :
  steady P → hoare d0 P (write_event id type op now valid payload prior status) (λ _, P).
Proof. intros HP. by apply insert_event_spec. Qed.

Lemma write_node_spec (P : db → Prop) id type op event :
  steady P → hoare d0 P (write_node id type op event) (λ _ d, P d ∧ free_owner id d).
Proof.
  intros HP. apply hoare_graph_exec. intros d g Hok Hd H.
  pose proof (insert_node_step _ _ _ H) as Hs. split; [done|].
  destruct (insert_node_ok _ _ _ H) as (_ & _ & _ & E & E' & _ & Hnew).
  split; [by apply (steady_same P d)|]. right. intros v Hv Ho. exfalso. apply Hnew. simpl.
  simpl in Hv. rewrite E in Hv. subst id.
  pose proof (go_node_version_refs _ (do_graph _ Hok)) as Hr. rewrite List.Forall_forall in Hr.
  by apply (Hr v).
Qed.

Lemma write_edge_spec (P : db → Prop) id type source target op event :
  steady P → hoare d0 P (write_edge id type source target op event) (λ _, P).
Proof.
  intros HP. apply hoare_graph_exec. intros d g _ Hd H.
  pose proof (insert_edge_step _ _ _ H) as Hs. split; [done|].
  destruct (insert_edge_ok _ _ _ H) as (_ & _ & _ & E & E'). by apply (steady_same P d).
Qed.

(** A version may be written when its tier is a candidate's or its event is
    approved, and its owner has no open version. *)
Definition writable (v : version_row) (d : db) : Prop :=
  authoritative (vr_tier v) = true → is_authorized (vr_event v) d.

(** A version of a node, whatever has closed since *)
Definition is_version (id owner : string) (d : db) : Prop :=
  In (id, owner) (map version_of (node_versions (the_graph d))).

Lemma is_version_durable id owner : durable (is_version id owner).
Proof.
  intros d e Hx. apply (advances_map_incl closes); [apply closes_version_of|].
  apply (gx_node_versions _ _ (xt_graph _ _ Hx)).
Qed.

Lemma insert_node_version_written (P : db → Prop) v :
  steady P → vr_sha v = sha256 (vr_payload v) →
  hoare d0 (λ d, (P d ∧ writable v d) ∧ (is_open v = true → free_owner (vr_owner v) d))
    (insert_node_version v) (λ _ d, P d ∧ is_version (vr_id v) (vr_owner v) d).
Proof.
  intros HP Hsha. unfold insert_node_version. apply hoare_lift. intros u Hv.
  apply validate_base_Ok in Hv as [Hl Hm].
  apply hoare_graph_exec. intros d g _ [[Hd Hw] Ho] H.
  assert (version_ok v) as Hok by done.
  pose proof (insert_version_step _ _ _ H Hok Hw Ho) as Hs. split; [done|].
  destruct (insert_version_ok _ _ _ H Hok) as (_ & _ & _ & E & E'). split.
  - apply (HP d); [|done]. split_and!; [apply Hs|by exists [v]|exists []; by rewrite app_nil_r].
  - unfold is_version. simpl. rewrite E, map_app. apply in_app_iff. right. by left.
Qed.

Lemma insert_node_version_spec (P : db → Prop) v :
  steady P → vr_sha v = sha256 (vr_payload v) →
  hoare d0 (λ d, (P d ∧ writable v d) ∧ (is_open v = true → free_owner (vr_owner v) d))
    (insert_node_version v) (λ _, P).
Proof.
  intros HP Hsha. eapply hoare_post; [by apply insert_node_version_written|]. by intros ? d [? _].
Qed.

Lemma insert_edge_version_spec (P : db → Prop) v :
  steady P → vr_sha v = sha256 (vr_payload v) →
  hoare d0 (λ d, P d ∧ writable v d) (insert_edge_version_row v) (λ _, P).
Proof.
  intros HP Hsha. unfold insert_edge_version_row. apply hoare_lift. intros u Hv.
  apply validate_base_Ok in Hv as [Hl Hm].
  apply hoare_graph_exec. intros d g _ [Hd Hw] H.
  assert (version_ok v) as Hok by done.
  pose proof (insert_edge_version_step _ _ _ H Hok Hw) as Hs. split; [done|].
  destruct (insert_edge_version_ok _ _ _ H Hok) as (_ & _ & _ & E & E').
  apply (HP d); [|done]. split_and!; [apply Hs|exists []; by rewrite app_nil_r|by exists [v]].
Qed.

Lemma exec_steady (P : db → Prop) f :
  steady P →
  (∀ d e, f d = Ok e → step d e ∧ the_graph e = the_graph d) →
  hoare d0 P (exec f) (λ _, P).
Proof.
  intros HP Hf. apply hoare_exec. intros d e _ Hd He. destruct (Hf d e He) as [Hs E].
  split; [done|]. apply (steady_same P d); [done..| | |done]; by rewrite E.
Qed.

Lemma insert_receipt_spec (P : db → Prop) r : steady P → hoare d0 P (exec (insert_receipt r)) (λ _, P).
Proof.
  intros HP. apply exec_steady; [done|]. intros d e H. split; [by apply (insert_receipt_step r)|].
  unfold insert_receipt in H. by inv_ok.
Qed.

Lemma insert_consumed_spec (P : db → Prop) r : steady P → hoare d0 P (exec (insert_consumed r)) (λ _, P).
Proof.
  intros HP. apply exec_steady; [done|]. intros d e H. split; [by apply (insert_consumed_step r)|].
  unfold insert_consumed in H. by inv_ok.
Qed.

Lemma insert_dedup_spec (P : db → Prop) r : steady P → hoare d0 P (exec (insert_dedup r)) (λ _, P).
Proof.
  intros HP. apply exec_steady; [done|]. intros d e H. split; [by apply (insert_dedup_step r)|].
  unfold insert_dedup in H. by inv_ok.
Qed.

(** Closing the open version of a node frees the node. *)
Lemma close_current_spec (P : db → Prop) cur now valid_too :
  durable P →
  hoare d0 (λ d, P d ∧ current cur d) (close_node_version (vr_id cur) now valid_too)
    (λ _ d, P d ∧ free_owner (vr_owner cur) d).
Proof.
  intros HP. apply hoare_exec. intros d e Hok [Hd [Hin Hop]] H. injection H as <-.
  pose proof (do_graph _ Hok) as Hg.
  assert (∀ v, In v (node_versions (the_graph d)) → vr_id v = vr_id cur → v = cur) as Hinj.
  { intros v Hv E. pose proof (go_node_versions _ Hg) as Hn.
    by apply (NoDup_map_inj vr_id (node_versions (the_graph d))). }
  assert (step d (with_graph (close_version (vr_id cur) now valid_too (the_graph d)) d)) as Hs.
  { apply close_version_step. intros v Hv E. by rewrite (Hinj v Hv E). }
  split; [done|]. split; [by apply (HP d); [apply Hs|]|].
  destruct (decide (governed (the_semantic d) (vr_owner cur))) as [Hm|Hm]; [by left|right].
  intros v Hv Ho. destruct (is_open v) eqn:E; [|done]. exfalso.
  apply update_where_open in Hv as [Hv Hne]; [|done].
  destruct (do_one_node _ Hok v cur) as [Hg'|E']; [done..|by apply Hm; rewrite <- Ho|]. subst v.
  by rewrite String.eqb_refl in Hne.
Qed.

Lemma find_current_spec id d v :
  find_current id d = Some v → current v d ∧ vr_owner v = id.
Proof.
  intros H. apply find_some in H as [Hin H]. unfold current_of in H. bool_hyps.
  split; [by split|by apply String.eqb_eq].
Qed.
End writers.

(** *** Automation: one statement of a write at a time *)
#[export] Hint Resolve is_version_durable : steady.
Create HintDb hoare.
#[export] Hint Resolve write_event_spec write_edge_spec insert_event_spec insert_receipt_spec
  insert_consumed_spec insert_dedup_spec hoare_fresh hoare_fresh_token hoare_now_ hoare_utc_now
  hoare_commit hoare_raise : hoare.
#[export] Hint Extern 2 (steady _) => (eauto with steady) : hoare.
#[export] Hint Extern 2 (durable _) => (eauto with steady) : hoare.
#[export] Hint Extern 1 (_ = sha256 _) => reflexivity : hoare.

Lemma hoare_lift_tail `{signing : crypto} d0 {A} (P : db → Prop) (m : res A) (Q : A → db → Prop) :
  (∀ a d, m = Ok a → P d → Q a d) → hoare d0 P (lift m) Q.
Proof. intros H c Hc HP. split; [done|]. simpl. destruct m; [by apply H|done]. Qed.

Ltac hoare_step :=
  lazymatch goal with
  | |- hoare _ _ (mbind _ (lift _)) _ => apply hoare_lift; intros ? ?
  | |- hoare _ _ (mbind _ (guard _ _)) _ => apply hoare_guard; intros ?
  | |- hoare _ _ (mbind _ (query _)) _ => apply hoare_query_keep; intros ?
  | |- hoare _ _ (mbind _ _) _ =>
      eapply hoare_bind; [solve [eauto with hoare]|intros ?; cbv beta]
  | |- hoare _ _ (raise _) _ => apply hoare_raise
  | |- hoare _ _ (mret _) _ => apply hoare_ret; try done
  | |- hoare _ _ (lift _) _ => apply hoare_lift_tail; try done
  | |- hoare _ _ (if ?b then _ else _) _ => destruct b
  | |- hoare _ _ (match ?x with _ => _ end) _ => destruct x
  end.

Section capture_safe.
Context `{signing : crypto} `{env : environment} `{ucd : unicode_data} `{norm : normalization}.
Context (d0 : db).

Lemma candidate_writable v d : vr_tier v = "observed_candidate" → writable v d.
Proof. unfold writable. intros ->. discriminate. Qed.

Lemma _insert_node_spec P id type payload envelope event now :
  steady P → hoare d0 P (_insert_node id type payload envelope event now) (λ _, P).
Proof.
  intros HP. unfold _insert_node. hoare_step.
  eapply hoare_bind; [by apply write_node_spec|]. intros ?. cbv beta. repeat hoare_step.
  eapply hoare_pre; [|by apply insert_node_version_spec].
  intros d _ [Hd Hf]. split; [split|]; [done|by apply candidate_writable|done].
Qed.

Lemma _insert_edge_spec P type source target envelope event now :
  steady P → hoare d0 P (_insert_edge type source target envelope event now) (λ _, P).
Proof.
  intros HP. unfold _insert_edge. repeat hoare_step.
  eapply hoare_pre; [|by apply insert_edge_version_spec].
  intros d _ Hd. split; [done|by apply candidate_writable].
Qed.
Hint Resolve _insert_node_spec _insert_edge_spec hoare_for_all : hoare.

Lemma insert_evidence_spec P verdict envelope event now value :
  steady P → hoare d0 P (insert_evidence verdict envelope event now value) (λ _, P).
Proof. intros HP. unfold insert_evidence. repeat hoare_step. by apply insert_receipt_spec. Qed.

Lemma choice_edges_spec P type verdict ids envelope event now :
  steady P → hoare d0 P (choice_edges type verdict ids envelope event now) (λ _, P).
Proof.
  intros HP. apply hoare_for_all. intros v _. hoare_step. by apply _insert_edge_spec.
Qed.
Hint Resolve insert_evidence_spec choice_edges_spec : hoare.

Lemma write_capture_spec P value envelope event operator content now path :
  steady P →
  hoare d0 P (write_capture value envelope event operator (payload_sha256 value) content now path)
    (λ _, P).
Proof.
  intros HP. unfold write_capture. hoare_step.
  eapply hoare_bind; [apply insert_event_spec; [done|reflexivity]|]. intros ?. cbv beta.
  repeat hoare_step. by apply insert_dedup_spec.
Qed.
Hint Resolve write_capture_spec : hoare.

Lemma capture_spec_hoare P s value path :
  steady P → hoare d0 P (_apply_capture_on_connection s value path) (λ _, P).
Proof. intros HP. unfold _apply_capture_on_connection. cbv zeta. repeat hoare_step. Qed.
End capture_safe.
