(* ===== verification/Records.v ===== *)
(** * Typed records through the canonical writer ([store/service.py])

    Domains, transitions, derived and semantic nodes, semantic relations,
    consent revocation and proposals: each operation validates, checks its
    references inside the transaction, consumes a signed approval where the
    record carries authority, and appends an event with its rows. *)
From S2P Require Import Prelude PyTime Urn Contracts Codec Unicode Retrieval Json Names.
From S2P Require Import Clock Judgment Operator World Ontology Capture References Derive Tables.
From S2P Require Import Integrity Txn Approval Store.

(** [datetime.fromisoformat(value.replace("Z", "+00:00"))] with a timezone *)
Definition aware_time (value field : string) : res unit :=
  match parse_rfc3339 value with
  | None => Err (ValidationError (field +:+ " must be an RFC3339 timestamp"))
  | Some d => raise_if (negb (aware d)) (ValidationError (field +:+ " must include timezone"))
  end.

Definition given (o : option string) : option string :=
  match o with Some s => if String.eqb s "" then None else Some s | None => None end.

Definition _require_actor (actor_id : string) : res string :=
  raise_if (blank actor_id) (ValidationError "actor identity is required") ;; Ok (strip actor_id).

(** ** Evidence and the view of the transaction *)
Definition known_evidence (d : db) (id : string) : bool :=
  match find_node id d with
  | Some n => String.eqb (nd_type n) "Evidence"
  | None => false
  end || match find_receipt id d with Some _ => true | None => false end.

Definition _require_evidence (evidence_ids : list string) (d : db) : res (list string) :=
  let values := dedup_strs evidence_ids in
  raise_if (Nat.eqb (length values) 0)
    (ValidationError "at least one canonical evidence reference is required") ;;
  for_each (λ id, raise_if (negb (known_evidence d id))
     (ValidationError "evidence must exist in canonical Evidence or source receipts")) values ;;
  Ok values.

Definition read {A} (f : db → res A) : txn A := d ← query (λ d, d); lift (f d).

(** [node_lookup] and [version_lookup] *)
Definition store_view (d : db) : canonical_view := {|
  node_lookup := λ v,
    match v with
    | JStr id =>
        match find_node id d with
        | Some n => Some (nd_type n, nd_operator n)
        | None =>
            r ← find_receipt id d; e ← find_event (rc_event r) d; Some ("Evidence", ev_operator e)
        end
    | _ => None
    end;
  version_lookup := λ v,
    match v with
    | JStr id =>
        w ← List.find (λ w, String.eqb (vr_id w) id) (node_versions (the_graph d));
        n ← find_node (vr_owner w) d; Some (nd_id n, nd_operator n)
    | _ => None
    end
|}.

Definition check_references (node_type : string) (payload : obj) (operator_id : string)
    (evidence : list string) (d : db) : res unit :=
  validate_payload_references (view := store_view d) node_type payload operator_id evidence.

(** ** Consent at the store's own clock *)
Definition CONSENT_CLOCK_SKEW : Z := 120 * 1000000.

Definition _parse_consent_time (value : json) (field : string) : res Z :=
  let required := "E_CONSENT_VERSION_REQUIRED at /" +:+ field in
  match value with
  | JStr s =>
      match parse_rfc3339 s with
      | None => Err (ValidationError (required +:+ ": invalid RFC3339 time"))
      | Some d =>
          raise_if (negb match utcoffset d with Some o => o =? 0 | None => false end)
            (ValidationError (required +:+ ": UTC time required")) ;;
          Ok (instant d)
      end
  | _ => Err (ValidationError (required +:+ ": RFC3339 UTC required"))
  end.

Definition optional_time (value : json) (field : string) : res (option Z) :=
  if is_null value then Ok None else t ← _parse_consent_time value field; Ok (Some t).

(** [min] of two half-open bounds, the second of which is given *)
Definition earlier (a : option Z) (b : Z) : option Z :=
  Some (match a with Some t => Z.min t b | None => b end).

Definition before_end (t : Z) (bound : option Z) : bool :=
  match bound with Some e => t <? e | None => true end.

Definition member (x : string) (v : json) : res bool :=
  match v with
  | JList l => Ok (existsb (λ y, py_eq y (JStr x)) l)
  | JStr s => Ok (contains x s)
  | JObj m => Ok (mem x (keys m))
  | _ => Err TypeError
  end.

Definition find_grant (version_id : string) (d : db) : option (node_row * version_row) :=
  w ← List.find (λ w, String.eqb (vr_id w) version_id) (node_versions (the_graph d));
  n ← find_node (vr_owner w) d;
  if String.eqb (nd_type n) "ConsentGrant" then Some (n, w) else None.

Definition retention_end (payload : obj) (valid_start : datetime) (valid_end : option Z)
    : res (option Z) :=
  retention ← match get_default "retention" (JObj []) payload with
              | JObj m => Ok m | _ => Err AttributeError end;
  if py_eq (get "mode" retention) (JStr "days") then
    match get "days" retention with
    | JInt days =>
        raise_if (days <? 1)
          (ValidationError "E_CONSENT_VERSION_REQUIRED at /retention/days: positive integer required") ;;
        t ← plus_days valid_start days; Ok (earlier valid_end t)
    | _ => Err (ValidationError "E_CONSENT_VERSION_REQUIRED at /retention/days: positive integer required")
    end
  else Ok valid_end.

Definition GRANT_REQUIRED := "E_CONSENT_VERSION_REQUIRED at /consent_version_id: exact same-operator grant required".
Definition GRANT_DENIED := "E_CONSENT_VERSION_REQUIRED at /consent_version_id: imported or unratified grant denied".

Definition authorize_consent_version (consent_version_id operator_id : string)
    (source_class : json) (purpose operation valid_at system_at : string) (d : db) : res string :=
  match find_grant consent_version_id d with
  | None => Err (ValidationError GRANT_REQUIRED)
  | Some (n, row) =>
      raise_if (negb (String.eqb (nd_operator n) operator_id)) (ValidationError GRANT_REQUIRED) ;;
      raise_if (negb (mem (vr_status row) ["captured"; "ratified"]) || negb (authoritative (vr_tier row)))
        (ValidationError GRANT_DENIED) ;;
      payload ← read_obj (vr_payload row);
      valid ← _parse_consent_time (JStr valid_at) "valid_at";
      system ← _parse_consent_time (JStr system_at) "system_at";
      raise_if (system + CONSENT_CLOCK_SKEW <? valid)
        (ValidationError "E_CONSENT_VERSION_REQUIRED at /valid_at: future time exceeds 120-second skew") ;;
      valid_start ← _parse_consent_time (get_default "effective_from" (JStr (vr_valid_from row)) payload)
                      "effective_from";
      valid_end ← optional_time (get_default "effective_to" (opt_json (vr_valid_to row)) payload) "effective_to";
      system_start ← _parse_consent_time (JStr (vr_system_from row)) "system_from";
      system_end ← optional_time (opt_json (vr_system_to row)) "system_to";
      revoked ← optional_time (get "revoked_at" payload) "revoked_at";
      valid_end ← retention_end payload (of_instant valid_start) valid_end;
      allowed ← and_then (Ok (py_eq (get "operator_id" payload) (JStr operator_id) &&
                              py_eq (get "source_class" payload) source_class))
                  (and_then (member purpose (get_default "purposes" (JList []) payload))
                     (and_then (member operation (get_default "allowed_operations" (JList []) payload))
                        (Ok ((valid_start <=? valid) && before_end valid valid_end &&
                             (system_start <=? system) && before_end system system_end &&
                             before_end valid revoked && before_end system revoked))));
      let code := match revoked with
                  | Some r => if (r <=? valid) || (r <=? system) then "E_CONSENT_REVOKED"
                              else "E_CONSENT_VERSION_REQUIRED"
                  | None => "E_CONSENT_VERSION_REQUIRED"
                  end in
      raise_if (negb allowed)
        (ValidationError (code +:+ " at /consent_version_id: grant denies valid/system instant")) ;;
      Ok (vr_id row)
  end.

Section records.
Context `{signing : crypto} `{env : environment} (s : store).

(** ** Domains *)
Definition operator_provenance (tier actor mechanism event : string) : obj :=
  version_provenance "captured" tier "operator" (JStr actor) (JStr mechanism) event
    JNull JNull JNull JNull JNull.

Definition add_domain (domain_id public_label description : string) (evidence : list string)
    (operator_id actor : string) (valid : option string) (approval_token : option obj) : txn string :=
  guard (differs (expected_operator_id s) operator_id)
    (ValidationError "domain operator does not match configured identity") ;;
  guard (negb (safe_id domain_id)) (ValidationError "domain_id must be a safe lowercase identifier") ;;
  guard (blank public_label || blank description)
    (ValidationError "domain public_label and description are required") ;;
  actor_id ← lift (_require_actor actor);
  guard (negb (String.eqb actor_id operator_id))
    (ValidationError "domain authority actor must be the configured operator") ;;
  let node_id := _domain_node_id operator_id domain_id in
  new_event ← fresh "event";
  new_version ← fresh "node-version";
  system_time ← utc_now;
  let generated := [("event_id", JStr new_event); ("version_id", JStr new_version);
                    ("system_time", JStr system_time);
                    ("valid_from", JStr (default system_time (given valid)))] in
  let payload := [("domain_id", JStr domain_id); ("public_label", JStr (strip public_label));
                  ("description", JStr (strip description)); ("selected", JBool false);
                  ("frozen", JBool false)] in
  connect (
    evidence_ids ← read (_require_evidence evidence);
    existing ← query (find_node node_id);
    guard match existing with Some _ => true | None => false end (ConflictError "domain already exists") ;;
    let event_payload := [("node_id", JStr node_id); ("payload", JObj payload);
                          ("evidence_ids", texts_json evidence_ids); ("actor_id", JStr actor_id)] in
    execution ← _consume_authority (expected_operator_id s) approval_token
      (Build_demand "domain.add" "add canonical domain" "none_to_captured_judgment"
         event_payload [] generated [node_id] evidence_ids [] [] [] ["domain"] []);
    event_id ← lift (text_item "event_id" execution);
    now ← lift (text_item "system_time" execution);
    valid_from ← lift (text_item "valid_from" execution);
    write_event event_id "domain_added" operator_id now valid_from event_payload None "captured" ;;
    write_node node_id "Domain" operator_id event_id ;;
    version_id ← lift (text_item "version_id" execution);
    insert_node_version
      (version_values version_id node_id (sealed (JObj payload)) "captured" "captured_judgment"
         (operator_provenance "captured_judgment" actor_id "explicit_domain_add" event_id)
         (dumps_strings evidence_ids) valid_from None now event_id None) ;;
    mret node_id).

(** The current Domain heads, in identifier order *)
Definition domain_rows (d : db) : list (node_row * version_row) :=
  order_by (λ nv, (nd_id nv.1, ""))
    (List.filter (λ nv, String.eqb (nd_type nv.1) "Domain" && is_open nv.2) (joined d)).

(** The first row of the domain, reading payloads in order *)
Fixpoint find_domain (domain_id : string) (rows : list (node_row * version_row))
    : res (option (node_row * version_row * obj)) :=
  match rows with
  | [] => Ok None
  | r :: rest =>
      payload ← read_obj (vr_payload r.2);
      if py_eq (get "domain_id" payload) (JStr domain_id) then Ok (Some (r, payload))
      else find_domain domain_id rest
  end.

(** The payload of a head after the transition *)
Definition next_domain (action selected_id : string) (r : node_row * version_row) : res (obj * obj) :=
  payload ← read_obj (vr_payload r.2);
  Ok (payload,
      if String.eqb action "select"
      then set_item "selected" (JBool (String.eqb (nd_id r.1) selected_id)) payload
      else set_item "frozen" (JBool true) payload).

Definition changed (p : obj * obj) : bool := negb (py_eq (JObj p.2) (JObj p.1)).

(** [{node: make_urn("node-version") for node in ids}] *)
Fixpoint fresh_versions (ids : list string) (acc : obj) : txn obj :=
  match ids with
  | [] => mret acc
  | x :: r => u ← fresh "node-version"; fresh_versions r (set_item x (JStr u) acc)
  end.

Definition advance_domain (action selected_id actor_id event_id now : string) (versions : json)
    (r : node_row * version_row) : txn unit :=
  p ← lift (next_domain action selected_id r);
  if changed p then
    close_node_version (vr_id r.2) now false ;;
    m ← lift (obj_of versions);
    version_id ← lift (text_item (nd_id r.1) m);
    insert_node_version
      (version_values version_id (nd_id r.1) (sealed (JObj p.2)) "captured" "captured_judgment"
         (operator_provenance "captured_judgment" actor_id ("explicit_domain_" +:+ action) event_id)
         (vr_evidence r.2) (vr_valid_from r.2) (vr_valid_to r.2) now event_id (Some (vr_id r.2)))
  else mret tt.

Definition _change_domain_state (domain_id actor action : string) (approval_token : option obj)
    : txn string :=
  actor_id ← lift (_require_actor actor);
  guard (negb (mem action ["select"; "freeze"])) (ValidationError "unsupported domain state transition") ;;
  connect (
    rows ← query domain_rows;
    found ← lift (find_domain domain_id rows);
    match found with
    | None => raise (ValidationError "canonical Domain does not exist")
    | Some (selected, selected_payload) =>
        let operator_id := nd_operator selected.1 in
        let selected_id := nd_id selected.1 in
        lift (_require_configured_operator s operator_id) ;;
        guard (negb (String.eqb actor_id operator_id))
          (ValidationError "domain authority actor must be the configured operator") ;;
        guard (String.eqb action "freeze" && py_eq (get "frozen" selected_payload) (JBool true) &&
               is_bool (get "frozen" selected_payload))
          (ConflictError "domain is already frozen") ;;
        let event_payload := [("domain_id", JStr domain_id); ("node_id", JStr selected_id);
                              ("actor_id", JStr actor_id); ("action", JStr action)] in
        let affected := if String.eqb action "select" then rows else [selected] in
        nexts ← lift (map_res (next_domain action selected_id) affected);
        let changed_rows := map (λ x, nd_id x.1.1)
                              (List.filter (λ x, changed x.2) (combine affected nexts)) in
        new_event ← fresh "event";
        system_time ← utc_now;
        versions ← fresh_versions changed_rows [];
        let generated := [("event_id", JStr new_event); ("system_time", JStr system_time);
                          ("version_ids", JObj versions)] in
        execution ← _consume_authority (expected_operator_id s) approval_token
          (Build_demand ("domain." +:+ action) (action +:+ " canonical domain") ("domain_" +:+ action)
             event_payload selected_payload generated [selected_id] [] [] [] [] ["domain"]
             [if String.eqb action "select" then "/selected" else "/frozen"]);
        event_id ← lift (text_item "event_id" execution);
        now ← lift (text_item "system_time" execution);
        write_event event_id (if String.eqb action "select" then "domain_selected" else "domain_frozen")
          operator_id now now event_payload (Some (vr_event selected.2)) "captured" ;;
        for_all (advance_domain action selected_id actor_id event_id now
                   (get "version_ids" execution)) affected ;;
        mret event_id
    end).

(** ** Contradiction and supersession *)
Definition find_endpoint (id : string) (d : db) : option (node_row * version_row) :=
  n ← find_node id d; v ← find_current id d; Some (n, v).

Definition add_transition (relation source_id target_id reason : string) (evidence : list string)
    (actor : string) (approval_token : option obj) : txn string :=
  guard (negb (mem relation ["contradicts"; "supersedes"]))
    (ValidationError "relation must be contradicts or supersedes") ;;
  guard (String.eqb source_id target_id) (ValidationError "transition endpoints must be different") ;;
  guard (blank reason) (ValidationError "transition reason is required") ;;
  actor_id ← lift (_require_actor actor);
  connect (
    evidence_ids ← read (_require_evidence evidence);
    source ← query (find_endpoint source_id);
    target ← query (find_endpoint target_id);
    match source, target with
    | Some (sn, sv), Some (tn, tv) =>
        guard (String.eqb relation "supersedes" && negb (String.eqb (nd_type sn) (nd_type tn)))
          (ValidationError "supersession endpoints must have the same node type") ;;
        let operator_id := nd_operator sn in
        guard (negb (String.eqb (nd_operator tn) operator_id))
          (ValidationError "transition endpoints must belong to the same operator") ;;
        guard (differs (expected_operator_id s) operator_id)
          (ValidationError "transition operator does not match configured identity") ;;
        guard (negb (String.eqb actor_id operator_id))
          (ValidationError "transition authority actor must be the configured operator") ;;
        let payload := [("relation", JStr relation); ("source_id", JStr source_id);
                        ("target_id", JStr target_id); ("reason", JStr (strip reason));
                        ("evidence_ids", texts_json evidence_ids); ("actor_id", JStr actor_id)] in
        new_event ← fresh "event";
        new_edge ← fresh "edge";
        new_version ← fresh "edge-version";
        system_time ← utc_now;
        let generated := [("event_id", JStr new_event); ("edge_id", JStr new_edge);
                          ("edge_version_id", JStr new_version); ("system_time", JStr system_time)] in
        execution ← _consume_authority (expected_operator_id s) approval_token
          (Build_demand ("transition." +:+ relation) ("record " +:+ relation +:+ " transition") relation
             payload [("source_version_id", JStr (vr_id sv)); ("target_version_id", JStr (vr_id tv))]
             generated [source_id] evidence_ids [target_id] [] [] ["transition"] []);
        event_id ← lift (text_item "event_id" execution);
        now ← lift (text_item "system_time" execution);
        write_event event_id relation operator_id now now payload (Some (vr_event sv)) "captured" ;;
        edge_id ← lift (text_item "edge_id" execution);
        let edge_payload := [("relation", JStr relation); ("reason", JStr (strip reason))] in
        write_edge edge_id relation source_id target_id operator_id event_id ;;
        version_id ← lift (text_item "edge_version_id" execution);
        insert_edge_version_row
          (version_values version_id edge_id (sealed (JObj edge_payload)) "captured" "captured_judgment"
             (version_provenance "captured" "captured_judgment" "operator" (JStr actor_id)
                (JStr "explicit_transition") event_id JNull JNull JNull JNull (JStr relation))
             (dumps_strings evidence_ids) now None now event_id None) ;;
        (if String.eqb relation "supersedes" then
           close_node_version (vr_id tv) now true ;;
           exec (λ d, on_graph_update (close_edges (touches (the_graph d) target_id (Some edge_id)) now) d)
         else mret tt) ;;
        mret edge_id
    | _, _ => raise (ValidationError "both transition endpoints must be current canonical nodes")
    end).
End records.
