(* ===== verification/Semantic.v ===== *)
(** * Semantic nodes, relations, consent and proposals ([store/service.py]) *)
From S2P Require Import Prelude PyTime Urn Contracts Codec Unicode Retrieval Json Names.
From S2P Require Import Clock Judgment Operator World Ontology Capture References Derive Tables.
From S2P Require Import Integrity Txn Approval Store Records.

Definition DERIVED_NODE_TYPES :=
  ["Principle"; "Belief"; "Value"; "Rule"; "Pattern"; "Domain"; "FeedbackProfile"; "Proposal"].

Definition derived_tiers (status : string) : list string :=
  if String.eqb status "inferred" then ["inferred_candidate"; "observed_candidate"]
  else ["imported_floor"; "observed_candidate"].

(** [opt if opt else None] in a provenance record *)
Definition is_given (o : option string) : bool :=
  match given o with Some _ => true | None => false end.

(** The fields of a validated provenance contract *)
Record contract_provenance : Type := {
  cp_status : string; cp_tier : string; cp_class : string; cp_actor : string;
  cp_mechanism : json; cp_evidence : list string; cp_model : json; cp_ratifier : json
}.

Definition read_provenance (m : obj) : res contract_provenance :=
  status ← text_item "status" m;
  tier ← text_item "authority_tier" m;
  class ← text_item "actor_class" m;
  actor ← text_item "actor_id" m;
  mechanism ← item "mechanism" m;
  evidence ← texts_item "evidence_ids" m;
  model ← item "model" m;
  ratifier ← item "ratifier_id" m;
  Ok {| cp_status := status; cp_tier := tier; cp_class := class; cp_actor := actor;
        cp_mechanism := mechanism; cp_evidence := evidence; cp_model := model;
        cp_ratifier := ratifier |}.

(** A validated node contract *)
Record node_contract : Type := {
  nc_value : obj; nc_id : string; nc_type : string; nc_operator : string;
  nc_payload : obj; nc_provenance : obj; nc_by : contract_provenance
}.

Definition read_node_contract (contract : json) : res node_contract :=
  value ← validate_node_contract contract;
  operator ← text_item "operator_id" value;
  id ← text_item "node_id" value;
  type ← text_item "node_type" value;
  payload ← obj_item "payload" value;
  provenance ← obj_item "provenance" value;
  by_ ← read_provenance provenance;
  Ok {| nc_value := value; nc_id := id; nc_type := type; nc_operator := operator;
        nc_payload := payload; nc_provenance := provenance; nc_by := by_ |}.

(** The provenance of a version written for a contract *)
Definition contract_version_provenance (p : contract_provenance) (event : string) (relation : json) : obj :=
  version_provenance (cp_status p) (cp_tier p) (cp_class p) (JStr (cp_actor p)) (cp_mechanism p) event
    (cp_model p) JNull JNull (cp_ratifier p) relation.

Section semantic.
Context `{signing : crypto} `{env : environment} `{ucd : unicode_data} (s : store).

(** ** Derived objects *)
Definition append_derived_node (node_type : string) (payload : obj)
    (provenance_status authority_tier : string) (evidence_ids : list string)
    (operator_id valid_from proposed_by : string) (model prompt_recipe : option string) : txn string :=
  guard (differs (expected_operator_id s) operator_id)
    (ValidationError "derived operator does not match configured identity") ;;
  guard (negb (mem provenance_status ["extracted"; "inferred"]))
    (ValidationError "derived append accepts only extracted or inferred") ;;
  guard (String.eqb provenance_status "extracted" && Nat.eqb (length evidence_ids) 0)
    (ValidationError "extracted objects require evidence") ;;
  guard (String.eqb node_type "Pattern" && Nat.ltb (length (dedup_strs evidence_ids)) 2)
    (ValidationError "Pattern requires evidence from at least two cases") ;;
  guard (negb (mem node_type DERIVED_NODE_TYPES))
    (ValidationError "unsupported derived ontology node type") ;;
  guard (negb (mem authority_tier (derived_tiers provenance_status)))
    (ValidationError "authority tier is incompatible with provenance status") ;;
  guard (blank proposed_by) (ValidationError "proposed_by is required") ;;
  lift (aware_time valid_from "valid_from") ;;
  node_id ← fresh (lower node_type);
  event_id ← fresh "event";
  now ← utc_now;
  let event_payload := [("node_id", JStr node_id); ("node_type", JStr node_type);
                        ("payload", JObj payload); ("evidence_ids", texts_json evidence_ids);
                        ("proposed_by", JStr proposed_by); ("authority_tier", JStr authority_tier)] in
  connect (
    read (λ d, for_each (λ id, raise_if (negb (known_evidence d id))
            (ValidationError "derived evidence must exist in canonical Evidence or source receipts"))
            (dedup_strs evidence_ids)) ;;
    write_event event_id provenance_status operator_id now valid_from event_payload None
      provenance_status ;;
    write_node node_id node_type operator_id event_id ;;
    version_id ← fresh "node-version";
    insert_node_version
      (version_values version_id node_id (sealed (JObj payload)) provenance_status authority_tier
         (version_provenance provenance_status authority_tier
            (if is_given model then "model" else "software") (JStr proposed_by)
            (JStr "validated_proposal") event_id (opt_json model) (opt_json prompt_recipe)
            (JStr event_id) JNull JNull)
         (dumps_strings evidence_ids) valid_from None now event_id None) ;;
    mret node_id).

(** ** Semantic nodes *)
Definition require_consent (c : node_contract) (valid_from : string) : txn unit :=
  let grant_id := get "consent_grant_id" (nc_payload c) in
  if is_null grant_id then mret tt
  else
    id ← lift (text_of grant_id);
    endpoint ← query (find_endpoint id);
    let refused := ValidationError "semantic observation requires a current same-operator ConsentGrant" in
    match endpoint with
    | Some (n, v) =>
        guard (negb (String.eqb (nd_type n) "ConsentGrant")) refused ;;
        guard (negb (String.eqb (nd_operator n) (nc_operator c))) refused ;;
        source_class ← lift (item "source_class" (nc_payload c));
        system_at ← utc_now;
        read (authorize_consent_version (vr_id v) (nc_operator c) source_class
                (if String.eqb (nc_type c) "Outcome" then "outcome_learning" else "behavioral_observation")
                "store" valid_from system_at) ;;
        mret tt
    | None => raise refused
    end.

(** Approved where the contract carries authority, else the fresh fields *)
Definition execution_for (tier : string) (approval_token : option obj) (refused : string)
    (dm : demand) : txn obj :=
  if authoritative tier then _consume_authority (expected_operator_id s) approval_token dm
  else
    guard match approval_token with Some _ => true | None => false end (ValidationError refused) ;;
    mret (dm_execution dm).

Definition append_semantic_node (contract : json) (valid_from : string)
    (approval_token : option obj) : txn string :=
  c ← lift (read_node_contract contract);
  lift (aware_time valid_from "valid_from") ;;
  let operator_id := nc_operator c in
  guard (differs (expected_operator_id s) operator_id)
    (ValidationError "semantic node operator does not match configured identity") ;;
  let evidence_ids := cp_evidence (nc_by c) in
  new_event ← fresh "event";
  new_version ← fresh "node-version";
  system_time ← utc_now;
  let generated := [("event_id", JStr new_event); ("version_id", JStr new_version);
                    ("system_time", JStr system_time)] in
  connect (
    existing ← query (find_node (nc_id c));
    guard match existing with Some _ => true | None => false end
      (ConflictError "semantic node already exists") ;;
    (if Nat.eqb (length evidence_ids) 0 then mret tt
     else read (_require_evidence evidence_ids) ;; mret tt) ;;
    read (check_references (nc_type c) (nc_payload c) operator_id evidence_ids) ;;
    require_consent c valid_from ;;
    let event_payload := [("ontology_schema_version", get "record_schema_version" (nc_value c));
                          ("node_id", JStr (nc_id c)); ("node_type", JStr (nc_type c));
                          ("payload", JObj (nc_payload c)); ("provenance", JObj (nc_provenance c))] in
    execution ← execution_for (cp_tier (nc_by c)) approval_token
      "approval token cannot authorize a non-authoritative semantic node"
      (Build_demand ("semantic_node." +:+ nc_type c) ("store authoritative " +:+ nc_type c)
         ("none_to_" +:+ cp_tier (nc_by c)) event_payload [] generated [nc_id c] evidence_ids [] [] []
         ["semantic_node"; nc_type c] []);
    event_id ← lift (text_item "event_id" execution);
    now ← lift (text_item "system_time" execution);
    write_event event_id ("semantic_" +:+ cp_status (nc_by c)) operator_id now valid_from event_payload
      None (cp_status (nc_by c)) ;;
    write_node (nc_id c) (nc_type c) operator_id event_id ;;
    version_id ← lift (text_item "version_id" execution);
    insert_node_version
      (version_values version_id (nc_id c) (sealed (JObj (nc_payload c))) (cp_status (nc_by c))
         (cp_tier (nc_by c)) (contract_version_provenance (nc_by c) event_id JNull)
         (dumps_strings evidence_ids) valid_from None now event_id None) ;;
    mret (nc_id c)).

(** ** Semantic relations *)
Record relation_contract : Type := {
  rl_value : obj; rl_id : string; rl_type : string; rl_operator : string;
  rl_source : string; rl_source_type : string; rl_target : string; rl_target_type : string;
  rl_by : contract_provenance
}.

Definition read_relation_contract (contract : json) : res relation_contract :=
  value ← validate_relation_contract contract;
  operator ← text_item "operator_id" value;
  provenance ← obj_item "provenance" value;
  by_ ← read_provenance provenance;
  id ← text_item "relation_id" value;
  type ← text_item "relation_type" value;
  source ← text_item "source_id" value;
  source_type ← text_item "source_type" value;
  target ← text_item "target_id" value;
  target_type ← text_item "target_type" value;
  Ok {| rl_value := value; rl_id := id; rl_type := type; rl_operator := operator;
        rl_source := source; rl_source_type := source_type; rl_target := target;
        rl_target_type := target_type; rl_by := by_ |}.

Definition append_semantic_relation (contract : json) (valid_from : string)
    (approval_token : option obj) : txn string :=
  r ← lift (read_relation_contract contract);
  lift (aware_time valid_from "valid_from") ;;
  lift (_require_configured_operator s (rl_operator r)) ;;
  new_event ← fresh "event";
  new_version ← fresh "edge-version";
  system_time ← utc_now;
  let generated := [("event_id", JStr new_event); ("version_id", JStr new_version);
                    ("system_time", JStr system_time)] in
  connect (
    evidence_ids ← read (_require_evidence (cp_evidence (rl_by r)));
    source ← query (find_node (rl_source r));
    target ← query (find_node (rl_target r));
    match source, target with
    | Some sn, Some tn =>
        guard (negb (String.eqb (nd_type sn) (rl_source_type r)) ||
               negb (String.eqb (nd_type tn) (rl_target_type r)))
          (ValidationError "semantic relation endpoint types do not match canonical nodes") ;;
        guard (negb (String.eqb (nd_operator sn) (rl_operator r)) ||
               negb (String.eqb (nd_operator tn) (rl_operator r)))
          (ValidationError "cross-operator semantic relation is forbidden") ;;
        let payload := [("ontology_schema_version", get "record_schema_version" (rl_value r));
                        ("relation", JStr (rl_type r));
                        ("evidence_mode", get "evidence_mode" (rl_value r));
                        ("why", get "why" (rl_value r))] in
        let event_payload := rl_value r in
        execution ← execution_for (cp_tier (rl_by r)) approval_token
          "approval token cannot authorize a non-authoritative semantic relation"
          (Build_demand ("semantic_relation." +:+ rl_type r)
             ("store authoritative " +:+ rl_type r +:+ " relation") ("none_to_" +:+ cp_tier (rl_by r))
             event_payload [] generated [rl_source r] evidence_ids [rl_target r] [] []
             ["semantic_relation"; rl_type r] []);
        event_id ← lift (text_item "event_id" execution);
        now ← lift (text_item "system_time" execution);
        write_event event_id "semantic_relation" (rl_operator r) now valid_from event_payload None
          (cp_status (rl_by r)) ;;
        write_edge (rl_id r) (rl_type r) (rl_source r) (rl_target r) (rl_operator r) event_id ;;
        version_id ← lift (text_item "version_id" execution);
        insert_edge_version_row
          (version_values version_id (rl_id r) (sealed (JObj payload)) (cp_status (rl_by r))
             (cp_tier (rl_by r)) (contract_version_provenance (rl_by r) event_id (JStr (rl_type r)))
             (dumps_strings evidence_ids) valid_from None now event_id None) ;;
        mret (rl_id r)
    | _, _ => raise (ValidationError "semantic relation endpoints must exist")
    end).

(** ** Consent revocation *)
Definition revoke_consent (grant_id operator_id reason : string) (revoked_at : option string)
    (approval_token : option obj) : txn string :=
  lift (require_urn (JStr operator_id) (Some "operator") "operator_id") ;;
  guard (blank reason) (ValidationError "consent revocation reason is required") ;;
  new_event ← fresh "event";
  new_version ← fresh "node-version";
  system_time ← utc_now;
  let at_ := default system_time (given revoked_at) in
  let generated := [("event_id", JStr new_event); ("version_id", JStr new_version);
                    ("system_time", JStr system_time); ("revoked_at", JStr at_)] in
  lift (aware_time at_ "revoked_at") ;;
  connect (
    endpoint ← query (find_endpoint grant_id);
    match endpoint with
    | Some (n, current) =>
        guard (negb (String.eqb (nd_type n) "ConsentGrant"))
          (ValidationError "current ConsentGrant does not exist") ;;
        guard (negb (String.eqb (nd_operator n) operator_id))
          (ValidationError "only the grant operator may revoke consent") ;;
        prior ← lift (read_obj (vr_payload current));
        guard (negb (is_null (get "revoked_at" prior))) (ConflictError "ConsentGrant is already revoked") ;;
        payload ← lift (validate_operator_payload "ConsentGrant"
                          (JObj (set_item "revocation_reason" (JStr (strip reason))
                                   (set_item "revoked_at" (JStr at_) prior))));
        let event_payload := [("grant_id", JStr grant_id); ("revoked_at", JStr at_);
                              ("revoked_by", JStr operator_id); ("reason", JStr (strip reason));
                              ("prior_version_id", JStr (vr_id current))] in
        execution ← _consume_authority (expected_operator_id s) approval_token
          (Build_demand "consent.revoke" "revoke consent grant" "consent_revoked" event_payload prior
             generated [grant_id] [] [] [] [] ["consent"] ["/revoked_at"; "/revocation_reason"]);
        event_id ← lift (text_item "event_id" execution);
        now ← lift (text_item "system_time" execution);
        revoked ← lift (text_item "revoked_at" execution);
        write_event event_id "consent_revoked" operator_id now revoked event_payload
          (Some (vr_event current)) "captured" ;;
        close_node_version (vr_id current) now false ;;
        version_id ← lift (text_item "version_id" execution);
        insert_node_version
          (version_values version_id (vr_owner current) (sealed (JObj payload)) "captured" "captured_judgment"
             (operator_provenance "captured_judgment" operator_id "explicit_consent_revocation" event_id)
             (vr_evidence current) (vr_valid_from current) (Some revoked) now event_id
             (Some (vr_id current))) ;;
        mret event_id
    | None => raise (ValidationError "current ConsentGrant does not exist")
    end).

(** ** Proposals *)
Definition first_version (id type : string) (d : db) : option version_row :=
  match find_node id d with
  | Some n =>
      if String.eqb (nd_type n) type then
        head (order_by (λ v, (vr_system_from v, ""))
                (List.filter (λ v, String.eqb (vr_owner v) id) (node_versions (the_graph d))))
      else None
  | None => None
  end.

Definition created_by (id type event : string) (d : db) : bool :=
  match find_node id d with
  | Some n => String.eqb (nd_type n) type && String.eqb (nd_event n) event
  | None => false
  end.

Definition evidence_of_event (event : string) (d : db) (id : string) : bool :=
  created_by id "Evidence" event d &&
  match find_receipt id d with Some r => String.eqb (rc_event r) event | None => false end.

Definition proposal_tiers := ["inferred_candidate"; "observed_candidate"].

Definition append_proposal (proposal : json) : txn string :=
  value ← lift (validate_proposal proposal);
  proposal_id ← lift (text_item "proposal_id" value);
  source_event_id ← lift (text_item "source_input_event_id" value);
  references ← lift (obj_item "references" value);
  listed ← lift (texts_item "evidence_ids" references);
  let evidence_ids := dedup_strs listed in
  let content_hash := payload_sha256 proposal in
  now ← utc_now;
  event_id ← fresh "event";
  provenance ← lift (obj_item "provenance" value);
  status ← lift (text_item "status" provenance);
  tier ← lift (text_item "authority_tier" provenance);
  guard (negb (mem status ["inferred"; "extracted"])) (KeyError status) ;;
  guard (negb (mem tier proposal_tiers))
    (ValidationError "proposal authority tier is incompatible with provenance status") ;;
  connect (
    prior ← query (first_version proposal_id "Proposal");
    match prior with
    | Some v =>
        if String.eqb (vr_sha v) content_hash then mret "duplicate"
        else raise (ConflictError "same proposal_id has different bytes")
    | None =>
        source ← query (find_event source_event_id);
        match source with
        | None => raise (ValidationError "proposal source_input_event_id is not a captured canonical event")
        | Some e =>
            guard (negb (String.eqb (ev_type e) "captured"))
              (ValidationError "proposal source_input_event_id is not a captured canonical event") ;;
            source_payload ← lift (read_obj (ev_payload e));
            guard (differs (expected_operator_id s) (ev_operator e))
              (ValidationError "proposal source does not match the configured canonical operator") ;;
            guard match expected_node_id s with
                  | Some n => negb (py_eq (get "node_id" source_payload) (JStr n))
                  | None => false
                  end (ValidationError "proposal source does not match the configured producer node") ;;
            case_id ← lift (text_item "case_id" references);
            verdict_id ← lift (text_item "verdict_id" references);
            case_known ← query (created_by case_id "Case" source_event_id);
            guard (negb case_known)
              (ValidationError "proposal case reference does not belong to its source event") ;;
            verdict_known ← query (created_by verdict_id "Verdict" source_event_id);
            guard (negb verdict_known)
              (ValidationError "proposal verdict reference does not belong to its source event") ;;
            read (λ d, for_each (λ id, raise_if (negb (evidence_of_event source_event_id d id))
                    (ValidationError "proposal evidence reference does not belong to its source event"))
                    evidence_ids) ;;
            graph_exec (insert_event
              {| ev_id := event_id; ev_type := "proposal_submitted"; ev_operator := ev_operator e;
                 ev_system_time := now; ev_valid_time := ev_valid_time e;
                 ev_payload := canonical_bytes proposal; ev_sha := content_hash;
                 ev_prior := Some source_event_id; ev_status := status |}) ;;
            write_node proposal_id "Proposal" (ev_operator e) event_id ;;
            version_id ← fresh "node-version";
            insert_node_version
              (version_values version_id proposal_id (sealed proposal) status tier
                 (version_provenance status tier
                    (if truthy (get "model" provenance) then "model" else "software")
                    (get "proposer" provenance) (JStr "validated_proposal_spool") event_id
                    (get "model" provenance) (get "prompt_recipe_hash" provenance) (JStr proposal_id)
                    JNull JNull)
                 (dumps_strings evidence_ids) (ev_valid_time e) None now event_id None) ;;
            mret "applied"
        end
    end).

(** The standing successor of a proposal *)
Definition find_successor (proposal_id : string) (d : db)
    : option (edge_row * version_row * node_row * version_row) :=
  head (flat_map (λ ev : edge_row * version_row,
          let '(e, ev) := ev in
          if String.eqb (ed_type e) "proposal_succeeded_by" && String.eqb (ed_source e) proposal_id &&
             is_open ev
          then match find_endpoint (ed_target e) d with Some (n, v) => [(e, ev, n, v)] | None => [] end
          else []) (joined_edges d)).

Definition successor_relation (reason successor_type : string) : obj :=
  [("relation", JStr "proposal_succeeded_by"); ("why", JStr (strip reason));
   ("successor_type", JStr successor_type)].

Definition successor_result (status proposal successor relation event : string) : obj :=
  [("status", JStr status); ("proposal_id", JStr proposal); ("successor_id", JStr successor);
   ("relation_id", JStr relation); ("event_id", JStr event)].

Definition same_successor (c : node_contract) (operator_id reason : string)
    (x : edge_row * version_row * node_row * version_row) : res bool :=
  let '(e, ev, n, v) := x in
  relation_payload ← load_json (vr_payload ev);
  if String.eqb (ed_target e) (nc_id c) && String.eqb (nd_type n) (nc_type c) &&
     String.eqb (nd_operator n) operator_id &&
     String.eqb (vr_sha v) (payload_sha256 (JObj (nc_payload c))) &&
     String.eqb (vr_status v) "ratified" && String.eqb (vr_tier v) "ratified_knowledge"
  then
    node_evidence ← load_json (vr_evidence v);
    if py_eq node_evidence (texts_json (cp_evidence (nc_by c))) then
      edge_evidence ← load_json (vr_evidence ev);
      Ok (py_eq edge_evidence (texts_json (cp_evidence (nc_by c))) &&
          py_eq relation_payload (JObj (successor_relation reason (nc_type c))))
    else Ok false
  else Ok false.

Definition successor_authored (c : node_contract) (operator_id : string) : bool :=
  let p := nc_by c in
  String.eqb (cp_status p) "ratified" && String.eqb (cp_tier p) "ratified_knowledge" &&
  String.eqb (cp_class p) "operator" && String.eqb (cp_actor p) operator_id &&
  py_eq (cp_ratifier p) (JStr operator_id) && String.eqb (nc_operator c) operator_id.

Definition authorize_proposal_successor (proposal_id : string) (contract : json)
    (operator_id valid_from reason : string) (approval_token : option obj) : txn obj :=
  lift (require_urn (JStr proposal_id) (Some "proposal") "URN") ;;
  lift (require_urn (JStr operator_id) (Some "operator") "operator_id") ;;
  lift (_require_configured_operator s operator_id) ;;
  guard (blank reason) (ValidationError "proposal successor reason is required") ;;
  c ← lift (read_node_contract contract);
  guard (negb (successor_authored c operator_id))
    (ValidationError "proposal successor must be exact operator-authored ratified knowledge") ;;
  lift (aware_time valid_from "valid_from") ;;
  new_event ← fresh "event";
  new_version ← fresh "node-version";
  new_relation ← fresh "relation";
  new_edge_version ← fresh "edge-version";
  system_time ← utc_now;
  let generated := [("event_id", JStr new_event); ("node_version_id", JStr new_version);
                    ("relation_id", JStr new_relation); ("edge_version_id", JStr new_edge_version);
                    ("system_time", JStr system_time)] in
  let missing := ValidationError "current Proposal does not exist" in
  connect (
    endpoint ← query (find_endpoint proposal_id);
    match endpoint with
    | None => raise missing
    | Some (pn, pv) =>
        guard (negb (String.eqb (nd_type pn) "Proposal")) missing ;;
        guard (negb (String.eqb (nd_operator pn) operator_id))
          (ValidationError "Proposal successor authority belongs to another operator") ;;
        proposal_value ← lift (read_obj (vr_payload pv));
        references ← lift (obj_item "references" proposal_value);
        proposal_evidence ← lift (texts_item "evidence_ids" references);
        guard (negb (subset proposal_evidence (cp_evidence (nc_by c))))
          (ValidationError "successor must retain every Proposal evidence reference") ;;
        existing ← query (find_successor proposal_id);
        match existing with
        | Some x =>
            same ← lift (same_successor c operator_id reason x);
            if (same : bool)
            then mret (successor_result "duplicate" proposal_id (nc_id c) (ed_id x.1.1.1) (ed_event x.1.1.1))
            else raise (ConflictError "Proposal already has a different authorized successor")
        | None =>
            taken ← query (find_node (nc_id c));
            guard match taken with Some _ => true | None => false end
              (ConflictError "successor node_id already exists") ;;
            evidence_ids ← read (_require_evidence (cp_evidence (nc_by c)));
            read (check_references (nc_type c) (nc_payload c) operator_id evidence_ids) ;;
            let event_payload :=
              [("node_id", JStr proposal_id); ("source_id", JStr proposal_id);
               ("target_id", JStr (nc_id c)); ("successor_type", JStr (nc_type c));
               ("reason", JStr (strip reason)); ("evidence_ids", texts_json evidence_ids);
               ("successor_contract", JObj (nc_value c))] in
            origin ← lift (obj_item "provenance" proposal_value);
            origin_tier ← lift (text_item "authority_tier" origin);
            execution ← _consume_authority (expected_operator_id s) approval_token
              (Build_demand "proposal.authorize_successor" "authorize typed Proposal successor"
                 (origin_tier +:+ "_to_ratified_knowledge") event_payload
                 [("proposal_version_id", JStr (vr_id pv)); ("proposal_payload_sha256", JStr (vr_sha pv))]
                 generated [nc_id c] evidence_ids [nc_id c] [proposal_id]
                 [new_version; new_edge_version] ["proposal_successor"; nc_type c] []);
            event_id ← lift (text_item "event_id" execution);
            now ← lift (text_item "system_time" execution);
            write_event event_id "proposal_succeeded" operator_id now valid_from event_payload
              (Some (nd_event pn)) "ratified" ;;
            write_node (nc_id c) (nc_type c) operator_id event_id ;;
            node_version_id ← lift (text_item "node_version_id" execution);
            let provenance relation :=
              version_provenance "ratified" "ratified_knowledge" "operator" (JStr operator_id)
                (JStr "explicit_proposal_successor") event_id JNull JNull (JStr proposal_id)
                (JStr operator_id) relation in
            insert_node_version
              (version_values node_version_id (nc_id c) (sealed (JObj (nc_payload c))) "ratified"
                 "ratified_knowledge" (provenance JNull) (dumps_strings evidence_ids) valid_from None
                 now event_id None) ;;
            relation_id ← lift (text_item "relation_id" execution);
            write_edge relation_id "proposal_succeeded_by" proposal_id (nc_id c) operator_id event_id ;;
            edge_version_id ← lift (text_item "edge_version_id" execution);
            insert_edge_version_row
              (version_values edge_version_id relation_id
                 (sealed (JObj (successor_relation reason (nc_type c)))) "ratified" "ratified_knowledge"
                 (provenance (JStr "proposal_succeeded_by")) (dumps_strings evidence_ids) valid_from None
                 now event_id None) ;;
            mret (successor_result "authorized" proposal_id (nc_id c) relation_id event_id)
        end
    end).
End semantic.
