(* ===== verification/Review.v ===== *)
(** * Reviews of records ([store/service.py])

    Ratification, correction, contest, rejection, deferral and tombstoning of
    nodes, reviews of semantic edges, and later evidence for a verdict.  Each
    closes the current version it replaces and names it as its predecessor. *)
From S2P Require Import Prelude PyTime Urn Contracts Codec Unicode Retrieval Json Names.
From S2P Require Import Clock Judgment Operator World Ontology Capture References Derive Tables.
From S2P Require Import Integrity Txn Approval Store Records Semantic.

Definition starts_semantic (e : event_row) : bool := starts_with "semantic_" (ev_type e).

(** A current head with its node and the event that created the node *)
Definition head_of (id : string) (d : db) : option (node_row * version_row * event_row) :=
  '(n, v) ← find_endpoint id d; e ← find_event (nd_event n) d; Some (n, v, e).

Definition reviewable (v : version_row) : bool := mem (vr_status v) ["inferred"; "extracted"].
Definition TYPED := ["SelfModelAssertion"; "InterventionRule"].

Definition prior_of (v : version_row) : obj :=
  [("payload_sha256", JStr (vr_sha v)); ("version_id", JStr (vr_id v))].

Section review.
Context `{signing : crypto} `{env : environment} (s : store).

Definition consume (approval_token : option obj) (dm : demand) : txn obj :=
  _consume_authority (expected_operator_id s) approval_token dm.

(** The new version of a head: it keeps the interval, names its predecessor *)
Definition successor_values (version_id : string) (v : version_row) (payload : string * string)
    (status tier : string) (provenance : obj) (evidence now event : string) : version_row :=
  version_values version_id (vr_owner v) payload status tier provenance evidence
    (vr_valid_from v) (vr_valid_to v) now event (Some (vr_id v)).

(** ** Ratification *)

(** The payload of a ratified head: an assertion or a rule records who
    confirmed it. *)
Definition ratified_payload (type ratifier : string) (v : version_row) : res (string * string) :=
  if mem type TYPED then
    m ← read_obj (vr_payload v);
    p ← obj_item "provenance" m;
    let p := set_item "actor_id" (JStr ratifier)
               (set_item "actor_class" (JStr "operator") (set_item "status" (JStr "ratified") p)) in
    next ← validate_operator_payload type
             (JObj (set_item "provenance" (JObj p) (set_item "review_state" (JStr "confirmed") m)));
    Ok (sealed (JObj next))
  else Ok (vr_payload v, vr_sha v).

Definition UNRATIFIABLE := ["Proposal"; "FeedbackProfile"; "IngestedItem"].

Definition ratify_node (node_id ratifier note : string) (approval_token : option obj) : txn string :=
  guard (blank ratifier) (ValidationError "ratifier identity is required") ;;
  lift (_require_configured_operator s ratifier) ;;
  new_event ← fresh "event";
  new_version ← fresh "node-version";
  system_time ← utc_now;
  let generated := [("event_id", JStr new_event); ("version_id", JStr new_version);
                    ("system_time", JStr system_time)] in
  connect (
    head_ ← query (head_of node_id);
    match head_ with
    | None => raise (ValidationError "node is missing or not current")
    | Some (n, v, ce) =>
        guard (negb (String.eqb (nd_operator n) ratifier))
          (ValidationError "node authority actor must be the configured operator") ;;
        guard (mem (nd_type n) UNRATIFIABLE)
          (ValidationError (nd_type n +:+ " records cannot be ratified as ontology authority")) ;;
        let promotion := String.eqb (vr_status v) "captured" && String.eqb (vr_tier v) "observed_candidate" in
        guard (negb promotion && negb (reviewable v))
          (ValidationError "only recorder candidates or inferred/extracted objects may be ratified") ;;
        (if starts_semantic ce then
           lift (require_urn (JStr ratifier) (Some "operator") "operator ratifier") ;;
           lift (_require_configured_operator s (nd_operator n)) ;;
           guard (negb (String.eqb ratifier (nd_operator n)))
             (ValidationError "typed semantic authority may be ratified only by its operator")
         else mret tt) ;;
        next ← lift (ratified_payload (nd_type n) ratifier v);
        let next_status := if promotion then "captured" else "ratified" in
        let next_tier := if promotion then "captured_judgment" else "ratified_knowledge" in
        let event_payload := [("node_id", JStr node_id); ("prior_version_id", JStr (vr_id v));
          ("prior_status", JStr (vr_status v)); ("new_status", JStr next_status);
          ("new_authority_tier", JStr next_tier); ("ratified_by", JStr ratifier);
          ("ratification_note", JStr note)] in
        execution ← consume approval_token
          (Build_demand "node.ratify" "ratify canonical node" (vr_tier v +:+ "_to_" +:+ next_tier)
             event_payload (prior_of v) generated [node_id] [] [] [vr_event v] [] ["node"] []);
        event_id ← lift (text_item "event_id" execution);
        now ← lift (text_item "system_time" execution);
        write_event event_id (if promotion then "capture_promoted" else "ratified") (nd_operator n)
          now now event_payload (Some (vr_event v)) next_status ;;
        close_node_version (vr_id v) now false ;;
        version_id ← lift (text_item "version_id" execution);
        insert_node_version
          (successor_values version_id v next next_status next_tier
             (version_provenance next_status next_tier "operator" (JStr ratifier)
                (JStr (if promotion then "explicit_capture_promotion" else "explicit_ratification"))
                event_id JNull JNull (JStr (vr_event v))
                (if promotion then JNull else JStr ratifier) JNull)
             (vr_evidence v) now event_id) ;;
        mret event_id
    end).

(** ** Typed correction and contest *)
Definition correct_typed_node (node_id : string) (contract : json) (corrector reason : string)
    (approval_token : option obj) : txn string :=
  lift (require_urn (JStr corrector) (Some "operator") "operator corrector") ;;
  guard (blank reason) (ValidationError "correction reason is required") ;;
  c ← lift (read_node_contract contract);
  guard (negb (String.eqb (nc_id c) node_id))
    (ValidationError "corrected contract must retain the original node_id") ;;
  guard (negb (mem (nc_type c) TYPED))
    (ValidationError "only SelfModelAssertion or InterventionRule may use typed correction") ;;
  let p := nc_by c in
  guard (negb (String.eqb (cp_status p) "ratified") || negb (String.eqb (cp_class p) "operator"))
    (ValidationError "typed correction must be operator-authored ratified knowledge") ;;
  guard (negb (String.eqb (cp_actor p) corrector) || negb (py_eq (cp_ratifier p) (JStr corrector)))
    (ValidationError "typed correction actor and ratifier must be the correcting operator") ;;
  state ← lift (item "review_state" (nc_payload c));
  guard (negb (py_eq state (JStr "corrected")))
    (ValidationError "typed correction payload review_state must be corrected") ;;
  new_event ← fresh "event";
  new_version ← fresh "node-version";
  system_time ← utc_now;
  let generated := [("event_id", JStr new_event); ("version_id", JStr new_version);
                    ("system_time", JStr system_time)] in
  connect (
    head_ ← query (head_of node_id);
    match head_ with
    | None => raise (ValidationError "node is missing or not current")
    | Some (n, v, ce) =>
        guard (negb (mem (nd_type n) TYPED))
          (ValidationError "only SelfModelAssertion or InterventionRule may use typed correction") ;;
        guard (negb (starts_semantic ce)) (ValidationError "typed correction requires a semantic proposal") ;;
        guard (negb (reviewable v))
          (ValidationError "only inferred or extracted typed proposals may be corrected") ;;
        guard (negb (String.eqb (nc_type c) (nd_type n)))
          (ValidationError "corrected contract must retain the original node_type") ;;
        guard (negb (String.eqb (nd_operator n) corrector) || negb (String.eqb (nc_operator c) corrector))
          (ValidationError "typed proposal may be corrected only by its operator") ;;
        lift (_require_configured_operator s (nd_operator n)) ;;
        evidence_ids ← read (_require_evidence (cp_evidence p));
        read (check_references (nc_type c) (nc_payload c) corrector evidence_ids) ;;
        let event_payload := [("node_id", JStr node_id); ("node_type", JStr (nd_type n));
          ("prior_version_id", JStr (vr_id v)); ("prior_event_id", JStr (vr_event v));
          ("prior_status", JStr (vr_status v)); ("corrected_by", JStr corrector);
          ("reason", JStr (strip reason));
          ("replacement_payload_sha256", JStr (payload_sha256 (JObj (nc_payload c))))] in
        execution ← consume approval_token
          (Build_demand "node.correct_typed" "correct typed canonical node"
             "proposal_to_corrected_ratified_knowledge" event_payload (prior_of v) generated [node_id]
             evidence_ids [] [vr_event v] [] ["node"; nd_type n] []);
        event_id ← lift (text_item "event_id" execution);
        now ← lift (text_item "system_time" execution);
        write_event event_id "corrected" (nd_operator n) now now event_payload (Some (vr_event v)) "ratified" ;;
        close_node_version (vr_id v) now false ;;
        version_id ← lift (text_item "version_id" execution);
        insert_node_version
          (successor_values version_id v (sealed (JObj (nc_payload c))) "ratified" "ratified_knowledge"
             (version_provenance "ratified" "ratified_knowledge" "operator" (JStr corrector)
                (cp_mechanism p) event_id JNull JNull (JStr (vr_event v)) (JStr corrector) JNull)
             (dumps_strings evidence_ids) now event_id) ;;
        mret event_id
    end).

Definition contest_typed_node (node_id contestor reason : string) (approval_token : option obj)
    : txn string :=
  lift (require_urn (JStr contestor) (Some "operator") "operator contestor") ;;
  guard (blank reason) (ValidationError "contest reason is required") ;;
  new_event ← fresh "event";
  system_time ← utc_now;
  let generated := [("event_id", JStr new_event); ("system_time", JStr system_time)] in
  connect (
    head_ ← query (head_of node_id);
    match head_ with
    | None => raise (ValidationError "node is missing or not current")
    | Some (n, v, ce) =>
        guard (negb (mem (nd_type n) TYPED))
          (ValidationError "only SelfModelAssertion or InterventionRule may be contested") ;;
        guard (negb (starts_semantic ce)) (ValidationError "typed contest requires a semantic proposal") ;;
        guard (negb (reviewable v))
          (ValidationError "only inferred or extracted typed proposals may be contested") ;;
        guard (negb (String.eqb (nd_operator n) contestor))
          (ValidationError "typed proposal may be contested only by its operator") ;;
        lift (_require_configured_operator s (nd_operator n)) ;;
        let event_payload := [("node_id", JStr node_id); ("node_type", JStr (nd_type n));
          ("prior_version_id", JStr (vr_id v)); ("prior_event_id", JStr (vr_event v));
          ("prior_status", JStr (vr_status v)); ("contested_by", JStr contestor);
          ("reason", JStr (strip reason))] in
        execution ← consume approval_token
          (Build_demand "node.contest_typed" "contest typed canonical node" "proposal_to_contested"
             event_payload (prior_of v) generated [node_id] [] [] [vr_event v] [] ["node"; nd_type n] []);
        event_id ← lift (text_item "event_id" execution);
        now ← lift (text_item "system_time" execution);
        write_event event_id "contested" (nd_operator n) now now event_payload (Some (vr_event v)) "ratified" ;;
        close_node_version (vr_id v) now false ;;
        mret event_id
    end).

(** ** Semantic edges *)
Definition find_edge_head (id : string) (d : db)
    : option (edge_row * version_row * node_row * node_row * event_row) :=
  e ← find_edge id d;
  v ← List.find (current_of id) (edge_versions (the_graph d));
  sn ← find_node (ed_source e) d;
  tn ← find_node (ed_target e) d;
  ce ← find_event (ed_event e) d;
  Some (e, v, sn, tn, ce).

Definition edge_contract (e : edge_row) (v : version_row) (sn tn : node_row) (actor : string)
    (payload : obj) : res json :=
  evidence ← load_json (vr_evidence v);
  mode ← item "evidence_mode" payload;
  why ← item "why" payload;
  Ok (JObj [("record_schema_version", JStr ONTOLOGY_SCHEMA_VERSION); ("relation_id", JStr (ed_id e));
            ("relation_type", JStr (ed_type e)); ("source_id", JStr (ed_source e));
            ("source_type", JStr (nd_type sn)); ("target_id", JStr (ed_target e));
            ("target_type", JStr (nd_type tn)); ("operator_id", JStr (ed_operator e));
            ("evidence_mode", mode); ("why", why);
            ("provenance", JObj
               [("status", JStr "ratified"); ("authority_tier", JStr "ratified_knowledge");
                ("actor_class", JStr "operator"); ("actor_id", JStr actor);
                ("mechanism", JStr "explicit_edge_ratification"); ("evidence_ids", evidence);
                ("model", JNull); ("ratifier_id", JStr actor)])]).

Definition _review_semantic_edge (edge_id action actor reason : string)
    (revisit_after : option string) (approval_token : option obj) : txn string :=
  lift (require_urn (JStr actor) (Some "operator") "operator reviewer") ;;
  guard (negb (mem action ["ratified"; "deferred"; "rejected"]))
    (ValidationError "unsupported semantic edge review action") ;;
  guard (negb (String.eqb action "ratified") && blank reason)
    (ValidationError ("edge " +:+ (if String.eqb action "deferred" then "deferral" else "rejection") +:+
                      " reason is required")) ;;
  lift match revisit_after with None => Ok tt | Some t => aware_time t "revisit_after" end ;;
  new_event ← fresh "event";
  new_version ← fresh "edge-version";
  system_time ← utc_now;
  let generated := [("event_id", JStr new_event); ("version_id", JStr new_version);
                    ("system_time", JStr system_time)] in
  connect (
    head_ ← query (find_edge_head edge_id);
    match head_ with
    | None => raise (ValidationError "edge is missing or not current")
    | Some (e, v, sn, tn, ce) =>
        guard (negb (String.eqb (ev_type ce) "semantic_relation"))
          (ValidationError "only typed semantic relations may use edge review") ;;
        guard (negb (reviewable v))
          (ValidationError "only inferred or extracted semantic relations may be reviewed") ;;
        guard (negb (String.eqb (ed_operator e) actor))
          (ValidationError "semantic relation may be reviewed only by its operator") ;;
        lift (_require_configured_operator s (ed_operator e)) ;;
        let event_payload := [("edge_id", JStr edge_id); ("edge_type", JStr (ed_type e));
          ("prior_version_id", JStr (vr_id v)); ("prior_event_id", JStr (vr_event v));
          ("prior_status", JStr (vr_status v)); ("reviewed_by", JStr actor);
          ("disposition", JStr action); ("reason", JStr (strip reason));
          ("revisit_after", opt_json revisit_after)] in
        execution ← consume approval_token
          (Build_demand ("relation.review." +:+ action) (action +:+ " canonical relation")
             ("relation_to_" +:+ action) event_payload (prior_of v) generated [ed_source e] []
             [ed_target e] [vr_event v] [] ["semantic_relation"; ed_type e] []);
        event_id ← lift (text_item "event_id" execution);
        now ← lift (text_item "system_time" execution);
        write_event event_id ("edge_" +:+ action) (ed_operator e) now now event_payload (Some (vr_event v))
          (if String.eqb action "deferred" then vr_status v else "ratified") ;;
        if String.eqb action "deferred" then mret event_id
        else
          exec (on_graph_update (close_edges (edge_version_is (vr_id v)) now)) ;;
          (if String.eqb action "ratified" then
             next_payload ← lift (read_obj (vr_payload v));
             contract ← lift (edge_contract e v sn tn actor next_payload);
             lift (validate_relation_contract contract) ;;
             version_id ← lift (text_item "version_id" execution);
             insert_edge_version_row
               (successor_values version_id v (sealed (JObj next_payload)) "ratified" "ratified_knowledge"
                  (version_provenance "ratified" "ratified_knowledge" "operator" (JStr actor)
                     (JStr "explicit_edge_ratification") event_id JNull JNull (JStr (vr_event v))
                     (JStr actor) (JStr (ed_type e)))
                  (vr_evidence v) now event_id)
           else mret tt) ;;
          mret event_id
    end).

Definition ratify_edge (edge_id ratifier note : string) (approval_token : option obj) : txn string :=
  _review_semantic_edge edge_id "ratified" ratifier note None approval_token.
Definition defer_edge (edge_id reviewer reason : string) (revisit_after : option string)
    (approval_token : option obj) : txn string :=
  _review_semantic_edge edge_id "deferred" reviewer reason revisit_after approval_token.
Definition reject_edge (edge_id rejector reason : string) (approval_token : option obj) : txn string :=
  _review_semantic_edge edge_id "rejected" rejector reason None approval_token.

(** ** Rejection and deferral of nodes *)
Definition semantic_actor (ce : event_row) (actor label refused operator : string) : txn unit :=
  if starts_semantic ce then
    lift (require_urn (JStr actor) (Some "operator") label) ;;
    lift (_require_configured_operator s operator) ;;
    guard (negb (String.eqb actor operator)) (ValidationError refused)
  else mret tt.

Definition reject_node (node_id rejector reason : string) (approval_token : option obj) : txn string :=
  guard (blank rejector || blank reason)
    (ValidationError "rejector and rejection reason are required") ;;
  new_event ← fresh "event";
  system_time ← utc_now;
  let generated := [("event_id", JStr new_event); ("system_time", JStr system_time)] in
  connect (
    head_ ← query (head_of node_id);
    match head_ with
    | None => raise (ValidationError "node is missing or not current")
    | Some (n, v, ce) =>
        guard (negb (reviewable v))
          (ValidationError "only inferred or extracted objects may be rejected") ;;
        semantic_actor ce rejector "operator rejector"
          "typed semantic proposal may be rejected only by its operator" (nd_operator n) ;;
        lift (_require_configured_operator s (nd_operator n)) ;;
        guard (negb (String.eqb rejector (nd_operator n)))
          (ValidationError "node rejection actor must be the configured operator") ;;
        let payload := [("node_id", JStr node_id); ("prior_version_id", JStr (vr_id v));
          ("prior_status", JStr (vr_status v)); ("rejected_by", JStr rejector); ("reason", JStr reason)] in
        execution ← consume approval_token
          (Build_demand "node.reject" "reject canonical node" "proposal_to_rejected" payload
             (prior_of v) generated [node_id] [] [] [vr_event v] [] ["node"] []);
        event_id ← lift (text_item "event_id" execution);
        now ← lift (text_item "system_time" execution);
        write_event event_id "rejected" (nd_operator n) now now payload (Some (vr_event v)) "ratified" ;;
        close_node_version (vr_id v) now false ;;
        mret event_id
    end).

(** An assertion or a rule records that its review is deferred. *)
Definition write_deferral (type event_id now : string) (execution : obj) (v : version_row) : txn unit :=
  m ← lift (read_obj (vr_payload v));
  next ← lift (validate_operator_payload type (JObj (set_item "review_state" (JStr "deferred") m)));
  provenance ← lift (read_obj (vr_provenance v));
  close_node_version (vr_id v) now false ;;
  version_id ← lift (text_item "version_id" execution);
  insert_node_version
    (successor_values version_id v (sealed (JObj next)) (vr_status v) (vr_tier v)
       (set_item "event_id" (JStr event_id) provenance) (vr_evidence v) now event_id).

Definition defer_node (node_id reviewer_id reason : string) (revisit_after : option string)
    (approval_token : option obj) : txn string :=
  reviewer ← lift (_require_actor reviewer_id);
  guard (blank reason) (ValidationError "deferral reason is required") ;;
  lift match revisit_after with None => Ok tt | Some t => aware_time t "revisit_after" end ;;
  new_event ← fresh "event";
  new_version ← fresh "node-version";
  system_time ← utc_now;
  let generated := [("event_id", JStr new_event); ("version_id", JStr new_version);
                    ("system_time", JStr system_time)] in
  connect (
    head_ ← query (head_of node_id);
    match head_ with
    | None => raise (ValidationError "node is missing or not current")
    | Some (n, v, ce) =>
        guard (negb (reviewable v))
          (ValidationError "only inferred or extracted objects may be deferred") ;;
        semantic_actor ce reviewer "operator reviewer"
          "typed semantic proposal may be deferred only by its operator" (nd_operator n) ;;
        lift (_require_configured_operator s (nd_operator n)) ;;
        guard (negb (String.eqb reviewer (nd_operator n)))
          (ValidationError "node review actor must be the configured operator") ;;
        let payload := [("node_id", JStr node_id); ("node_type", JStr (nd_type n));
          ("version_id", JStr (vr_id v)); ("reviewed_by", JStr reviewer);
          ("reason", JStr (strip reason)); ("revisit_after", opt_json revisit_after)] in
        execution ← consume approval_token
          (Build_demand "node.defer" "defer canonical node review" "proposal_to_deferred" payload
             (prior_of v) generated [node_id] [] [] [vr_event v] [] ["node"] []);
        event_id ← lift (text_item "event_id" execution);
        now ← lift (text_item "system_time" execution);
        write_event event_id "deferred" (nd_operator n) now now payload (Some (vr_event v)) (vr_status v) ;;
        (if mem (nd_type n) TYPED then write_deferral (nd_type n) event_id now execution v else mret tt) ;;
        mret event_id
    end).

(** ** Later evidence for a verdict *)
Definition _insert_edge_for_event (edge_type source target operator_id event_id now evidence_id edge_id
    version_id : string) : txn unit :=
  let payload := [("why", JStr "explicit later operator evidence"); ("relation", JStr edge_type)] in
  write_edge edge_id edge_type source target operator_id event_id ;;
  insert_edge_version_row
    (version_values version_id edge_id (sealed (JObj payload)) "captured" "captured_judgment"
       (version_provenance "captured" "captured_judgment" "operator" (JStr operator_id)
          (JStr "explicit_later_evidence") event_id JNull JNull JNull JNull (JStr edge_type))
       (dumps_strings [evidence_id]) now None now event_id None).

(** [{**payload, **update}] *)
Definition merged (m update : obj) : obj := fold_left (λ acc kv, set_item kv.1 kv.2 acc) update m.

Definition read_texts (text : string) : res (list string) :=
  v ← load_json text; match v with JList l => map_res text_of l | _ => Err TypeError end.

Definition _append_verdict_evidence (verdict_id content actor_id source_locator event_type : string)
    (payload_update : obj) (approval_token : option obj) : txn string :=
  connect (
    endpoint ← query (find_endpoint verdict_id);
    match endpoint with
    | None => raise (ValidationError "current Verdict does not exist")
    | Some (n, v) =>
        guard (negb (String.eqb (nd_type n) "Verdict")) (ValidationError "current Verdict does not exist") ;;
        let operator_id := nd_operator n in
        lift (_require_configured_operator s operator_id) ;;
        guard (negb (String.eqb actor_id operator_id))
          (ValidationError "verdict authority actor must be the configured operator") ;;
        prior_payload ← lift (read_obj (vr_payload v));
        guard (String.eqb event_type "reason_added" && negb (is_null (get "reason" prior_payload)))
          (ValidationError "Verdict already has a reason; use a later call to supersede it") ;;
        let new_payload := merged prior_payload payload_update in
        prior_evidence ← lift (read_texts (vr_evidence v));
        new_event ← fresh "event";
        new_evidence_id ← fresh "evidence";
        new_evidence_version ← fresh "node-version";
        new_edge ← fresh "edge";
        new_edge_version ← fresh "edge-version";
        new_verdict_version ← fresh "node-version";
        system_time ← utc_now;
        let generated := [("event_id", JStr new_event); ("evidence_id", JStr new_evidence_id);
          ("evidence_version_id", JStr new_evidence_version); ("edge_id", JStr new_edge);
          ("edge_version_id", JStr new_edge_version); ("verdict_version_id", JStr new_verdict_version);
          ("system_time", JStr system_time)] in
        let stable_intent := [("node_id", JStr verdict_id); ("prior_version_id", JStr (vr_id v));
          ("actor_id", JStr actor_id); ("source_locator", JStr source_locator);
          ("content_sha256", JStr (payload_sha256 (JStr content)));
          ("payload_update", JObj payload_update); ("event_type", JStr event_type)] in
        execution ← consume approval_token
          (Build_demand ("verdict." +:+ event_type) ("append operator verdict evidence: " +:+ event_type)
             ("captured_judgment_" +:+ event_type) stable_intent (prior_of v) generated [verdict_id] [] [] []
             [new_evidence_version; new_edge_version; new_verdict_version] ["verdict"] []);
        event_id ← lift (text_item "event_id" execution);
        evidence_id ← lift (text_item "evidence_id" execution);
        now ← lift (text_item "system_time" execution);
        let content_sha := payload_sha256 (JStr content) in
        let evidence_payload := [("evidence_id", JStr evidence_id); ("kind", JStr "operator_verbatim");
          ("content", JStr content); ("content_sha256", JStr content_sha);
          ("source_locator", JStr source_locator)] in
        let new_evidence := dedup_strs (prior_evidence ++ [evidence_id]) in
        let event_payload := [("node_id", JStr verdict_id); ("prior_version_id", JStr (vr_id v));
          ("evidence_id", JStr evidence_id); ("actor_id", JStr actor_id);
          ("source_locator", JStr source_locator)] in
        let provenance := operator_provenance "captured_judgment" actor_id source_locator event_id in
        write_event event_id event_type operator_id now now event_payload (Some (vr_event v)) "captured" ;;
        write_node evidence_id "Evidence" operator_id event_id ;;
        evidence_version_id ← lift (text_item "evidence_version_id" execution);
        insert_node_version
          (version_values evidence_version_id evidence_id (sealed (JObj evidence_payload)) "captured"
             "captured_judgment" provenance (dumps_strings [evidence_id]) now None now event_id None) ;;
        exec (insert_receipt {| rc_source := evidence_id; rc_kind := "operator_verbatim";
                rc_locator := source_locator; rc_sha := content_sha; rc_event := event_id |}) ;;
        edge_id ← lift (text_item "edge_id" execution);
        edge_version_id ← lift (text_item "edge_version_id" execution);
        _insert_edge_for_event "supported_by" verdict_id evidence_id operator_id event_id now
          evidence_id edge_id edge_version_id ;;
        close_node_version (vr_id v) now false ;;
        verdict_version_id ← lift (text_item "verdict_version_id" execution);
        insert_node_version
          (successor_values verdict_version_id v (sealed (JObj new_payload)) "captured" "captured_judgment"
             provenance (dumps_strings new_evidence) now event_id) ;;
        mret event_id
    end).

Definition add_reason (verdict_id reason actor_id source_locator : string)
    (approval_token : option obj) : txn string :=
  guard (blank reason || blank actor_id) (ValidationError "reason and actor_id are required") ;;
  _append_verdict_evidence verdict_id reason actor_id source_locator "reason_added"
    [("reason", JStr reason); ("reason_status", JStr "later_added")] approval_token.

Definition reinforce_verdict (verdict_id evidence_text actor_id source_locator : string)
    (approval_token : option obj) : txn string :=
  guard (blank evidence_text || blank actor_id)
    (ValidationError "evidence_text and actor_id are required") ;;
  _append_verdict_evidence verdict_id evidence_text actor_id source_locator "reinforced" [] approval_token.

(** ** Tombstones *)
Definition tombstone_node (node_id reason : string) (approval_token : option obj) : txn string :=
  guard (blank reason) (ValidationError "tombstone reason is required") ;;
  new_event ← fresh "event";
  system_time ← utc_now;
  let generated := [("event_id", JStr new_event); ("system_time", JStr system_time)] in
  connect (
    endpoint ← query (find_endpoint node_id);
    match endpoint with
    | None => raise (ValidationError "node is missing or already tombstoned")
    | Some (n, v) =>
        let payload := [("node_id", JStr node_id); ("reason", JStr reason);
                        ("prior_version_id", JStr (vr_id v))] in
        execution ← consume approval_token
          (Build_demand "node.tombstone" "tombstone canonical node" "current_to_tombstoned" payload
             (prior_of v) generated [node_id] [] [] [] [] ["node"] []);
        event_id ← lift (text_item "event_id" execution);
        now ← lift (text_item "system_time" execution);
        write_event event_id "tombstoned" (nd_operator n) now now payload (Some (vr_event v)) (vr_status v) ;;
        close_node_version (vr_id v) now false ;;
        exec (λ d, on_graph_update (close_edges (touches (the_graph d) node_id None) now) d) ;;
        mret event_id
    end).
End review.
