(* ===== verification/Envelopes.v ===== *)
(** * Governed envelopes ([store/service.py], record schema 3.1.0)

    The first-write envelope of a governed node: its closed shape, and the
    resolution of every version it refers to, among the items of the same
    bundle or in the store, before anything is written. *)
From S2P Require Import Prelude PyTime Urn Contracts Codec Unicode Retrieval Json Names.
From S2P Require Import Clock Binding Business Tables Integrity Txn Approval Store Records.

(** ** Registries *)
Definition _V31_SCHEMA_TYPES : list (string * string) :=
  [("imprint.node.decision-episode/1.0.0", "DecisionEpisode");
   ("imprint.node.actor/1.0.0", "Actor");
   ("imprint.node.role-assignment/1.0.0", "RoleAssignment");
   ("imprint.node.expected-outcome/1.0.0", "ExpectedOutcome");
   ("imprint.node.confidence-assessment/1.0.0", "ConfidenceAssessment");
   ("imprint.node.evidence-artifact/1.0.0", "EvidenceArtifact");
   ("imprint.node.access-policy/1.0.0", "AccessPolicy");
   ("imprint.node.deletion-event/1.0.0", "DeletionEvent");
   ("imprint.node.market/1.0.0", "Market");
   ("imprint.node.positioning/1.0.0", "Positioning");
   ("imprint.node.term-set/1.0.0", "TermSet");
   ("imprint.node.asset/1.0.0", "Asset");
   ("imprint.node.campaign/1.0.0", "Campaign");
   ("imprint.node.business-event/1.1.0", "BusinessEvent");
   ("imprint.node.segment/1.0.0", "Segment");
   ("imprint.node.situation/1.0.0", "Situation");
   ("imprint.node.required-behavior/1.0.0", "RequiredBehavior");
   ("imprint.node.campaign-performance-measurement/1.1.0", "CampaignPerformanceMeasurement");
   ("imprint.node.performance-disposition/1.1.0", "PerformanceDisposition")].

Definition _BUSINESS_SCHEMA_PARTITIONS : list (string * string) :=
  [("imprint.node.market/1.0.0", "business_declared");
   ("imprint.node.positioning/1.0.0", "business_declared");
   ("imprint.node.term-set/1.0.0", "business_declared");
   ("imprint.node.asset/1.0.0", "business_declared");
   ("imprint.node.campaign/1.0.0", "business_declared");
   ("imprint.node.business-event/1.1.0", "business_observed");
   ("imprint.node.segment/1.0.0", "business_declared");
   ("imprint.node.situation/1.0.0", "business_declared");
   ("imprint.node.required-behavior/1.0.0", "business_declared");
   ("imprint.node.campaign-performance-measurement/1.1.0", "business_observed");
   ("imprint.node.performance-disposition/1.1.0", "business_declared")].

Definition _V31_ENVELOPE_FIELDS :=
  ["record_id"; "version_id"; "payload_schema_id"; "record_schema_version";
   "ontology_schema_version"; "operator_id"; "payload"; "provenance"; "sensitivity";
   "access_policy_version_id"; "consent_version_id"; "actor_id"; "role_assignment_version_id";
   "valid_from"; "valid_to"; "scope_id"; "extensions"].

(** From the least to the most sensitive *)
Definition _V31_SENSITIVITY :=
  ["unclassified"; "standard"; "sensitive"; "highly_sensitive"; "restricted"].

Definition _CONFIDENCE_FORBIDDEN :=
  ["Actor"; "RoleAssignment"; "AccessPolicy"; "ConsentGrant"; "DeletionEvent"; "EvidenceArtifact";
   "ConfidenceAssessment"].

Definition V31_TYPES : list string := map snd _V31_SCHEMA_TYPES.

(** ** The shape of an envelope *)

(** [f"{code} at /{pointer}: {message}"] *)
Definition refusal (code pointer message : string) : exn :=
  ValidationError (code +:+ " at /" +:+ pointer +:+ ": " +:+ message).

Definition _v31_time (value : json) (field : string) (nullable : bool) : res (option string) :=
  match value with
  | JStr s =>
      match parse_rfc3339 s with
      | None => Err (refusal "E_NODE_FIELD_VALUE" field "invalid RFC3339 timestamp")
      | Some d =>
          raise_if (negb (ends_with "Z" s) || negb match utcoffset d with Some o => o =? 0 | None => false end)
            (refusal "E_NODE_FIELD_VALUE" field "canonical RFC3339 UTC required") ;;
          Ok (Some s)
      end
  | _ =>
      if is_null value && nullable then Ok None
      else Err (refusal "E_NODE_FIELD_TYPE" field "RFC3339 timestamp required")
  end.

(** Both bounds are text and are compared as text. *)
Definition interval_check (valid_from valid_to : option string) : res unit :=
  match valid_from, valid_to with
  | Some a, Some b =>
      raise_if (String.leb b a)
        (refusal "E_TEMPORAL_INTERVAL_OVERLAP" "valid_to" "interval must be half-open")
  | _, _ => Ok tt
  end.

Definition has_colon (v : json) : bool :=
  match v with JStr s => contains ":" s | _ => false end.

Definition exact_uri (v : json) : bool :=
  match v with JStr s => negb (blank s) && contains ":" s | _ => false end.

Definition namespaced (v : json) : bool :=
  match v with JObj m => forallb (contains ":") (keys m) | _ => false end.

Definition closed_envelope (fields : list string) (m : obj) (unknown missing : string → exn)
    : res unit :=
  match sorted_strs (set_diff (keys m) fields) with
  | name :: _ => Err (unknown name)
  | [] =>
      match sorted_strs (set_diff fields (keys m)) with
      | name :: _ => Err (missing name)
      | [] => Ok tt
      end
  end.

(** The subject of an event is resolved later: here any subject passes. *)
Definition deferred_types (schema_id : string) (payload : json) : res (list (json * string)) :=
  if String.eqb schema_id "imprint.node.business-event/1.1.0" then
    let subject := match payload with JObj m => get "subject_version_id" m | _ => JNull end in
    if is_null subject then Ok []
    else raise_if (negb (hashable subject)) TypeError ;; Ok [(subject, "Customer")]
  else Ok [].

Definition validate_v31_payload (schema_id : string) (payload : json) : res obj :=
  match assoc schema_id _BUSINESS_SCHEMA_PARTITIONS with
  | Some partition =>
      types ← deferred_types schema_id payload;
      validate_business_payload schema_id payload partition types
  | None => validate_core_payload schema_id payload
  end.

Definition V31_REFERENCES :=
  ["record_id"; "version_id"; "operator_id"; "actor_id"; "role_assignment_version_id";
   "access_policy_version_id"; "scope_id"].

Definition _validate_v31_envelope (envelope : json) : res obj :=
  value ← as_obj envelope (refusal "E_NODE_FIELD_TYPE" "" "node envelope must be an object");
  closed_envelope _V31_ENVELOPE_FIELDS value
    (λ name, refusal "E_NODE_FIELD_UNKNOWN" name "unknown envelope field")
    (λ name, refusal "E_NODE_FIELD_REQUIRED" name "required envelope field missing") ;;
  let schema := get "payload_schema_id" value in
  known ← in_set schema (keys _V31_SCHEMA_TYPES);
  raise_if (negb known) (refusal "E_NODE_SCHEMA_UNKNOWN" "payload_schema_id" "unknown node schema") ;;
  raise_if (negb (py_eq (get "record_schema_version" value) (JStr "3.1.0")))
    (refusal "E_NODE_FIELD_VALUE" "record_schema_version" "expected 3.1.0") ;;
  raise_if (negb (py_eq (get "ontology_schema_version" value) (JStr "3.6.1")))
    (refusal "E_NODE_FIELD_VALUE" "ontology_schema_version" "expected 3.6.1") ;;
  for_each (λ k, raise_if (negb (exact_uri (get k value)))
      (refusal "E_NODE_REFERENCE_VERSION_REQUIRED" k "exact URI required")) V31_REFERENCES ;;
  let consent := get "consent_version_id" value in
  raise_if (negb (is_null consent) && negb (has_colon consent))
    (refusal "E_CONSENT_VERSION_REQUIRED" "consent_version_id" "exact version required") ;;
  sensitivity_bad ← not_in_set (get "sensitivity" value) _V31_SENSITIVITY;
  raise_if sensitivity_bad (refusal "E_NODE_FIELD_VALUE" "sensitivity" "invalid sensitivity") ;;
  raise_if (negb (namespaced (get "extensions" value)))
    (refusal "E_NODE_FIELD_VALUE" "extensions" "only namespaced extensions are allowed") ;;
  valid_from ← _v31_time (get "valid_from" value) "valid_from" false;
  valid_to ← _v31_time (get "valid_to" value) "valid_to" true;
  interval_check valid_from valid_to ;;
  schema_id ← text_of schema;
  payload ← validate_v31_payload schema_id (get "payload" value);
  provenance ← validate_provenance_v2_1 (get "provenance" value);
  raise_if (negb (py_eq (get "actor_id" provenance) (get "actor_id" value)))
    (refusal "E_NODE_CONDITIONAL_RULE" "actor_id" "envelope and provenance actor differ") ;;
  raise_if (negb (py_eq (get "role_assignment_version_id" provenance)
                        (get "role_assignment_version_id" value)))
    (refusal "E_NODE_CONDITIONAL_RULE" "role_assignment_version_id"
       "envelope and provenance role differ") ;;
  Ok value.

(** The columns of a validated envelope *)
Record envelope : Type := {
  en_value : obj; en_record : string; en_version : string; en_schema : string; en_type : string;
  en_operator : string; en_payload : obj; en_provenance : obj; en_origin : string; en_tier : json;
  en_evidence : list string; en_sensitivity : string; en_policy : string;
  en_consent : option string; en_actor : string; en_role : string; en_valid_from : string;
  en_valid_to : option string; en_scope : string
}.

Definition schema_type (schema_id : string) : res string :=
  match assoc schema_id _V31_SCHEMA_TYPES with Some t => Ok t | None => Err (KeyError schema_id) end.

Definition read_envelope (value : json) : res envelope :=
  m ← _validate_v31_envelope value;
  record ← text_item "record_id" m;
  version ← text_item "version_id" m;
  schema ← text_item "payload_schema_id" m;
  type ← schema_type schema;
  operator ← text_item "operator_id" m;
  payload ← obj_item "payload" m;
  provenance ← obj_item "provenance" m;
  origin ← text_item "origin_status" provenance;
  tier ← item "authority_tier" provenance;
  evidence ← texts_item "evidence_version_ids" provenance;
  sensitivity ← text_item "sensitivity" m;
  policy ← text_item "access_policy_version_id" m;
  consent ← item "consent_version_id" m;
  consent ← opt_text consent;
  actor ← text_item "actor_id" m;
  role ← text_item "role_assignment_version_id" m;
  valid_from ← text_item "valid_from" m;
  valid_to ← item "valid_to" m;
  valid_to ← opt_text valid_to;
  scope ← text_item "scope_id" m;
  Ok {| en_value := m; en_record := record; en_version := version; en_schema := schema;
        en_type := type; en_operator := operator; en_payload := payload;
        en_provenance := provenance; en_origin := origin; en_tier := tier; en_evidence := evidence;
        en_sensitivity := sensitivity; en_policy := policy; en_consent := consent;
        en_actor := actor; en_role := role; en_valid_from := valid_from; en_valid_to := valid_to;
        en_scope := scope |}.

(** ** Resolution of exact versions *)

(** The integers SQLite can hold *)
Definition sql_integer (z : Z) : bool := (- 2 ^ 63 <=? z) && (z <? 2 ^ 63).

(** The text SQLite stores for a floating value in a [TEXT] column; a NaN is
    bound as NULL. *)
Class sqlite : Type := { real_text : spec_float → option string }.

(** A value bound to a [TEXT] column: [None] is NULL *)
Definition bind_text `{lite : sqlite} (v : json) : res (option string) :=
  match v with
  | JStr s => Ok (Some s)
  | JNull => Ok None
  | JBool b => Ok (Some (if b then "1" else "0"))
  | JInt z => raise_if (negb (sql_integer z)) OverflowError ;; Ok (Some (print_int z))
  | JFloat f => Ok (real_text f)
  | JList _ | JObj _ => Err ProgrammingError
  end.

(** What a reference resolves to *)
Record found_ref : Type := {
  fr_type : string; fr_operator : string; fr_payload : json; fr_valid_from : string;
  fr_valid_to : option string; fr_tier : json; fr_lifecycle : json
}.

(** The candidates of the transaction, by version *)
Definition candidates : Type := list (string * obj).

Definition candidate_ref (candidate : obj) : res found_ref :=
  schema ← text_item "payload_schema_id" candidate;
  type ← schema_type schema;
  operator ← text_item "operator_id" candidate;
  payload ← item "payload" candidate;
  valid_from ← text_item "valid_from" candidate;
  valid_to ← item "valid_to" candidate;
  valid_to ← opt_text valid_to;
  provenance ← obj_item "provenance" candidate;
  tier ← item "authority_tier" provenance;
  lifecycle ← item "lifecycle_status" provenance;
  Ok {| fr_type := type; fr_operator := operator; fr_payload := payload;
        fr_valid_from := valid_from; fr_valid_to := valid_to; fr_tier := tier;
        fr_lifecycle := lifecycle |}.

Definition find_version (id : string) (d : db) : option version_row :=
  List.find (λ v, String.eqb (vr_id v) id) (node_versions (the_graph d)).

Definition find_relation (id : string) (d : db) : option relation_row :=
  List.find (λ r, String.eqb (sr_version r) id) (semantic_relations (the_semantic d)).

(** [nodes n JOIN node_versions nv USING(node_id) WHERE nv.version_id=?] *)
Definition find_versioned (id : string) (d : db) : option (node_row * version_row) :=
  v ← find_version id d; n ← find_node (vr_owner v) d; Some (n, v).

Definition version_ref (n : node_row) (v : version_row) : res found_ref :=
  provenance ← read_obj (vr_provenance v);
  payload ← load_json (vr_payload v);
  Ok {| fr_type := nd_type n; fr_operator := nd_operator n; fr_payload := payload;
        fr_valid_from := vr_valid_from v; fr_valid_to := vr_valid_to v;
        fr_tier := JStr (vr_tier v);
        fr_lifecycle := get_default "lifecycle_status" (JStr "active") provenance |}.

Definition relation_ref (r : relation_row) : res found_ref :=
  payload ← load_json (sr_envelope r);
  Ok {| fr_type := "RelationVersion"; fr_operator := sr_operator r; fr_payload := payload;
        fr_valid_from := sr_valid_from r; fr_valid_to := sr_valid_to r;
        fr_tier := JStr "inferred_candidate"; fr_lifecycle := JStr "active" |}.

Definition stored_ref (id : string) (d : db) : res (option found_ref) :=
  match find_versioned id d with
  | Some (n, v) => f ← version_ref n v; Ok (Some f)
  | None =>
      match find_relation id d with
      | Some r => f ← relation_ref r; Ok (Some f)
      | None => Ok None
      end
  end.

(** Every parameter is compared as the text its column would hold. *)
Definition _v31_ref_type `{lite : sqlite} (version_id : json) (pending : candidates) (d : db)
    : res (option found_ref) :=
  raise_if (negb (hashable version_id)) TypeError ;;
  match match version_id with JStr id => assoc id pending | _ => None end with
  | Some candidate => f ← candidate_ref candidate; Ok (Some f)
  | None =>
      id ← bind_text version_id;
      match id with Some id => stored_ref id d | None => Ok None end
  end.

(** [valid_from <= at and (valid_to is None or at < valid_to)], on text *)
Definition text_lt (a b : string) : bool := negb (String.leb b a).

Definition covers (valid_from : string) (valid_to : option string) (at_ : string) : bool :=
  String.leb valid_from at_ && match valid_to with None => true | Some t => text_lt at_ t end.

Definition _require_v31_ref `{lite : sqlite} (version_id : json) (pending : candidates) (operator_id field : string)
    (allowed : list string) (at_ : option string) (d : db) : res found_ref :=
  found ← _v31_ref_type version_id pending d;
  let code := "E_NODE_REFERENCE_TYPE" in
  match found with
  | None => Err (refusal code ("payload/" +:+ field) "exact version is missing")
  | Some f =>
      raise_if (negb (String.eqb (fr_operator f) operator_id) || negb (mem (fr_type f) allowed))
        (refusal code ("payload/" +:+ field) "incompatible exact version") ;;
      raise_if match at_ with
               | Some t => negb (covers (fr_valid_from f) (fr_valid_to f) t)
               | None => false
               end
        (refusal "E_ROLE_SCOPE_DENIED" ("payload/" +:+ field) "reference inactive at semantic time") ;;
      Ok f
  end.

(** [found[2].get(key, default)] *)
Definition fr_get (key : string) (default : json) (f : found_ref) : res json :=
  match fr_payload f with JObj m => Ok (get_default key default m) | _ => Err AttributeError end.

(** [x not in found[2].get(key, [])] *)
Definition lacks (x key : string) (f : found_ref) : res bool :=
  v ← fr_get key (JList []) f; b ← member x v; Ok (negb b).

(** [found[5] not in {"captured_judgment", "ratified_knowledge"} or found[6] != "active"] *)
Definition not_judged (f : found_ref) : res bool :=
  or_else (not_in_set (fr_tier f) AUTHORITATIVE)
    (Ok (negb (py_eq (fr_lifecycle f) (JStr "active")))).

(** [not isinstance(values, list) or len(values) != len(set(values))] *)
Definition unique_list (v : json) (e : exn) : res (list json) :=
  l ← as_list v e; dup ← has_duplicates l; raise_if dup e ;; Ok l.

(** ** References of an envelope *)
Section references.
Context `{lite : sqlite} (d : db) (pending : candidates) (en : envelope).

Definition require (ref : json) (field : string) (allowed : list string) (at_ : option string)
    : res found_ref :=
  _require_v31_ref ref pending (en_operator en) field allowed at_ d.

Definition require_all (refs : list json) (field : string) (allowed : list string) : res unit :=
  for_each (λ ref, require ref field allowed None ;; Ok tt) refs.

Definition governing_check : res unit :=
  role ← require (JStr (en_role en)) "role_assignment_version_id" ["RoleAssignment"]
           (Some (en_valid_from en));
  denied ← or_else (not_judged role)
             (or_else (lacks "store" "allowed_operations" role) (lacks (en_scope en) "scope_ids" role));
  raise_if denied
    (refusal "E_ROLE_SCOPE_DENIED" "role_assignment_version_id" "active scoped store authority required") ;;
  policy ← require (JStr (en_policy en)) "access_policy_version_id" ["AccessPolicy"]
             (Some (en_valid_from en));
  denied ← or_else (lacks "store" "operations" policy)
             (lacks (en_role en) "principal_role_assignment_version_ids" policy);
  raise_if denied
    (refusal "E_ACCESS_POLICY_VERSION_REQUIRED" "access_policy_version_id" "policy denies store").

(** The grant whose both intervals must admit the write, if it has the fields
    of a 3.1 grant *)
Definition governing_consent : res (option string) :=
  match en_consent en with
  | None => Ok None
  | Some consent =>
      f ← require (JStr consent) "consent_version_id" ["ConsentGrant"] (Some (en_valid_from en));
      exact ← member "source_class" (fr_payload f);
      Ok (if (exact : bool) then Some consent else None)
  end.

Definition consent_purpose : string :=
  if mem (en_type en) ["Outcome"; "ExpectedOutcome"] then "outcome_learning"
  else if mem (en_type en) ["Observation"; "EvidenceArtifact"] then "business_analysis"
  else "self_modeling".

Definition consent_check (consent system_at : string) : res unit :=
  authorize_consent_version consent (en_operator en)
    (get_default "source_class" (JStr "operator_explicit") (en_payload en))
    consent_purpose "store" (en_valid_from en) system_at d ;; Ok tt.

Definition pending_actor : option obj :=
  List.find (λ candidate, py_eq (get "record_id" candidate) (JStr (en_actor en))) (map snd pending).

Definition actor_check : res unit :=
  actor ← match pending_actor with
          | Some candidate =>
              schema ← text_item "payload_schema_id" candidate;
              type ← schema_type schema;
              operator ← text_item "operator_id" candidate;
              Ok (Some (type, operator))
          | None => Ok match find_node (en_actor en) d with
                       | Some n => Some (nd_type n, nd_operator n)
                       | None => None
                       end
          end;
  raise_if (negb match actor with
                 | Some (type, operator) => String.eqb type "Actor" && String.eqb operator (en_operator en)
                 | None => false
                 end)
    (refusal "E_NODE_REFERENCE_TYPE" "actor_id" "exact same-operator Actor required").

Definition evidence_check : res unit :=
  require_all
    (map JStr (List.filter (λ id, negb (String.eqb (en_type en) "EvidenceArtifact" &&
                                        String.eqb id (en_version en))) (en_evidence en)))
    "provenance/evidence_version_ids" ["EvidenceArtifact"].

Definition EPISODE_LISTS :=
  [("participant_role_assignment_version_ids", "RoleAssignment");
   ("artifact_version_ids", "EvidenceArtifact");
   ("expected_outcome_version_ids", "ExpectedOutcome")].

Definition episode_references (m : obj) : res unit :=
  case ← item "case_version_id" m; require case "case_version_id" ["Case"] None ;;
  verdict ← item "verdict_version_id" m; require verdict "verdict_version_id" ["Verdict"] None ;;
  id ← item "operator_role_assignment_version_id" m;
  at_ ← text_item "captured_at" m;
  role ← require id "operator_role_assignment_version_id" ["RoleAssignment"] (Some at_);
  denied ← or_else (kind ← fr_get "role_type" JNull role;
                    not_in_set kind ["operator_of_record"; "decision_maker"])
             (or_else (lacks "store" "allowed_operations" role) (not_judged role));
  raise_if denied
    (refusal "E_ROLE_SCOPE_DENIED" "payload/operator_role_assignment_version_id"
       "role cannot record episode") ;;
  for_each (λ kv,
      l ← unique_list (get_default kv.1 (JList []) m)
            (refusal "E_NODE_FIELD_CARDINALITY" ("payload/" +:+ kv.1) "ordered unique array required");
      require_all l kv.1 [kv.2]) EPISODE_LISTS.

Definition outcome_references (m : obj) : res unit :=
  let id := get "confidence_assessment_version_id" m in
  if is_null id then Ok tt
  else
    assessment ← require id "confidence_assessment_version_id" ["ConfidenceAssessment"] None;
    fields ← obj_of (fr_payload assessment);
    subject ← item "subject_version_id" fields;
    raise_if (negb (py_eq subject (JStr (en_version en))))
      (refusal "E_NODE_REFERENCE_TYPE" "payload/confidence_assessment_version_id"
         "assessment targets another version").

Definition ASSESSABLE := V31_TYPES ++
  ["Case"; "Verdict"; "Outcome"; "Observation"; "Pattern"; "RelationVersion"].

Definition assessment_references (m : obj) : res unit :=
  id ← item "subject_version_id" m;
  subject ← require id "subject_version_id" ASSESSABLE None;
  raise_if (mem (fr_type subject) _CONFIDENCE_FORBIDDEN)
    (refusal "E_NODE_CONDITIONAL_RULE" "payload/subject_version_id" "confidence forbidden for target") ;;
  assessor ← item "assessor_actor_version_id" m;
  require assessor "assessor_actor_version_id" ["Actor"] None ;;
  basis ← unique_list (get_default "basis_evidence_version_ids" (JList []) m)
            (refusal "E_NODE_FIELD_CARDINALITY" "payload/basis_evidence_version_ids"
               "unique array required");
  require_all basis "basis_evidence_version_ids" ["EvidenceArtifact"].

Definition MISMATCH (what : string) : exn := refusal "E_ARTIFACT_DIGEST_MISMATCH" "artifact_bytes" what.

(** The bytes of an artifact are those its payload describes. *)
Definition artifact_content (artifact_bytes : list (string * string)) (m : obj) : res unit :=
  state ← item "content_state" m;
  if str_is state "purged" then Ok tt
  else
    match assoc (en_version en) artifact_bytes with
    | None => Err (MISMATCH "exact bytes required")
    | Some content =>
        byte_count ← item "byte_count" m;
        digest ← item "original_sha256" m;
        raise_if (negb (py_eq (JInt (Z.of_nat (String.length content))) byte_count) ||
                  negb (py_eq (JStr (sha256 content)) digest))
          (MISMATCH "digest or byte count mismatch")
    end.

Definition artifact_references (artifact_bytes : list (string * string)) (m : obj) : res unit :=
  for_each (λ kv, id ← item kv.1 m; require id kv.1 [kv.2] None ;; Ok tt)
    [("custody_actor_version_id", "Actor"); ("access_policy_version_id", "AccessPolicy");
     ("consent_version_id", "ConsentGrant")] ;;
  derived ← item "derived_from_version_ids" m;
  l ← unique_list derived
        (refusal "E_NODE_FIELD_CARDINALITY" "payload/derived_from_version_ids"
           "ordered unique array required");
  require_all l "derived_from_version_ids" ["EvidenceArtifact"] ;;
  artifact_content artifact_bytes m.

Definition type_references (artifact_bytes : list (string * string)) : res unit :=
  let m := en_payload en in
  if String.eqb (en_type en) "DecisionEpisode" then episode_references m
  else if String.eqb (en_type en) "ExpectedOutcome" then outcome_references m
  else if String.eqb (en_type en) "ConfidenceAssessment" then assessment_references m
  else if String.eqb (en_type en) "EvidenceArtifact" then artifact_references artifact_bytes m
  else Ok tt.

(** ** References of a business payload *)
Definition one (m : obj) (field : string) (allowed : list string) : res (option found_ref) :=
  let ref := get field m in
  if is_null ref then Ok None else f ← require ref field allowed None; Ok (Some f).

Definition each_one (m : obj) (fields : list (string * list string)) : res unit :=
  for_each (λ kv, one m kv.1 kv.2 ;; Ok tt) fields.

Definition many (m : obj) (field : string) (allowed : list string) : res unit :=
  l ← unique_list (get_default field (JList []) m)
        (refusal "E_BUSINESS_FIELD_CARDINALITY" ("payload/" +:+ field) "unique array required");
  require_all l field allowed.

Definition event_of (ref : json) : option event_row :=
  match bind_text ref with Ok (Some id) => find_event id d | _ => None end.

Definition exact_event (m : obj) (field : string) : res unit :=
  let ref := get field m in
  let code := "E_BUSINESS_REFERENCE_TYPE" in
  if is_null ref then Ok tt
  else
    found ← _v31_ref_type ref pending d;
    match found with
    | Some f =>
        raise_if (negb (String.eqb (fr_type f) "RatificationEvent") ||
                  negb (String.eqb (fr_operator f) (en_operator en)))
          (refusal code ("payload/" +:+ field) "exact RatificationEvent required")
    | None =>
        raise_if (negb match event_of ref with
                       | Some e => String.eqb (ev_operator e) (en_operator en) && contains "ratif" (ev_type e)
                       | None => false
                       end)
          (refusal code ("payload/" +:+ field) "exact ratification event required")
    end.

Definition business_confidence (m : obj) : res unit :=
  if is_null (get "confidence_assessment_version_id" m) then Ok tt
  else
    assessment ← one m "confidence_assessment_version_id" ["ConfidenceAssessment"];
    bad ← match assessment with
          | None => Ok true
          | Some f => subject ← fr_get "subject_version_id" JNull f;
                      Ok (negb (py_eq subject (JStr (en_version en))))
          end;
    raise_if bad
      (refusal "E_BUSINESS_REFERENCE_TYPE" "payload/confidence_assessment_version_id"
         "assessment must target this exact business version").

(** The subject of an event resolves to a customer or an outside actor, and
    the payload is validated again with what it resolved to. *)
Definition event_references (m : obj) : res unit :=
  each_one m [("observer_actor_version_id", ["Actor"]); ("source_artifact_version_id", ["EvidenceArtifact"])] ;;
  let subject := get "subject_version_id" m in
  types ← (if is_null subject then Ok []
           else
             f ← require subject "subject_version_id" ["Customer"; "Actor"] None;
             kind ← (if String.eqb (fr_type f) "Actor" then fr_get "actor_type" JNull f else Ok JNull);
             Ok [(subject, if py_eq kind (JStr "external_subject") then "Actor:external_subject"
                           else fr_type f)]);
  validate_business_payload (en_schema en) (JObj m) "business_observed" types ;; Ok tt.

Definition disposition_references (m : obj) : res unit :=
  each_one m [("measurement_version_id", ["CampaignPerformanceMeasurement"]);
              ("outcome_version_id", ["Outcome"]); ("decided_by_actor_version_id", ["Actor"])] ;;
  role ← one m "decided_by_role_assignment_version_id" ["RoleAssignment"];
  denied ← match role with None => Ok true | Some f => not_judged f end;
  raise_if denied
    (refusal "E_RELATION_ROLE_DENIED" "payload/decided_by_role_assignment_version_id"
       "active judgment role required") ;;
  many m "evidence_version_ids" ["EvidenceArtifact"].

Definition measurement_references (m : obj) : res unit :=
  each_one m [("observer_actor_version_id", ["Actor"])] ;;
  many m "source_artifact_version_ids" ["EvidenceArtifact"] ;;
  each_one m [("baseline_measurement_version_id", ["CampaignPerformanceMeasurement"]);
              ("comparator_measurement_version_id", ["CampaignPerformanceMeasurement"])].

Definition schema_references (m : obj) : res unit :=
  let schema suffix := ends_with suffix (en_schema en) in
  if schema "market/1.0.0" then many m "channel_ids" ["Channel"]
  else if schema "positioning/1.0.0" then
    many m "alternative_version_ids" (V31_TYPES ++ ["Offer"; "Claim"; "Promise"]) ;;
    many m "proof_version_ids" ["Proof"] ;;
    exact_event m "ratification_event_version_id"
  else if schema "term-set/1.0.0" then exact_event m "ratification_event_version_id"
  else if schema "asset/1.0.0" then
    each_one m [("artifact_version_id", ["EvidenceArtifact"]);
                ("approved_by_role_assignment_version_id", ["RoleAssignment"])]
  else if schema "campaign/1.0.0" then
    each_one m [("owner_role_assignment_version_id", ["RoleAssignment"])]
  else if schema "business-event/1.1.0" then event_references m
  else if schema "required-behavior/1.0.0" then exact_event m "ratification_event_version_id"
  else if schema "campaign-performance-measurement/1.1.0" then measurement_references m
  else if schema "performance-disposition/1.1.0" then disposition_references m
  else Ok tt.

(** The tier an origin may claim without a signed promotion *)
Definition CEILINGS : list (string * string) :=
  [("captured", "observed_candidate"); ("extracted", "imported_floor");
   ("inferred", "inferred_candidate")].

Definition under_ceiling (origin : string) (tier : json) : res bool :=
  match assoc origin CEILINGS with
  | Some ceiling => Ok (py_eq tier (JStr ceiling))
  | None => Err (KeyError origin)
  end.

Definition CEILING_POINTER := "provenance/authority_tier".

Definition business_authority : res unit :=
  let code := "E_BUSINESS_AUTHORITY_CEILING" in
  let schema suffix := ends_with suffix (en_schema en) in
  lifecycle ← item "lifecycle_status" (en_provenance en);
  signed ← in_set (en_tier en) AUTHORITATIVE;
  (if (signed : bool) then Ok tt
   else
     ok ← under_ceiling (en_origin en) (en_tier en);
     raise_if (negb ok)
       (refusal code CEILING_POINTER
          (en_origin en +:+ " requires " +:+ default "" (assoc (en_origin en) CEILINGS) +:+
           " before signed promotion"))) ;;
  let active := py_eq lifecycle (JStr "active") in
  raise_if (existsb schema ["positioning/1.0.0"; "term-set/1.0.0"; "required-behavior/1.0.0"] &&
            negb (py_eq (en_tier en) (JStr "ratified_knowledge") && active))
    (refusal code CEILING_POINTER "declared-and-ratified schema required") ;;
  raise_if (schema "performance-disposition/1.1.0" && active && negb signed)
    (refusal code CEILING_POINTER "active disposition requires signed judgment").

Definition _validate_business_references : res unit :=
  let m := en_payload en in
  business_confidence m ;; schema_references m ;; business_authority.

Definition is_business (schema_id : string) : bool := has_key schema_id _BUSINESS_SCHEMA_PARTITIONS.

(** What follows the consent of an envelope *)
Definition payload_references (artifact_bytes : list (string * string)) : res unit :=
  actor_check ;; evidence_check ;; type_references artifact_bytes ;;
  (if is_business (en_schema en) then _validate_business_references else Ok tt).
End references.

Definition _validate_v31_references `{env : environment} `{lite : sqlite} (en : envelope) (pending : candidates)
    (artifact_bytes : list (string * string)) (system_at : option string) : txn unit :=
  read (λ d, governing_check d pending en) ;;
  consent ← read (λ d, governing_consent d pending en);
  (match consent with
   | Some consent =>
       now ← match system_at with Some t => mret t | None => utc_now end;
       read (λ d, consent_check d en consent now)
   | None => mret tt
   end) ;;
  read (λ d, payload_references d pending en artifact_bytes).
