(* ===== verification/Bundles.v ===== *)
(** * Governed first writes ([store/service.py])

    [append_ontology_bundle] with its single-node form, the typed business
    relations and the contradictions, and their reads.  A bundle validates
    every envelope before the transaction and every reference inside it, and
    writes for each item an event, a node, its version and its envelope. *)
From S2P Require Import Prelude PyTime Urn Contracts Codec Unicode Retrieval Json Names.
From S2P Require Import Clock Binding Business Tables Integrity Txn Approval Store Records.
From S2P Require Import Envelopes.

(** The [NOT NULL] constraint *)
Definition not_null (v : option string) : res string :=
  match v with Some s => Ok s | None => Err (IntegrityError false) end.

(** What is no text is refused where a text is needed, like the empty one. *)
Definition text_or_empty (v : json) : string := match v with JStr s => s | _ => "" end.

(** [{**value, "system_from": now, "system_to": None}] *)
Definition with_system (now : string) (value : obj) : obj :=
  value ++ [("system_from", JStr now); ("system_to", JNull)].

Definition put_semantic (r : semantic_row) : txn unit := exec (insert_semantic r).

(** The row of an envelope, with the columns it repeats *)
Definition semantic_values (en : envelope) (contested : option string) (content : obj) : semantic_row :=
  {| sv_version := en_version en; sv_record := en_record en; sv_schema := en_schema en;
     sv_record_schema := "3.1.0"; sv_ontology_schema := "3.6.1";
     sv_provenance := canonical_bytes (JObj (en_provenance en));
     sv_sensitivity := en_sensitivity en; sv_policy := en_policy en; sv_consent := en_consent en;
     sv_actor := en_actor en; sv_role := en_role en; sv_scope := en_scope en;
     sv_contested := contested; sv_envelope := canonical_bytes (JObj content);
     sv_sha := payload_sha256 (JObj content) |}.

(** The event, the node, the version and the envelope of one first write *)
Definition write_envelope (event_type operator : string) (prior : option string) (en : envelope)
    (event_id now : string) : txn unit :=
  let content := with_system now (en_value en) in
  write_event event_id event_type operator now (en_valid_from en) content prior (en_origin en) ;;
  write_node (en_record en) (en_type en) operator event_id ;;
  insert_node_version
    (version_values (en_version en) (en_record en) (sealed (JObj (en_payload en))) (en_origin en)
       (text_or_empty (en_tier en)) (en_provenance en) (dumps_strings (en_evidence en))
       (en_valid_from en) (en_valid_to en) now event_id None) ;;
  put_semantic (semantic_values en None content).

Definition is_assessment (en : envelope) : bool := String.eqb (en_type en) "ConfidenceAssessment".

Definition write_head `{lite : sqlite} (replace : bool) (subject : json) (en : envelope) : txn unit :=
  subject ← lift (bind_text subject);
  assessor ← lift (v ← item "assessor_actor_version_id" (en_payload en); bind_text v);
  method ← lift (v ← item "method" (en_payload en); bind_text v);
  scale ← lift (v ← item "scale" (en_payload en); bind_text v);
  subject ← lift (not_null subject);
  assessor ← lift (not_null assessor);
  method ← lift (not_null method);
  scale ← lift (not_null scale);
  exec (insert_head replace
    {| hd_subject := subject; hd_assessor := assessor; hd_method := method; hd_scale := scale;
       hd_assessment := en_version en |}).

(** ** Assessments of a bundle *)
Definition distinct (l : list string) : bool := Nat.eqb (length (dedup_strs l)) (length l).

Definition head_identity (en : envelope) : res json :=
  l ← map_res (λ k, item k (en_payload en))
        ["subject_version_id"; "assessor_actor_version_id"; "method"; "scale"];
  raise_if (negb (forallb hashable l)) TypeError ;; Ok (JList l).

Fixpoint distinct_heads (seen : list json) (values : list envelope) : res unit :=
  match values with
  | [] => Ok tt
  | en :: rest =>
      if is_assessment en then
        identity ← head_identity en;
        raise_if (existsb (py_eq identity) seen)
          (refusal "E_NODE_FIELD_CARDINALITY" "confidence" "duplicate current scorer/method/scale head") ;;
        distinct_heads (identity :: seen) rest
      else distinct_heads seen rest
  end.

(** [assessment_by_subject.get(version_id)] *)
Definition assessed (values : list envelope) (version_id : string) : bool :=
  existsb (λ en, is_assessment en &&
                 py_eq (get "subject_version_id" (en_payload en)) (JStr version_id)) values.

Definition must_assess (type origin : string) : bool :=
  String.eqb type "ExpectedOutcome" ||
  (mem origin ["inferred"; "extracted"] && negb (mem type _CONFIDENCE_FORBIDDEN)).

Definition assessed_check (values : list envelope) (en : envelope) : res unit :=
  let code := "E_NODE_CONDITIONAL_RULE" in
  raise_if (must_assess (en_type en) (en_origin en) && negb (assessed values (en_version en)))
    (refusal code "confidence" "required initial assessment must commit atomically") ;;
  raise_if (mem (en_type en) _CONFIDENCE_FORBIDDEN && assessed values (en_version en))
    (refusal code "confidence" "target must not carry confidence").

(** ** [append_ontology_bundle] *)
Section bundles.
Context `{signing : crypto} `{env : environment} `{lite : sqlite} (s : store).

(** [{item["version_id"]: make_urn("event") for item in values}] *)
Fixpoint fresh_events (versions : list string) (acc : obj) : txn obj :=
  match versions with
  | [] => mret acc
  | v :: rest => id ← fresh "event"; fresh_events rest (set_item v (JStr id) acc)
  end.

Definition pending_of (values : list envelope) : candidates :=
  map (λ en, (en_version en, en_value en)) values.

Definition sorted_items (m : list (string * string)) : list (string * string) :=
  sort_by (λ a b, String.leb a.1 b.1) m.

Definition bundle_intent (values : list envelope) (artifact_bytes : list (string * string)) : obj :=
  [("contract_id", JStr "imprint.ontology.binding/3.6.1");
   ("envelopes", JList (map (λ en, JObj (en_value en)) values));
   ("artifact_sha256",
     JObj (map (λ kv, (kv.1, JStr (sha256 kv.2))) (sorted_items artifact_bytes)))].

Definition bundle_demand (values : list envelope) (artifact_bytes : list (string * string))
    (generated : obj) : demand :=
  {| dm_command := "ontology.first_write_bundle"; dm_purpose := "store ontology first-write bundle";
     dm_transition := "ontology_first_write"; dm_intent := bundle_intent values artifact_bytes;
     dm_prior := []; dm_execution := generated; dm_subjects := map en_record values;
     dm_sources := sorted_strs (dedup_strs (flat_map en_evidence values)); dm_targets := [];
     dm_proposals := []; dm_results := map en_version values; dm_scope := ["ontology"; "3.6.1"];
     dm_paths := [] |}.

(** Approved where one of the tiers carries authority, else the fresh fields *)
Definition governed_execution (tiers : list json) (approval_token : option obj) (refused : string)
    (dm : demand) : txn obj :=
  signed ← lift (any_res (λ t, in_set t AUTHORITATIVE) tiers);
  if (signed : bool) then _consume_authority (expected_operator_id s) approval_token dm
  else
    guard match approval_token with Some _ => true | None => false end (ValidationError refused) ;;
    mret (dm_execution dm).

Definition write_artifact (artifact_bytes : list (string * string)) (en : envelope) : txn unit :=
  state ← lift (item "content_state" (en_payload en));
  if str_is state "purged" then mret tt
  else
    content ← lift match assoc (en_version en) artifact_bytes with
                   | Some c => Ok c | None => Err (KeyError (en_version en)) end;
    exec (insert_artifact {| ar_version := en_version en; ar_content := content;
                             ar_sha := sha256 content; ar_count := Z.of_nat (String.length content) |}).

(** One item of the bundle *)
Definition write_item (operator now : string) (event_ids : obj)
    (artifact_bytes : list (string * string)) (en : envelope) : txn unit :=
  event_id ← lift (text_item (en_version en) event_ids);
  write_envelope "ontology_first_write" operator None en event_id now ;;
  (match assoc (en_schema en) _BUSINESS_SCHEMA_PARTITIONS with
   | Some partition =>
       exec (insert_partition {| bp_version := en_version en; bp_partition := partition |})
   | None => mret tt
   end) ;;
  (if String.eqb (en_type en) "EvidenceArtifact" then write_artifact artifact_bytes en else mret tt) ;;
  (if is_assessment en then
     subject ← lift (item "subject_version_id" (en_payload en)); write_head true subject en
   else mret tt).

Definition taken_records (records : list string) (d : db) : bool :=
  existsb (λ n, mem (nd_id n) records) (nodes (the_graph d)).
Definition taken_versions (versions : list string) (d : db) : bool :=
  existsb (λ v, mem (vr_id v) versions) (node_versions (the_graph d)).

Definition check_item (values : list envelope) (artifact_bytes : list (string * string))
    (en : envelope) : txn unit :=
  system_at ← utc_now;
  _validate_v31_references en (pending_of values) artifact_bytes (Some system_at).

Definition append_ontology_bundle (envelopes : list json) (artifact_bytes : list (string * string))
    (approval_token : option obj) : txn (list string) :=
  values ← lift (map_res read_envelope envelopes);
  let code := "E_NODE_FIELD_CARDINALITY" in
  guard match values with [] => true | _ => false end (refusal code "" "bundle cannot be empty") ;;
  let versions := map en_version values in
  let records := map en_record values in
  guard (negb (distinct versions) || negb (distinct records))
    (refusal code "" "first-write IDs must be unique") ;;
  let operators := dedup_strs (map en_operator values) in
  guard (negb (Nat.eqb (length operators) 1))
    (refusal "E_NODE_REFERENCE_TYPE" "operator_id" "mixed-operator bundle forbidden") ;;
  let operator_id := hd "" operators in
  lift (_require_configured_operator s operator_id) ;;
  system_time ← utc_now;
  events ← fresh_events versions [];
  let generated := [("system_time", JStr system_time); ("event_ids", JObj events)] in
  connect (
    known ← query (taken_records records);
    guard known (ConflictError "first-write record already exists") ;;
    known ← query (taken_versions versions);
    guard known (ConflictError "first-write version already exists") ;;
    for_all (check_item values artifact_bytes) values ;;
    lift (distinct_heads [] values) ;;
    lift (for_each (assessed_check values) values) ;;
    execution ← governed_execution (map en_tier values) approval_token
      "approval token cannot authorize a non-authoritative ontology bundle"
      (bundle_demand values artifact_bytes generated);
    now ← lift (text_item "system_time" execution);
    event_ids ← lift (obj_item "event_ids" execution);
    for_all (write_item operator_id now event_ids artifact_bytes) values ;;
    mret versions).

Definition append_ontology_node (envelope : json) (artifact_bytes : option string)
    (approval_token : option obj) : txn string :=
  blobs ← lift match artifact_bytes with
               | None => Ok []
               | Some content =>
                   m ← match envelope with JObj m => Ok m | _ => Err AttributeError end;
                   let key := get_default "version_id" (JStr "") m in
                   raise_if (negb (hashable key)) TypeError ;;
                   Ok match key with JStr id => [(id, content)] | _ => [] end
               end;
  versions ← append_ontology_bundle [envelope] blobs approval_token;
  mret (hd "" versions).
End bundles.

(** ** Reads of business nodes *)

(** [semantic_business_node_versions bv JOIN semantic_node_versions sv USING(version_id)] *)
Definition find_semantic (id : string) (d : db) : option semantic_row :=
  List.find (λ r, String.eqb (sv_version r) id) (semantic_nodes (the_semantic d)).

Definition business_nodes (d : db) : list (partition_row * semantic_row) :=
  flat_map (λ b, match find_semantic (bp_version b) d with Some r => [(b, r)] | None => [] end)
    (partitions (the_semantic d)).

Definition business_item (x : partition_row * semantic_row) : res obj :=
  content ← load_json (sv_envelope x.2);
  Ok [("partition", JStr (bp_partition x.1)); ("envelope", content)].

Definition read_business_node (version_id : string) (d : db) : res obj :=
  match List.find (λ x, String.eqb (bp_version x.1) version_id) (business_nodes d) with
  | Some x => business_item x
  | None => Err (refusal "E_BUSINESS_REFERENCE_TYPE" "version_id" "business version not found")
  end.

Definition iter_business_nodes (d : db) : res (list obj) :=
  map_res business_item (order_by (λ x, (bp_partition x.1, bp_version x.1)) (business_nodes d)).
