(* ===== verification/Relations.v ===== *)
(** * Governed relations ([store/service.py])

    [append_business_relation] and [append_ontology_contradiction]: a typed
    relation between exact versions, with its own evidence, role, access
    policy, consent and sensitivity, and the reads of business relations. *)
From S2P Require Import Prelude PyTime Urn Contracts Codec Unicode Retrieval Json Names.
From S2P Require Import Clock Binding Business Tables Integrity Txn Approval Store Records.
From S2P Require Import Envelopes Bundles.

Definition RELATION_FIELDS :=
  ["relation_id"; "relation_version_id"; "predicate_id"; "predicate_version"; "source_version_id";
   "target_version_id"; "operator_id"; "actor_id"; "role_assignment_version_id"; "provenance";
   "evidence_version_ids"; "why"; "sensitivity"; "access_policy_version_id"; "consent_version_id";
   "valid_from"; "valid_to"; "qualifier_schema_id"; "qualifier"; "extensions"].

Definition GOVERNANCE := "E_RELATION_GOVERNANCE_REQUIRED".

(** The columns of a relation envelope *)
Record relation_envelope : Type := {
  re_value : obj; re_id : string; re_version : string; re_predicate : string;
  re_source : string; re_target : string; re_operator : string; re_actor : json;
  re_role : json; re_provenance : obj; re_origin : string; re_tier : json;
  re_evidence : list string; re_why : string; re_sensitivity : string; re_policy : json;
  re_consent : json; re_valid_from : string; re_valid_to : option string;
  re_schema : string; re_qualifier : json
}.

Definition read_relation (m provenance : obj) : res relation_envelope :=
  id ← text_item "relation_id" m;
  version ← text_item "relation_version_id" m;
  predicate ← text_item "predicate_id" m;
  source ← text_item "source_version_id" m;
  target ← text_item "target_version_id" m;
  operator ← text_item "operator_id" m;
  actor ← item "actor_id" m;
  role ← item "role_assignment_version_id" m;
  origin ← text_item "origin_status" provenance;
  tier ← item "authority_tier" provenance;
  evidence ← texts_item "evidence_version_ids" m;
  why ← text_item "why" m;
  sensitivity ← text_item "sensitivity" m;
  policy ← item "access_policy_version_id" m;
  consent ← item "consent_version_id" m;
  valid_from ← text_item "valid_from" m;
  valid_to ← item "valid_to" m;
  valid_to ← opt_text valid_to;
  schema ← text_item "qualifier_schema_id" m;
  qualifier ← item "qualifier" m;
  Ok {| re_value := m; re_id := id; re_version := version; re_predicate := predicate;
        re_source := source; re_target := target; re_operator := operator; re_actor := actor;
        re_role := role; re_provenance := provenance; re_origin := origin; re_tier := tier;
        re_evidence := evidence; re_why := why; re_sensitivity := sensitivity; re_policy := policy;
        re_consent := consent; re_valid_from := valid_from; re_valid_to := valid_to;
        re_schema := schema; re_qualifier := qualifier |}.

(** ** The shape of a business relation *)
Definition RELATION_REFERENCES :=
  ["relation_id"; "relation_version_id"; "source_version_id"; "target_version_id"; "operator_id";
   "actor_id"; "role_assignment_version_id"; "access_policy_version_id"].

Definition evidence_exact (evidence provenance_evidence : json) : res bool :=
  match evidence with
  | JList l =>
      or_else (Ok match l with [] => true | _ => false end)
        (or_else (has_duplicates l) (Ok (negb (py_eq evidence provenance_evidence))))
  | _ => Ok true
  end.

Definition expected_qualifier (predicate : string) : option string :=
  r ← assoc predicate BUSINESS_RELATION_SPECS; assoc (rr_kind r) BUSINESS_QUALIFIER_SCHEMA_IDS.

Definition validate_relation_envelope (envelope : json) : res relation_envelope :=
  value ← as_obj envelope (refusal GOVERNANCE "" "exact relation envelope required");
  closed_envelope RELATION_FIELDS value (λ name, refusal GOVERNANCE name "unknown field")
    (λ name, refusal GOVERNANCE name "required field") ;;
  let unknown := "E_BUSINESS_RELATION_UNKNOWN" in
  known ← in_set (get "predicate_id" value) (keys BUSINESS_RELATION_SPECS);
  raise_if (negb known) (refusal unknown "predicate_id" "unknown predicate") ;;
  raise_if (negb (py_eq (get "predicate_version" value) (JInt 1)))
    (refusal unknown "predicate_version" "expected 1") ;;
  for_each (λ k, raise_if (negb (has_colon (get k value)))
      (refusal "E_NODE_REFERENCE_VERSION_REQUIRED" k "exact URI required")) RELATION_REFERENCES ;;
  raise_if (negb (has_colon (get "consent_version_id" value)))
    (refusal "E_CONSENT_VERSION_REQUIRED" "consent_version_id" "exact relation-owned consent required") ;;
  raise_if (negb (namespaced (get "extensions" value)))
    (refusal GOVERNANCE "extensions" "namespaced extensions only") ;;
  sensitivity_bad ← not_in_set (get "sensitivity" value) _V31_SENSITIVITY;
  raise_if sensitivity_bad (refusal "E_RELATION_SENSITIVITY_FLOOR" "sensitivity" "invalid sensitivity") ;;
  valid_from ← _v31_time (get "valid_from" value) "valid_from" false;
  valid_to ← _v31_time (get "valid_to" value) "valid_to" true;
  interval_check valid_from valid_to ;;
  raise_if (negb match get "why" value with JStr s => negb (blank s) | _ => false end)
    (refusal GOVERNANCE "why" "rationale required") ;;
  provenance ← validate_provenance_v2_1 (get "provenance" value);
  inexact ← evidence_exact (get "evidence_version_ids" value) (get "evidence_version_ids" provenance);
  raise_if inexact
    (refusal GOVERNANCE "evidence_version_ids" "exact unique provenance evidence required") ;;
  predicate ← text_item "predicate_id" value;
  raise_if (negb match expected_qualifier predicate with
                 | Some schema => py_eq (get "qualifier_schema_id" value) (JStr schema)
                 | None => false
                 end)
    (refusal "E_RELATION_QUALIFIER_SCHEMA_UNKNOWN" "qualifier_schema_id" "predicate qualifier mismatch") ;;
  read_relation value provenance.

(** ** What a relation refers to *)
Definition OBSERVED_TYPES := ["BusinessEvent"; "CampaignPerformanceMeasurement"; "Outcome"].
Definition DECLARED_TYPES :=
  ["PerformanceDisposition"; "Market"; "Positioning"; "TermSet"; "Asset"; "Campaign"; "Segment";
   "Situation"; "RequiredBehavior"; "Offer"; "Claim"; "Promise"; "Mechanism"].

(** [partition] *)
Definition partition_of (version_id node_type : string) (d : db) : option string :=
  match List.find (λ b, String.eqb (bp_version b) version_id) (partitions (the_semantic d)) with
  | Some b => Some (bp_partition b)
  | None => if mem node_type OBSERVED_TYPES then Some "business_observed"
            else if mem node_type DECLARED_TYPES then Some "business_declared"
            else None
  end.

(** [qref] *)
Definition qref `{lite : sqlite} (r : relation_envelope) (d : db) (ref : json) (field : string) (allowed : list string)
    : res found_ref :=
  _require_v31_ref ref [] (re_operator r) field allowed None d.

Definition endpoints `{lite : sqlite} (r : relation_envelope) (d : db) : res (found_ref * found_ref) :=
  source ← _v31_ref_type (JStr (re_source r)) [] d;
  target ← _v31_ref_type (JStr (re_target r)) [] d;
  match source, target with
  | Some s, Some t =>
      raise_if (negb (String.eqb (fr_operator s) (re_operator r)) ||
                negb (String.eqb (fr_operator t) (re_operator r)))
        (refusal "E_BUSINESS_RELATION_ENDPOINT_TYPE" "target_version_id"
           "exact same-operator endpoints required") ;;
      Ok (s, t)
  | _, _ => Err (refusal "E_BUSINESS_RELATION_ENDPOINT_TYPE" "target_version_id"
                   "exact same-operator endpoints required")
  end.

Definition checked_endpoints `{lite : sqlite} (r : relation_envelope) (d : db) : res checked_relation :=
  '(source, target) ← endpoints r d;
  source_payload ← obj_of (fr_payload source);
  validate_business_relation (re_predicate r) (fr_type source) (fr_type target) (re_qualifier r)
    (Some source_payload) (Some (re_target r))
    (partition_of (re_source r) (fr_type source) d) (partition_of (re_target r) (fr_type target) d).

Definition unless_absent (field : string) (m : obj) (f : json → res unit) : res unit :=
  let v := get field m in if is_null v then Ok tt else f v.

Definition qualifier_references `{lite : sqlite} (r : relation_envelope) (m : obj) (d : db) : res unit :=
  for_each (λ field,
      refs ← iterate (get_default field (JList []) m);
      for_each (λ ref, qref r d ref field ["EvidenceArtifact"] ;; Ok tt) refs)
    ["evidence_version_ids"; "source_artifact_version_ids"] ;;
  for_each (λ id, qref r d (JStr id) "evidence_version_ids" ["EvidenceArtifact"] ;; Ok tt)
    (re_evidence r) ;;
  for_each (λ kv, unless_absent kv.1 m (λ v, qref r d v kv.1 [kv.2] ;; Ok tt))
    [("observer_actor_version_id", "Actor");
     ("baseline_version_id", "CampaignPerformanceMeasurement");
     ("comparator_version_id", "CampaignPerformanceMeasurement");
     ("mechanism_version_id", "Mechanism")] ;;
  unless_absent "confidence_assessment_version_id" m (λ v,
    assessment ← qref r d v "confidence_assessment_version_id" ["ConfidenceAssessment"];
    subject ← fr_get "subject_version_id" JNull assessment;
    raise_if (negb (py_eq subject (JStr (re_version r))))
      (refusal "E_RELATION_QUALIFIER_REFERENCE" "qualifier/confidence_assessment_version_id"
         "assessment targets another version")).

Definition relation_actor (r : relation_envelope) (d : db) : res unit :=
  actor ← text_of (re_actor r);
  raise_if (negb match find_node actor d with
                 | Some n => String.eqb (nd_type n) "Actor" && String.eqb (nd_operator n) (re_operator r)
                 | None => false
                 end)
    (refusal "E_RELATION_ROLE_DENIED" "actor_id" "same-operator Actor required").

Definition relation_governance `{lite : sqlite} (r : relation_envelope) (d : db) : res unit :=
  relation_actor r d ;;
  role_id ← text_of (re_role r);
  role ← qref r d (re_role r) "role_assignment_version_id" ["RoleAssignment"];
  denied ← or_else (not_judged role) (lacks "store" "allowed_operations" role);
  raise_if denied
    (refusal "E_RELATION_ROLE_DENIED" "role_assignment_version_id" "active store role required") ;;
  policy ← qref r d (re_policy r) "access_policy_version_id" ["AccessPolicy"];
  denied ← or_else (lacks "store" "operations" policy)
             (lacks role_id "principal_role_assignment_version_ids" policy);
  raise_if denied
    (refusal GOVERNANCE "access_policy_version_id" "relation-owned store policy required") ;;
  qref r d (re_consent r) "consent_version_id" ["ConsentGrant"] ;;
  Ok tt.

(** ** The sensitivity floor *)
Fixpoint rank_from (n : Z) (names : list string) (name : string) : option Z :=
  match names with
  | [] => None
  | x :: rest => if String.eqb x name then Some n else rank_from (n + 1) rest name
  end.
Definition sensitivity_rank (name : string) : res Z :=
  match rank_from 0 _V31_SENSITIVITY name with Some z => Ok z | None => Err (KeyError name) end.

(** The governed versions among the endpoints and the evidence *)
Definition governed_rows (r : relation_envelope) (d : db) : list semantic_row :=
  List.filter (λ v, mem (sv_version v) (re_source r :: re_target r :: re_evidence r))
    (semantic_nodes (the_semantic d)).

Definition sensitivity_floor (r : relation_envelope) (d : db) : res Z :=
  ranks ← map_res (λ v, sensitivity_rank (sv_sensitivity v)) (governed_rows r d);
  Ok (fold_right Z.max 0 ranks).

Definition floor_check (r : relation_envelope) (d : db) : res unit :=
  floor ← sensitivity_floor r d;
  rank ← sensitivity_rank (re_sensitivity r);
  raise_if (rank <? floor)
    (refusal "E_RELATION_SENSITIVITY_FLOOR" "sensitivity" "relation lowers governed sensitivity").

(** ** The authority a relation needs *)
Definition authority_check (minimum : string) (r : relation_envelope) : res unit :=
  let code := "E_RELATION_ROLE_DENIED" in
  raise_if (String.eqb minimum "R" && negb (py_eq (re_tier r) (JStr "ratified_knowledge")))
    (refusal code CEILING_POINTER "ratified authority required") ;;
  signed ← in_set (re_tier r) AUTHORITATIVE;
  raise_if (String.eqb minimum "J" && negb signed)
    (refusal code CEILING_POINTER "judgment authority required") ;;
  if (signed : bool) then Ok tt
  else
    ok ← under_ceiling (re_origin r) (re_tier r);
    raise_if (negb ok)
      (refusal "E_BUSINESS_AUTHORITY_CEILING" CEILING_POINTER "candidate/import ceiling exceeded").

(** ** Writing a relation *)
Definition version_node (id : string) (d : db) : res string :=
  match find_version id d with Some v => Ok (vr_owner v) | None => Err TypeError end.

(** The event, the edge, its version and the governed relation *)
Definition write_relation (event_type : string) (r : relation_envelope) (content payload qualifier : obj)
    (event_id now : string) : txn unit :=
  source_node ← read (version_node (re_source r));
  target_node ← read (version_node (re_target r));
  write_event event_id event_type (re_operator r) now (re_valid_from r) content None (re_origin r) ;;
  write_edge (re_id r) (re_predicate r) source_node target_node (re_operator r) event_id ;;
  insert_edge_version_row
    (version_values (re_version r) (re_id r) (sealed (JObj payload)) (re_origin r)
       (text_or_empty (re_tier r)) (re_provenance r) (dumps_strings (re_evidence r))
       (re_valid_from r) (re_valid_to r) now event_id None) ;;
  exec (insert_relation
    {| sr_version := re_version r; sr_relation := re_id r; sr_predicate := re_predicate r;
       sr_predicate_version := 1; sr_source := re_source r; sr_target := re_target r;
       sr_operator := re_operator r; sr_qualifier_schema := re_schema r;
       sr_qualifier := canonical_bytes (JObj qualifier); sr_envelope := canonical_bytes (JObj content);
       sr_sha := payload_sha256 (JObj content); sr_valid_from := re_valid_from r;
       sr_valid_to := re_valid_to r; sr_system_from := now; sr_system_to := None;
       sr_contested := None |}).

Definition relation_exists (id : string) (d : db) : bool := has_relation (the_semantic d) id.

Section relations.
Context `{signing : crypto} `{env : environment} `{lite : sqlite} (s : store).

Definition check_relation (r : relation_envelope) (d : db) : res checked_relation :=
  checked ← checked_endpoints r d;
  qualifier_references r (cr_qualifier checked) d ;;
  relation_governance r d ;;
  floor_check r d ;;
  authority_check (cr_authority_minimum checked) r ;;
  Ok checked.

Definition relation_demand (r : relation_envelope) (policy : string) (intent generated : obj) : demand :=
  {| dm_command := "ontology.business_relation.first_write";
     dm_purpose := "store typed business relation"; dm_transition := "business_relation_first_write";
     dm_intent := intent; dm_prior := []; dm_execution := generated;
     dm_subjects := [re_source r]; dm_sources := re_evidence r; dm_targets := [re_target r];
     dm_proposals := []; dm_results := [re_version r];
     dm_scope := ["business_relation"; re_predicate r; policy]; dm_paths := [] |}.

Definition append_business_relation (envelope : json) (approval_token : option obj) : txn string :=
  r ← lift (validate_relation_envelope envelope);
  lift (_require_configured_operator s (re_operator r)) ;;
  new_event ← fresh "event";
  system_time ← utc_now;
  let generated := [("event_id", JStr new_event); ("system_time", JStr system_time)] in
  connect (
    known ← query (relation_exists (re_version r));
    guard known (ConflictError "relation version already exists") ;;
    checked ← read (check_relation r);
    let intent := set_item "qualifier" (JObj (cr_qualifier checked))
                    (set_item "provenance" (JObj (re_provenance r)) (re_value r)) in
    execution ← governed_execution s [re_tier r] approval_token
      "approval token cannot authorize a candidate/import business relation"
      (relation_demand r (cr_policy checked) intent generated);
    event_id ← lift (text_item "event_id" execution);
    now ← lift (text_item "system_time" execution);
    write_relation "business_relation_first_write" r (with_system now intent)
      [("qualifier_schema_id", JStr (re_schema r)); ("qualifier", JObj (cr_qualifier checked));
       ("why", JStr (re_why r)); ("policy", JStr (cr_policy checked));
       ("authority_minimum", JStr (cr_authority_minimum checked))]
      (cr_qualifier checked) event_id now ;;
    exec (insert_policy {| bg_version := re_version r; bg_policy := cr_policy checked;
                           bg_minimum := cr_authority_minimum checked |}) ;;
    mret (re_version r)).
End relations.

(** ** Reads of business relations *)
Definition business_relations (d : db) : list (policy_row * relation_row) :=
  flat_map (λ b, match find_relation (bg_version b) d with Some r => [(b, r)] | None => [] end)
    (policies (the_semantic d)).

Definition relation_item (x : policy_row * relation_row) : res obj :=
  content ← load_json (sr_envelope x.2);
  Ok [("policy", JStr (bg_policy x.1)); ("authority_minimum", JStr (bg_minimum x.1));
      ("envelope", content)].

Definition read_business_relation (relation_version_id : string) (d : db) : res obj :=
  match List.find (λ x, String.eqb (bg_version x.1) relation_version_id) (business_relations d) with
  | Some x => relation_item x
  | None => Err (refusal "E_BUSINESS_REFERENCE_TYPE" "relation_version_id" "relation not found")
  end.

Definition iter_business_relations (d : db) : res (list obj) :=
  map_res relation_item (order_by (λ x, (bg_version x.1, "")) (business_relations d)).

(** ** Contradictions *)
Definition QUALIFIER_FIELDS :=
  ["resolution_state"; "scope_ids"; "detected_by"; "resolution_event_version_id"].
Definition RESOLUTIONS := ["open"; "accepted_new"; "retained_old"; "scoped_both"; "retracted"].
Definition CONTRADICTED :=
  ["Belief"; "Claim"; "Intervention"; "Mechanism"; "Offer"; "Principle"; "Promise"; "Rule";
   "SelfModelAssertion"; "Verdict"].

Definition contradiction_qualifier (value : json) : res obj :=
  m ← as_obj value (refusal "E_RELATION_QUALIFIER_TYPE" "qualifier" "object required");
  raise_if (negb (subset (keys m) QUALIFIER_FIELDS))
    (refusal "E_RELATION_QUALIFIER_UNKNOWN" "qualifier" "closed qualifier") ;;
  raise_if (negb (subset QUALIFIER_FIELDS (keys m)))
    (refusal "E_RELATION_QUALIFIER_CARDINALITY" "qualifier" "required field missing") ;;
  state ← item "resolution_state" m;
  bad ← not_in_set state RESOLUTIONS;
  raise_if bad (refusal "E_RELATION_QUALIFIER_VALUE" "qualifier/resolution_state" "invalid state") ;;
  let bad_scopes := refusal "E_RELATION_QUALIFIER_CARDINALITY" "qualifier/scope_ids"
                      "non-empty unique array required" in
  scopes ← item "scope_ids" m;
  l ← as_list scopes bad_scopes;
  raise_if match l with [] => true | _ => false end bad_scopes ;;
  dup ← has_duplicates l;
  raise_if dup bad_scopes ;;
  event ← item "resolution_event_version_id" m;
  raise_if (negb (Bool.eqb (str_is state "open") (is_null event)))
    (refusal "E_RELATION_QUALIFIER_CONDITIONAL" "qualifier/resolution_event_version_id"
       "required iff resolved") ;;
  Ok m.

Definition contradiction_assessment (confidence_assessment : option json) (value : obj) : res envelope :=
  match confidence_assessment with
  | None => Err (refusal "E_NODE_CONDITIONAL_RULE" "confidence" "contradiction requires an atomic assessment")
  | Some c =>
      a ← read_envelope c;
      raise_if (negb (is_assessment a) ||
                negb (py_eq (get "subject_version_id" (en_payload a)) (get "relation_version_id" value)) ||
                negb (py_eq (JStr (en_operator a)) (get "operator_id" value)))
        (refusal "E_NODE_REFERENCE_TYPE" "confidence" "assessment must target this relation version") ;;
      Ok a
  end.

(** A validated contradiction: the assessment comes with it. *)
Record contradiction : Type := {
  cn_value : obj; cn_operator : string; cn_qualifier : obj; cn_provenance : obj;
  cn_assessment : envelope
}.

Definition validate_contradiction (envelope : json) (confidence_assessment : option json)
    : res contradiction :=
  let exact := refusal GOVERNANCE "" "exact relation envelope required" in
  value ← as_obj envelope exact;
  raise_if (negb (set_eq (keys value) RELATION_FIELDS)) exact ;;
  raise_if (negb (str_is (get "predicate_id" value) "contradicts" &&
                  py_eq (get "predicate_version" value) (JInt 1)))
    (refusal "E_RELATION_PREDICATE_UNKNOWN" "predicate_id" "only contradicts@1 accepted here") ;;
  let schema := get "qualifier_schema_id" value in
  validate_relation_identity "contradicts" (text_or_empty schema) ;;
  raise_if (negb (str_is schema "q.contradiction@1"))
    (refusal "E_RELATION_QUALIFIER_SCHEMA_UNKNOWN" "qualifier_schema_id" "q.contradiction@1 required") ;;
  qualifier ← contradiction_qualifier (get "qualifier" value);
  provenance ← validate_provenance_v2_1 (get "provenance" value);
  assessment ← contradiction_assessment confidence_assessment value;
  let evidence := get "evidence_version_ids" value in
  raise_if (negb (py_eq evidence (get "evidence_version_ids" provenance)) || negb (truthy evidence))
    (refusal GOVERNANCE "evidence_version_ids" "exact provenance evidence required") ;;
  raise_if (negb match get "why" value with JStr s => negb (blank s) | _ => false end)
    (refusal GOVERNANCE "why" "rationale required") ;;
  sensitivity_bad ← not_in_set (get "sensitivity" value) _V31_SENSITIVITY;
  raise_if sensitivity_bad (refusal "E_RELATION_SENSITIVITY_FLOOR" "sensitivity" "invalid sensitivity") ;;
  _v31_time (get "valid_from" value) "valid_from" false ;;
  _v31_time (get "valid_to" value) "valid_to" true ;;
  Ok {| cn_value := value; cn_operator := en_operator assessment; cn_qualifier := qualifier;
        cn_provenance := provenance; cn_assessment := assessment |}.

Section contradictions.
Context `{signing : crypto} `{env : environment} `{lite : sqlite} (s : store).

Definition contradicted (c : contradiction) (field : string) (d : db) : res found_ref :=
  found ← _v31_ref_type (get field (cn_value c)) [] d;
  let bad := refusal "E_RELATION_ENDPOINT_TYPE" field "exact same-operator version required" in
  match found with
  | Some f => raise_if (negb (String.eqb (fr_operator f) (cn_operator c))) bad ;; Ok f
  | None => Err bad
  end.

(** The signature of [contradicts@1] *)
Definition may_contradict (source target : string) : bool :=
  (String.eqb source target && mem source ["Verdict"; "Claim"]) ||
  (String.eqb source "Outcome" && mem target CONTRADICTED).

Definition contradiction_checks (c : contradiction) (d : db) : res unit :=
  source ← contradicted c "source_version_id" d;
  target ← contradicted c "target_version_id" d;
  raise_if (negb (may_contradict (fr_type source) (fr_type target)))
    (refusal "E_RELATION_ENDPOINT_TYPE" "target_version_id" "invalid contradicts signature") ;;
  let require ref field allowed at_ := _require_v31_ref ref [] (cn_operator c) field allowed at_ d in
  evidence ← iterate (get "evidence_version_ids" (cn_value c));
  for_each (λ id, require id "evidence_version_ids" ["EvidenceArtifact"] None ;; Ok tt) evidence ;;
  at_ ← text_item "valid_from" (cn_value c);
  role ← require (get "role_assignment_version_id" (cn_value c)) "role_assignment_version_id"
           ["RoleAssignment"] (Some at_);
  denied ← or_else (not_judged role) (lacks "store" "allowed_operations" role);
  raise_if denied
    (refusal "E_RELATION_ROLE_DENIED" "role_assignment_version_id" "active store role required") ;;
  policy ← require (get "access_policy_version_id" (cn_value c)) "access_policy_version_id"
             ["AccessPolicy"] (Some at_);
  denied ← lacks "store" "operations" policy;
  raise_if denied (refusal GOVERNANCE "access_policy_version_id" "store policy required").

Definition contradiction_demand (c : contradiction) (r : relation_envelope) (generated : obj) : demand :=
  {| dm_command := "ontology.contradiction"; dm_purpose := "store contradiction relation";
     dm_transition := "contradiction_created";
     dm_intent := cn_value c ++ [("confidence_assessment", JObj (en_value (cn_assessment c)))];
     dm_prior := []; dm_execution := generated; dm_subjects := [re_source r];
     dm_sources := re_evidence r; dm_targets := [re_target r]; dm_proposals := [];
     dm_results := [re_version r];
     dm_scope := match get "scope_ids" (cn_qualifier c) with
                 | JList l => map text_or_empty l | _ => [] end;
     dm_paths := [] |}.

(** The assessment is checked after the relation it assesses is written.
    [relation_id] and [relation_version_id], which the code does not check,
    are taken to be text. *)
Definition append_ontology_contradiction (envelope : json) (confidence_assessment : option json)
    (approval_token : option obj) : txn string :=
  c ← lift (validate_contradiction envelope confidence_assessment);
  let assessment := cn_assessment c in
  lift (_require_configured_operator s (cn_operator c)) ;;
  new_event ← fresh "event";
  new_assessment_event ← fresh "event";
  system_time ← utc_now;
  let generated := [("event_id", JStr new_event); ("assessment_event_id", JStr new_assessment_event);
                    ("system_time", JStr system_time)] in
  connect (
    version ← lift (text_item "relation_version_id" (cn_value c));
    known ← query (relation_exists version);
    guard known (ConflictError "relation version already exists") ;;
    read (contradiction_checks c) ;;
    r ← lift (read_relation (cn_value c) (cn_provenance c));
    execution ← governed_execution s [re_tier r; en_tier assessment] approval_token
      "approval token cannot authorize a non-authoritative contradiction"
      (contradiction_demand c r generated);
    event_id ← lift (text_item "event_id" execution);
    assessment_event_id ← lift (text_item "assessment_event_id" execution);
    now ← lift (text_item "system_time" execution);
    write_relation "ontology_contradiction" r
      (with_system now (set_item "provenance" (JObj (cn_provenance c)) (cn_value c)))
      [("qualifier_schema_id", JStr (re_schema r)); ("qualifier", JObj (cn_qualifier c));
       ("why", JStr (re_why r))]
      (cn_qualifier c) event_id now ;;
    _validate_v31_references assessment [(en_version assessment, en_value assessment)] [] None ;;
    write_envelope "ontology_contradiction_confidence" (cn_operator c) (Some event_id) assessment
      assessment_event_id now ;;
    write_head false (JStr version) assessment ;;
    mret version).
End contradictions.
