(* ===== verification/Bitemporal.v ===== *)
(** * Correction, contest and the bitemporal read ([store/service.py])

    A correction closes the current version of a record and writes two
    successors that split its valid interval at the effective time; a contest
    writes two successors over the whole interval, in one contested set.
    [ontology_as_of] reads one coordinate of valid and system time. *)
From S2P Require Import Prelude PyTime Urn Contracts Codec Unicode Retrieval Json Names.
From S2P Require Import Clock Binding Business Tables Integrity Txn Approval Store Records.
From S2P Require Import Envelopes Bundles.

(** ** Versions of a governed record *)
Record held : Type := { h_node : node_row; h_version : version_row; h_semantic : semantic_row }.

(** [semantic_node_versions sv JOIN node_versions nv USING(version_id) JOIN nodes n
    ON n.node_id=nv.node_id WHERE sv.record_id=? AND sv.scope_id=?] *)
Definition held_versions (record_id scope_id : string) (d : db) : list held :=
  flat_map (λ r,
      if String.eqb (sv_record r) record_id && String.eqb (sv_scope r) scope_id then
        match find_versioned (sv_version r) d with
        | Some (n, v) => [{| h_node := n; h_version := v; h_semantic := r |}]
        | None => []
        end
      else [])
    (semantic_nodes (the_semantic d)).

Definition valid_at_ (at_ : string) (h : held) : bool :=
  covers (vr_valid_from (h_version h)) (vr_valid_to (h_version h)) at_.

Definition current_held (record_id scope_id : string) (d : db) : list held :=
  List.filter (λ h, is_open (h_version h)) (held_versions record_id scope_id d).

(** The one uncontested row, or nothing *)
Definition sole (rows : list held) : option held :=
  match rows with
  | [h] => match sv_contested (h_semantic h) with None => Some h | Some _ => None end
  | _ => None
  end.

(** ** [ontology_as_of] *)
Definition system_at_ (at_ : string) (h : held) : bool :=
  covers (vr_system_from (h_version h)) (vr_system_to (h_version h)) at_.

Definition as_of_rows (record_id scope_id valid_at system_at : string) (d : db) : list held :=
  order_by (λ h, (vr_id (h_version h), ""))
    (List.filter (λ h, valid_at_ valid_at h && system_at_ system_at h)
       (held_versions record_id scope_id d)).

Definition as_of_item (h : held) : res obj :=
  let v := h_version h in
  payload ← load_json (vr_payload v);
  Ok ([("version_id", JStr (vr_id v)); ("node_id", JStr (vr_owner v))] ++ version_columns v ++
      [("provenance_json", JStr (vr_provenance v)); ("evidence_json", JStr (vr_evidence v));
       ("prior_version_id", opt_json (vr_prior v));
       ("payload_schema_id", JStr (sv_schema (h_semantic h)));
       ("scope_id", JStr (sv_scope (h_semantic h)));
       ("contested_set_id", opt_json (sv_contested (h_semantic h))); ("payload", payload)]).

(** Several rows belong together when they are of one contested set. *)
Definition one_contest (rows : list held) : bool :=
  match rows with
  | [] => false
  | h :: rest =>
      match sv_contested (h_semantic h) with
      | None => false
      | Some c => forallb (λ x, match sv_contested (h_semantic x) with
                                | Some c' => String.eqb c' c | None => false end) rest
      end
  end.

Definition several {A} (l : list A) : bool := match l with _ :: _ :: _ => true | _ => false end.

Definition ontology_as_of (record_id scope_id valid_at system_at : string) (d : db) : res obj :=
  _v31_time (JStr valid_at) "valid_at" false ;;
  _v31_time (JStr system_at) "system_at" false ;;
  let rows := as_of_rows record_id scope_id valid_at system_at d in
  let answer state := [("record_id", JStr record_id); ("scope_id", JStr scope_id); ("state", JStr state)] in
  match rows with
  | [] => Ok (answer "absent" ++ [("versions", JList [])])
  | h :: _ =>
      raise_if (several rows && negb (one_contest rows))
        (refusal "E_TEMPORAL_INTERVAL_OVERLAP" "" "unauthorized operative overlap") ;;
      versions ← map_res as_of_item rows;
      Ok (answer (if several rows then "contested" else "resolved") ++
          [("winner", if several rows then JNull else JStr (vr_id (h_version h)));
           ("versions", JList (map JObj versions))])
  end.

(** ** Rows of a successor *)
Definition successor_row (h : held) (id : string) (payload : json) (evidence : list string)
    (valid_from : string) (valid_to : option string) (now event : string) : version_row :=
  let v := h_version h in
  {| vr_id := id; vr_owner := sv_record (h_semantic h); vr_payload := canonical_bytes payload;
     vr_sha := payload_sha256 payload; vr_status := vr_status v; vr_tier := vr_tier v;
     vr_provenance := vr_provenance v; vr_evidence := dumps_strings evidence;
     vr_valid_from := valid_from; vr_valid_to := valid_to; vr_system_from := now;
     vr_system_to := None; vr_event := event; vr_prior := Some (vr_id v) |}.

Definition successor_envelope (h : held) (id : string) (payload provenance : json)
    (actor role valid_from : string) (valid_to : option string) (now : string)
    (contested : option string) : obj :=
  let r := h_semantic h in
  [("record_id", JStr (sv_record r)); ("version_id", JStr id);
   ("payload_schema_id", JStr (sv_schema r)); ("record_schema_version", JStr (sv_record_schema r));
   ("ontology_schema_version", JStr (sv_ontology_schema r));
   ("operator_id", JStr (nd_operator (h_node h))); ("payload", payload);
   ("provenance", provenance); ("sensitivity", JStr (sv_sensitivity r));
   ("access_policy_version_id", JStr (sv_policy r)); ("consent_version_id", opt_json (sv_consent r));
   ("actor_id", JStr actor); ("role_assignment_version_id", JStr role);
   ("valid_from", JStr valid_from); ("valid_to", opt_json valid_to);
   ("scope_id", JStr (sv_scope r)); ("extensions", JObj []); ("system_from", JStr now);
   ("system_to", JNull)] ++
  match contested with Some c => [("contested_set_id", JStr c)] | None => [] end.

Definition successor_semantic (h : held) (id actor role : string) (contested : option string)
    (content : obj) : semantic_row :=
  let r := h_semantic h in
  {| sv_version := id; sv_record := sv_record r; sv_schema := sv_schema r;
     sv_record_schema := sv_record_schema r; sv_ontology_schema := sv_ontology_schema r;
     sv_provenance := sv_provenance r; sv_sensitivity := sv_sensitivity r; sv_policy := sv_policy r;
     sv_consent := sv_consent r; sv_actor := actor; sv_role := role; sv_scope := sv_scope r;
     sv_contested := contested; sv_envelope := canonical_bytes (JObj content);
     sv_sha := payload_sha256 (JObj content) |}.

(** ** Checks both operations share *)
Section bitemporal.
Context `{signing : crypto} `{env : environment} `{lite : sqlite} (s : store).

Definition ONE_CURRENT := "one uncontested current version required".

Definition change_actor (actor_id operator : string) (d : db) : res unit :=
  raise_if (negb match find_node actor_id d with
                 | Some n => String.eqb (nd_type n) "Actor" && String.eqb (nd_operator n) operator
                 | None => false
                 end)
    (refusal "E_RELATION_ROLE_DENIED" "actor_id" "same-operator Actor required").

(** [strict]: the role must also be active, judged and allowed to store. *)
Definition change_role (strict : bool) (role_id operator : string) (d : db) : res unit :=
  role ← _v31_ref_type (JStr role_id) [] d;
  denied ← match role with
           | None => Ok true
           | Some f =>
               or_else (Ok (negb (String.eqb (fr_type f) "RoleAssignment") ||
                            negb (String.eqb (fr_operator f) operator)))
                 (if strict then or_else (not_judged f) (lacks "store" "allowed_operations" f)
                  else Ok false)
           end;
  raise_if denied (refusal "E_RELATION_ROLE_DENIED" "role_assignment_version_id" "active role required").

Definition change_evidence (evidence : list string) (operator : string) (d : db) : res unit :=
  for_each (λ id, _require_v31_ref (JStr id) [] operator "evidence_version_ids"
                    ["EvidenceArtifact"] None d ;; Ok tt) evidence.

(** What the successors are made of *)
Record change : Type := {
  cg_replacement : obj; cg_prior : json; cg_provenance : json; cg_must_assess : bool
}.

Definition read_change (h : held) (payload : json) : res change :=
  replacement ← validate_core_payload (sv_schema (h_semantic h)) payload;
  prior ← load_json (vr_payload (h_version h));
  provenance ← load_json (sv_provenance (h_semantic h));
  let type := nd_type (h_node h) in
  must ← or_else (Ok (String.eqb type "ExpectedOutcome"))
           (fields ← obj_of provenance; origin ← item "origin_status" fields;
            and_then (in_set origin ["inferred"; "extracted"])
              (Ok (negb (mem type _CONFIDENCE_FORBIDDEN))));
  Ok {| cg_replacement := replacement; cg_prior := prior; cg_provenance := provenance;
        cg_must_assess := must |}.

Definition prior_state (h : held) : obj :=
  [("version_id", JStr (vr_id (h_version h))); ("payload_sha256", JStr (vr_sha (h_version h)))].

Definition write_change_event (event_type : string) (h : held) (valid_time : string) (intent : obj)
    (event_id now : string) : txn unit :=
  write_event event_id event_type (nd_operator (h_node h)) now valid_time intent
    (Some (vr_event (h_version h))) (vr_status (h_version h)).

(** The items of an assessment that comes with a change *)
Definition write_assessment (replace : bool) (event_type operator : string) (parent : string)
    (pending : candidates) (assessment : envelope) (event_id now : string) : txn unit :=
  _validate_v31_references assessment
    (set_item (en_version assessment) (en_value assessment) pending) [] None ;;
  write_envelope event_type operator (Some parent) assessment event_id now ;;
  subject ← lift (item "subject_version_id" (en_payload assessment));
  write_head replace subject assessment.

(** ** [correct_ontology_version] *)
Definition correction_assessment (h : held) (cg : change) (record_id corrected_version_id : string)
    (confidence_assessment : option json) : res (option envelope) :=
  assessment ← match confidence_assessment with
               | Some c => a ← read_envelope c; Ok (Some a)
               | None => Ok None
               end;
  raise_if (cg_must_assess cg && match assessment with None => true | Some _ => false end)
    (refusal "E_NODE_CONDITIONAL_RULE" "confidence" "corrected version requires a new atomic assessment") ;;
  match assessment with
  | None => Ok None
  | Some a =>
      let code := "E_NODE_REFERENCE_TYPE" in
      raise_if (negb (is_assessment a)) (refusal code "confidence" "ConfidenceAssessment required") ;;
      raise_if (negb (py_eq (get "subject_version_id" (en_payload a)) (JStr corrected_version_id)))
        (refusal code "confidence/subject_version_id" "must target corrected exact version") ;;
      raise_if (negb (String.eqb (en_operator a) (nd_operator (h_node h))) ||
                String.eqb (en_record a) record_id)
        (refusal code "confidence" "distinct same-operator assessment required") ;;
      Ok (Some a)
  end.

Definition opt_value (a : option envelope) : json :=
  match a with Some a => JObj (en_value a) | None => JNull end.

(** [{**assessment, "record_id": record_id, ...}]: the corrected version *)
Definition pending_subject (h : held) (cg : change) (a : envelope)
    (record_id corrected_version_id effective_from : string) : obj :=
  set_item "valid_to" (opt_json (vr_valid_to (h_version h)))
    (set_item "valid_from" (JStr effective_from)
       (set_item "payload" (JObj (cg_replacement cg))
          (set_item "payload_schema_id" (JStr (sv_schema (h_semantic h)))
             (set_item "version_id" (JStr corrected_version_id)
                (set_item "record_id" (JStr record_id) (en_value a)))))).

Definition split_check (h : held) (effective_from : string) : res unit :=
  raise_if (negb (text_lt (vr_valid_from (h_version h)) effective_from) ||
            match vr_valid_to (h_version h) with
            | Some t => String.leb t effective_from
            | None => false
            end)
    (refusal "E_TEMPORAL_INTERVAL_OVERLAP" "effective_from" "correction must split current interval").

(** One successor: its version row first, its envelope in a second pass *)
Definition put_successor_envelope (h : held) (provenance : json) (actor_id role_id now : string)
    (contested : option string) (x : string * json * string * option string) : txn unit :=
  let '(id, payload, valid_from, valid_to) := x in
  put_semantic (successor_semantic h id actor_id role_id contested
    (successor_envelope h id payload provenance actor_id role_id valid_from valid_to now contested)).

Definition put_successor (h : held) (evidence : list string) (now event_id : string)
    (x : string * json * string * option string) : txn unit :=
  let '(id, payload, valid_from, valid_to) := x in
  insert_node_version (successor_row h id payload evidence valid_from valid_to now event_id).

Definition correct_ontology_version (record_id scope_id effective_from : string)
    (corrected_payload : json)
    (correction_event_id carry_forward_version_id corrected_version_id : string)
    (evidence_version_ids : list string) (actor_id role_assignment_version_id : string)
    (confidence_assessment : option json) (approval_token : option obj) : txn (string * string) :=
  lift (_v31_time (JStr effective_from) "effective_from" false) ;;
  let evidence := dedup_strs evidence_version_ids in
  guard match evidence with [] => true | _ => false end
    (refusal "E_CUSTODY_CHAIN_INCOMPLETE" "evidence_version_ids" "evidence required") ;;
  guard (String.eqb carry_forward_version_id corrected_version_id)
    (refusal "E_NODE_FIELD_CARDINALITY" "version_id" "successor versions must differ") ;;
  new_event ← fresh "event";
  new_assessment ← match confidence_assessment with
                   | Some _ => id ← fresh "event"; mret (JStr id)
                   | None => mret JNull
                   end;
  system_time ← utc_now;
  let generated := [("event_id", JStr new_event); ("assessment_event_id", new_assessment);
                    ("system_time", JStr system_time)] in
  connect (
    rows ← query (λ d, List.filter (valid_at_ effective_from) (current_held record_id scope_id d));
    match sole rows with
    | None => raise (refusal "E_TEMPORAL_INTERVAL_OVERLAP" "effective_from" ONE_CURRENT)
    | Some h =>
        let operator := nd_operator (h_node h) in
        lift (split_check h effective_from) ;;
        lift (_require_configured_operator s operator) ;;
        read (change_actor actor_id operator) ;;
        read (change_role false role_assignment_version_id operator) ;;
        read (change_evidence evidence operator) ;;
        cg ← lift (read_change h corrected_payload);
        assessment ← lift (correction_assessment h cg record_id corrected_version_id confidence_assessment);
        let intent :=
          [("record_id", JStr record_id); ("scope_id", JStr scope_id);
           ("effective_from", JStr effective_from);
           ("prior_version_id", JStr (vr_id (h_version h)));
           ("correction_event_id", JStr correction_event_id);
           ("carry_forward_version_id", JStr carry_forward_version_id);
           ("corrected_version_id", JStr corrected_version_id);
           ("corrected_payload", JObj (cg_replacement cg));
           ("evidence_version_ids", texts_json evidence); ("actor_id", JStr actor_id);
           ("role_assignment_version_id", JStr role_assignment_version_id);
           ("confidence_assessment", opt_value assessment)] in
        execution ← _consume_authority (expected_operator_id s) approval_token
          (Build_demand "ontology.correct_version" "apply bitemporal semantic correction"
             "semantic_correction" intent (prior_state h) generated [record_id] evidence [] []
             [carry_forward_version_id; corrected_version_id] [scope_id] []);
        event_id ← lift (text_item "event_id" execution);
        now ← lift (text_item "system_time" execution);
        write_change_event "ontology_correction" h effective_from intent event_id now ;;
        close_node_version (vr_id (h_version h)) now false ;;
        let successors :=
          [(carry_forward_version_id, cg_prior cg, vr_valid_from (h_version h), Some effective_from);
           (corrected_version_id, JObj (cg_replacement cg), effective_from,
            vr_valid_to (h_version h))] in
        for_all (put_successor h evidence now event_id) successors ;;
        for_all (put_successor_envelope h (cg_provenance cg) actor_id role_assignment_version_id now
                   None) successors ;;
        exec (insert_correction
          {| cx_id := correction_event_id; cx_record := record_id; cx_scope := scope_id;
             cx_prior := vr_id (h_version h); cx_carry := carry_forward_version_id;
             cx_corrected := corrected_version_id; cx_from := effective_from;
             cx_evidence := dumps_strings evidence;
             cx_diff := canonical_bytes (JObj
               [("before_sha256", JStr (vr_sha (h_version h)));
                ("after_sha256", JStr (payload_sha256 (JObj (cg_replacement cg))))]);
             cx_event := event_id |}) ;;
        (match assessment with
         | Some a =>
             assessment_event_id ← lift (text_item "assessment_event_id" execution);
             write_assessment true "ontology_confidence_renewal" operator event_id
               [(corrected_version_id, pending_subject h cg a record_id corrected_version_id effective_from)]
               a assessment_event_id now
         | None => mret tt
         end) ;;
        mret (carry_forward_version_id, corrected_version_id)
    end).

(** ** [contest_ontology_version] *)
Fixpoint fresh_list (n : nat) : txn (list string) :=
  match n with
  | O => mret []
  | S n => id ← fresh "event"; rest ← fresh_list n; mret (id :: rest)
  end.

(** The subjects of the assessments, each once *)
Definition assessment_subjects (operator : string) (assessments : list envelope) : res (list json) :=
  for_each (λ a, raise_if (negb (is_assessment a) || negb (String.eqb (en_operator a) operator))
                   (refusal "E_NODE_REFERENCE_TYPE" "confidence_assessments"
                      "same-operator assessment required") ;;
                 raise_if (negb (hashable (get "subject_version_id" (en_payload a)))) TypeError)
    assessments ;;
  Ok (dedup_json (map (λ a, get "subject_version_id" (en_payload a)) assessments)).

Definition is_subject (subjects : list json) (id : string) : bool :=
  existsb (scalar_eq (JStr id)) subjects.

Definition contest_assessed (preserved competing : string) (subjects : list json) : bool :=
  is_subject subjects preserved && is_subject subjects competing &&
  forallb (λ v, scalar_eq (JStr preserved) v || scalar_eq (JStr competing) v) subjects.

Definition contest_successor (h : held) (cg : change) (evidence : list string)
    (actor_id role_id contested_set_id now event_id : string) (x : string * json) : txn unit :=
  let row := (x.1, x.2, vr_valid_from (h_version h), vr_valid_to (h_version h)) in
  put_successor h evidence now event_id row ;;
  put_successor_envelope h (cg_provenance cg) actor_id role_id now (Some contested_set_id) row.

(** What the assessments of a contest may refer to *)
Definition pending_successor (h : held) (cg : change) (record_id : string) (payload : json) : obj :=
  [("record_id", JStr record_id); ("payload_schema_id", JStr (sv_schema (h_semantic h)));
   ("operator_id", JStr (nd_operator (h_node h))); ("payload", payload);
   ("valid_from", JStr (vr_valid_from (h_version h)));
   ("valid_to", opt_json (vr_valid_to (h_version h))); ("provenance", cg_provenance cg)].

Fixpoint write_assessments (operator parent : string) (pending : candidates) (now : string)
    (assessments : list envelope) (event_ids : list json) : txn unit :=
  match assessments, event_ids with
  | [], [] => mret tt
  | a :: rest, id :: ids =>
      event_id ← lift (text_of id);
      write_assessment false "ontology_contest_confidence" operator parent pending a event_id now ;;
      write_assessments operator parent pending now rest ids
  | _, _ => raise (ValueError "zip() arguments have different lengths")
  end.

Definition contest_ontology_version (record_id scope_id contested_set_id contest_event_id
    preserved_version_id competing_version_id : string) (competing_payload : json)
    (evidence_version_ids : list string) (actor_id role_assignment_version_id : string)
    (confidence_assessments : list json) (approval_token : option obj) : txn (string * string) :=
  guard (negb (forallb (contains ":") [record_id; scope_id; contested_set_id; contest_event_id;
                                      preserved_version_id; competing_version_id]))
    (refusal "E_NODE_REFERENCE_VERSION_REQUIRED" "" "exact contest IDs required") ;;
  guard (String.eqb preserved_version_id competing_version_id)
    (refusal "E_NODE_FIELD_CARDINALITY" "version_id" "competing versions must differ") ;;
  let evidence := dedup_strs evidence_version_ids in
  guard match evidence with [] => true | _ => false end
    (refusal "E_CUSTODY_CHAIN_INCOMPLETE" "evidence_version_ids" "evidence required") ;;
  assessments ← lift (map_res read_envelope confidence_assessments);
  new_event ← fresh "event";
  system_time ← utc_now;
  new_events ← fresh_list (length assessments);
  let generated := [("event_id", JStr new_event); ("system_time", JStr system_time);
                    ("assessment_event_ids", texts_json new_events)] in
  connect (
    rows ← query (current_held record_id scope_id);
    match sole rows with
    | None => raise (refusal "E_TEMPORAL_INTERVAL_OVERLAP" "" ONE_CURRENT)
    | Some h =>
        let operator := nd_operator (h_node h) in
        lift (_require_configured_operator s operator) ;;
        read (change_actor actor_id operator) ;;
        read (change_role true role_assignment_version_id operator) ;;
        read (change_evidence evidence operator) ;;
        cg ← lift (read_change h competing_payload);
        subjects ← lift (assessment_subjects operator assessments);
        guard (cg_must_assess cg && negb (contest_assessed preserved_version_id competing_version_id subjects))
          (refusal "E_NODE_CONDITIONAL_RULE" "confidence_assessments"
             "each contested successor requires assessment") ;;
        let intent :=
          [("record_id", JStr record_id); ("scope_id", JStr scope_id);
           ("contested_set_id", JStr contested_set_id); ("contest_event_id", JStr contest_event_id);
           ("prior_version_id", JStr (vr_id (h_version h)));
           ("preserved_version_id", JStr preserved_version_id);
           ("competing_version_id", JStr competing_version_id);
           ("competing_payload", JObj (cg_replacement cg));
           ("evidence_version_ids", texts_json evidence); ("actor_id", JStr actor_id);
           ("role_assignment_version_id", JStr role_assignment_version_id);
           ("confidence_assessments", JList (map (λ a, JObj (en_value a)) assessments))] in
        execution ← _consume_authority (expected_operator_id s) approval_token
          (Build_demand "ontology.contest_version" "append contested semantic versions"
             "semantic_contested" intent (prior_state h) generated [record_id] evidence [] []
             [preserved_version_id; competing_version_id] [scope_id] []);
        event_id ← lift (text_item "event_id" execution);
        now ← lift (text_item "system_time" execution);
        assessment_event_ids ← lift (list_item "assessment_event_ids" execution);
        write_change_event "ontology_contested" h (vr_valid_from (h_version h)) intent event_id now ;;
        close_node_version (vr_id (h_version h)) now false ;;
        for_all (contest_successor h cg evidence actor_id role_assignment_version_id contested_set_id
                   now event_id)
          [(preserved_version_id, cg_prior cg); (competing_version_id, JObj (cg_replacement cg))] ;;
        exec (insert_contest
          {| ct_id := contest_event_id; ct_set := contested_set_id; ct_record := record_id;
             ct_scope := scope_id; ct_prior := vr_id (h_version h);
             ct_preserved := preserved_version_id; ct_competing := competing_version_id;
             ct_evidence := dumps_strings evidence; ct_event := event_id |}) ;;
        write_assessments operator event_id
          [(preserved_version_id, pending_successor h cg record_id (cg_prior cg));
           (competing_version_id, pending_successor h cg record_id (JObj (cg_replacement cg)))]
          now assessments assessment_event_ids ;;
        mret (preserved_version_id, competing_version_id)
    end).
End bitemporal.
