(* ===== verification/Safety.v ===== *)
(** * Every write keeps the store well formed

    The triples of the operations of [Records], [Semantic] and [Review], and
    their consequence for the committed database: whatever an operation does
    (commit, refuse, fail half-way, or stop for an approval), the rows it
    leaves are well formed and only append to the rows before it. *)
From S2P Require Import Prelude PyTime Urn Contracts Codec Unicode Retrieval Json Names.
From S2P Require Import Clock Judgment Operator World Ontology Capture References Derive Tables.
From S2P Require Import Integrity Txn Approval Store Records Semantic Review.

(** ** Operations as a whole *)
Section safe.
Context `{signing : crypto}.

Definition safe {A} (m : txn A) : Prop := ∀ c, db_ok (saved c) →
  db_ok (saved (m c).2) ∧ extends (saved c) (saved (m c).2).

Lemma safe_ret {A} (a : A) : safe (mret a).
Proof. by intros c Hc. Qed.

Lemma safe_bind {A B} (m : txn A) (f : A → txn B) : safe m → (∀ a, safe (f a)) → safe (m ≫= f).
Proof.
  intros Hm Hf c Hc. destruct (Hm c Hc) as [H1 H2]. unfold mbind, txn_bind.
  destruct (m c) as [[a|e] c']; simpl in *; [|done]. destruct (Hf a c' H1) as [H3 H4].
  split; [done|by etransitivity].
Qed.

Lemma safe_lift {A} (m : res A) : safe (lift m).
Proof. by intros c Hc. Qed.

Lemma safe_guard b e : safe (guard b e).
Proof. by intros c Hc. Qed.

Lemma safe_guard_bind {B} b e (f : unit → txn B) : (b = false → safe (f tt)) → safe (guard b e ≫= f).
Proof.
  intros H c Hc. unfold guard, mbind, txn_bind, lift. destruct b; simpl; [done|by apply H].
Qed.

Lemma safe_raise {A} e : safe (raise (A := A) e).
Proof. by intros c Hc. Qed.

Lemma safe_fresh `{env : environment} kind : safe (fresh kind).
Proof. by intros c Hc. Qed.

Lemma safe_utc_now `{env : environment} : safe utc_now.
Proof. by intros c Hc. Qed.

Lemma safe_connect {A} (body : txn A) :
  (∀ d0, hoare d0 always body (λ _, always)) → safe (connect body).
Proof.
  intros H c Hc. unfold connect.
  destruct (H (saved c) (rollback c)) as [[[H1 H2] [H3 H4]] _]; [done|done|].
  by destruct (body (rollback c)) as [[a|e] c'].
Qed.
End safe.

Create HintDb safe.
#[export] Hint Resolve safe_ret safe_lift safe_guard safe_raise safe_fresh safe_utc_now : safe.

Ltac safe_steps :=
  repeat first
    [ progress cbv zeta
    | apply safe_connect; intros ?
    | apply safe_guard_bind; intros ?
    | apply safe_bind; [solve [eauto with safe]|intros ?]
    | solve [eauto with safe] ].

(** ** Assertions of an approved write *)
Section assertions.
Context `{signing : crypto} `{env : environment} (d0 : db).

Lemma sanctions_durable x : durable (sanctions x).
Proof. intros d e Hx H event He. by apply (authorized_durable event d), H. Qed.

Lemma sanctions_steady x : steady (sanctions x).
Proof. apply durable_steady, sanctions_durable. Qed.

Lemma hoare_read {A B} (P : db → Prop) (f : db → res A) (k : A → txn B) Q :
  (∀ a, hoare d0 P (k a) Q) → hoare d0 P (read f ≫= k) Q.
Proof.
  intros Hk c Hc HP. unfold read, mbind, txn_bind, query, lift.
  destruct (f (live c)) as [a|e]; [by apply Hk|by split].
Qed.

Lemma hoare_consume {B} (P : db → Prop) operator token dm (k : obj → txn B) Q :
  steady P → (∀ x, hoare d0 (λ d, P d ∧ sanctions x d) (k x) Q) →
  hoare d0 P (_consume_authority operator token dm ≫= k) Q.
Proof. intros HP Hk. eapply hoare_bind; [by apply consume_authority_spec|done]. Qed.

Lemma current_ok v d : db_ok d → current v d → version_ok v.
Proof.
  intros Hd [Hv _]. pose proof (go_node_version_ok _ (do_graph _ Hd)) as H.
  rewrite List.Forall_forall in H. by apply H.
Qed.

Lemma find_endpoint_current id d n v :
  find_endpoint id d = Some (n, v) → current v d ∧ vr_owner v = id.
Proof.
  unfold find_endpoint. destruct (find_node id d) as [m|]; [|discriminate].
  destruct (find_current id d) as [w|] eqn:E; [|discriminate]. intros H. injection H as <- <-.
  by apply find_current_spec.
Qed.

(** Reading a current head: the row is remembered. *)
Lemma hoare_endpoint {B} (P : db → Prop) id (k : option (node_row * version_row) → txn B) Q :
  hoare d0 P (k None) Q →
  (∀ n v, vr_owner v = id → version_ok v → hoare d0 (λ d, P d ∧ current v d) (k (Some (n, v))) Q) →
  hoare d0 P (query (find_endpoint id) ≫= k) Q.
Proof.
  intros Hn Hs. apply (hoare_query _ _ _ (λ o d, P d ∧
    match o with Some (n, v) => (current v d ∧ vr_owner v = id) ∧ version_ok v | None => True end)).
  - intros d Hd HP. split; [done|]. destruct (find_endpoint id d) as [[n v]|] eqn:E; [|done].
    apply find_endpoint_current in E as [E1 E2]. split; [done|]. by apply (current_ok v d).
  - intros [[n v]|].
    + intros c Hc (HP & (Hcur & Ho) & Hv). by apply (Hs n v).
    + eapply hoare_pre; [|exact Hn]. intros d _ [HP _]. exact HP.
Qed.

Lemma hoare_head {B} (P : db → Prop) id (k : option (node_row * version_row * event_row) → txn B) Q :
  hoare d0 P (k None) Q →
  (∀ n v e, vr_owner v = id → version_ok v → hoare d0 (λ d, P d ∧ current v d) (k (Some (n, v, e))) Q) →
  hoare d0 P (query (head_of id) ≫= k) Q.
Proof.
  intros Hn Hs. apply (hoare_query _ _ _ (λ o d, P d ∧
    match o with Some (n, v, e) => (current v d ∧ vr_owner v = id) ∧ version_ok v | None => True end)).
  - intros d Hd HP. split; [done|]. unfold head_of.
    destruct (find_endpoint id d) as [[n v]|] eqn:E; [|done]. simpl.
    apply find_endpoint_current in E as [E1 E2]. destruct (find_event (nd_event n) d); [|done].
    split; [done|]. by apply (current_ok v d).
  - intros [[[n v] e]|].
    + intros c Hc (HP & (Hcur & Ho) & Hv). by apply (Hs n v e).
    + eapply hoare_pre; [|exact Hn]. intros d _ [HP _]. exact HP.
Qed.

Lemma named_field k x event :
  In k EVENT_FIELDS → In event (text_values (get k x)) → In event (named_events x).
Proof. intros Hk He. unfold named_events. apply in_flat_map. by exists k. Qed.

Lemma text_item_named k x event :
  In k EVENT_FIELDS → text_item k x = Ok event → In event (named_events x).
Proof.
  intros Hk H. apply (named_field k); [done|]. apply text_item_Ok in H. unfold get. rewrite H. by left.
Qed.

Lemma text_item_sanctions x event d :
  text_item "event_id" x = Ok event → sanctions x d → is_authorized event d.
Proof. intros H Hs. apply Hs, (text_item_named "event_id"); [by left|done]. Qed.

(** What makes a version writable: an approval of its event, an approval asked
    for its tier, or a candidate's tier. *)
Lemma sanctions_writable x w d :
  text_item "event_id" x = Ok (vr_event w) → sanctions x d → writable w d.
Proof. intros Hx Hs _. by apply (text_item_sanctions x). Qed.

Definition sanctioned_for (tier : string) (x : obj) (d : db) : Prop :=
  authoritative tier = true → sanctions x d.

Lemma sanctioned_for_writable tier x w d :
  tier = vr_tier w → text_item "event_id" x = Ok (vr_event w) → sanctioned_for tier x d → writable w d.
Proof. intros -> Hx Hs Ht. by apply (text_item_sanctions x), Hs. Qed.

Lemma not_authoritative_writable w d : authoritative (vr_tier w) = false → writable w d.
Proof. unfold writable. by intros ->. Qed.

Lemma sanctioned_for_durable tier x : durable (sanctioned_for tier x).
Proof. apply durable_imp, sanctions_durable. Qed.

(** Replacing the current version of a node *)
Lemma close_held_spec (P : db → Prop) x v now valid_too :
  durable P →
  hoare d0 (λ d, (P d ∧ current v d) ∧ sanctions x d) (close_node_version (vr_id v) now valid_too)
    (λ _ d, (P d ∧ sanctions x d) ∧ free_owner (vr_owner v) d).
Proof.
  intros HP. eapply hoare_pre; [|apply close_current_spec].
  - intros d _ [[Hd Hc] Hs]. split; [split; [exact Hd|exact Hs]|exact Hc].
  - apply durable_and; [done|apply sanctions_durable].
Qed.

(** The same steps in front of a continuation *)
Lemma hoare_first {B} (P : db → Prop) w o (k : unit → txn B) Q :
  steady P → vr_sha w = sha256 (vr_payload w) → vr_owner w = o → (∀ d, P d → writable w d) →
  (∀ u, hoare d0 P (k u) Q) →
  hoare d0 (λ d, P d ∧ free_owner o d) (insert_node_version w ≫= k) Q.
Proof.
  intros HP Hw <- Hwr Hk. eapply hoare_bind; [|exact Hk].
  eapply hoare_pre; [|by apply insert_node_version_spec]. intros d _ [Hd Hf]. auto.
Qed.

Lemma hoare_close_held {B} (P : db → Prop) x v now valid_too (k : unit → txn B) Q :
  durable P → (∀ u, hoare d0 (λ d, (P d ∧ sanctions x d) ∧ free_owner (vr_owner v) d) (k u) Q) →
  hoare d0 (λ d, (P d ∧ current v d) ∧ sanctions x d) (close_node_version (vr_id v) now valid_too ≫= k) Q.
Proof. intros HP Hk. eapply hoare_bind; [by apply close_held_spec|done]. Qed.

Lemma hoare_edge_row (P : db → Prop) w :
  steady P → vr_sha w = sha256 (vr_payload w) → (∀ d, P d → writable w d) →
  hoare d0 P (insert_edge_version_row w) (λ _, P).
Proof.
  intros HP Hw Hwr. eapply hoare_pre; [|by apply insert_edge_version_spec].
  intros d _ Hd. split; [done|by apply Hwr].
Qed.

Lemma hoare_edge_version {B} (P : db → Prop) w (k : unit → txn B) Q :
  steady P → vr_sha w = sha256 (vr_payload w) → (∀ d, P d → writable w d) →
  (∀ u, hoare d0 P (k u) Q) → hoare d0 P (insert_edge_version_row w ≫= k) Q.
Proof. intros HP Hw Hwr Hk. eapply hoare_bind; [by apply hoare_edge_row|exact Hk]. Qed.

Lemma hoare_close_last {B} (P : db → Prop) v now valid_too (k : unit → txn B) Q :
  (∀ d, P d → current v d) → (∀ u, hoare d0 always (k u) Q) →
  hoare d0 P (close_node_version (vr_id v) now valid_too ≫= k) Q.
Proof.
  intros HP Hk. eapply (hoare_bind _ _ _ (λ _, always)); [|exact Hk].
  eapply hoare_conseq; [|by apply (close_current_spec d0 always v)|done]. intros d _ Hd. split; [done|auto].
Qed.

Lemma close_edges_spec (P R : db → Prop) (p : db → version_row → bool) now :
  durable P →
  (∀ d v, db_ok d → R d → In v (edge_versions (the_graph d)) → p d v = true → is_open v = true) →
  hoare d0 (λ d, P d ∧ R d) (exec (λ d, on_graph_update (close_edges (p d) now) d)) (λ _, P).
Proof.
  intros HP Hp. apply hoare_exec. intros d e Hd [HPd HR] H. injection H as <-.
  assert (step d (with_graph (close_edges (p d) now (the_graph d)) d)) as Hs.
  { apply close_edges_step. intros v Hv. by apply (Hp d). }
  split; [done|]. by apply (HP d); [apply Hs|].
Qed.

Lemma close_touching_spec P node (except : option string) now :
  hoare d0 P (exec (λ d, on_graph_update (close_edges (touches (the_graph d) node except) now) d))
    (λ _, always).
Proof.
  eapply hoare_pre; [|apply (close_edges_spec always always (λ d, touches (the_graph d) node except)); [done|]].
  - by intros.
  - unfold touches. intros d v _ _ _ H. by bool_hyps.
Qed.

Lemma hoare_true {A} (P : db → Prop) (m : txn A) Q :
  hoare d0 P m Q → hoare d0 P m (λ _, always).
Proof. intros H. by eapply hoare_post. Qed.
End assertions.

#[export] Hint Resolve sanctions_durable sanctions_steady sanctioned_for_durable : steady.

(** The version written is candidate, or its event approved. *)
Ltac writable_tac :=
  intros;
  first
    [ by apply not_authoritative_writable
    | eapply sanctions_writable; eassumption
    | destruct_and?; eapply sanctions_writable; eassumption
    | destruct_and?; eapply sanctioned_for_writable; [|eassumption|eassumption]; reflexivity ].

(** Digests: a sealed payload, or one a lemma of the operation speaks of. *)
Create HintDb digest.
Ltac digest_tac := first [reflexivity | solve [simpl; eauto with digest]].

(** One step of a write, the assertion carried along *)
Ltac write_step :=
  lazymatch goal with
  | |- hoare _ _ (mbind _ (read _)) _ => apply hoare_read; intros ?
  | |- hoare _ _ (mbind _ (_consume_authority _ _ _)) _ =>
      apply hoare_consume; [solve [eauto with steady]|intros ?; cbv beta]
  | |- hoare _ _ (mbind _ (consume _ _ _)) _ => unfold consume
  | |- hoare _ _ (mbind _ (query (find_endpoint _))) _ =>
      apply hoare_endpoint; [|intros ? ? ? ?]; cbv beta
  | |- hoare _ _ (mbind _ (query (head_of _))) _ =>
      apply hoare_head; [|intros ? ? ? ? ?]; cbv beta
  | |- hoare _ _ (mbind _ (write_node _ _ _ _)) _ =>
      eapply hoare_bind; [apply write_node_spec; solve [eauto with steady]|intros ?; cbv beta]
  | |- hoare _ _ (mbind _ (close_node_version _ _ _)) _ =>
      apply hoare_close_held; [solve [eauto with steady]|intros ?; cbv beta]
  | |- hoare _ _ (mbind _ (insert_node_version _)) _ =>
      apply hoare_first; [solve [eauto with steady]|digest_tac|reflexivity|writable_tac|intros ?; cbv beta]
  | |- hoare _ _ (mbind _ (insert_edge_version_row _)) _ =>
      apply hoare_edge_version; [solve [eauto with steady]|digest_tac|writable_tac|intros ?; cbv beta]
  | |- hoare ?d ?P (mbind _ (if ?b then _ else _)) _ =>
      eapply (hoare_bind d P _ (λ _, P)); [destruct b; solve [repeat write_step]|intros ?; cbv beta]
  | |- hoare _ _ (guard _ _) _ => unfold guard
  | |- hoare _ _ (insert_edge_version_row _) _ =>
      apply hoare_edge_row; [solve [eauto with steady]|digest_tac|writable_tac]
  | |- _ => hoare_step
  end.

Section operations.
Context `{signing : crypto} `{env : environment} (s : store).

Lemma add_domain_safe id label description evidence operator actor valid token :
  safe (add_domain s id label description evidence operator actor valid token).
Proof.
  unfold add_domain. safe_steps. repeat write_step.
Qed.

Lemma derived_tier_candidate status tier :
  negb (mem tier (derived_tiers status)) = false → authoritative tier = false.
Proof.
  intros H. apply negb_false_iff in H. unfold derived_tiers in H.
  destruct (String.eqb status "inferred"); apply mem_In in H; by repeat destruct H as [<-|H].
Qed.

Lemma append_derived_node_safe type payload status tier evidence operator valid by_ model recipe :
  safe (append_derived_node s type payload status tier evidence operator valid by_ model recipe).
Proof.
  unfold append_derived_node. safe_steps.
  assert (authoritative tier = false) as Ht by by eapply derived_tier_candidate.
  repeat write_step.
Qed.

(** *** Domains: the loop over the affected heads *)
Definition heads_current (rows : list (node_row * version_row)) (d : db) : Prop :=
  Forall (λ r, current r.2 d) rows.

Definition version_ids (rows : list (node_row * version_row)) : list string :=
  map (λ r, vr_id r.2) rows.

Lemma heads_current_steady rows : steady (heads_current rows).
Proof.
  intros d e Hx H. unfold heads_current in *. eapply Forall_impl; [exact H|]. intros r Hr.
  by apply (current_steady r.2 d).
Qed.

Lemma joined_In d r : In r (joined d) → In r.2 (node_versions (the_graph d)) ∧ nd_id r.1 = vr_owner r.2.
Proof.
  unfold joined. intros H. apply in_flat_map in H as (v & Hv & H).
  destruct (find_node (vr_owner v) d) as [n|] eqn:E; [|done]. destruct H as [<-|[]]. split; [done|].
  apply find_some in E as [_ E]. by apply String.eqb_eq in E.
Qed.

Lemma joined_ids d : db_ok d → List.NoDup (version_ids (joined d)).
Proof.
  intros Hd. pose proof (go_node_versions _ (do_graph _ Hd)) as H. unfold version_ids, joined.
  induction (node_versions (the_graph d)) as [|v l IH]; simpl; [constructor|].
  inversion_clear H as [|? ? Hv Hl]. specialize (IH Hl).
  destruct (find_node (vr_owner v) d) as [n|]; [|done]. simpl. constructor; [|done].
  intros Hin. apply Hv. apply in_map_iff in Hin as ((m & w) & E & Hw). simpl in E. rewrite <- E.
  apply in_flat_map in Hw as (u & Hu & Hw). destruct (find_node (vr_owner u) d); [|done].
  destruct Hw as [Hw|[]]. injection Hw as _ ->. by apply in_map.
Qed.

Lemma NoDup_map_filter {A} (f : A → string) p l :
  List.NoDup (map f l) → List.NoDup (map f (List.filter p l)).
Proof.
  induction l as [|x l IH]; simpl; intros H; [constructor|]. inversion_clear H as [|? ? Hx Hl].
  destruct (p x); simpl; [constructor|]; auto. intros Hin. apply Hx.
  apply in_map_iff in Hin as (y & <- & Hy). apply filter_In in Hy as [Hy _]. by apply in_map.
Qed.

Record heads (rows : list (node_row * version_row)) : Prop := {
  hd_distinct : List.NoDup (version_ids rows);
  hd_owners : Forall (λ r, nd_id r.1 = vr_owner r.2) rows
}.

Lemma domain_rows_ok d : db_ok d → heads_current (domain_rows d) d ∧ heads (domain_rows d).
Proof.
  intros Hd.
  assert (∀ r, In r (domain_rows d) → In r (joined d) ∧ is_open r.2 = true) as Hin.
  { intros r Hr. unfold domain_rows, order_by in Hr. rewrite sort_by_In in Hr.
    apply filter_In in Hr as [Hr Hp]. bool_hyps. by split. }
  split; [|split].
  - apply List.Forall_forall. intros r Hr. apply Hin in Hr as [Hr Ho].
    apply joined_In in Hr as [Hr _]. by split.
  - unfold version_ids, domain_rows, order_by. eapply Permutation_NoDup.
    + symmetry. apply Permutation_map, sort_by_perm.
    + by apply NoDup_map_filter, joined_ids.
  - apply List.Forall_forall. intros r Hr. apply Hin in Hr as [Hr _]. by apply joined_In in Hr as [_ Hr].
Qed.

Lemma find_domain_In id rows r payload :
  find_domain id rows = Ok (Some (r, payload)) → In r rows.
Proof.
  induction rows as [|x rows IH]; simpl; [discriminate|]. intros H.
  apply bind_Ok in H as (m & _ & H). destruct (py_eq _ _); [|right; by apply IH].
  injection H as <- _. by left.
Qed.

(** Closing one head leaves the others current. *)
Lemma close_head_spec d0 (P : db → Prop) (r : node_row * version_row) rest now b :
  durable P → ~ In (vr_id r.2) (version_ids rest) →
  hoare d0 (λ d, (P d ∧ heads_current rest d) ∧ current r.2 d) (close_node_version (vr_id r.2) now b)
    (λ _ d, (P d ∧ heads_current rest d) ∧ free_owner (vr_owner r.2) d).
Proof.
  intros HP Hr c Hc [[HPd Hrest] Hcur].
  destruct (close_current_spec d0 P r.2 now b HP c Hc (conj HPd Hcur)) as [Hg [HP' Hf]].
  split; [done|]. simpl in *. split; [split|]; [done| |done].
  apply List.Forall_forall. intros x Hx. unfold heads_current in Hrest. rewrite List.Forall_forall in Hrest.
  destruct (Hrest x Hx) as [Hin Ho]. split; [|done]. simpl. unfold update_where. apply in_map_iff.
  exists x.2. split; [|done]. destruct (String.eqb_spec (vr_id x.2) (vr_id r.2)) as [E|]; [|done].
  exfalso. apply Hr. rewrite <- E. unfold version_ids. by apply (in_map (λ y, vr_id y.2)) in Hx.
Qed.

Lemma advance_domain_spec d0 x action selected actor event now versions (r : node_row * version_row) rest :
  text_item "event_id" x = Ok event → nd_id r.1 = vr_owner r.2 → ~ In (vr_id r.2) (version_ids rest) →
  hoare d0 (λ d, (sanctions x d ∧ heads_current rest d) ∧ current r.2 d)
    (advance_domain action selected actor event now versions r)
    (λ _ d, sanctions x d ∧ heads_current rest d).
Proof.
  intros Hx Ho Hr. unfold advance_domain. apply hoare_lift. intros p _.
  destruct (changed p); [|apply hoare_ret; by intros d [? _]].
  eapply hoare_bind; [apply close_head_spec; eauto with steady|]. intros u. cbv beta.
  do 2 (apply hoare_lift; intros ? _). eapply hoare_pre; [|apply insert_node_version_spec; [|reflexivity]].
  - intros d _ [Hd Hf]. split; [split|]; [exact Hd| |by simpl; rewrite Ho].
    intros _. by apply (text_item_sanctions x), Hd.
  - apply steady_and; [apply sanctions_steady|apply heads_current_steady].
Qed.

Lemma advance_all_spec d0 x action selected actor event now versions rows :
  text_item "event_id" x = Ok event → heads rows →
  hoare d0 (λ d, sanctions x d ∧ heads_current rows d)
    (for_all (advance_domain action selected actor event now versions) rows) (λ _, always).
Proof.
  intros Hx. induction rows as [|r rest IH]; intros [Hd Ho]; simpl; [by apply hoare_ret|].
  inversion_clear Hd as [|? ? Hr Hrest]. apply Forall_cons in Ho as [Ho Hos].
  eapply hoare_bind; [|intros u; apply IH; by split].
  eapply hoare_pre; [|by apply (advance_domain_spec d0 x)].
  intros d _ [Hs Hh]. apply Forall_cons in Hh as [H1 H2]. by split.
Qed.

Lemma fresh_versions_spec d0 (P : db → Prop) ids acc : hoare d0 P (fresh_versions ids acc) (λ _, P).
Proof.
  revert acc. induction ids as [|i ids IH]; intros acc; simpl; [by apply hoare_ret|].
  eapply hoare_bind; [apply hoare_fresh|]. intros u. apply IH.
Qed.
Hint Resolve fresh_versions_spec heads_current_steady : hoare steady.

Lemma heads_affected action rows selected :
  heads rows → In selected rows →
  let affected := if String.eqb action "select" then rows else [selected] in
  heads affected ∧ ∀ d, heads_current rows d → heads_current affected d.
Proof.
  intros [Hd Ho] Hin. simpl. destruct (String.eqb action "select"); [by split|].
  rewrite List.Forall_forall in Ho. split; [split|].
  - repeat constructor. by intros [].
  - repeat constructor. by apply Ho.
  - intros d H. unfold heads_current in *. rewrite List.Forall_forall in H. repeat constructor; by apply H.
Qed.

Lemma change_domain_state_safe id actor action token :
  safe (_change_domain_state s id actor action token).
Proof.
  unfold _change_domain_state. safe_steps.
  apply (hoare_query _ _ _ (λ rows d, heads_current rows d ∧ heads rows)).
  { intros d Hd _. by apply domain_rows_ok. }
  intros rows. apply hoare_pure. intros Hrows. apply hoare_lift. intros [[selected payload]|] Hfound;
    [|apply hoare_raise].
  apply find_domain_In in Hfound. destruct (heads_affected action rows selected Hrows Hfound) as [Ha Hc].
  repeat write_step. eapply hoare_bind; [|intros u; by apply hoare_ret].
  eapply hoare_pre; [|by apply advance_all_spec].
  intros d _ [Hh Hs]. split; [exact Hs|by apply Hc].
Qed.

Lemma add_transition_safe relation source target reason evidence actor token :
  safe (add_transition s relation source target reason evidence actor token).
Proof.
  unfold add_transition. safe_steps. repeat write_step.
  eapply (hoare_bind _ _ _ (λ _, always)); [|intros u'; by apply hoare_ret].
  destruct (String.eqb relation "supersedes"); [|by apply hoare_ret].
  apply hoare_close_last; [by intros d [[_ ?] _]|]. intros u'. apply close_touching_spec.
Qed.
End operations.

Section semantic_operations.
Context `{signing : crypto} `{env : environment} `{ucd : unicode_data} (s : store).

Lemma execution_for_spec d0 (P : db → Prop) tier token refused dm :
  steady P →
  hoare d0 P (execution_for s tier token refused dm) (λ x d, P d ∧ sanctioned_for tier x d).
Proof.
  intros HP. unfold execution_for, sanctioned_for. destruct (authoritative tier).
  - eapply hoare_post; [by apply consume_authority_spec|]. intros x d [Hd Hs]. by split.
  - apply hoare_guard. intros _. apply hoare_ret. intros d Hd. by split.
Qed.

Lemma require_consent_spec d0 (P : db → Prop) c valid : hoare d0 P (require_consent c valid) (λ _, P).
Proof.
  unfold require_consent. destruct (is_null _); [by apply hoare_ret|].
  apply hoare_lift. intros id _. apply hoare_query_keep. intros [[n v]|]; [|apply hoare_raise].
  do 2 (apply hoare_guard; intros _). apply hoare_lift. intros class _.
  eapply hoare_bind; [apply hoare_utc_now|]. intros t. cbv beta.
  apply hoare_read. intros ?. by apply hoare_ret.
Qed.
Hint Resolve execution_for_spec require_consent_spec : hoare.

Lemma append_semantic_node_safe contract valid token :
  safe (append_semantic_node s contract valid token).
Proof.
  unfold append_semantic_node. safe_steps. repeat write_step.
Qed.

Lemma append_semantic_relation_safe contract valid token :
  safe (append_semantic_relation s contract valid token).
Proof. unfold append_semantic_relation. safe_steps. repeat write_step. Qed.

Lemma revoke_consent_safe grant operator reason at_ token :
  safe (revoke_consent s grant operator reason at_ token).
Proof. unfold revoke_consent. safe_steps. repeat write_step. Qed.

Lemma proposal_tier_candidate tier :
  negb (mem tier proposal_tiers) = false → authoritative tier = false.
Proof. intros H. apply negb_false_iff, mem_In in H. by repeat destruct H as [<-|H]. Qed.

Lemma append_proposal_safe proposal : safe (append_proposal s proposal).
Proof.
  unfold append_proposal. safe_steps.
  match goal with H : negb (mem _ proposal_tiers) = false |- _ => apply proposal_tier_candidate in H end.
  repeat write_step.
Qed.

Lemma authorize_proposal_successor_safe proposal contract operator valid reason token :
  safe (authorize_proposal_successor s proposal contract operator valid reason token).
Proof. unfold authorize_proposal_successor. safe_steps. repeat write_step. Qed.
End semantic_operations.

Section review_operations.
Context `{signing : crypto} `{env : environment} `{ucd : unicode_data} (s : store).

Lemma ratified_payload_digest type ratifier v p :
  version_ok v → ratified_payload type ratifier v = Ok p → p.2 = sha256 p.1.
Proof.
  intros [Hv _ _]. unfold ratified_payload. destruct (mem type TYPED); intros H; inv_ok; [done|].
  exact Hv.
Qed.
Hint Resolve ratified_payload_digest : digest.

Lemma ratify_node_safe id ratifier note token : safe (ratify_node s id ratifier note token).
Proof. unfold ratify_node. safe_steps. repeat write_step. Qed.

Lemma correct_typed_node_safe id contract corrector reason token :
  safe (correct_typed_node s id contract corrector reason token).
Proof. unfold correct_typed_node. safe_steps. repeat write_step. Qed.

(** A last statement that closes the version *)
Lemma contest_typed_node_safe id contestor reason token :
  safe (contest_typed_node s id contestor reason token).
Proof. unfold contest_typed_node. safe_steps. repeat write_step. Qed.

Lemma semantic_actor_spec d0 (P : db → Prop) ce actor label refused operator :
  hoare d0 P (semantic_actor s ce actor label refused operator) (λ _, P).
Proof. unfold semantic_actor. destruct (starts_semantic ce); repeat write_step. Qed.
Hint Resolve semantic_actor_spec : hoare.

Lemma reject_node_safe id rejector reason token : safe (reject_node s id rejector reason token).
Proof. unfold reject_node. safe_steps. repeat write_step. Qed.

Lemma write_deferral_spec d0 x type event now v :
  text_item "event_id" x = Ok event →
  hoare d0 (λ d, (always d ∧ current v d) ∧ sanctions x d) (write_deferral type event now x v)
    (λ _, always).
Proof.
  intros Hx. unfold write_deferral. repeat write_step.
  eapply hoare_conseq; [|by apply (insert_node_version_spec d0 always)|done].
  intros d _ [[_ Hs] Hf]. split; [split|]; [done|by eapply sanctions_writable|done].
Qed.

Lemma defer_node_safe id reviewer reason at_ token : safe (defer_node s id reviewer reason at_ token).
Proof.
  unfold defer_node. safe_steps. repeat write_step.
  eapply (hoare_bind _ _ _ (λ _, always)); [|intros u; by apply hoare_ret].
  destruct (mem _ TYPED); [by apply write_deferral_spec|by apply hoare_ret].
Qed.

Lemma edge_for_event_spec d0 (P : db → Prop) x type source target operator event now evidence edge version :
  steady P → text_item "event_id" x = Ok event →
  hoare d0 (λ d, P d ∧ sanctions x d)
    (_insert_edge_for_event type source target operator event now evidence edge version)
    (λ _ d, P d ∧ sanctions x d).
Proof.
  intros HP Hx. unfold _insert_edge_for_event. hoare_step.
  eapply hoare_pre; [|apply insert_edge_version_spec; [auto with steady|reflexivity]].
  intros d _ Hd. split; [exact Hd|]. by eapply sanctions_writable, Hd.
Qed.

Lemma verdict_evidence_safe id content actor locator type update token :
  safe (_append_verdict_evidence s id content actor locator type update token).
Proof.
  unfold _append_verdict_evidence. safe_steps. repeat write_step.
  eapply hoare_bind; [by apply edge_for_event_spec; eauto with steady|]. intros ?. cbv beta.
  repeat write_step.
Qed.

Lemma tombstone_node_safe id reason token : safe (tombstone_node s id reason token).
Proof.
  unfold tombstone_node. safe_steps. repeat write_step.
  eapply hoare_bind; [apply close_touching_spec|]. intros ?. by apply hoare_ret.
Qed.

(** *** Edges under review *)
Lemma find_edge_head_current id d e v sn tn ce :
  find_edge_head id d = Some (e, v, sn, tn, ce) → current_edge v d.
Proof.
  unfold find_edge_head. intros H. simplify_option_eq.
  match goal with E : List.find (current_of _) _ = Some _ |- _ => apply find_some in E as [Hin Hc] end.
  unfold current_of in Hc. bool_hyps. by split.
Qed.

Lemma edge_id_unique d v w :
  db_ok d → current_edge v d → In w (edge_versions (the_graph d)) →
  edge_version_is (vr_id v) w = true → is_open w = true.
Proof.
  intros Hd [Hv Ho] Hw E. apply String.eqb_eq in E. pose proof (go_edge_versions _ (do_graph _ Hd)) as Hn.
  by rewrite (NoDup_map_inj vr_id _ w v Hn Hw Hv E).
Qed.

Lemma review_edge_safe id action actor reason at_ token :
  safe (_review_semantic_edge s id action actor reason at_ token).
Proof.
  unfold _review_semantic_edge. safe_steps.
  apply (hoare_query _ _ _ (λ o d, match o with Some (_, v, _, _, _) => current_edge v d | None => True end)).
  { intros d _ _. destruct (find_edge_head id d) as [[[[[e v] sn] tn] ce]|] eqn:E; [|done].
    by apply find_edge_head_current in E. }
  intros [[[[[e v] sn] tn] ce]|]; [|apply hoare_raise]. repeat write_step.
  eapply hoare_bind.
  { eapply hoare_pre; [|apply (close_edges_spec _ (sanctions x) (current_edge v) (λ _, edge_version_is (vr_id v)))].
    - intros d _ [? ?]. by split.
    - apply sanctions_durable.
    - intros d w. apply edge_id_unique. }
  intros ?. cbv beta. repeat write_step.
Qed.
End review_operations.

Section intake_operations.
Context `{signing : crypto} `{env : environment} `{ucd : unicode_data} `{norm : normalization} (s : store).

Lemma apply_capture_safe value path : safe (apply_capture s value path).
Proof.
  intros c Hc. unfold apply_capture.
  assert (safe (connect (_apply_capture_on_connection s value path))) as H.
  { apply safe_connect. intros d0. by apply capture_spec_hoare. }
  specialize (H c Hc). by destruct (connect _ c) as [[a|e] c'].
Qed.

Lemma batch_outcome_spec d0 (P : db → Prop) r : hoare d0 P (batch_outcome r) (λ _, P).
Proof.
  unfold batch_outcome. destruct r as [a|e]; [by apply hoare_ret|].
  destruct (is_validation e); destruct e; repeat (first [by apply hoare_ret|apply hoare_raise|case_match]).
Qed.

Lemma capture_group_spec d0 items : hoare d0 always (capture_group s items) (λ _, always).
Proof.
  induction items as [|[value path] items IH]; simpl; [by apply hoare_ret|].
  eapply hoare_bind; [apply hoare_savepoint; [by apply capture_spec_hoare|done]|]. intros r.
  eapply hoare_bind; [apply batch_outcome_spec|]. intros o.
  eapply hoare_bind; [apply IH|]. intros os. by apply hoare_ret.
Qed.

Lemma capture_groups_spec d0 fuel size items :
  hoare d0 always (capture_groups fuel s size items) (λ _, always).
Proof.
  revert items. induction fuel as [|fuel IH]; intros items; simpl; [by apply hoare_ret|].
  destruct items as [|i items]; [by apply hoare_ret|].
  eapply hoare_bind; [apply capture_group_spec|]. intros os.
  eapply hoare_bind; [apply hoare_commit|]. intros ?.
  eapply hoare_bind; [apply IH|]. intros rest. by apply hoare_ret.
Qed.

Lemma apply_capture_batch_safe items size : safe (apply_capture_batch s items size).
Proof.
  unfold apply_capture_batch. safe_steps. apply capture_groups_spec.
Qed.

(** *** Approvals *)
Lemma build_challenge_spec d0 (P : db → Prop) r operator install key store_ sequence ttl :
  hoare d0 P (build_challenge r operator install key store_ sequence ttl) (λ _, P).
Proof.
  unfold build_challenge. do 2 write_step.
  eapply hoare_bind; [apply hoare_now_|]. intros now. cbv beta.
  eapply hoare_bind; [apply hoare_fresh_token|]. intros raw. cbv beta.
  eapply hoare_bind; [apply (hoare_for_all d0 P); intros kv _; by apply hoare_lift_tail|]. intros ?. cbv beta.
  repeat write_step.
Qed.

Lemma insert_challenge_spec d0 (P : db → Prop) r msg :
  steady P → hoare d0 P (conflict_on_integrity (exec (insert_challenge r)) msg) (λ _, P).
Proof.
  intros HP. apply hoare_conflict, exec_steady; [done|]. intros d e H.
  split; [by apply (insert_challenge_step r)|]. unfold insert_challenge in H. by inv_ok.
Qed.

Lemma issue_challenge_spec d0 r operator ttl : hoare d0 always (issue_challenge r operator ttl) (λ _, always).
Proof.
  unfold issue_challenge. apply hoare_read_authority. intros [k head].
  apply (hoare_pre _ _ always); [done|]. eapply hoare_bind; [apply build_challenge_spec|].
  intros challenge. cbv beta. do 5 write_step.
  eapply hoare_bind; [apply insert_challenge_spec; eauto with steady|]. intros ?. by apply hoare_ret.
Qed.

Lemma approve_challenge_safe operator r ttl : safe (approve_challenge operator r ttl).
Proof.
  unfold approve_challenge. safe_steps. apply hoare_read_authority. intros ?.
  apply (hoare_pre _ _ always); [done|]. apply hoare_query_keep. intros au.
  destruct (find_prepared _ au) as [row|]; [|apply hoare_raise]. repeat write_step.
  apply issue_challenge_spec.
Qed.
End intake_operations.
