(* ===== verification/Governance.v ===== *)
(** * Governed writes keep the store well formed

    The triples of the operations of [Bundles], [Relations] and [Bitemporal]:
    whatever they do, the rows they leave satisfy [db_ok] and extend those
    before them. *)
From S2P Require Import Prelude PyTime Urn Contracts Codec Unicode Retrieval Json Names.
From S2P Require Import Clock Binding Business Tables Integrity Txn Approval Store Records Semantic.
From S2P Require Import Review Envelopes Bundles Relations Bitemporal Safety.

Section governed_statements.
Context `{signing : crypto} `{env : environment} `{lite : sqlite} (d0 : db).

Lemma put_semantic_spec (P : db → Prop) r :
  steady P → sv_sha r = sha256 (sv_envelope r) → (∀ d, P d → is_version (sv_version r) (sv_record r) d) →
  hoare d0 P (put_semantic r) (λ _, P).
Proof.
  intros HP Hs Hr. apply hoare_exec. intros d e _ Hd He.
  assert (step d e) as H by (apply (insert_semantic_step r); [done..|by apply Hr]). split; [done|].
  unfold insert_semantic in He. inv_ok. by apply (steady_same P d).
Qed.

Ltac table_spec lem def :=
  intros HP; apply exec_steady; [done|]; intros d e H; split; [by eapply lem|];
  unfold def in H; by inv_ok.

Lemma insert_partition_spec (P : db → Prop) r :
  steady P → hoare d0 P (exec (insert_partition r)) (λ _, P).
Proof. table_spec insert_partition_step insert_partition. Qed.

Lemma insert_policy_spec (P : db → Prop) r :
  steady P → hoare d0 P (exec (insert_policy r)) (λ _, P).
Proof. table_spec insert_policy_step insert_policy. Qed.

Lemma insert_correction_spec (P : db → Prop) r :
  steady P → hoare d0 P (exec (insert_correction r)) (λ _, P).
Proof. table_spec insert_correction_step insert_correction. Qed.

Lemma insert_contest_spec (P : db → Prop) r :
  steady P → hoare d0 P (exec (insert_contest r)) (λ _, P).
Proof. table_spec insert_contest_step insert_contest. Qed.

Lemma insert_head_spec (P : db → Prop) b r :
  steady P → hoare d0 P (exec (insert_head b r)) (λ _, P).
Proof. table_spec insert_head_step insert_head. Qed.

Lemma insert_relation_spec (P : db → Prop) r :
  steady P → sr_sha r = sha256 (sr_envelope r) → hoare d0 P (exec (insert_relation r)) (λ _, P).
Proof. intros HP Hs. revert HP. table_spec insert_relation_step insert_relation. Qed.

Lemma insert_artifact_spec (P : db → Prop) r :
  steady P → ar_sha r = sha256 (ar_content r) → ar_count r = Z.of_nat (String.length (ar_content r)) →
  hoare d0 P (exec (insert_artifact r)) (λ _, P).
Proof. intros HP Hs Hc. revert HP. table_spec insert_artifact_step insert_artifact. Qed.

Lemma read_spec {A} (P : db → Prop) (f : db → res A) : hoare d0 P (read f) (λ _, P).
Proof.
  unfold read. apply hoare_query_keep. intros d. by apply hoare_lift_tail.
Qed.

Lemma v31_references_spec (P : db → Prop) en pending bytes at_ :
  hoare d0 P (_validate_v31_references en pending bytes at_) (λ _, P).
Proof.
  unfold _validate_v31_references. apply hoare_read. intros _. apply hoare_read. intros [consent|].
  - eapply (hoare_bind _ _ _ (λ _, P)); [|intros u; apply read_spec].
    destruct at_ as [t|].
    + apply (hoare_bind _ _ _ (λ _, P)); [by apply hoare_ret|]. intros now. apply read_spec.
    + apply (hoare_bind _ _ _ (λ _, P)); [by apply hoare_utc_now|]. intros now. apply read_spec.
  - eapply (hoare_bind _ _ _ (λ _, P)); [by apply hoare_ret|]. intros u. apply read_spec.
Qed.

Lemma write_head_spec (P : db → Prop) b subject en :
  steady P → hoare d0 P (write_head b subject en) (λ _, P).
Proof.
  intros HP. unfold write_head. repeat hoare_step. by apply insert_head_spec.
Qed.
Hint Resolve v31_references_spec write_head_spec insert_partition_spec insert_policy_spec
  insert_correction_spec insert_contest_spec insert_relation_spec insert_artifact_spec : hoare.

(** ** First writes *)
Lemma write_envelope_spec (P : db → Prop) type operator prior en event now :
  steady P →
  (∀ d, P d → authoritative (text_or_empty (en_tier en)) = true → is_authorized event d) →
  hoare d0 P (write_envelope type operator prior en event now) (λ _, P).
Proof.
  intros HP Ha. unfold write_envelope. cbv zeta. hoare_step.
  eapply hoare_bind; [by apply write_node_spec|]. intros u. cbv beta.
  eapply hoare_bind.
  { eapply hoare_pre; [|apply (insert_node_version_written d0 P); [done|reflexivity]].
    intros d _ [Hd Hf]. split; [split|]; [done|by intros Ht; apply Ha|done]. }
  intros u'. cbv beta. eapply hoare_post; [apply put_semantic_spec|].
  - apply steady_and; [done|]. apply durable_steady, is_version_durable.
  - reflexivity.
  - by intros d [_ Hv].
  - by intros ? d [Hd _].
Qed.

(** Approvals a governed write asked for *)
Definition sanctioned_tiers (tiers : list json) (x : obj) (d : db) : Prop :=
  existsb (λ t, authoritative (text_or_empty t)) tiers = true → sanctions x d.

Lemma sanctioned_tiers_durable tiers x : durable (sanctioned_tiers tiers x).
Proof. apply durable_imp, sanctions_durable. Qed.

Lemma any_signed tiers b :
  any_res (λ t, in_set t AUTHORITATIVE) tiers = Ok b →
  existsb (λ t, authoritative (text_or_empty t)) tiers = b.
Proof.
  revert b. induction tiers as [|t tiers IH]; intros b; simpl; [by intros [= <-]|].
  unfold or_else. intros H. apply bind_Ok in H as (c & Hc & H).
  assert (authoritative (text_or_empty t) = c) as ->.
  { unfold in_set in Hc. destruct (hashable t); [|discriminate]. injection Hc as <-.
    by destruct t. }
  destruct c; [by injection H|by apply IH].
Qed.

Lemma governed_execution_spec (P : db → Prop) s tiers token refused dm :
  steady P →
  hoare d0 P (governed_execution s tiers token refused dm) (λ x d, P d ∧ sanctioned_tiers tiers x d).
Proof.
  intros HP. unfold governed_execution. apply hoare_lift. intros b Hb. apply any_signed in Hb.
  destruct b.
  - eapply hoare_post; [by apply consume_authority_spec|]. intros x d [Hd Hs]. split; [done|by intros _].
  - apply hoare_guard. intros _. apply hoare_ret. intros d Hd. split; [done|].
    unfold sanctioned_tiers. by rewrite Hb.
Qed.

Lemma strs_In l x : In (JStr x) l → In x (strs l).
Proof.
  induction l as [|v l IH]; simpl; [done|]. intros [->|H]; simpl; [by left|].
  apply IH in H. destruct v; simpl; auto.
Qed.

Lemma named_bundle_event x events version event :
  obj_item "event_ids" x = Ok events → text_item version events = Ok event → In event (named_events x).
Proof.
  unfold obj_item. intros H He. apply bind_Ok in H as (v & Hv & H). apply item_Ok in Hv.
  destruct v; simpl in H; try discriminate. injection H as ->.
  apply (named_field "event_ids"); [simpl; tauto|]. unfold get. rewrite Hv. simpl.
  apply text_item_Ok in He. apply strs_In. apply in_map_iff. exists (version, JStr event).
  split; [done|]. by apply assoc_In.
Qed.
End governed_statements.

#[export] Hint Resolve v31_references_spec write_head_spec insert_partition_spec insert_policy_spec
  insert_correction_spec insert_contest_spec insert_relation_spec insert_artifact_spec
  governed_execution_spec read_spec : hoare.
#[export] Hint Resolve sanctioned_tiers_durable : steady.

Section first_writes.
Context `{signing : crypto} `{env : environment} `{lite : sqlite} (s : store).

Lemma fresh_events_safe versions acc : safe (fresh_events versions acc).
Proof.
  revert acc. induction versions as [|v versions IH]; intros acc; simpl; [apply safe_ret|].
  apply safe_bind; [apply safe_fresh|]. intros id. apply IH.
Qed.

Lemma fresh_list_safe n : safe (fresh_list n).
Proof.
  induction n as [|n IH]; simpl; [apply safe_ret|].
  apply safe_bind; [apply safe_fresh|]. intros id. apply safe_bind; [done|]. intros l. apply safe_ret.
Qed.
Hint Resolve fresh_events_safe fresh_list_safe : safe.

Lemma write_artifact_spec d0 (P : db → Prop) bytes en :
  steady P → hoare d0 P (write_artifact bytes en) (λ _, P).
Proof. intros HP. unfold write_artifact. repeat hoare_step. by apply insert_artifact_spec. Qed.

Lemma check_item_spec d0 (P : db → Prop) values bytes en :
  hoare d0 P (check_item values bytes en) (λ _, P).
Proof. unfold check_item. hoare_step. apply v31_references_spec. Qed.

Lemma write_item_spec d0 tiers x events operator now bytes en :
  obj_item "event_ids" x = Ok events → In (en_tier en) tiers →
  hoare d0 (sanctioned_tiers tiers x) (write_item operator now events bytes en)
    (λ _, sanctioned_tiers tiers x).
Proof.
  intros Hx Ht. assert (steady (sanctioned_tiers tiers x)) as HP by eauto with steady.
  unfold write_item. apply hoare_lift. intros event He.
  eapply hoare_bind; [apply write_envelope_spec; [done|]|].
  { intros d Hs Ha. apply Hs; [|by eapply named_bundle_event].
    apply existsb_exists. by exists (en_tier en). }
  intros u. cbv beta.
  eapply (hoare_bind _ _ _ (λ _, sanctioned_tiers tiers x)).
  { destruct (assoc _ _); [by apply insert_partition_spec|by apply hoare_ret]. }
  intros u'. cbv beta. eapply (hoare_bind _ _ _ (λ _, sanctioned_tiers tiers x)).
  { destruct (String.eqb _ _); [by apply write_artifact_spec|by apply hoare_ret]. }
  intros u''. cbv beta. destruct (is_assessment en); [|by apply hoare_ret].
  apply hoare_lift. intros subject _. by apply write_head_spec.
Qed.

Lemma append_ontology_bundle_safe envelopes bytes token :
  safe (append_ontology_bundle s envelopes bytes token).
Proof.
  unfold append_ontology_bundle. safe_steps. do 4 hoare_step.
  eapply hoare_bind; [apply (hoare_for_all _ always); intros en _; apply check_item_spec|].
  intros u. cbv beta. do 2 hoare_step.
  eapply hoare_bind; [by apply governed_execution_spec; eauto with steady|]. intros x. cbv beta.
  eapply hoare_pre; [intros d _ [_ Hd]; exact Hd|].
  apply hoare_lift. intros now _. apply hoare_lift. intros events Hx.
  eapply hoare_bind; [apply hoare_for_all|intros u'; by apply hoare_ret].
  intros en Hen. apply write_item_spec; [done|]. by apply in_map.
Qed.

Lemma append_ontology_node_safe envelope bytes token :
  safe (append_ontology_node s envelope bytes token).
Proof.
  unfold append_ontology_node. apply safe_bind; [apply safe_lift|]. intros blobs.
  apply safe_bind; [apply append_ontology_bundle_safe|]. intros versions. apply safe_ret.
Qed.

(** ** Relations *)
Lemma write_relation_spec d0 (P : db → Prop) type r content payload qualifier event now :
  steady P →
  (∀ d, P d → authoritative (text_or_empty (re_tier r)) = true → is_authorized event d) →
  hoare d0 P (write_relation type r content payload qualifier event now) (λ _, P).
Proof.
  intros HP Ha. unfold write_relation. apply hoare_read. intros source. apply hoare_read. intros target.
  do 2 hoare_step. eapply hoare_bind; [apply hoare_edge_row; [done|reflexivity|]|].
  { intros d Hd Ht. by apply Ha. }
  intros u. cbv beta. by apply insert_relation_spec.
Qed.

Lemma named_text k x event d tiers t :
  In k EVENT_FIELDS → text_item k x = Ok event → In t tiers → sanctioned_tiers tiers x d →
  authoritative (text_or_empty t) = true → is_authorized event d.
Proof.
  intros Hk He Ht Hs Ha. apply Hs; [|by eapply text_item_named].
  apply existsb_exists. by exists t.
Qed.

Lemma append_business_relation_safe envelope token :
  safe (append_business_relation s envelope token).
Proof.
  unfold append_business_relation. safe_steps. do 3 write_step. cbv zeta.
  eapply hoare_bind; [by apply governed_execution_spec; eauto with steady|]. intros x. cbv beta.
  eapply hoare_pre; [intros d _ [_ Hd]; exact Hd|].
  apply hoare_lift. intros event He. apply hoare_lift. intros now _.
  eapply hoare_bind; [apply write_relation_spec; [eauto with steady|]|].
  { intros d Hs. eapply (named_text "event_id" x event d _ _ ltac:(by left) He); [|exact Hs]; by left. }
  intros u. cbv beta. eapply hoare_bind; [by apply insert_policy_spec; eauto with steady|].
  intros u'. by apply hoare_ret.
Qed.

Lemma append_ontology_contradiction_safe envelope assessment token :
  safe (append_ontology_contradiction s envelope assessment token).
Proof.
  unfold append_ontology_contradiction. safe_steps. do 5 write_step. cbv zeta.
  eapply hoare_bind; [by apply governed_execution_spec; eauto with steady|]. intros x. cbv beta.
  eapply hoare_pre; [intros d _ [_ Hd]; exact Hd|].
  apply hoare_lift. intros event He. apply hoare_lift. intros event' He'. apply hoare_lift. intros now _.
  eapply hoare_bind; [apply write_relation_spec; [eauto with steady|]|].
  { intros d Hs. eapply (named_text "event_id" x event d _ _ ltac:(by left) He); [|exact Hs]; by left. }
  intros u. cbv beta. eapply hoare_bind; [apply v31_references_spec|]. intros u'. cbv beta.
  eapply hoare_bind; [apply write_envelope_spec; [eauto with steady|]|].
  { intros d Hs.
    eapply (named_text "assessment_event_id" x event' d _ _ ltac:(right; by left) He'); [|exact Hs]; right; by left. }
  intros u''. cbv beta. eapply hoare_bind; [by apply write_head_spec; eauto with steady|].
  intros ?. by apply hoare_ret.
Qed.
End first_writes.

(** ** Corrections and contests *)
Section changes.
Context `{signing : crypto} `{env : environment} `{lite : sqlite} (s : store).

Definition is_held (h : held) (d : db) : Prop :=
  current (h_version h) d ∧ is_governed (sv_record (h_semantic h)) d.

Lemma held_versions_In record scope d h :
  In h (held_versions record scope d) →
  In (h_version h) (node_versions (the_graph d)) ∧ is_governed (sv_record (h_semantic h)) d ∧
  In (h_semantic h) (semantic_nodes (the_semantic d)) ∧ vr_id (h_version h) = sv_version (h_semantic h) ∧
  sv_record (h_semantic h) = record ∧ sv_scope (h_semantic h) = scope.
Proof.
  unfold held_versions. intros H. apply in_flat_map in H as (r & Hr & H).
  destruct (String.eqb _ _ && _) eqn:E; [|done]. bool_hyps.
  destruct (find_versioned (sv_version r) d) as [[n v]|] eqn:F; [|done].
  destruct H as [<-|[]]. simpl.
  unfold find_versioned in F. simplify_option_eq.
  match goal with E : find_version _ _ = Some _ |- _ => apply find_some in E as [Hv Hid] end.
  split_and!; try done; try by apply String.eqb_eq. by apply in_map.
Qed.

Lemma sole_In rows h : sole rows = Some h → rows = [h] ∧ sv_contested (h_semantic h) = None.
Proof.
  unfold sole. destruct rows as [|x [|]]; try discriminate.
  destruct (sv_contested (h_semantic x)) eqn:E; [discriminate|]. by intros [= <-].
Qed.

Lemma current_held_sole record scope d h l :
  incl l (current_held record scope d) → sole l = Some h → is_held h d.
Proof.
  intros Hl H. apply sole_In in H as [-> _]. assert (In h (current_held record scope d)) as Hin
    by (apply Hl; by left).
  apply filter_In in Hin as [Hin Ho]. apply held_versions_In in Hin as (Hv & Hg & _).
  by split; [split|].
Qed.

(** Reading the one current version of a record *)
Lemma hoare_sole {B} d0 (f : db → list held) record scope (k : list held → txn B) Q :
  (∀ d, incl (f d) (current_held record scope d)) →
  (∀ l, sole l = None → hoare d0 always (k l) Q) →
  (∀ l h, sole l = Some h → hoare d0 (is_held h) (k l) Q) →
  hoare d0 always (query f ≫= k) Q.
Proof.
  intros Hf Hn Hs. apply (hoare_query _ _ _ (λ l d, match sole l with Some h => is_held h d | None => True end)).
  - intros d _ _. destruct (sole (f d)) as [h|] eqn:E; [|done].
    by apply (current_held_sole record scope d h (f d)).
  - intros l. destruct (sole l) as [h|] eqn:E; [by apply Hs|]. by apply Hn.
Qed.

Definition made (h : held) (x : obj) (d : db) : Prop :=
  is_governed (sv_record (h_semantic h)) d ∧ sanctions x d.

Lemma made_durable h x : durable (made h x).
Proof. apply durable_and; [apply governed_durable|apply sanctions_durable]. Qed.
Hint Resolve made_durable : steady.

Lemma change_close d0 h x now :
  hoare d0 (λ d, is_held h d ∧ sanctions x d) (close_node_version (vr_id (h_version h)) now false)
    (λ _, made h x).
Proof.
  eapply hoare_conseq; [|apply (close_current_spec d0 (made h x) (h_version h)); apply made_durable|].
  - intros d _ [[Hc Hg] Hs]. by split; [split|].
  - by intros ? d [Hd _].
Qed.

Lemma is_held_steady h : steady (is_held h).
Proof.
  apply steady_and; [apply current_steady|]. apply durable_steady, governed_durable.
Qed.
Hint Resolve is_held_steady : steady.

Lemma put_successor_spec d0 (P : db → Prop) h x evidence now event y :
  durable P → text_item "event_id" x = Ok event →
  hoare d0 (λ d, made h x d ∧ P d) (put_successor h evidence now event y)
    (λ _ d, made h x d ∧ P d ∧ is_version y.1.1.1 (sv_record (h_semantic h)) d).
Proof.
  intros HP Hx. destruct y as [[[id payload] start] finish]. unfold put_successor. simpl.
  eapply hoare_conseq; [|apply (insert_node_version_written d0 (λ d, made h x d ∧ P d)); [|reflexivity]|].
  - intros d _ [Hm Hd]. split; [split; [by split|]|by left; apply Hm].
    intros _. by apply (text_item_sanctions x), Hm.
  - eauto with steady.
  - simpl. by intros ? d [[Hm Hd] Hv].
Qed.

Lemma put_envelope_spec d0 (P : db → Prop) h provenance actor role now contested y :
  steady P → (∀ d, P d → is_version y.1.1.1 (sv_record (h_semantic h)) d) →
  hoare d0 P (put_successor_envelope h provenance actor role now contested y) (λ _, P).
Proof.
  intros HP Hv. destruct y as [[[id payload] start] finish]. unfold put_successor_envelope.
  apply put_semantic_spec; [done|reflexivity|done].
Qed.

Lemma write_assessment_spec d0 (P : db → Prop) h x b type operator parent pending a event now :
  durable P → In event (named_events x) →
  hoare d0 (λ d, made h x d ∧ P d) (write_assessment b type operator parent pending a event now)
    (λ _ d, made h x d ∧ P d).
Proof.
  intros HP He. unfold write_assessment.
  assert (steady (λ d, made h x d ∧ P d)) as Hs by eauto with steady.
  eapply hoare_bind; [apply v31_references_spec|]. intros u. cbv beta.
  eapply hoare_bind; [apply write_envelope_spec; [done|]|].
  { intros d [[_ Hx] _] _. by apply Hx. }
  intros u'. cbv beta. apply hoare_lift. intros subject _. by apply write_head_spec.
Qed.

Lemma write_change_event_spec d0 (P : db → Prop) type h valid intent event now :
  steady P → hoare d0 P (write_change_event type h valid intent event now) (λ _, P).
Proof. intros HP. by apply write_event_spec. Qed.

Lemma current_rows_incl {A} (p : A → bool) l : incl (List.filter p l) l.
Proof. intros x Hx. by apply filter_In in Hx as [? _]. Qed.

Lemma successor_pair_spec d0 h x evidence now event a b :
  text_item "event_id" x = Ok event →
  hoare d0 (made h x) (for_all (put_successor h evidence now event) [a; b])
    (λ _ d, made h x d ∧ is_version a.1.1.1 (sv_record (h_semantic h)) d ∧
                         is_version b.1.1.1 (sv_record (h_semantic h)) d).
Proof.
  intros Hx. simpl. eapply hoare_bind.
  { eapply hoare_pre; [|apply (put_successor_spec d0 always h x); [done|exact Hx]]. by intros d _ Hd. }
  intros u. cbv beta. eapply hoare_bind.
  { eapply hoare_pre; [|apply (put_successor_spec d0 (is_version a.1.1.1 (sv_record (h_semantic h))) h x);
      [apply is_version_durable|exact Hx]]. intros d _ (? & _ & ?). by split. }
  intros u'. by apply hoare_ret.
Qed.

Lemma envelope_pair_spec d0 h x provenance actor role now contested a b :
  let P d := made h x d ∧ is_version a.1.1.1 (sv_record (h_semantic h)) d ∧
                          is_version b.1.1.1 (sv_record (h_semantic h)) d in
  hoare d0 P (for_all (put_successor_envelope h provenance actor role now contested) [a; b]) (λ _, P).
Proof.
  intros P. assert (steady P) as HP.
  { apply durable_steady, durable_and; [apply made_durable|apply durable_and; apply is_version_durable]. }
  apply hoare_for_all. intros y [<-|[<-|[]]]; apply put_envelope_spec; try done; by intros d (_ & ? & ?).
Qed.

Lemma correct_ontology_version_safe record scope from payload event carry corrected evidence actor role
    assessment token :
  safe (correct_ontology_version s record scope from payload event carry corrected evidence actor role
          assessment token).
Proof.
  unfold correct_ontology_version. safe_steps.
  apply safe_bind; [destruct assessment; safe_steps|intros assessment_id]. safe_steps.
  apply (hoare_sole d0 _ record scope); [intros d; apply current_rows_incl|by intros l ->; apply hoare_raise|].
  intros l h ->. apply hoare_lift. intros ? _. apply hoare_lift. intros ? _.
  do 3 write_step. do 2 (apply hoare_lift; intros ? ?).
  write_step. apply hoare_lift. intros event_id He. apply hoare_lift. intros now _.
  eapply hoare_bind; [by apply write_change_event_spec; eauto with steady|]. intros u. cbv beta.
  eapply hoare_bind; [apply change_close|]. intros u'. cbv beta.
  eapply hoare_bind; [by apply successor_pair_spec|]. intros u''. cbv beta.
  eapply hoare_bind; [apply envelope_pair_spec|]. intros u3. cbv beta.
  eapply hoare_pre; [intros d _ [Hm _]; exact (conj Hm I)|].
  eapply hoare_bind; [apply (insert_correction_spec d0 (λ d, made h _ d ∧ True)); eauto with steady|].
  intros u4. cbv beta.
  eapply (hoare_bind _ _ _ (λ _, always)); [|intros u5; by apply hoare_ret].
  destruct a8 as [asmt|]; [|by apply hoare_ret]. apply hoare_lift. intros assessed_event He'.
  eapply hoare_true, (write_assessment_spec d0 (λ _, True) h x); [done|].
  by apply (text_item_named "assessment_event_id"); [right; left|].
Qed.

Lemma contest_successor_spec d0 h x cg evidence actor role contested now event y :
  text_item "event_id" x = Ok event →
  hoare d0 (made h x) (contest_successor h cg evidence actor role contested now event y) (λ _, made h x).
Proof.
  intros Hx. unfold contest_successor. cbv zeta. eapply hoare_bind.
  { eapply hoare_pre; [|apply (put_successor_spec d0 always h x); [done|exact Hx]]. by intros d _ Hd. }
  intros u. cbv beta. eapply hoare_post; [apply put_envelope_spec|].
  - apply durable_steady, durable_and; [apply made_durable|].
    apply durable_and; [done|apply is_version_durable].
  - by intros d (_ & _ & Hv).
  - by intros ? d (Hm & _).
Qed.

Lemma write_assessments_spec d0 h x operator parent pending now l ids :
  (∀ e, In e (strs ids) → In e (named_events x)) →
  hoare d0 (λ d, made h x d ∧ True) (write_assessments operator parent pending now l ids)
    (λ _ d, made h x d ∧ True).
Proof.
  revert ids. induction l as [|a l IH]; intros [|id ids] Hids; simpl;
    try (by apply hoare_ret); try apply hoare_raise.
  apply hoare_lift. intros event He. destruct id; try discriminate He. injection He as ->.
  eapply hoare_bind; [apply (write_assessment_spec d0 (λ _, True) h x); [done|]|].
  { apply Hids. by left. }
  intros u. cbv beta. apply IH. intros e He. apply Hids. by right.
Qed.

Lemma contest_ontology_version_safe record scope contested event preserved competing payload evidence
    actor role assessments token :
  safe (contest_ontology_version s record scope contested event preserved competing payload evidence
          actor role assessments token).
Proof.
  unfold contest_ontology_version. safe_steps.
  apply safe_bind; [apply fresh_list_safe|intros new_events]. safe_steps.
  apply (hoare_sole d0 _ record scope); [intros d; apply incl_refl|by intros l ->; apply hoare_raise|].
  intros l h ->. apply hoare_lift. intros ? _.
  do 3 write_step. do 2 (apply hoare_lift; intros ? _). apply hoare_guard. intros _.
  write_step. apply hoare_lift. intros event_id He. apply hoare_lift. intros now _.
  apply hoare_lift. intros ids Hids.
  eapply hoare_bind; [by apply write_change_event_spec; eauto with steady|]. intros u. cbv beta.
  eapply hoare_bind; [apply change_close|]. intros u'. cbv beta.
  eapply hoare_bind; [apply (hoare_for_all d0 (made h _)); intros y _; by apply contest_successor_spec|].
  intros u''. cbv beta. eapply hoare_bind; [by apply insert_contest_spec; eauto with steady|].
  intros u3. cbv beta. eapply hoare_pre; [intros d _ Hm; exact (conj Hm I)|].
  eapply hoare_bind; [apply write_assessments_spec|intros u4; by apply hoare_ret].
  intros e He'. apply (named_field "assessment_event_ids"); [right; right; by left|].
  unfold list_item in Hids. apply bind_Ok in Hids as (v & Hv & Hids). apply item_Ok in Hv.
  unfold get. rewrite Hv. destruct v; simpl in Hids; try discriminate. by injection Hids as ->.
Qed.
End changes.
