(* ===== verification/Machine.v ===== *)
(** * The store as a state machine

    One command per public write of [ImprintStore] and one for the ceremony
    that issues a challenge; a database is reachable when it is what a sequence
    of commands leaves committed, each run by a process with its own
    configuration, identifiers and clock.

    What every reachable store satisfies: the invariant of the tables,
    authority only by a signed approval, history that is only appended to,
    and a content generation that moves with the content. *)
From S2P Require Import Prelude PyTime Urn Contracts Codec Unicode Retrieval Json Names.
From S2P Require Import Clock Capture Tables Integrity Txn Approval Store Records Semantic.
From S2P Require Import Review Envelopes Bundles Relations Bitemporal Safety Governance.

Inductive command : Type :=
| ApplyCapture (value : json) (path : string)
| ApplyCaptureBatch (items : list (json * string)) (size : Z)
| AddDomain (id label description : string) (evidence : list string) (operator actor : string)
    (valid : option string) (token : option obj)
| ChangeDomain (id actor action : string) (token : option obj)
| AddTransition (relation source target reason : string) (evidence : list string) (actor : string)
    (token : option obj)
| AppendDerived (type : string) (payload : obj) (status tier : string) (evidence : list string)
    (operator valid proposed_by : string) (model recipe : option string)
| AppendNode (contract : json) (valid : string) (token : option obj)
| AppendRelation (contract : json) (valid : string) (token : option obj)
| RevokeConsent (grant operator reason : string) (at_ : option string) (token : option obj)
| AppendProposal (proposal : json)
| AuthorizeSuccessor (proposal : string) (contract : json) (operator valid reason : string)
    (token : option obj)
| RatifyNode (id ratifier note : string) (token : option obj)
| CorrectNode (id : string) (contract : json) (corrector reason : string) (token : option obj)
| ContestNode (id contestor reason : string) (token : option obj)
| RatifyEdge (id ratifier note : string) (token : option obj)
| DeferEdge (id reviewer reason : string) (revisit : option string) (token : option obj)
| RejectEdge (id rejector reason : string) (token : option obj)
| RejectNode (id rejector reason : string) (token : option obj)
| DeferNode (id reviewer reason : string) (revisit : option string) (token : option obj)
| AddReason (verdict reason actor locator : string) (token : option obj)
| Reinforce (verdict text actor locator : string) (token : option obj)
| Tombstone (id reason : string) (token : option obj)
| AppendBundle (envelopes : list json) (artifacts : list (string * string)) (token : option obj)
| AppendGoverned (envelope : json) (artifact : option string) (token : option obj)
| AppendBusinessRelation (envelope : json) (token : option obj)
| AppendContradiction (envelope : json) (assessment : option json) (token : option obj)
| CorrectVersion (record scope from : string) (payload : json) (event carry corrected : string)
    (evidence : list string) (actor role : string) (assessment : option json) (token : option obj)
| ContestVersion (record scope contested event preserved competing : string) (payload : json)
    (evidence : list string) (actor role : string) (assessments : list json) (token : option obj)
| Approve (operator : string) (request : ChallengeRequest) (ttl : Z).

(** The mutation that names an event, and the grant it spent *)
Section grants.
Context `{signing : crypto}.

Record sanctioned_by (g : grant_row) (r : prepared_row) (event : string) (a : authority) : Prop := {
  sn_executed : In r (prepared a) ∧ pm_status r = "executed";
  sn_named : ∃ fields, loads (pm_execution r) = Some (JObj fields) ∧ In event (named_events fields);
  sn_approved : approved a r g
}.

Lemma sanctioned_authorized event a : authorized event a ↔ ∃ g r, sanctioned_by g r event a.
Proof.
  split.
  - intros (r & g & m & Hr & Hs & Hm & He & Ha). exists g, r. split; [done|by exists m|done].
  - intros (g & r & [(Hr & Hs) (m & Hm & He) Ha]). exists r, g, m. by split_and!.
Qed.
End grants.

(** The libraries of a process: signatures, Unicode and SQLite *)
Section machine.
Context `{signing : crypto} `{ucd : unicode_data} `{norm : normalization} `{lite : sqlite}.

Definition finish {A} (m : txn A) : txn unit := m ;; mret tt.

Definition run `{env : environment} (s : store) (c : command) : txn unit :=
  match c with
  | ApplyCapture value path => finish (apply_capture s value path)
  | ApplyCaptureBatch items size => finish (apply_capture_batch s items size)
  | AddDomain id label description evidence operator actor valid token =>
      finish (add_domain s id label description evidence operator actor valid token)
  | ChangeDomain id actor action token => finish (_change_domain_state s id actor action token)
  | AddTransition relation source target reason evidence actor token =>
      finish (add_transition s relation source target reason evidence actor token)
  | AppendDerived type payload status tier evidence operator valid by_ model recipe =>
      finish (append_derived_node s type payload status tier evidence operator valid by_ model recipe)
  | AppendNode contract valid token => finish (append_semantic_node s contract valid token)
  | AppendRelation contract valid token => finish (append_semantic_relation s contract valid token)
  | RevokeConsent grant operator reason at_ token => finish (revoke_consent s grant operator reason at_ token)
  | AppendProposal proposal => finish (append_proposal s proposal)
  | AuthorizeSuccessor proposal contract operator valid reason token =>
      finish (authorize_proposal_successor s proposal contract operator valid reason token)
  | RatifyNode id ratifier note token => finish (ratify_node s id ratifier note token)
  | CorrectNode id contract corrector reason token =>
      finish (correct_typed_node s id contract corrector reason token)
  | ContestNode id contestor reason token => finish (contest_typed_node s id contestor reason token)
  | RatifyEdge id ratifier note token => finish (ratify_edge s id ratifier note token)
  | DeferEdge id reviewer reason revisit token => finish (defer_edge s id reviewer reason revisit token)
  | RejectEdge id rejector reason token => finish (reject_edge s id rejector reason token)
  | RejectNode id rejector reason token => finish (reject_node s id rejector reason token)
  | DeferNode id reviewer reason revisit token => finish (defer_node s id reviewer reason revisit token)
  | AddReason verdict reason actor locator token => finish (add_reason s verdict reason actor locator token)
  | Reinforce verdict text actor locator token => finish (reinforce_verdict s verdict text actor locator token)
  | Tombstone id reason token => finish (tombstone_node s id reason token)
  | AppendBundle envelopes artifacts token => finish (append_ontology_bundle s envelopes artifacts token)
  | AppendGoverned envelope artifact token => finish (append_ontology_node s envelope artifact token)
  | AppendBusinessRelation envelope token => finish (append_business_relation s envelope token)
  | AppendContradiction envelope assessment token =>
      finish (append_ontology_contradiction s envelope assessment token)
  | CorrectVersion record scope from payload event carry corrected evidence actor role assessment token =>
      finish (correct_ontology_version s record scope from payload event carry corrected evidence actor role
                assessment token)
  | ContestVersion record scope contested event preserved competing payload evidence actor role
      assessments token =>
      finish (contest_ontology_version s record scope contested event preserved competing payload evidence
                actor role assessments token)
  | Approve operator request ttl => finish (approve_challenge operator request ttl)
  end.

(** A connection to the committed database *)
Definition open_on (d : db) (n t : nat) : conn := {| live := d; saved := d; drawn := n; ticks := t |}.

(** The database a command leaves committed, whatever its outcome *)
Definition after `{env : environment} (s : store) (c : command) (n t : nat) (d : db) : db :=
  saved (run s c (open_on d n t)).2.

(** A new store with the keys, the ledger and the anchor of its installation *)
Definition installed (identity : string) (ks : list key_row) (l : list ledger_row)
    (a : trust) : db :=
  with_authority {| prepared := []; challenges := []; grants := []; keys_ := ks; ledger := l; trusted := a |}
    (fresh_store identity).

Inductive reaches (d : db) : db → Prop :=
| reaches_here : reaches d d
| reaches_step (env : environment) s c n t e : reaches d e → reaches d (after s c n t e).

Definition reachable (d : db) : Prop :=
  ∃ identity ks l a, reaches (installed identity ks l a) d.

(** ** One step *)
Lemma safe_finish {A} (m : txn A) : safe m → safe (finish m).
Proof. intros H. apply safe_bind; [done|]. intros. apply safe_ret. Qed.

Lemma add_reason_safe `{env : environment} s verdict reason actor locator token :
  safe (add_reason s verdict reason actor locator token).
Proof. unfold add_reason. apply safe_guard_bind. intros _. apply verdict_evidence_safe. Qed.

Lemma reinforce_safe `{env : environment} s verdict text actor locator token :
  safe (reinforce_verdict s verdict text actor locator token).
Proof. unfold reinforce_verdict. apply safe_guard_bind. intros _. apply verdict_evidence_safe. Qed.

Hint Resolve apply_capture_safe apply_capture_batch_safe add_domain_safe change_domain_state_safe
  add_transition_safe append_derived_node_safe append_semantic_node_safe append_semantic_relation_safe
  revoke_consent_safe append_proposal_safe authorize_proposal_successor_safe ratify_node_safe
  correct_typed_node_safe contest_typed_node_safe review_edge_safe reject_node_safe defer_node_safe
  add_reason_safe reinforce_safe tombstone_node_safe approve_challenge_safe append_ontology_bundle_safe
  append_ontology_node_safe append_business_relation_safe append_ontology_contradiction_safe
  correct_ontology_version_safe contest_ontology_version_safe : safe.

Lemma run_safe `{env : environment} s c : safe (run s c).
Proof.
  destruct c; simpl; apply safe_finish; try unfold ratify_edge, defer_edge, reject_edge; eauto with safe.
Qed.

Lemma after_ok `{env : environment} s c n t d :
  db_ok d → db_ok (after s c n t d) ∧ extends d (after s c n t d).
Proof. intros Hd. by apply (run_safe s c (open_on d n t)). Qed.

Lemma installed_ok identity ks l a : db_ok (installed identity ks l a).
Proof. split; [split|split|split|split|..]; simpl; first [apply List.NoDup_nil|by intros ? ? []|done|constructor]. Qed.

Lemma reaches_ok d e : db_ok d → reaches d e → db_ok e ∧ extends d e.
Proof.
  intros Hd. induction 1 as [|env s c n t e _ [IH1 IH2]]; [by split|].
  destruct (after_ok s c n t e IH1) as [H1 H2]. split; [done|by etransitivity].
Qed.

Lemma reachable_ok d : reachable d → db_ok d.
Proof. intros (identity & ks & l & a & H). by apply (reaches_ok _ _ (installed_ok identity ks l a)). Qed.
End machine.

(** ** Guarantees *)
Section guarantees.
Context `{signing : crypto} `{ucd : unicode_data} `{norm : normalization} `{lite : sqlite}.

Lemma same_visible_nodes d e :
  nodes (the_graph e) = nodes (the_graph d) → node_versions (the_graph e) = node_versions (the_graph d) →
  ∀ types, current_nodes types e = current_nodes types d.
Proof.
  intros Hn Hv types. unfold current_nodes, current_rows, joined, find_node. by rewrite Hn, Hv.
Qed.

Lemma same_visible_edges d e :
  edges (the_graph e) = edges (the_graph d) → edge_versions (the_graph e) = edge_versions (the_graph d) →
  current_edges e = current_edges d.
Proof. intros Hn Hv. unfold current_edges, joined_edges, find_edge. by rewrite Hn, Hv. Qed.

Lemma NoDup_map_finer {A} (f g : A → string) l :
  List.NoDup (map g l) → (∀ x y, In x l → In y l → f x = f y → g x = g y) → List.NoDup (map f l).
Proof.
  induction l as [|x l IH]; simpl; intros Hg Hf; [constructor|]. inversion_clear Hg as [|? ? Hx Hl].
  constructor; [|by apply IH; auto]. intros Hin. apply Hx. apply in_map_iff in Hin as (y & E & Hy).
  rewrite <- (Hf y x); auto. by apply in_map.
Qed.

Lemma current_rows_In types d r :
  In r (current_rows types d) → In r (joined d) ∧ is_open r.2 = true.
Proof.
  unfold current_rows, order_by. rewrite sort_by_In. intros H. apply filter_In in H as [H Hp].
  bool_hyps. by split.
Qed.

(** C3: The store invariant.  Whatever commands have run, by whatever processes
    and with whatever outcomes, the committed tables are well formed: keys are
    unique, every reference resolves, digests are those of the stored texts,
    the subject index is that of the events, every version sits on the
    origin/authority lattice with an agreeing provenance record, no edge and no
    node without a governed envelope has two open versions (a correction or a
    contest leaves two of a governed node), and the governed envelopes,
    artifacts and confidence heads belong to versions that exist. *)
Theorem store_invariant d : reachable d → db_ok d.
Proof. apply reachable_ok. Qed.

Lemma authority_approved d v :
  db_ok d → In v (node_versions (the_graph d) ++ edge_versions (the_graph d)) →
  In (vr_tier v) ["captured_judgment"; "ratified_knowledge"] → authorized (vr_event v) (the_authority d).
Proof.
  intros Hd Hv Ht. apply in_app_iff in Hv.
  pose proof (do_node_versions _ Hd) as Hn. pose proof (do_edge_versions _ Hd) as He.
  unfold versions_authorized in *. rewrite List.Forall_forall in Hn, He.
  assert (authoritative (vr_tier v) = true) by by apply mem_In. destruct Hv; auto.
Qed.

(** C1: No authority without an approval.  Every version that carries
    authority, of a node or of an edge, in any reachable store, was written by
    an event that the execution fields of an executed mutation name, and that
    mutation spent a grant: an active key of the store verified the signature
    over the canonical bytes of a challenge that repeats every field of the
    stored request, among them the digest of those execution fields. *)
Theorem no_authority_without_approval d v :
  reachable d → In v (node_versions (the_graph d) ++ edge_versions (the_graph d)) →
  In (vr_tier v) ["captured_judgment"; "ratified_knowledge"] →
  authorized (vr_event v) (the_authority d).
Proof. intros Hd. apply authority_approved. by apply reachable_ok. Qed.

(** C4: History is append-only.  From a reachable store on, no command removes
    or rewrites an event, a node, an edge, a receipt or a grant; a version is
    only ever closed, once; a prepared mutation is settled once and a
    challenge spent once. *)
Theorem history_append_only d e : reachable d → reaches d e → extends d e.
Proof. intros Hd He. apply reachable_ok in Hd. by apply (reaches_ok d e). Qed.

(** C7: The content generation is a sound cache key.  It never decreases, and
    as long as it has not moved, whatever commands ran in between, the current
    nodes of every type and the current edges are what they were. *)
Theorem generation_tracks_content d e :
  reachable d → reaches d e →
  generation (the_graph d) ≤ generation (the_graph e) ∧
  (generation (the_graph d) = generation (the_graph e) →
   (∀ types, current_nodes types e = current_nodes types d) ∧ current_edges e = current_edges d).
Proof.
  intros Hd He. apply reachable_ok in Hd. destruct (reaches_ok d e Hd He) as [_ [Hx _ _ _ _ _]].
  split; [apply (gx_generation _ _ Hx)|]. intros E. destruct (gx_visible _ _ Hx E) as (Hn & Hs & Hv & Hw).
  split; [by apply same_visible_nodes|by apply same_visible_edges].
Qed.

Lemma current_rows_versions types d :
  db_ok d → List.NoDup (map (λ nv, vr_id nv.2) (current_rows types d)).
Proof.
  intros Hd. unfold current_rows, order_by. eapply Permutation_NoDup.
  - symmetry. apply Permutation_map, sort_by_perm.
  - by apply NoDup_map_filter, joined_ids.
Qed.

Lemma find_node_In d n : db_ok d → In n (nodes (the_graph d)) → find_node (nd_id n) d = Some n.
Proof. intros Hd Hn. apply (find_unique nd_id); [apply (go_nodes _ (do_graph _ Hd))|done]. Qed.

(** The current rows are the open versions of the wanted nodes, each with its
    node. *)
Lemma current_rows_exact types d n v :
  db_ok d →
  In (n, v) (current_rows types d) ↔
  In v (node_versions (the_graph d)) ∧ is_open v = true ∧
  In n (nodes (the_graph d)) ∧ nd_id n = vr_owner v ∧ wanted types n = true.
Proof.
  intros Hd. unfold current_rows, order_by. rewrite sort_by_In, filter_In. cbn [fst snd]. rewrite andb_true_iff.
  unfold joined. rewrite in_flat_map. split.
  - intros [(w & Hw & H) [Ho Ht]]. destruct (find_node (vr_owner w) d) as [m|] eqn:E; [|done].
    destruct H as [[= -> ->]|[]]. apply find_some in E as [Hn E]. apply String.eqb_eq in E. done.
  - intros (Hv & Ho & Hn & E & Ht). split; [|done]. exists v. split; [done|].
    rewrite <- E, (find_node_In d n Hd Hn). by left.
Qed.

(** C26: What a reader sees as current.  The current rows of a reachable store
    are exactly its open versions of the requested types, each with its node
    and each listed once, and a node that has no governed envelope is listed
    at most once: only a correction or a contest of a governed node leaves two
    of its versions current. *)
Theorem one_head_per_node d types :
  reachable d →
  (∀ n v, In (n, v) (current_rows types d) ↔
     In v (node_versions (the_graph d)) ∧ is_open v = true ∧
     In n (nodes (the_graph d)) ∧ nd_id n = vr_owner v ∧ wanted types n = true) ∧
  List.NoDup (map (λ nv, vr_id nv.2) (current_rows types d)) ∧
  List.NoDup (map (λ nv, nd_id nv.1)
    (List.filter (λ nv, negb (bool_decide (governed (the_semantic d) (nd_id nv.1)))) (current_rows types d))).
Proof.
  intros Hd. apply reachable_ok in Hd. pose proof (current_rows_versions types d Hd) as Hv.
  split; [intros n v; by apply current_rows_exact|].
  split; [done|]. apply (NoDup_map_finer _ (λ nv, vr_id nv.2)); [by apply NoDup_map_filter|].
  intros x y Hx Hy E. apply filter_In in Hx as [Hx Nx], Hy as [Hy _].
  apply current_rows_In in Hx as [Hx Ox], Hy as [Hy Oy].
  apply joined_In in Hx as [Hx Ex], Hy as [Hy Ey].
  apply negb_true_iff, bool_decide_eq_false in Nx.
  destruct (do_one_node _ Hd x.2 y.2) as [Hg| ->]; try congruence.
Qed.
End guarantees.
