(* ===== verification/Scenario.v ===== *)
(** * A concrete run of the store

    Functions for the libraries and a history: an installation with one
    operator key, a capture, the ratification of its verdict prepared,
    approved, signed and executed.  It shows that the hypotheses of the
    guarantees can hold. *)
From S2P Require Import Prelude PyTime Urn Contracts Codec Unicode Retrieval Json Names.
From S2P Require Import Clock Capture Derive Tables Integrity Txn Approval Store Records.
From S2P Require Import Semantic Review Envelopes Safety Machine.

(** Canonical bytes, and a keyed digest in the place of Ed25519 *)
#[export] Instance toy_crypto : crypto := {
  jcs v := Some (canonical_bytes v);
  ed25519_verify public signature message := String.eqb signature (sha256 (public +:+ message))
}.

(** Any rendering will do: no floating value is stored. *)
#[export] Instance toy_sqlite : sqlite := { real_text _ := Some "0.0" }.

#[export] Instance toy_normalization : normalization := { nfkc s := s }.

#[export] Existing Instance plain_unicode.

Fixpoint repeated (n : nat) (s : string) : string :=
  match n with O => "" | S n => s +:+ repeated n s end.

#[export] Instance toy_environment : environment := {
  uuids := example_uuid;
  tokens _ := repeated 32 "k";
  clock n := of_instant (instant example_now + Z.of_nat n * 1000000)
}.

Definition operator_urn : string :=
  match get "operator_id" example_envelope with JStr s => s | _ => "" end.

Definition STORE_URN := "urn:imprint:store:5b1f8d0e-6a0c-4a52-9a0f-0f4c6f3b2a10".

Definition public_key := repeated 32 "p".

Definition toy_key : key_row := {|
  ky_id := "urn:imprint:authority-key:1"; ky_operator := operator_urn; ky_install := "install";
  ky_store := STORE_URN; ky_public := b64encode false public_key;
  ky_fingerprint := "sha256:" +:+ sha256 public_key; ky_status := "active"; ky_sequence := 1;
  ky_blob_path := "authority/keys/1.blob"; ky_blob_sha := sha256 "blob"; ky_blob_size := 4;
  ky_suite := "Ed25519"; ky_nonce := "nonce"; ky_created := "2026-01-01T00:00:00Z"
|}.

Definition toy_genesis : ledger_row := {|
  lg_sequence := 1; lg_id := "genesis"; lg_type := "genesis"; lg_operator := operator_urn;
  lg_install := "install"; lg_key := ky_id toy_key; lg_json := "{}"; lg_sha := sha256 "{}";
  lg_signature := ""; lg_previous := None; lg_created := "2026-01-01T00:00:00Z"
|}.

(** An anchor on the genesis *)
Definition toy_trust : trust := {|
  tr_anchor := Some {| an_operator := operator_urn; an_store := STORE_URN; an_genesis := lg_sha toy_genesis;
    an_recovery := None; an_recovery_public := None; an_sequence := 1; an_head := lg_sha toy_genesis;
    an_state := sha256 "keys"; an_checkpoint := None; an_checkpoint_json := None; an_certificate := None;
    an_updated := "2026-01-01T00:00:00Z"; an_blocked := false; an_reason := None |};
  pins := []; intents := []; proofs := []; requests := []
|}.

Definition toy_install : db :=
  installed STORE_URN [toy_key] [toy_genesis] toy_trust.

Definition toy_store : store := {| expected_operator_id := Some operator_urn; expected_node_id := None |}.

Definition sub (k : string) (m : obj) : obj := match get k m with JObj x => x | _ => [] end.
Definition text_at (k : string) (m : obj) : string := match get k m with JStr s => s | _ => "" end.

Definition toy_verdict : string := text_at "verdict_id" (sub "verdict" example_envelope).

Definition captured_conn : conn :=
  Eval vm_compute in
    (run toy_store (ApplyCapture (JObj example_envelope) "spool/1.json") (open_on toy_install 100 0)).2.

(** ** The verdict is promoted *)
Definition promote (token : option obj) : command :=
  RatifyNode toy_verdict operator_urn "mine" token.

Definition prepared_db : db := Eval vm_compute in after toy_store (promote None) 200 10 (saved captured_conn).

Definition toy_request : ChallengeRequest :=
  Eval vm_compute in
    match prepared (the_authority prepared_db) with
    | [r] => match loads (pm_request r) with
             | Some (JObj m) => match request_of m with Ok q => q | Err _ => Build_ChallengeRequest "" "" "" "" "" "" [] [] [] [] [] [] [] end
             | _ => Build_ChallengeRequest "" "" "" "" "" "" [] [] [] [] [] [] []
             end
    | _ => Build_ChallengeRequest "" "" "" "" "" "" [] [] [] [] [] [] []
    end.

Definition approved_conn : res (obj * key_row) * conn :=
  Eval vm_compute in approve_challenge operator_urn toy_request 60 (open_on prepared_db 300 20).

Definition approved_db : db := Eval vm_compute in saved approved_conn.2.

Definition toy_challenge : obj :=
  Eval vm_compute in match approved_conn.1 with Ok (m, _) => m | Err _ => [] end.

Definition toy_token : obj :=
  Eval vm_compute in
    [("challenge", JObj toy_challenge);
     ("signature_b64", JStr (b64encode false
        (sha256 (public_key +:+ CHALLENGE_DOMAIN +:+ canonical_bytes (JObj toy_challenge)))))].

Definition promoted_conn : res unit * conn :=
  Eval vm_compute in run toy_store (promote (Some toy_token)) (open_on approved_db 400 30).

Definition promoted_db : db := Eval vm_compute in saved promoted_conn.2.

Definition toy_reaches := @reaches toy_crypto plain_unicode toy_normalization toy_sqlite.
Definition toy_reachable := @reachable toy_crypto plain_unicode toy_normalization toy_sqlite.

(** The versions with authority of the last database *)
Definition promoted_versions : list version_row :=
  Eval vm_compute in
    List.filter (λ v, authoritative (vr_tier v)) (node_versions (the_graph promoted_db)).

Example one_promotion : map vr_owner promoted_versions = [toy_verdict].
Proof. vm_compute. reflexivity. Qed.

Example current_verdicts :
  map (λ nv, nd_id nv.1) (current_rows (Some ["Verdict"; "Value"]) promoted_db) = [toy_verdict].
Proof. vm_compute. reflexivity. Qed.

Example promotion_succeeds : promoted_conn.1 = Ok tt.
Proof. reflexivity. Qed.

Lemma captured_run :
  apply_capture toy_store (JObj example_envelope) "spool/1.json" (open_on toy_install 100 0) =
  (Ok "captured", captured_conn).
Proof. vm_compute. reflexivity. Qed.

Lemma captured_after :
  after toy_store (ApplyCapture (JObj example_envelope) "spool/1.json") 100 0 toy_install = saved captured_conn.
Proof.
  unfold after, run, finish. unfold mbind, txn_bind. rewrite captured_run. reflexivity.
Qed.

Lemma prepared_after :
  after toy_store (promote None) 200 10 (saved captured_conn) = prepared_db.
Proof. vm_compute. reflexivity. Qed.

Lemma approved_run :
  approve_challenge operator_urn toy_request 60 (open_on prepared_db 300 20) = (Ok (toy_challenge, toy_key), approved_conn.2).
Proof. vm_compute. reflexivity. Qed.

Lemma approved_after :
  after toy_store (Approve operator_urn toy_request 60) 300 20 prepared_db = approved_db.
Proof.
  unfold after, run, finish. unfold mbind, txn_bind. rewrite approved_run. reflexivity.
Qed.

Lemma promoted_after :
  after toy_store (promote (Some toy_token)) 400 30 approved_db = promoted_db.
Proof. vm_compute. reflexivity. Qed.

Lemma installed_reachable : toy_reachable toy_install.
Proof.
  exists STORE_URN, [toy_key], [toy_genesis], toy_trust.
  apply reaches_here.
Qed.

Lemma approved_reachable : toy_reachable approved_db.
Proof.
  exists STORE_URN, [toy_key], [toy_genesis], toy_trust.
  rewrite <- approved_after, <- prepared_after, <- captured_after. do 3 apply reaches_step. apply reaches_here.
Qed.

Lemma approved_ok : db_ok approved_db.
Proof. apply reachable_ok, approved_reachable. Qed.

Lemma captured_reaches : toy_reaches (saved captured_conn) promoted_db.
Proof.
  rewrite <- promoted_after, <- approved_after, <- prepared_after. do 3 apply reaches_step. apply reaches_here.
Qed.

Lemma prepared_to_promoted : toy_reaches prepared_db promoted_db.
Proof.
  rewrite <- promoted_after, <- approved_after. do 2 apply reaches_step. apply reaches_here.
Qed.

Lemma promoted_reachable : toy_reachable promoted_db.
Proof.
  exists STORE_URN, [toy_key], [toy_genesis], toy_trust.
  rewrite <- promoted_after, <- approved_after, <- prepared_after, <- captured_after.
  do 4 apply reaches_step. apply reaches_here.
Qed.

Lemma prepared_reachable : toy_reachable prepared_db.
Proof.
  exists STORE_URN, [toy_key], [toy_genesis], toy_trust.
  rewrite <- prepared_after, <- captured_after. do 2 apply reaches_step. apply reaches_here.
Qed.

(** ** The guarantees on the concrete run *)
Lemma store_invariant_witness : toy_reachable promoted_db ∧ db_ok promoted_db.
Proof. split; [apply promoted_reachable|apply (store_invariant promoted_db), promoted_reachable]. Defined.

Lemma no_authority_without_approval_witness :
  match promoted_versions with
  | [v] => authorized (vr_event v) (the_authority promoted_db)
  | _ => False
  end.
Proof.
  unfold promoted_versions.
  apply (no_authority_without_approval promoted_db); [apply promoted_reachable| |by left].
  vm_compute. tauto.
Defined.

Lemma history_append_only_witness : extends prepared_db promoted_db.
Proof.
  apply (history_append_only prepared_db promoted_db); [apply prepared_reachable|apply prepared_to_promoted].
Defined.

Lemma generation_tracks_content_witness :
  generation (the_graph prepared_db) ≤ generation (the_graph promoted_db).
Proof.
  apply (generation_tracks_content prepared_db promoted_db);
    [apply prepared_reachable|apply prepared_to_promoted].
Defined.

Lemma one_head_per_node_witness :
  List.NoDup (map (λ nv, nd_id nv.1)
    (List.filter (λ nv, negb (bool_decide (governed (the_semantic promoted_db) (nd_id nv.1))))
       (current_rows None promoted_db))).
Proof. exact (proj2 (proj2 (one_head_per_node promoted_db None promoted_reachable))). Defined.

