(* ===== verification/Rollback.v ===== *)
(** * Failed writes

    What a write leaves behind when it raises: nothing, or the one pending
    mutation of a refusal that asks for an approval. *)
From S2P Require Import Prelude PyTime Urn Contracts Codec Unicode Retrieval Json Names.
From S2P Require Import Clock Capture Derive Tables Integrity Txn Approval Store Records.
From S2P Require Import Semantic Review Envelopes Bundles Relations Bitemporal Machine Scenario.

(** The refusal of [_consume_authority] without a token *)
Definition proposes (e : exn) (d d' : db) : Prop := ∃ row request,
  e = ValidationError ("E_AUTH_APPROVAL_REQUIRED approval_request=" +:+ canonical_bytes request) ∧
  loads (pm_request row) = Some request ∧ pm_status row = "pending" ∧ insert_prepared row d = Ok d'.

Definition undoes {A} (r : res A) (d d' : db) : Prop :=
  match r with Ok _ => True | Err e => d' = d ∨ proposes e d d' end.

(** Statements that change nothing, that commit nothing, and bodies that
    commit nothing before they are done but a refusal. *)
Definition idle {A} (m : txn A) : Prop := ∀ c, live (m c).2 = live c ∧ saved (m c).2 = saved c.
Definition silent {A} (m : txn A) : Prop := ∀ c, saved (m c).2 = saved c.
Definition atomic {A} (m : txn A) : Prop := ∀ c, live c = saved c →
  match (m c).1 with
  | Ok _ => saved (m c).2 = saved c
  | Err e => saved (m c).2 = saved c ∨ proposes e (saved c) (saved (m c).2)
  end.
Definition undone {A} (m : txn A) : Prop := ∀ c, undoes (m c).1 (saved c) (saved (m c).2).

Create HintDb rollback.

(** ** Idle statements *)
Lemma idle_ret {A} (a : A) : idle (mret a).
Proof. by intros c. Qed.
Lemma idle_raise {A} e : idle (raise (A := A) e).
Proof. by intros c. Qed.
Lemma idle_lift {A} (m : res A) : idle (lift m).
Proof. by intros c. Qed.
Lemma idle_guard b e : idle (guard b e).
Proof. by intros c. Qed.
Lemma idle_query {A} (f : db → A) : idle (query f).
Proof. by intros c. Qed.
Lemma idle_fresh `{env : environment} kind : idle (fresh kind).
Proof. by intros c. Qed.
Lemma idle_fresh_token `{env : environment} : idle fresh_token.
Proof. by intros c. Qed.
Lemma idle_now_ `{env : environment} : idle now_.
Proof. by intros c. Qed.

Lemma idle_bind {A B} (m : txn A) (f : A → txn B) : idle m → (∀ a, idle (f a)) → idle (m ≫= f).
Proof.
  intros Hm Hf c. destruct (Hm c) as [H1 H2]. unfold mbind, txn_bind.
  destruct (m c) as [[a|e] c']; simpl in *; [|done]. destruct (Hf a c') as [H3 H4]. by rewrite H3, H4.
Qed.

Lemma idle_if {A} (b : bool) (m m' : txn A) : idle m → idle m' → idle (if b then m else m').
Proof. by destruct b. Qed.
#[export] Hint Resolve idle_ret idle_raise idle_lift idle_guard idle_query idle_fresh idle_fresh_token
  idle_now_ idle_bind idle_if : rollback.

Lemma idle_read {A} (f : db → res A) : idle (read f).
Proof. unfold read. eauto with rollback. Qed.
Lemma idle_read_authority {A} (f : authority → res A) : idle (read_authority f).
Proof. unfold read_authority. eauto with rollback. Qed.
Lemma idle_utc_now `{env : environment} : idle utc_now.
Proof. unfold utc_now. eauto with rollback. Qed.
Lemma idle_fresh_versions `{env : environment} ids acc : idle (fresh_versions ids acc).
Proof. revert acc. induction ids; intros acc; simpl; eauto with rollback. Qed.
#[export] Hint Resolve idle_read idle_read_authority idle_utc_now idle_fresh_versions : rollback.

(** ** Silent statements *)
Lemma idle_silent {A} (m : txn A) : idle m → silent m.
Proof. intros H c. apply H. Qed.
Lemma silent_exec f : silent (exec f).
Proof. intros c. unfold exec. by destruct (f (live c)). Qed.
Lemma silent_update f : silent (update f).
Proof. intros c. unfold update. by destruct (f (live c)). Qed.
Lemma silent_bind {A B} (m : txn A) (f : A → txn B) : silent m → (∀ a, silent (f a)) → silent (m ≫= f).
Proof.
  intros Hm Hf c. specialize (Hm c). unfold mbind, txn_bind.
  destruct (m c) as [[a|e] c']; simpl in *; [|done]. by rewrite Hf.
Qed.
Lemma silent_for_all {A} (f : A → txn unit) l : (∀ x, silent (f x)) → silent (for_all f l).
Proof.
  intros Hf. induction l as [|x l IH]; simpl; [by intros c|]. apply silent_bind; [done|]. by intros _.
Qed.
Lemma silent_conflict {A} (m : txn A) msg : silent m → silent (conflict_on_integrity m msg).
Proof.
  intros Hm c. specialize (Hm c). unfold conflict_on_integrity. by destruct (m c) as [[a|e] c'].
Qed.
#[export] Hint Resolve idle_silent silent_exec silent_update silent_for_all silent_conflict : rollback.

(** Case analysis along a body, one statement at a time *)
Ltac silent_steps :=
  repeat lazymatch goal with
  | |- silent (mbind _ _) => apply silent_bind; [|intros ?]
  | |- silent (if ?b then _ else _) => destruct b
  | |- silent (match ?x with _ => _ end) => destruct x
  | |- silent _ => progress cbv zeta beta
  end; try solve [eauto with rollback].

Lemma silent_row f : silent (graph_exec f).
Proof. apply silent_exec. Qed.
#[export] Hint Resolve silent_row : rollback.

Lemma silent_insert_node_version v : silent (insert_node_version v).
Proof. unfold insert_node_version. silent_steps. Qed.
Lemma silent_insert_edge_version v : silent (insert_edge_version_row v).
Proof. unfold insert_edge_version_row. silent_steps. Qed.
Lemma silent_write_event id type op now valid payload prior status :
  silent (write_event id type op now valid payload prior status).
Proof. apply silent_row. Qed.
Lemma silent_write_node id type op event : silent (write_node id type op event).
Proof. apply silent_row. Qed.
Lemma silent_write_edge id type source target op event : silent (write_edge id type source target op event).
Proof. apply silent_row. Qed.
Lemma silent_close id now b : silent (close_node_version id now b).
Proof. apply silent_exec. Qed.
#[export] Hint Resolve silent_insert_node_version silent_insert_edge_version silent_write_event
  silent_write_node silent_write_edge silent_close : rollback.

(** ** Atomic bodies *)
Lemma atomic_silent {A} (m : txn A) : silent m → atomic m.
Proof. intros H c _. rewrite H. destruct (m c).1; auto. Qed.

Lemma atomic_idle {A B} (m : txn A) (f : A → txn B) :
  idle m → (∀ a, atomic (f a)) → atomic (m ≫= f).
Proof.
  intros Hm Hf c Hc. destruct (Hm c) as [H1 H2]. unfold mbind, txn_bind.
  destruct (m c) as [[a|e] c']; simpl in *; [|by left].
  rewrite <- H2. apply Hf. congruence.
Qed.

(** A step that may refuse, before statements that commit nothing *)
Lemma atomic_then {A B} (m : txn A) (f : A → txn B) :
  atomic m → (∀ a, silent (f a)) → atomic (m ≫= f).
Proof.
  intros Hm Hf c Hc. specialize (Hm c Hc). unfold mbind, txn_bind.
  destruct (m c) as [[a|e] c']; simpl in *; [|done]. rewrite (Hf a c').
  rewrite Hm. destruct (f a c').1; auto.
Qed.

Section consumption.
Context `{signing : crypto} `{env : environment}.

Lemma silent_load op command intent prior operator :
  silent (load_prepared_mutation op command intent prior operator).
Proof. unfold load_prepared_mutation. silent_steps. Qed.

Lemma silent_verify t expected operator : silent (verify_and_consume t expected operator).
Proof.
  unfold verify_and_consume. silent_steps.
  apply silent_conflict, silent_bind; intros; auto with rollback.
Qed.

Lemma silent_mark op id : silent (mark_prepared_executed op id).
Proof. unfold mark_prepared_executed. silent_steps. Qed.
Hint Resolve silent_load silent_verify silent_mark : rollback.

Lemma prepare_Ok command request intent prior execution operator c v c1 :
  prepare_mutation command request intent prior execution operator c = (Ok v, c1) →
  ∃ row, insert_prepared row (live c) = Ok (live c1) ∧ loads (pm_request row) = Some v ∧
    pm_status row = "pending".
Proof.
  unfold prepare_mutation. intros H. apply txn_bind_Ok in H as (u & c' & H1 & H). inv_txn.
  match goal with H : now_ _ = (Ok _, _) |- _ => injection H as <- <- end.
  match goal with H : conflict_on_integrity _ _ _ = (Ok _, _) |- _ =>
    unfold conflict_on_integrity, exec in H; simpl in H;
    destruct (insert_prepared _ _) as [d|e] eqn:E in H; [|by destruct (is_integrity e)]; injection H as _ <- end.
  eexists. split; [exact E|]. split; [|reflexivity]. simpl. unfold load_json in *.
  by destruct (loads _); simplify_eq.
Qed.

Lemma silent_prepare command request intent prior execution operator :
  silent (prepare_mutation command request intent prior execution operator).
Proof. unfold prepare_mutation. silent_steps. Qed.

Lemma refusal_atomic {A} command request intent prior execution operator :
  atomic (value ← prepare_mutation command request intent prior execution operator;
          commit ;; approval_required (A := A) value).
Proof.
  intros c Hc. pose proof (silent_prepare command request intent prior execution operator c) as Hs.
  unfold mbind, txn_bind. destruct (prepare_mutation _ _ _ _ _ _ c) as [[v|e] c'] eqn:E; simpl in *; [|by left].
  right. apply prepare_Ok in E as (row & Hrow & Hl & Hp). exists row, v. rewrite <- Hc. by split_and!.
Qed.

Lemma consume_atomic operator token dm : atomic (_consume_authority operator token dm).
Proof.
  unfold _consume_authority. destruct operator as [operator|]; [|by apply atomic_silent; eauto with rollback].
  apply atomic_idle; [auto with rollback|]. intros [t|].
  - apply atomic_silent. silent_steps.
  - apply atomic_idle; [auto with rollback|]. intros op. apply atomic_idle; [auto with rollback|].
    intros ex. apply refusal_atomic.
Qed.
Lemma execution_for_atomic s tier token refused dm : atomic (execution_for s tier token refused dm).
Proof.
  unfold execution_for. destruct (authoritative tier); [apply consume_atomic|].
  apply atomic_silent, idle_silent. auto with rollback.
Qed.

Lemma governed_execution_atomic s tiers token refused dm :
  atomic (governed_execution s tiers token refused dm).
Proof.
  unfold governed_execution. apply atomic_idle; [auto with rollback|]. intros [|]; [apply consume_atomic|].
  apply atomic_silent, idle_silent. auto with rollback.
Qed.
End consumption.

(** ** Operations *)
Lemma undone_connect {A} (body : txn A) : atomic body → undone (connect body).
Proof.
  intros H c. specialize (H (rollback c) eq_refl). unfold connect.
  by destruct (body (rollback c)) as [[a|e] c'].
Qed.

Lemma undone_idle {A B} (m : txn A) (f : A → txn B) : idle m → (∀ a, undone (f a)) → undone (m ≫= f).
Proof.
  intros Hm Hf c. destruct (Hm c) as [H1 H2]. unfold mbind, txn_bind.
  destruct (m c) as [[a|e] c']; simpl in *; [|by left]. rewrite <- H2. apply Hf.
Qed.

Lemma undone_ret_bind {A B} (m : txn A) (f : A → B) : undone m → undone (a ← m; mret (f a)).
Proof.
  intros Hm c. specialize (Hm c). unfold mbind, txn_bind. by destruct (m c) as [[a|e] c'].
Qed.

Ltac atomic_steps :=
  repeat lazymatch goal with
  | |- atomic (mbind _ (_consume_authority _ _ _)) => apply atomic_then; [apply consume_atomic|intros ?; silent_steps]
  | |- atomic (mbind _ (governed_execution _ _ _ _ _)) => apply atomic_then; [apply governed_execution_atomic|intros ?; silent_steps]
  | |- atomic (mbind _ (execution_for _ _ _ _ _)) => apply atomic_then; [apply execution_for_atomic|intros ?; silent_steps]
  | |- atomic (mbind _ _) =>
      first [apply atomic_idle; [solve [eauto with rollback]|intros ?]
            |apply atomic_silent; solve [silent_steps]]
  | |- atomic (if ?b then _ else _) => destruct b
  | |- atomic (match ?x with _ => _ end) => destruct x
  | |- atomic _ => first [progress cbv zeta beta | apply atomic_silent; solve [silent_steps]]
  end.

Ltac undone_steps :=
  repeat lazymatch goal with
  | |- undone (connect _) => apply undone_connect; cbv zeta beta
  | |- undone (mbind _ _) => apply undone_idle; [solve [eauto with rollback]|intros ?]
  | |- undone _ => progress cbv zeta beta
  end.

Section operations.
Context `{signing : crypto} `{env : environment} `{ucd : unicode_data} `{norm : normalization}.
Context `{lite : sqlite} (s : store).

Lemma idle_require_consent c valid : idle (require_consent c valid).
Proof.
  unfold require_consent. apply idle_if; [auto with rollback|]. apply idle_bind; [auto with rollback|].
  intros id. apply idle_bind; [auto with rollback|]. intros [[n v]|]; auto 15 with rollback.
Qed.

Lemma idle_semantic_actor ce actor label refused operator : idle (semantic_actor s ce actor label refused operator).
Proof. unfold semantic_actor. auto with rollback. Qed.

Lemma silent_advance action selected actor event now versions r :
  silent (advance_domain action selected actor event now versions r).
Proof. unfold advance_domain. silent_steps. Qed.

Lemma silent_deferral type event now x v : silent (write_deferral type event now x v).
Proof. unfold write_deferral. silent_steps. Qed.

Lemma silent_edge_for_event type source target operator event now evidence edge version :
  silent (_insert_edge_for_event type source target operator event now evidence edge version).
Proof. unfold _insert_edge_for_event. silent_steps. Qed.
Hint Resolve idle_require_consent idle_semantic_actor silent_advance silent_deferral silent_edge_for_event : rollback.

Lemma add_domain_undone id label description evidence operator actor valid token :
  undone (add_domain s id label description evidence operator actor valid token).
Proof. unfold add_domain. undone_steps. atomic_steps. Qed.

Lemma change_domain_undone id actor action token : undone (_change_domain_state s id actor action token).
Proof. unfold _change_domain_state. undone_steps. atomic_steps. Qed.

Lemma add_transition_undone relation source target reason evidence actor token :
  undone (add_transition s relation source target reason evidence actor token).
Proof. unfold add_transition. undone_steps. atomic_steps. Qed.

Lemma append_derived_undone type payload status tier evidence operator valid by_ model recipe :
  undone (append_derived_node s type payload status tier evidence operator valid by_ model recipe).
Proof. unfold append_derived_node. undone_steps. atomic_steps. Qed.

Lemma append_node_undone contract valid token : undone (append_semantic_node s contract valid token).
Proof.
  unfold append_semantic_node. undone_steps. atomic_steps.
Qed.

Lemma append_relation_undone contract valid token : undone (append_semantic_relation s contract valid token).
Proof. unfold append_semantic_relation. undone_steps. atomic_steps. Qed.

Lemma revoke_consent_undone grant operator reason at_ token : undone (revoke_consent s grant operator reason at_ token).
Proof. unfold revoke_consent. undone_steps. atomic_steps. Qed.

Lemma append_proposal_undone proposal : undone (append_proposal s proposal).
Proof. unfold append_proposal. undone_steps. atomic_steps. Qed.

Lemma authorize_successor_undone proposal contract operator valid reason token :
  undone (authorize_proposal_successor s proposal contract operator valid reason token).
Proof. unfold authorize_proposal_successor. undone_steps. atomic_steps. Qed.

Lemma ratify_node_undone id ratifier note token : undone (ratify_node s id ratifier note token).
Proof. unfold ratify_node, consume. undone_steps. atomic_steps. Qed.

Lemma correct_node_undone id contract corrector reason token :
  undone (correct_typed_node s id contract corrector reason token).
Proof. unfold correct_typed_node, consume. undone_steps. atomic_steps. Qed.

Lemma contest_node_undone id contestor reason token : undone (contest_typed_node s id contestor reason token).
Proof. unfold contest_typed_node, consume. undone_steps. atomic_steps. Qed.

Lemma review_edge_undone id action actor reason at_ token :
  undone (_review_semantic_edge s id action actor reason at_ token).
Proof. unfold _review_semantic_edge, consume. undone_steps. atomic_steps. Qed.

Lemma reject_node_undone id rejector reason token : undone (reject_node s id rejector reason token).
Proof. unfold reject_node, consume. undone_steps. atomic_steps. Qed.

Lemma defer_node_undone id reviewer reason at_ token : undone (defer_node s id reviewer reason at_ token).
Proof. unfold defer_node, consume. undone_steps. atomic_steps. Qed.

Lemma verdict_evidence_undone id content actor locator type update token :
  undone (_append_verdict_evidence s id content actor locator type update token).
Proof. unfold _append_verdict_evidence, consume. undone_steps. atomic_steps. Qed.

Lemma tombstone_node_undone id reason token : undone (tombstone_node s id reason token).
Proof. unfold tombstone_node, consume. undone_steps. atomic_steps. Qed.

(** *** Governed writes *)
Lemma idle_references en pending bytes at_ : idle (_validate_v31_references en pending bytes at_).
Proof.
  unfold _validate_v31_references. apply idle_bind; [auto with rollback|]. intros _.
  apply idle_bind; [auto with rollback|]. intros [consent|]; apply idle_bind; auto with rollback.
  apply idle_bind; [by destruct at_; auto with rollback|auto with rollback].
Qed.
Hint Resolve idle_references : rollback.

Lemma idle_check_items values bytes l : idle (for_all (check_item values bytes) l).
Proof.
  induction l as [|en l IH]; simpl; [auto with rollback|]. apply idle_bind; [|auto].
  unfold check_item. auto with rollback.
Qed.

Lemma idle_fresh_events versions acc : idle (fresh_events versions acc).
Proof. revert acc. induction versions; intros acc; simpl; eauto with rollback. Qed.

Lemma idle_fresh_list n : idle (fresh_list n).
Proof. induction n; simpl; eauto with rollback. Qed.

Lemma silent_write_envelope type operator prior en event now :
  silent (write_envelope type operator prior en event now).
Proof. unfold write_envelope, put_semantic. silent_steps. Qed.

Lemma silent_write_head b subject en : silent (write_head b subject en).
Proof. unfold write_head. silent_steps. Qed.

Lemma silent_put_successor h evidence now event x : silent (put_successor h evidence now event x).
Proof. destruct x as [[[? ?] ?] ?]. unfold put_successor. auto with rollback. Qed.

Lemma silent_put_envelope h provenance actor role now contested x :
  silent (put_successor_envelope h provenance actor role now contested x).
Proof. destruct x as [[[? ?] ?] ?]. apply silent_exec. Qed.
Hint Resolve idle_check_items idle_fresh_events idle_fresh_list silent_write_envelope silent_write_head
  silent_put_successor silent_put_envelope : rollback.

Lemma silent_write_item operator now events bytes en : silent (write_item operator now events bytes en).
Proof. unfold write_item, write_artifact. silent_steps. Qed.

Lemma silent_write_relation type r content payload qualifier event now :
  silent (write_relation type r content payload qualifier event now).
Proof. unfold write_relation. silent_steps. Qed.

Lemma silent_write_assessment b type operator parent pending a event now :
  silent (write_assessment b type operator parent pending a event now).
Proof. unfold write_assessment. silent_steps. Qed.
Hint Resolve silent_write_item silent_write_relation silent_write_assessment : rollback.

Lemma silent_write_assessments operator parent pending now l ids :
  silent (write_assessments operator parent pending now l ids).
Proof. revert ids. induction l; intros [|id ids]; simpl; silent_steps. Qed.

Lemma silent_contest_successor h cg evidence actor role contested now event x :
  silent (contest_successor h cg evidence actor role contested now event x).
Proof. unfold contest_successor. silent_steps. Qed.
Hint Resolve silent_write_assessments silent_contest_successor : rollback.

Lemma append_bundle_undone envelopes bytes token : undone (append_ontology_bundle s envelopes bytes token).
Proof. unfold append_ontology_bundle. undone_steps. atomic_steps. Qed.
Hint Resolve append_bundle_undone : rollback.

Lemma append_governed_undone envelope bytes token : undone (append_ontology_node s envelope bytes token).
Proof.
  unfold append_ontology_node. apply undone_idle; [auto with rollback|]. intros blobs.
  apply (undone_ret_bind _ (λ versions, hd "" versions)). auto with rollback.
Qed.

Lemma append_business_undone envelope token : undone (append_business_relation s envelope token).
Proof. unfold append_business_relation. undone_steps. atomic_steps. Qed.

Lemma append_contradiction_undone envelope assessment token :
  undone (append_ontology_contradiction s envelope assessment token).
Proof. unfold append_ontology_contradiction. undone_steps. atomic_steps. Qed.

Lemma correct_version_undone record scope from payload event carry corrected evidence actor role assessment token :
  undone (correct_ontology_version s record scope from payload event carry corrected evidence actor role
            assessment token).
Proof.
  unfold correct_ontology_version, write_change_event. destruct assessment; undone_steps; atomic_steps.
Qed.

Lemma contest_version_undone record scope contested event preserved competing payload evidence actor role
    assessments token :
  undone (contest_ontology_version s record scope contested event preserved competing payload evidence
            actor role assessments token).
Proof. unfold contest_ontology_version, write_change_event. undone_steps. atomic_steps. Qed.

(** *** Intake and the ceremony *)
Lemma silent_insert_node id type payload envelope event now :
  silent (_insert_node id type payload envelope event now).
Proof. unfold _insert_node. silent_steps. Qed.
Lemma silent_insert_edge type source target envelope event now :
  silent (_insert_edge type source target envelope event now).
Proof. unfold _insert_edge. silent_steps. Qed.
Hint Resolve silent_insert_node silent_insert_edge : rollback.

Lemma silent_evidence verdict envelope event now value : silent (insert_evidence verdict envelope event now value).
Proof. unfold insert_evidence. silent_steps. Qed.
Lemma silent_choices type verdict ids envelope event now : silent (choice_edges type verdict ids envelope event now).
Proof. apply silent_for_all. intros v. silent_steps. Qed.
Hint Resolve silent_evidence silent_choices : rollback.

Lemma silent_capture value path : silent (_apply_capture_on_connection s value path).
Proof. unfold _apply_capture_on_connection, write_capture. silent_steps. Qed.

Lemma apply_capture_undone value path : undone (apply_capture s value path).
Proof.
  intros c. pose proof (undone_connect _ (atomic_silent _ (silent_capture value path)) c) as H.
  unfold apply_capture. destruct (connect _ c) as [[a|e] c'] eqn:E; [done|]. left.
  unfold connect in E. pose proof (silent_capture value path (rollback c)) as Hs.
  destruct (_apply_capture_on_connection s value path (rollback c)) as [[a|e'] c2]; [discriminate|].
  by injection E as _ <-.
Qed.

Lemma approve_undone operator r ttl : undone (approve_challenge operator r ttl).
Proof.
  unfold approve_challenge. undone_steps. atomic_steps.
  unfold issue_challenge, build_challenge. apply atomic_silent. silent_steps.
Qed.
Hint Resolve add_domain_undone change_domain_undone add_transition_undone append_derived_undone
  append_node_undone append_relation_undone revoke_consent_undone append_proposal_undone
  authorize_successor_undone ratify_node_undone correct_node_undone contest_node_undone
  review_edge_undone reject_node_undone defer_node_undone verdict_evidence_undone
  tombstone_node_undone apply_capture_undone approve_undone append_bundle_undone
  append_governed_undone append_business_undone append_contradiction_undone correct_version_undone
  contest_version_undone : rollback.

Lemma add_reason_undone verdict reason actor locator token :
  undone (add_reason s verdict reason actor locator token).
Proof. unfold add_reason. apply undone_idle; [auto with rollback|intros _]. auto with rollback. Qed.

Lemma reinforce_undone verdict text actor locator token :
  undone (reinforce_verdict s verdict text actor locator token).
Proof. unfold reinforce_verdict. apply undone_idle; [auto with rollback|intros _]. auto with rollback. Qed.
Hint Resolve add_reason_undone reinforce_undone : rollback.

Lemma undone_finish {A} (m : txn A) : undone m → undone (finish m).
Proof. apply (undone_ret_bind m (λ _, tt)). Qed.

Definition is_batch (c : command) : bool := match c with ApplyCaptureBatch _ _ => true | _ => false end.

Lemma run_undone c : is_batch c = false → undone (run s c).
Proof.
  destruct c; try discriminate; intros _; simpl; apply undone_finish;
    unfold ratify_edge, defer_edge, reject_edge; eauto with rollback.
Qed.

(** A group commits nothing; the groups before one that fails are committed. *)
Lemma silent_group items : silent (capture_group s items).
Proof.
  induction items as [|[value path] items IH]; simpl; [by intros c|].
  apply silent_bind; [|intros r; apply silent_bind; [|intros o; apply silent_bind; [done|by intros os c]]].
  - intros c. unfold savepoint. pose proof (silent_capture value path c) as H.
    by destruct (_apply_capture_on_connection s value path c) as [[a|e] c'].
  - unfold batch_outcome. intros c. by repeat case_match.
Qed.

Lemma groups_fuel fuel fuel' size items c : (length items ≤ fuel)%nat → (length items ≤ fuel')%nat → (0 < size)%nat →
  capture_groups fuel s size items c = capture_groups fuel' s size items c.
Proof.
  intros H H' Hs. revert fuel' items c H H'. induction fuel as [|fuel IH]; intros [|fuel'] items c H H'.
  - done.
  - by destruct items; [|simpl in H; lia].
  - by destruct items; [|simpl in H'; lia].
  - destruct items as [|i items]; [done|]. simpl. unfold mbind, txn_bind.
    destruct (capture_group s _ c) as [[os|e] c1]; [|done]. cbv beta iota. unfold commit. cbv beta iota.
    rewrite (IH fuel'); [done|rewrite length_skipn; simpl in *; lia|rewrite length_skipn; simpl in *; lia].
Qed.

Lemma groups_fail size fuel : (0 < size)%nat → ∀ items c e c1, (length items ≤ fuel)%nat → live c = saved c →
  capture_groups fuel s size items c = (Err e, c1) →
  ∃ k os c2, (k * size < length items)%nat ∧
    capture_groups fuel s size (firstn (k * size) items) c = (Ok os, c2) ∧
    live c2 = saved c2 ∧ saved c1 = saved c2.
Proof.
  intros Hs. induction fuel as [|fuel IH]; intros items c e c1 Hl Hc H; [by destruct items|].
  destruct items as [|i items]; [done|]. simpl in H. unfold mbind, txn_bind in H.
  pose proof (silent_group (firstn size (i :: items)) c) as Hg.
  destruct (capture_group s (firstn size (i :: items)) c) as [[os|x] c'] eqn:Eg; cbn in Hg.
  2: { injection H as _ <-. exists 0%nat, [], c. simpl. split_and!; [lia|done|done|done]. }
  cbv beta iota in H. unfold commit in H. cbv beta iota in H.
  destruct (capture_groups fuel s size (skipn size (i :: items)) _) as [[rest|x] c2] eqn:Er; [discriminate|].
  injection H as _ <-. apply IH in Er as (k & os2 & c3 & Hk & E & E1 & E2);
    [|rewrite length_skipn; simpl in *; lia|done].
  exists (S k), (os ++ os2), c3. rewrite length_skipn in Hk. split; [lia|]. split; [|done].
  change (S k * size)%nat with (size + k * size)%nat.
  destruct (firstn (size + k * size) (i :: items)) as [|j js] eqn:Ef.
  { apply (f_equal (@length _)) in Ef. rewrite length_firstn in Ef. simpl in *. lia. }
  assert (firstn size (j :: js) = firstn size (i :: items)) as E3.
  { rewrite <- Ef, firstn_firstn. f_equal. lia. }
  assert (skipn size (j :: js) = firstn (k * size) (skipn size (i :: items))) as E4.
  { rewrite <- Ef, skipn_firstn_comm. f_equal. lia. }
  simpl capture_groups. rewrite E3, E4. unfold mbind, txn_bind. rewrite Eg. unfold commit. cbv beta iota. by rewrite E.
Qed.

(** The first groups of a batch, as a batch *)
Definition groups_before (k : nat) (items : list (json * string)) (size : Z) : command :=
  ApplyCaptureBatch (firstn (k * Z.to_nat size) items) size.

Lemma batch_undone items size d n t e : (run s (ApplyCaptureBatch items size) (open_on d n t)).1 = Err e →
  after s (ApplyCaptureBatch items size) n t d = d ∨
  ∃ k, (k * Z.to_nat size < length items)%nat ∧
    (run s (groups_before k items size) (open_on d n t)).1 = Ok tt ∧
    after s (ApplyCaptureBatch items size) n t d = after s (groups_before k items size) n t d.
Proof.
  unfold after, groups_before. simpl run. unfold finish, apply_capture_batch. unfold guard.
  destruct (negb _) eqn:Hb; [by left|].
  apply negb_false_iff, andb_true_iff in Hb as [Hb _]. unfold mbind, txn_bind, lift, raise_if. cbv beta iota.
  unfold connect. change (rollback (open_on d n t)) with (open_on d n t).
  destruct (capture_groups (length items) s _ items (open_on d n t)) as [[os|x] c1] eqn:E; [discriminate|]. intros _.
  apply groups_fail in E as (k & os & c2 & Hk & E & El & Es); [|lia|done|done]. right. exists k. split; [done|].
  rewrite (groups_fuel _ (length items)); [|lia|rewrite length_firstn; lia|lia]. rewrite E. cbn. by rewrite El, Es.
Qed.

(** C6: A failed write leaves nothing behind.  When a command raises, the
    committed database is exactly what it was, or the error is the refusal that
    asks for an approval and the only change is the one pending prepared mutation
    that the error message quotes, or the command is a batch of captures of which
    some groups were already committed: then it is exactly what a batch of those
    groups alone, a proper prefix of the items, commits, and that batch returns. *)
Theorem failed_write_rolls_back c d n t e :
  (run s c (open_on d n t)).1 = Err e →
  after s c n t d = d ∨ proposes e d (after s c n t d) ∨
  ∃ items size k, c = ApplyCaptureBatch items size ∧ (k * Z.to_nat size < length items)%nat ∧
    (run s (groups_before k items size) (open_on d n t)).1 = Ok tt ∧
    after s c n t d = after s (groups_before k items size) n t d.
Proof.
  intros He. destruct (is_batch c) eqn:Hb.
  - destruct c; try discriminate Hb. destruct (batch_undone _ _ _ _ _ _ He) as [H|(k & H)]; [by left|].
    right. right. by exists items, size, k.
  - pose proof (run_undone c Hb (open_on d n t)) as H. rewrite He in H. destruct H as [H|H]; [by left|by right; left].
Qed.
End operations.

Lemma failed_write_rolls_back_witness :
  match (run toy_store (promote None) (open_on (saved captured_conn) 200 10)).1 with
  | Err e => prepared_db = saved captured_conn ∨ proposes e (saved captured_conn) prepared_db ∨
      ∃ items size k, promote None = ApplyCaptureBatch items size ∧ (k * Z.to_nat size < length items)%nat ∧
        (run toy_store (groups_before k items size) (open_on (saved captured_conn) 200 10)).1 = Ok tt ∧
        prepared_db = after toy_store (groups_before k items size) 200 10 (saved captured_conn)
  | Ok _ => False
  end.
Proof.
  rewrite <- prepared_after.
  destruct (run toy_store (promote None) (open_on (saved captured_conn) 200 10)).1 as [u|e] eqn:E.
  - exfalso. revert E. vm_compute. discriminate.
  - exact (failed_write_rolls_back toy_store (promote None) (saved captured_conn) 200 10 e E).
Defined.

