(* ===== verification/Intake.v ===== *)
(** * Capture intake, functionally ([apply_capture], [apply_capture_batch])

    What a capture that is new writes, that a replay writes nothing, and that
    a batch is the sequence of its captures. *)
From S2P Require Import Prelude PyTime Urn Contracts Codec Unicode Retrieval Json Names.
From S2P Require Import Clock Capture Derive Tables Integrity Txn Approval Store Records.
From S2P Require Import Semantic Review Safety Machine Scenario.

(** ** The reference: what the envelope decides before the store is read *)
Record capture_head : Type := {
  cap_envelope : obj; cap_operator : string; cap_event : string; cap_text : string
}.

Definition read_head (s : store) (value : json) : res capture_head :=
  envelope ← validate_capture_envelope value;
  operator ← text_item "operator_id" envelope;
  raise_if (differs (expected_operator_id s) operator)
    (ValidationError "capture operator does not match the configured canonical operator") ;;
  node ← text_item "node_id" envelope;
  raise_if (differs (expected_node_id s) node)
    (ValidationError "capture node does not match the configured producer node") ;;
  event_id ← text_item "input_event_id" envelope;
  verdict ← obj_item "verdict" envelope;
  text ← text_item "raw_operator_text" verdict;
  Ok {| cap_envelope := envelope; cap_operator := operator; cap_event := event_id; cap_text := text |}.

(** The records of an envelope: identifier, type and payload of its nodes, and
    type and ends of its edges *)
Definition record : Type := string * string * obj.
Definition link : Type := string * string * string.

Definition evidence_record (value : json) : res record :=
  m ← obj_of value; id ← text_item "evidence_id" m; Ok (id, "Evidence", m).

Definition capture_records (envelope : obj) : res (list record) :=
  case ← obj_item "case" envelope;
  verdict ← obj_item "verdict" envelope;
  call ← obj_item "call" verdict;
  case_id ← text_item "case_id" case;
  verdict_id ← text_item "verdict_id" verdict;
  call_id ← text_item "call_id" call;
  evidence ← list_item "evidence" envelope;
  supports ← map_res evidence_record evidence;
  items ← default_list "alternatives" envelope;
  alternatives ← fold_res by_alternative [] items;
  Ok ([(case_id, "Case", case); (verdict_id, "Verdict", verdict); (call_id, "Call", call)] ++
      supports ++ map (λ kv, (kv.1, "Alternative", kv.2)) alternatives).

Definition choices (type verdict_id : string) (ids : list json) : res (list link) :=
  map_res (λ v, id ← text_of v; Ok (type, verdict_id, id)) ids.

Definition capture_links (envelope : obj) : res (list link) :=
  case ← obj_item "case" envelope;
  verdict ← obj_item "verdict" envelope;
  call ← obj_item "call" verdict;
  case_id ← text_item "case_id" case;
  verdict_id ← text_item "verdict_id" verdict;
  call_id ← text_item "call_id" call;
  evidence ← list_item "evidence" envelope;
  supports ← map_res evidence_record evidence;
  chosen ← default_list "chosen_alternative_ids" verdict;
  chose ← choices "chose_alternative" verdict_id chosen;
  rejected ← default_list "rejected_alternative_ids" verdict;
  refused ← choices "rejected_alternative" verdict_id rejected;
  Ok ([("verdict_about_case", verdict_id, case_id); ("made_call", verdict_id, call_id)] ++
      map (λ r : record, ("supported_by", verdict_id, r.1.1)) supports ++ chose ++ refused).

(** ** What a run adds to the graph *)
Definition node_of (operator event : string) (r : record) : node_row :=
  {| nd_id := r.1.1; nd_type := r.1.2; nd_operator := operator; nd_event := event |}.

(** The content of a first version: open, a candidate, with canonical bytes *)
Definition content_of (event : string) (r : record) : string * string * (string * string) * string * option string :=
  (r.1.1, canonical_bytes (JObj r.2), ("captured", "observed_candidate"), event, None).
Definition version_content (v : version_row) : string * string * (string * string) * string * option string :=
  (vr_owner v, vr_payload v, (vr_status v, vr_tier v), vr_event v, vr_system_to v).
Definition link_of (e : edge_row) : link := (ed_type e, ed_source e, ed_target e).

Record adds (operator event : string) (ns : list record) (ls : list link) (d e : db) : Prop := {
  ad_nodes : nodes (the_graph e) = nodes (the_graph d) ++ map (node_of operator event) ns;
  ad_versions : map version_content (node_versions (the_graph e)) =
                map version_content (node_versions (the_graph d)) ++ map (content_of event) ns;
  ad_links : map link_of (edges (the_graph e)) = map link_of (edges (the_graph d)) ++ ls
}.

Section adds.
Context (operator event : string).

Lemma adds_nil d e : the_graph e = the_graph d → adds operator event [] [] d e.
Proof. intros E. split; rewrite E; by rewrite app_nil_r. Qed.

Lemma adds_app ns ls ns' ls' a b c :
  adds operator event ns ls a b → adds operator event ns' ls' b c →
  adds operator event (ns ++ ns') (ls ++ ls') a c.
Proof.
  intros [N1 V1 L1] [N2 V2 L2]. split.
  - by rewrite N2, N1, map_app, app_assoc.
  - by rewrite V2, V1, map_app, app_assoc.
  - by rewrite L2, L1, app_assoc.
Qed.
End adds.

Section intake.
Context `{env : environment} `{ucd : unicode_data} `{norm : normalization}.

Lemma fresh_live kind c id c1 : fresh kind c = (Ok id, c1) → live c1 = live c ∧ saved c1 = saved c.
Proof. unfold fresh. by intros [= _ <-]. Qed.

Lemma graph_exec_Ok f c u c1 :
  graph_exec f c = (Ok u, c1) → ∃ g, f (the_graph (live c)) = Ok g ∧ c1 = with_live (with_graph g (live c)) c.
Proof.
  unfold graph_exec. intros H. apply exec_Ok in H as (d & H & ->). unfold on_graph in H. inv_ok. eauto.
Qed.

Lemma write_node_Ok id type op event c u c1 :
  write_node id type op event c = (Ok u, c1) →
  live c1 = with_graph {| events := events (the_graph (live c)); subjects := subjects (the_graph (live c));
    nodes := nodes (the_graph (live c)) ++ [{| nd_id := id; nd_type := type; nd_operator := op; nd_event := event |}];
    node_versions := node_versions (the_graph (live c)); edges := edges (the_graph (live c));
    edge_versions := edge_versions (the_graph (live c)); generation := generation (the_graph (live c)) + 1 |} (live c).
Proof.
  intros H. apply graph_exec_Ok in H as (g & H & ->). unfold insert_node in H. by inv_ok.
Qed.

Lemma write_edge_Ok id type source target op event c u c1 :
  write_edge id type source target op event c = (Ok u, c1) →
  nodes (the_graph (live c1)) = nodes (the_graph (live c)) ∧
  node_versions (the_graph (live c1)) = node_versions (the_graph (live c)) ∧
  map link_of (edges (the_graph (live c1))) = map link_of (edges (the_graph (live c))) ++ [(type, source, target)].
Proof.
  intros H. apply graph_exec_Ok in H as (g & H & ->). unfold insert_edge in H. inv_ok. simpl.
  split_and!; [done..|]. by rewrite map_app.
Qed.

Lemma insert_node_version_Ok v c u c1 :
  insert_node_version v c = (Ok u, c1) →
  nodes (the_graph (live c1)) = nodes (the_graph (live c)) ∧
  edges (the_graph (live c1)) = edges (the_graph (live c)) ∧
  node_versions (the_graph (live c1)) = node_versions (the_graph (live c)) ++ [v].
Proof.
  unfold insert_node_version. intros H. inv_txn. apply graph_exec_Ok in H as (g & H & ->).
  unfold insert_version in H. by inv_ok.
Qed.

Lemma insert_edge_version_Ok v c u c1 :
  insert_edge_version_row v c = (Ok u, c1) →
  nodes (the_graph (live c1)) = nodes (the_graph (live c)) ∧
  edges (the_graph (live c1)) = edges (the_graph (live c)) ∧
  node_versions (the_graph (live c1)) = node_versions (the_graph (live c)).
Proof.
  unfold insert_edge_version_row. intros H. inv_txn. apply graph_exec_Ok in H as (g & H & ->).
  unfold insert_edge_version in H. by inv_ok.
Qed.

Lemma insert_node_adds operator id type payload envelope event now c u c1 :
  _insert_node id type payload envelope event now c = (Ok u, c1) →
  text_item "operator_id" envelope = Ok operator →
  adds operator event [(id, type, payload)] [] (live c) (live c1).
Proof.
  unfold _insert_node. intros H Ho. inv_txn.
  match goal with H : write_node _ _ _ _ _ = _ |- _ => apply write_node_Ok in H as Hn end.
  match goal with H : fresh _ _ = _ |- _ => apply fresh_live in H as [Hf _] end.
  apply insert_node_version_Ok in H as (Hns & Hes & Hvs). rewrite Hf, Hn in Hns, Hes, Hvs. simpl in *. assert (x = operator) as -> by congruence. split.
  - done.
  - by rewrite Hvs, map_app.
  - by rewrite Hes, app_nil_r.
Qed.

Lemma insert_edge_adds operator type source target envelope event now c u c1 :
  _insert_edge type source target envelope event now c = (Ok u, c1) →
  adds operator event [] [(type, source, target)] (live c) (live c1).
Proof.
  unfold _insert_edge. intros H. inv_txn.
  match goal with H : fresh "edge" _ = _ |- _ => apply fresh_live in H as [Hf _] end.
  match goal with H : fresh "edge-version" _ = _ |- _ => apply fresh_live in H as [Hf' _] end.
  match goal with H : write_edge _ _ _ _ _ _ _ = _ |- _ => apply write_edge_Ok in H as (E1 & E2 & E3) end.
  apply insert_edge_version_Ok in H as (Hns & Hes & Hvs). rewrite Hf' in Hns, Hes, Hvs. rewrite Hf in E1, E2, E3. split.
  - by rewrite Hns, E1, app_nil_r.
  - by rewrite Hvs, E2, app_nil_r.
  - by rewrite Hes, E3.
Qed.

Lemma insert_evidence_adds operator verdict envelope event now value c u c1 :
  insert_evidence verdict envelope event now value c = (Ok u, c1) →
  text_item "operator_id" envelope = Ok operator →
  ∃ r, evidence_record value = Ok r ∧
    adds operator event [r] [("supported_by", verdict, r.1.1)] (live c) (live c1).
Proof.
  unfold insert_evidence. intros H Ho. inv_txn.
  match goal with H : obj_of value = Ok ?m, H' : text_item "evidence_id" ?m = Ok ?id |- _ =>
    exists (id, "Evidence", m); unfold evidence_record; rewrite H; simpl; rewrite H' end.
  split; [done|]. simpl.
  match goal with H : _insert_node _ _ _ _ _ _ _ = _ |- _ => apply (insert_node_adds operator) in H as Hn; [|done] end.
  match goal with H : _insert_edge _ _ _ _ _ _ _ = _ |- _ => apply (insert_edge_adds operator) in H as He end.
  pose proof (adds_app _ _ _ _ _ _ _ _ _ Hn He) as Ha.
  match goal with H : insert_receipt _ _ = Ok _ |- _ => unfold insert_receipt in H; inv_ok end.
  destruct Ha. by split.
Qed.

Lemma choice_edges_adds operator type verdict ids envelope event now c u c1 :
  choice_edges type verdict ids envelope event now c = (Ok u, c1) →
  ∃ ls, choices type verdict ids = Ok ls ∧ adds operator event [] ls (live c) (live c1).
Proof.
  unfold choice_edges, choices. revert c. induction ids as [|v ids IH]; simpl; intros c H; inv_txn.
  - exists []. split; [done|]. by apply adds_nil.
  - match goal with H : text_of v = Ok _ |- _ => rewrite H end. simpl.
    apply IH in H as (ls & Hls & Hr). rewrite Hls. simpl. eexists. split; [reflexivity|].
    match goal with H : _insert_edge _ _ _ _ _ _ _ = _ |- _ => apply (insert_edge_adds operator) in H as He end.
    apply (adds_app _ _ _ _ _ _ _ _ _ He Hr).
Qed.

Lemma evidence_adds operator verdict envelope event now values c u c1 :
  for_all (insert_evidence verdict envelope event now) values c = (Ok u, c1) →
  text_item "operator_id" envelope = Ok operator →
  ∃ rs, map_res evidence_record values = Ok rs ∧
    adds operator event rs (map (λ r : record, ("supported_by", verdict, r.1.1)) rs) (live c) (live c1).
Proof.
  intros H Ho. revert c H. induction values as [|v vs IH]; simpl; intros c H; inv_txn.
  - exists []. split; [done|]. by apply adds_nil.
  - match goal with H : insert_evidence _ _ _ _ _ _ = _ |- _ =>
      apply (insert_evidence_adds operator) in H as (r & Hr & Ha); [|done] end.
    apply IH in H as (rs & Hrs & Hb). rewrite Hr, Hrs. simpl. eexists. split; [reflexivity|].
    apply (adds_app _ _ _ _ _ _ _ _ _ Ha Hb).
Qed.

Lemma alternatives_adds operator (kvs : list (string * obj)) envelope event now c u c1 :
  for_all (λ kv, _insert_node kv.1 "Alternative" kv.2 envelope event now) kvs c = (Ok u, c1) →
  text_item "operator_id" envelope = Ok operator →
  adds operator event (map (λ kv, (kv.1, "Alternative", kv.2)) kvs) [] (live c) (live c1).
Proof.
  intros H Ho. revert c H. induction kvs as [|kv kvs IH]; simpl; intros c H; inv_txn.
  - by apply adds_nil.
  - match goal with H : _insert_node _ _ _ _ _ _ _ = _ |- _ => apply (insert_node_adds operator) in H as Hn; [|done] end.
    apply IH in H. apply (adds_app _ _ _ _ _ _ _ _ _ Hn H).
Qed.

Lemma adds_eq operator event ns ls ns' ls' d e :
  adds operator event ns ls d e → ns = ns' → ls = ls' → adds operator event ns' ls' d e.
Proof. by intros H -> ->. Qed.

(** Compose the steps of a run in the order they were made. *)
Ltac chain_adds :=
  repeat match goal with
  | A : adds ?o ?e _ _ ?a ?b, B : adds ?o ?e _ _ ?b ?c |- _ =>
      let C := fresh "C" in pose proof (adds_app o e _ _ _ _ a b c A B) as C; clear A B
  end.

Ltac replay_reads :=
  repeat match goal with H : ?x = Ok _ |- context [?x] => rewrite H; cbn [mbind res_bind] end.

Lemma write_capture_adds operator value envelope event hash content now path c u c1 :
  write_capture value envelope event operator hash content now path c = (Ok u, c1) →
  text_item "operator_id" envelope = Ok operator →
  ∃ ns ls, capture_records envelope = Ok ns ∧ capture_links envelope = Ok ls ∧
    adds operator event ns ls (live c) (live c1).
Proof.
  unfold write_capture. intros H Ho. inv_txn.
  match goal with H : graph_exec (insert_event _) _ = (_, ?c2) |- _ =>
    assert (adds operator event [] [] (live c) (live c2)) as He by
      (apply graph_exec_Ok in H as (g & Hg & ->); unfold insert_event in Hg; inv_ok; split; simpl; by rewrite app_nil_r);
    clear H end.
  repeat match goal with
  | H : _insert_node _ _ _ _ _ _ _ = _ |- _ => apply (insert_node_adds operator) in H; [|done]
  | H : _insert_edge _ _ _ _ _ _ _ = _ |- _ => apply (insert_edge_adds operator) in H
  | H : for_all (insert_evidence _ _ _ _) _ _ = _ |- _ =>
      apply (evidence_adds operator) in H as (rs & Hrs & H); [|done]
  | H : for_all (λ kv, _insert_node _ _ _ _ _ _) _ _ = _ |- _ => apply (alternatives_adds operator) in H; [|done]
  end.
  match goal with H : choice_edges "chose_alternative" _ _ _ _ _ _ = _ |- _ =>
    apply (choice_edges_adds operator) in H as (ls1 & Hls1 & H) end.
  match goal with H : choice_edges "rejected_alternative" _ _ _ _ _ _ = _ |- _ =>
    apply (choice_edges_adds operator) in H as (ls2 & Hls2 & H) end.
  chain_adds. do 2 eexists. unfold capture_records, capture_links. replay_reads.
  split_and!; [reflexivity..|]. unfold insert_consumed, insert_dedup in *. inv_ok. simpl.
  match goal with C : adds _ _ _ _ _ _ |- _ => destruct C as [Cn Cv Cl] end.
  simpl in Cn, Cv, Cl. split; simpl; [rewrite Cn|rewrite Cv|rewrite Cl]; by rewrite ?app_nil_r, ?app_nil_l.
Qed.
End intake.

(** ** What a capture leaves in the tables of the intake *)
Definition event_stored (event operator : string) (value : json) (d : db) : Prop :=
  ∃ e, In e (events (the_graph d)) ∧ ev_id e = event ∧ ev_type e = "captured" ∧
    ev_operator e = operator ∧ ev_payload e = canonical_bytes value ∧ ev_sha e = payload_sha256 value.

Definition input_recorded (event sha : string) (d : db) : Prop :=
  ∃ r, In r (consumed (the_intake d)) ∧ cs_event r = event ∧ cs_sha r = sha.

Definition feedback_recorded (operator sha event : string) (d : db) : Prop :=
  ∃ r, In r (dedup (the_intake d)) ∧ dd_operator r = operator ∧ dd_sha r = sha ∧ dd_event r = event.

Lemma event_stored_durable event operator value : durable (event_stored event operator value).
Proof.
  intros d e Hx (v & Hv & H). exists v. split; [|done].
  by apply (advances_eq_In _ _ _ (gx_events _ _ (xt_graph _ _ Hx))).
Qed.

Lemma input_recorded_durable event sha : durable (input_recorded event sha).
Proof.
  intros d e Hx (r & Hr & H). exists r. split; [|done]. by apply (advances_eq_In _ _ _ (xt_consumed _ _ Hx)).
Qed.

Lemma feedback_recorded_durable operator sha event : durable (feedback_recorded operator sha event).
Proof.
  intros d e Hx (r & Hr & H). exists r. split; [|done]. by apply (advances_eq_In _ _ _ (xt_dedup _ _ Hx)).
Qed.
#[export] Hint Resolve event_stored_durable input_recorded_durable feedback_recorded_durable : steady.

Section recorded.
Context `{signing : crypto} `{env : environment} `{ucd : unicode_data} `{norm : normalization}.
Context (d0 : db) (s : store).

Definition captured_facts (event operator content : string) (value : json) (d : db) : Prop :=
  (event_stored event operator value d ∧ input_recorded event (payload_sha256 value) d) ∧
  feedback_recorded operator content event d.

Hint Resolve _insert_node_spec _insert_edge_spec insert_evidence_spec choice_edges_spec hoare_for_all : hoare.

Lemma insert_consumed_records (P : db → Prop) r :
  steady P →
  hoare d0 P (exec (insert_consumed r)) (λ _ d, P d ∧ input_recorded (cs_event r) (cs_sha r) d).
Proof.
  intros HP. apply hoare_exec. intros d e _ Hd He. pose proof (insert_consumed_step _ _ _ He) as Hs.
  split; [done|]. unfold insert_consumed in He. inv_ok. split; [by apply (steady_same P d)|].
  exists r. simpl. rewrite in_app_iff. split; [right; by left|done].
Qed.

Lemma insert_dedup_records (P : db → Prop) r :
  steady P →
  hoare d0 P (exec (insert_dedup r))
    (λ _ d, P d ∧ feedback_recorded (dd_operator r) (dd_sha r) (dd_event r) d).
Proof.
  intros HP. apply hoare_exec. intros d e _ Hd He. pose proof (insert_dedup_step _ _ _ He) as Hs.
  split; [done|]. unfold insert_dedup in He. inv_ok. split; [by apply (steady_same P d)|].
  exists r. simpl. rewrite in_app_iff. split; [right; by left|done].
Qed.

Ltac capture_step :=
  lazymatch goal with
  | |- hoare _ _ (mbind _ (exec (insert_consumed _))) _ =>
      eapply hoare_bind; [apply insert_consumed_records; solve [eauto with steady]|intros ?; cbv beta]
  | |- hoare _ _ (exec (insert_dedup _)) _ => apply insert_dedup_records; solve [eauto with steady]
  | _ => hoare_step
  end.

Lemma write_capture_records value envelope event operator content now path :
  hoare d0 always
    (write_capture value envelope event operator (payload_sha256 value) content now path)
    (λ _, captured_facts event operator content value).
Proof.
  unfold write_capture. hoare_step.
  eapply (hoare_bind _ _ _ (λ _, event_stored event operator value)).
  { apply hoare_graph_exec. intros d g _ _ Hi. split; [by apply (insert_event_step _ _ _ Hi)|].
    destruct (insert_event_ok _ _ _ Hi eq_refl) as (_ & _ & E & _). unfold event_stored. simpl. rewrite E.
    eexists. split; [apply in_app_iff; right; by left|]. done. }
  intros ?. cbv beta.
  repeat capture_step.
Qed.

(** The part of a capture that reads the store *)
Definition capture_tail (value : json) (path : string) (h : capture_head) : txn string :=
  let event_hash := payload_sha256 value in
  let content_hash := _feedback_content_sha256 (cap_text h) in
  now ← utc_now;
  prior ← query (find_consumed (cap_event h));
  match prior with
  | Some row => if String.eqb (cs_sha row) event_hash then mret "duplicate"
                else raise (ConflictError SAME_ID)
  | None =>
      known ← query (λ d, existsb (is_dedup (cap_operator h) content_hash) (dedup (the_intake d)));
      if (known : bool) then mret "duplicate"
      else
        write_capture value (cap_envelope h) (cap_event h) (cap_operator h) event_hash content_hash now path ;;
        mret "captured"
  end.

Lemma txn_lift_bind {A B} (m : res A) (f : A → txn B) c :
  (lift m ≫= f) c = match m with Ok a => f a c | Err e => (Err e, c) end.
Proof. by destruct m. Qed.

Lemma txn_guard_bind {B} b e (f : unit → txn B) c :
  (guard b e ≫= f) c = if b then (Err e, c) else f tt c.
Proof. by destruct b. Qed.

Lemma capture_split value path c :
  _apply_capture_on_connection s value path c =
  match read_head s value with Ok h => capture_tail value path h c | Err e => (Err e, c) end.
Proof.
  unfold _apply_capture_on_connection, read_head. cbv zeta.
  repeat (rewrite ?txn_lift_bind, ?txn_guard_bind;
    match goal with
    | |- context [match ?m with Ok _ => _ | Err _ => _ end] =>
        lazymatch m with mbind _ _ => fail | _ => destruct m; cbn [mbind res_bind]; try done end
    | |- context [if ?b then (Err _, c) else _] => destruct b; cbn [mbind res_bind raise_if]; try done
    end).
Qed.

Lemma tail_facts value path h :
  hoare d0 always (capture_tail value path h)
    (λ r d, r = "captured" → captured_facts (cap_event h) (cap_operator h)
                               (_feedback_content_sha256 (cap_text h)) value d).
Proof.
  unfold capture_tail. cbv zeta. hoare_step. apply hoare_query_keep. intros prior.
  destruct prior as [row|]; [destruct (String.eqb _ _); [by apply hoare_ret|apply hoare_raise]|].
  apply hoare_query_keep. intros known. destruct known; [by apply hoare_ret|].
  eapply hoare_bind; [apply write_capture_records|]. intros ?. apply hoare_ret. intros d Hd _. exact Hd.
Qed.
End recorded.

Section results.
Context `{signing : crypto} `{env : environment} `{ucd : unicode_data} `{norm : normalization}.
Context (s : store).

Lemma apply_capture_Ok value path c r c1 :
  apply_capture s value path c = (Ok r, c1) ↔
  ∃ c2, _apply_capture_on_connection s value path (rollback c) = (Ok r, c2) ∧ c1 = (commit c2).2.
Proof.
  unfold apply_capture, connect.
  destruct (_apply_capture_on_connection s value path (rollback c)) as [[a|e] c2]; split.
  - intros [= <- <-]. eauto.
  - by intros (? & [= <- <-] & ->).
  - by destruct (is_identity_conflict e).
  - by intros (? & [=] & _).
Qed.

Lemma capture_Ok value path c r c1 :
  apply_capture s value path c = (Ok r, c1) ↔
  ∃ h c2, read_head s value = Ok h ∧ capture_tail value path h (rollback c) = (Ok r, c2) ∧
    c1 = (commit c2).2.
Proof.
  rewrite apply_capture_Ok. split.
  - intros (c2 & H & ->). rewrite capture_split in H.
    destruct (read_head s value) as [h|e]; [|discriminate]. by exists h, c2.
  - intros (h & c2 & Hh & H & ->). exists c2. by rewrite capture_split, Hh.
Qed.

Lemma find_consumed_known event sha d r :
  db_ok d → input_recorded event sha d → find_consumed event d = Some r → cs_sha r = sha.
Proof.
  intros Hd (r' & Hr' & He & <-) H. apply find_some in H as [Hr E]. apply String.eqb_eq in E.
  pose proof (io_consumed _ _ (do_intake _ Hd)) as Hn.
  by rewrite (NoDup_map_inj cs_event _ r r' Hn Hr Hr' (eq_trans E (eq_sym He))).
Qed.

Lemma find_consumed_exists event sha d :
  input_recorded event sha d → ∃ r, find_consumed event d = Some r.
Proof.
  intros (r & Hr & He & _). destruct (find_consumed event d) as [r'|] eqn:E; [eauto|].
  apply (find_none _ _ E) in Hr. by rewrite He, String.eqb_refl in Hr.
Qed.

(** What a process is told of an input that the store has recorded *)
Lemma tail_known value path h c :
  db_ok (live c) → input_recorded (cap_event h) (payload_sha256 value) (live c) →
  ∃ c1, capture_tail value path h c = (Ok "duplicate", c1) ∧ live c1 = live c.
Proof.
  intros Hd Hr. destruct (find_consumed_exists _ _ _ Hr) as [r E].
  pose proof (find_consumed_known _ _ _ _ Hd Hr E) as Hs.
  unfold capture_tail, utc_now, now_, query, mbind, txn_bind, mret, txn_ret. simpl. rewrite E.
  rewrite Hs, String.eqb_refl. eauto.
Qed.

Lemma tail_conflict value path h c sha :
  db_ok (live c) → input_recorded (cap_event h) sha (live c) → sha ≠ payload_sha256 value →
  (capture_tail value path h c).1 = Err (ConflictError SAME_ID).
Proof.
  intros Hd Hr Hne. destruct (find_consumed_exists _ _ _ Hr) as [r E].
  pose proof (find_consumed_known _ _ _ _ Hd Hr E) as Hs.
  unfold capture_tail, utc_now, now_, query, mbind, txn_bind, mret, txn_ret. simpl. rewrite E.
  rewrite Hs. by destruct (String.eqb_spec sha (payload_sha256 value)).
Qed.

Lemma utc_now_live c now c1 : utc_now c = (Ok now, c1) → live c1 = live c.
Proof. unfold utc_now, now_, mbind, txn_bind. by intros [= _ <-]. Qed.

Lemma tail_writes value path h c c1 :
  capture_tail value path h c = (Ok "captured", c1) →
  text_item "operator_id" (cap_envelope h) = Ok (cap_operator h) →
  ∃ ns ls, capture_records (cap_envelope h) = Ok ns ∧ capture_links (cap_envelope h) = Ok ls ∧
    adds (cap_operator h) (cap_event h) ns ls (live c) (live c1).
Proof.
  unfold capture_tail. intros H Ho. inv_txn.
  match goal with H : utc_now c = _ |- _ => apply utc_now_live in H; rewrite <- H; clear H end.
  destruct (find_consumed _ _) as [row|]; [destruct (String.eqb _ _); inv_txn; discriminate|].
  inv_txn. destruct (existsb _ _); inv_txn; [discriminate|]. by eapply write_capture_adds.
Qed.

Lemma captured_stores value path d n t c1 h :
  db_ok d → apply_capture s value path (open_on d n t) = (Ok "captured", c1) → read_head s value = Ok h →
  captured_facts (cap_event h) (cap_operator h) (_feedback_content_sha256 (cap_text h)) value (saved c1).
Proof.
  intros Hd H Hh. apply capture_Ok in H as (h' & c2 & Hh' & H & ->). rewrite Hh in Hh'. injection Hh' as <-.
  destruct (tail_facts d value path h (rollback (open_on d n t))) as [_ Hf].
  - split; split; try done; reflexivity.
  - done.
  - rewrite H in Hf. by apply Hf.
Qed.
End results.

(** ** Batches *)
Create HintDb batch.
Definition with_saved (d : db) (c : conn) : conn :=
  {| live := live c; saved := d; drawn := drawn c; ticks := ticks c |}.

(** What was committed before has no influence on such a body. *)
Definition saved_free {A} (m : txn A) : Prop := ∀ d c, m (with_saved d c) = ((m c).1, with_saved d (m c).2).

Lemma saved_free_ret {A} (a : A) : saved_free (mret a).
Proof. done. Qed.
Lemma saved_free_raise {A} e : saved_free (raise (A := A) e).
Proof. done. Qed.
Lemma saved_free_lift {A} (m : res A) : saved_free (lift m).
Proof. done. Qed.
Lemma saved_free_guard b e : saved_free (guard b e).
Proof. done. Qed.
Lemma saved_free_query {A} (f : db → A) : saved_free (query f).
Proof. done. Qed.
Lemma saved_free_exec f : saved_free (exec f).
Proof. intros d c. unfold exec. simpl. by destruct (f (live c)). Qed.
Lemma saved_free_graph f : saved_free (graph_exec f).
Proof. apply saved_free_exec. Qed.
Lemma saved_free_fresh `{env : environment} kind : saved_free (fresh kind).
Proof. done. Qed.
Lemma saved_free_bind {A B} (m : txn A) (f : A → txn B) :
  saved_free m → (∀ a, saved_free (f a)) → saved_free (m ≫= f).
Proof.
  intros Hm Hf d c. unfold mbind, txn_bind. rewrite Hm. destruct (m c) as [[a|e] c1]; simpl; [apply Hf|done].
Qed.
Lemma saved_free_utc_now `{env : environment} : saved_free utc_now.
Proof. done. Qed.
Lemma saved_free_for_all {A} (f : A → txn unit) l : (∀ x, saved_free (f x)) → saved_free (for_all f l).
Proof.
  intros Hf. induction l as [|x l IH]; simpl; [done|]. apply saved_free_bind; [done|]. by intros _.
Qed.
#[export] Hint Resolve saved_free_ret saved_free_raise saved_free_lift saved_free_guard saved_free_query
  saved_free_exec saved_free_graph saved_free_fresh saved_free_utc_now saved_free_for_all : batch.

Ltac saved_free_steps :=
  repeat lazymatch goal with
  | |- saved_free (mbind _ _) => apply saved_free_bind; [|intros ?]
  | |- saved_free (if ?b then _ else _) => destruct b
  | |- saved_free (match ?x with _ => _ end) => destruct x
  | |- saved_free (insert_node_version _) => unfold insert_node_version
  | |- saved_free (insert_edge_version_row _) => unfold insert_edge_version_row
  | |- saved_free _ => progress cbv zeta beta
  end; try solve [eauto with batch].

Section batches.
Context `{signing : crypto} `{env : environment} `{ucd : unicode_data} `{norm : normalization}.
Context (s : store).

Lemma saved_free_insert_node id type payload envelope event now :
  saved_free (_insert_node id type payload envelope event now).
Proof. unfold _insert_node, write_node. saved_free_steps. Qed.
Lemma saved_free_insert_edge type source target envelope event now :
  saved_free (_insert_edge type source target envelope event now).
Proof. unfold _insert_edge, write_edge. saved_free_steps. Qed.
Hint Resolve saved_free_insert_node saved_free_insert_edge : batch.
Lemma saved_free_evidence verdict envelope event now value :
  saved_free (insert_evidence verdict envelope event now value).
Proof. unfold insert_evidence. saved_free_steps. Qed.
Lemma saved_free_choices type verdict ids envelope event now :
  saved_free (choice_edges type verdict ids envelope event now).
Proof. apply saved_free_for_all. intros v. saved_free_steps. Qed.
Hint Resolve saved_free_evidence saved_free_choices : batch.
Lemma saved_free_capture value path : saved_free (_apply_capture_on_connection s value path).
Proof. unfold _apply_capture_on_connection, write_capture. saved_free_steps. Qed.

(** The reference: one [apply_capture] after the other *)
Fixpoint capture_sequence (items : list (json * string)) (c : conn) : list (res string) * conn :=
  match items with
  | [] => ([], c)
  | (value, path) :: rest =>
      let '(r, c1) := apply_capture s value path c in
      let '(rs, c2) := capture_sequence rest c1 in
      (r :: rs, c2)
  end.

Lemma capture_sequence_app l k c :
  capture_sequence (l ++ k) c =
  let '(rs, c1) := capture_sequence l c in
  let '(rs', c2) := capture_sequence k c1 in (rs ++ rs', c2).
Proof.
  revert c. induction l as [|[value path] l IH]; intros c; simpl.
  - by destruct (capture_sequence k c).
  - destruct (apply_capture s value path c) as [r c1]. rewrite IH.
    destruct (capture_sequence l c1) as [rs c2]. by destruct (capture_sequence k c2).
Qed.

Definition settled (c : conn) : conn := with_saved (live c) c.

Lemma batch_outcome_Ok e o c c1 :
  batch_outcome (Err e) c = (Ok o, c1) →
  c1 = c ∧ o = Err (if is_identity_conflict e then ConflictError IDENTITY_CONFLICT else e).
Proof.
  unfold batch_outcome. destruct e; simpl; try (by intros [= <- <-]); try discriminate.
  destruct unique; [by intros [= <- <-]|]. simpl. discriminate.
Qed.

Lemma capture_item value path c r c1 o c2 :
  savepoint (_apply_capture_on_connection s value path) c = (Ok r, c1) →
  batch_outcome r c1 = (Ok o, c2) →
  apply_capture s value path (settled c) = (o, settled c2).
Proof.
  unfold savepoint, apply_capture, connect. intros H Ho.
  change (rollback (settled c)) with (with_saved (live c) c).
  rewrite saved_free_capture. destruct (_apply_capture_on_connection s value path c) as [[a|e] c'].
  - injection H as <- <-. simpl in Ho. injection Ho as <- <-. done.
  - injection H as <- <-. apply batch_outcome_Ok in Ho as [-> ->]. done.
Qed.

Lemma group_sequence items c os c1 :
  capture_group s items c = (Ok os, c1) → capture_sequence items (settled c) = (os, settled c1).
Proof.
  revert c os. induction items as [|[value path] items IH]; simpl; intros c os H; inv_txn; [done|].
  match goal with H1 : savepoint _ c = _, H2 : batch_outcome _ _ = _ |- _ =>
    rewrite (capture_item _ _ _ _ _ _ _ H1 H2) end.
  match goal with H : capture_group _ _ _ = _ |- _ => by rewrite (IH _ _ H) end.
Qed.

Lemma groups_sequence fuel size items c os c1 :
  (length items ≤ fuel)%nat → (0 < size)%nat →
  capture_groups fuel s size items c = (Ok os, c1) → capture_sequence items (settled c) = (os, settled c1).
Proof.
  intros Hl Hs. revert items c os Hl. induction fuel as [|fuel IH]; intros items c os Hl H.
  - destruct items; [|simpl in Hl; lia]. simpl in H. by injection H as <- <-.
  - destruct items as [|i items]; simpl in H; [by injection H as <- <-|]. inv_txn.
    match goal with H : commit _ = _ |- _ => injection H as _ <- end.
    match goal with H : capture_group _ _ _ = _ |- _ => apply group_sequence in H end.
    match goal with H : capture_groups _ _ _ _ _ = _ |- _ => apply IH in H end.
    + rewrite <- (firstn_skipn size (i :: items)), capture_sequence_app.
      match goal with H : capture_sequence (firstn _ _) _ = _ |- _ => rewrite H end.
      match goal with H : capture_sequence (skipn _ _) (settled ?y) = _
        |- context [capture_sequence (skipn _ _) (settled ?z)] =>
        change (settled y) with (settled z) in H; by rewrite H end.
    + rewrite length_skipn. simpl in *. lia.
Qed.
End batches.

(** ** Properties *)
Section properties.
Context `{signing : crypto} `{ucd : unicode_data} `{norm : normalization} (s : store).

(** C10: What a capture writes.  A capture that reports "captured" on a reachable
    store has appended exactly one node with one open candidate version, its
    payload in canonical bytes, for the case, the verdict, the call, every
    evidence item and every alternative of the envelope, exactly the edges
    between them, the envelope itself as the payload of its event, and the
    rows that recognise a replay. *)
Theorem capture_writes_exactly `{env : environment} value path d n t c1 :
  reachable d → apply_capture s value path (open_on d n t) = (Ok "captured", c1) →
  ∃ h ns ls, read_head s value = Ok h ∧ capture_records (cap_envelope h) = Ok ns ∧
    capture_links (cap_envelope h) = Ok ls ∧
    adds (cap_operator h) (cap_event h) ns ls d (saved c1) ∧
    captured_facts (cap_event h) (cap_operator h) (_feedback_content_sha256 (cap_text h)) value (saved c1).
Proof.
  intros Hd H. apply reachable_ok in Hd. pose proof H as H'.
  apply capture_Ok in H as (h & c2 & Hh & H & ->).
  pose proof (captured_stores s value path d n t _ h Hd H' Hh) as Hf.
  apply tail_writes in H as (ns & ls & Hn & Hl & Ha); [|unfold read_head in Hh; by inv_ok].
  by exists h, ns, ls.
Qed.

(** C11: Replays are free.  Once a capture has been recorded, the same bytes are
    answered "duplicate" and leave the committed database untouched, whatever
    commands ran in between and whatever process, clock or spool path replays
    them; other bytes under the same input identifier are refused as a
    conflict. *)
Theorem capture_replay (env env' : environment) value path d n t c1 e other path' n' t' h :
  reachable d → apply_capture (env := env) s value path (open_on d n t) = (Ok "captured", c1) →
  reaches (saved c1) e →
  read_head s value = Ok h →
  (∃ c2, apply_capture (env := env') s value path' (open_on e n' t') = (Ok "duplicate", c2) ∧ saved c2 = e) ∧
  (∀ h', read_head s other = Ok h' → cap_event h' = cap_event h → payload_sha256 other ≠ payload_sha256 value →
   (apply_capture (env := env') s other path' (open_on e n' t')).1 = Err (ConflictError SAME_ID)).
Proof.
  intros Hd H He Hh. apply reachable_ok in Hd.
  assert (db_ok (saved c1)) as H1.
  { pose proof (apply_capture_safe (env := env) s value path (open_on d n t) Hd) as [Hs _]. by rewrite H in Hs. }
  pose proof (captured_stores (env := env) s value path d n t c1 h Hd H Hh) as [[_ Hr] _].
  destruct (reaches_ok _ _ H1 He) as [He' Hx]. apply (input_recorded_durable _ _ _ _ Hx) in Hr. split.
  - destruct (tail_known (env := env') value path' h (open_on e n' t') He' Hr) as (c2 & Ht & Hl).
    exists (commit c2).2. split; [|exact Hl]. apply (capture_Ok (env := env')). by exists h, c2.
  - intros h' Hh' E Hne. rewrite <- E in Hr.
    pose proof (tail_conflict (env := env') other path' h' (open_on e n' t') _ He' Hr (not_eq_sym Hne)) as Ht.
    unfold apply_capture, connect. change (rollback (open_on e n' t')) with (open_on e n' t').
    rewrite (capture_split (env := env')), Hh'. destruct (capture_tail (env := env') other path' h' (open_on e n' t')) as [r c2].
    simpl in Ht. by rewrite Ht.
Qed.

(** C12: A batch is its captures.  When [apply_capture_batch] returns, its results
    are those of calling [apply_capture] on the items one after the other, the
    refused ones included, and the connection and the committed database end in
    the same state, whatever the batch size. *)
Theorem batch_is_sequence `{env : environment} items size d n t os c1 :
  apply_capture_batch s items size (open_on d n t) = (Ok os, c1) →
  capture_sequence s items (open_on d n t) = (os, c1).
Proof.
  unfold apply_capture_batch. rewrite txn_guard_bind. destruct (negb _) eqn:Hb; [discriminate|].
  apply negb_false_iff, andb_true_iff in Hb as [Hb _]. unfold connect.
  destruct (capture_groups _ _ _ _ _) as [[rs|e] c'] eqn:E; [|discriminate]. intros [= <- <-].
  apply groups_sequence in E; [exact E|lia|lia].
Qed.
End properties.

(** *** Every batch ends *)
Definition item_error (e : exn) : bool :=
  match e with ConflictError _ => true | IntegrityError u => u | _ => is_validation e end.

Section totality.
Context `{env : environment} `{ucd : unicode_data} `{norm : normalization} (s : store).

Definition contained (item : json * string) : Prop :=
  ∀ c e, (_apply_capture_on_connection s item.1 item.2 c).1 = Err e → item_error e = true.

Lemma batch_outcome_total r c :
  (∀ e, r = Err e → item_error e = true) → ∃ o, batch_outcome r c = (Ok o, c).
Proof.
  intros H. destruct r as [a|e]; [by exists (Ok a)|]. specialize (H e eq_refl). unfold batch_outcome, item_error in *.
  destruct e; simpl in *; try discriminate; try by eexists. destruct unique; [by eexists|discriminate].
Qed.

Lemma capture_group_total items c :
  Forall contained items → ∃ os c1, capture_group s items c = (Ok os, c1) ∧ length os = length items.
Proof.
  intros H. revert c. induction H as [|[value path] items Hi _ IH]; intros c; simpl; [by exists [], c|].
  unfold savepoint at 1. specialize (Hi c). simpl in Hi. unfold mbind at 1, txn_bind at 1.
  destruct (_apply_capture_on_connection s value path c) as [[a|e] c']; simpl in *.
  - destruct (batch_outcome_total (Ok a) c') as [o Ho]; [done|]. rewrite (txn_bind_run _ _ _ _ _ Ho).
    destruct (IH c') as (os & c1 & E & Hl). rewrite (txn_bind_run _ _ _ _ _ E). exists (o :: os), c1.
    split; [done|]. simpl. by f_equal.
  - destruct (batch_outcome_total (Err e) (with_live (live c) c')) as [o Ho]; [by intros ? [= <-]; apply Hi|].
    rewrite (txn_bind_run _ _ _ _ _ Ho). destruct (IH (with_live (live c) c')) as (os & c1 & E & Hl).
    rewrite (txn_bind_run _ _ _ _ _ E). exists (o :: os), c1. split; [done|]. simpl. by f_equal.
Qed.

Lemma capture_groups_total fuel size items c :
  (length items ≤ fuel)%nat → (0 < size)%nat → Forall contained items →
  ∃ os c1, capture_groups fuel s size items c = (Ok os, c1) ∧ length os = length items.
Proof.
  intros Hl Hs. revert items c Hl. induction fuel as [|fuel IH]; intros items c Hl H.
  - destruct items; [by exists [], c|simpl in Hl; lia].
  - destruct items as [|i items]; simpl; [by exists [], c|].
    rewrite <- (firstn_skipn size (i :: items)) in H. apply Forall_app in H as [H1 H2].
    destruct (capture_group_total _ c H1) as (os & c1 & E & Hos). rewrite (txn_bind_run _ _ _ _ _ E).
    destruct (IH (skipn size (i :: items)) (commit c1).2) as (rest & c2 & E2 & Hrest); [|done|].
    { rewrite length_skipn. simpl in *. lia. }
    assert (commit c1 = (Ok tt, (commit c1).2)) as Ec by done. rewrite (txn_bind_run _ _ _ _ _ Ec).
    rewrite (txn_bind_run _ _ _ _ _ E2). exists (os ++ rest), c2. split; [done|].
    rewrite length_app, Hos, Hrest, <- length_app, firstn_skipn. done.
Qed.

(** C25: Batches end.  A batch whose items fail at most in the ways a capture may
    be refused (validation, conflict, a taken identity) always returns, for
    every admissible batch size, with one result per item. *)
Theorem batch_total items size c :
  1 ≤ size ≤ 1000 → Forall contained items →
  ∃ os c1, apply_capture_batch s items size c = (Ok os, c1) ∧ length os = length items.
Proof.
  intros Hs H. unfold apply_capture_batch. rewrite txn_guard_bind.
  assert ((1 <=? size) && (size <=? 1000) = true) as -> by (rewrite andb_true_iff, !Z.leb_le; lia).
  cbn [negb]. unfold connect.
  destruct (capture_groups_total (length items) (Z.to_nat size) items (rollback c)) as (os & c1 & E & Hl); [lia|lia|done|].
  rewrite E. by exists os, (commit c1).2.
Qed.
End totality.

(** ** On the concrete run *)
Definition toy_head : capture_head :=
  {| cap_envelope := example_envelope; cap_operator := operator_urn;
     cap_event := text_at "input_event_id" example_envelope;
     cap_text := text_at "raw_operator_text" (sub "verdict" example_envelope) |}.

Lemma toy_head_read : read_head toy_store (JObj example_envelope) = Ok toy_head.
Proof. vm_compute. reflexivity. Qed.

Lemma capture_writes_exactly_witness :
  ∃ ns ls, capture_records example_envelope = Ok ns ∧ capture_links example_envelope = Ok ls ∧
    adds operator_urn (cap_event toy_head) ns ls toy_install (saved captured_conn).
Proof.
  destruct (capture_writes_exactly toy_store (JObj example_envelope) "spool/1.json" toy_install 100 0
              captured_conn installed_reachable captured_run) as (h & ns & ls & Hh & Hn & Hl & Ha & _).
  rewrite toy_head_read in Hh. injection Hh as <-. exists ns, ls. by split_and!.
Defined.

Lemma capture_replay_witness :
  ∃ c2, apply_capture toy_store (JObj example_envelope) "retry.json" (open_on promoted_db 7 7) =
        (Ok "duplicate", c2) ∧ saved c2 = promoted_db.
Proof.
  apply (capture_replay toy_store toy_environment toy_environment (JObj example_envelope) "spool/1.json"
           toy_install 100 0 captured_conn promoted_db JNull "retry.json" 7 7 toy_head);
    [apply installed_reachable|apply captured_run|apply captured_reaches|apply toy_head_read].
Defined.

Definition replay_items : list (json * string) := [(JObj example_envelope, "a"); (JNull, "b")].

Definition replayed : res (list (res string)) * conn :=
  Eval vm_compute in apply_capture_batch toy_store replay_items 1 (open_on (saved captured_conn) 1 1).

Lemma batch_is_sequence_witness :
  match replayed with
  | (Ok os, c) => length os = 2%nat ∧
      capture_sequence toy_store replay_items (open_on (saved captured_conn) 1 1) = (os, c)
  | _ => False
  end.
Proof.
  split; [reflexivity|]. apply (batch_is_sequence toy_store replay_items 1). vm_compute. reflexivity.
Defined.

Lemma batch_total_witness :
  ∃ os c1, apply_capture_batch toy_store [(JNull, "a"); (JInt 3, "b")] 7 (open_on toy_install 0 0) = (Ok os, c1) ∧
    length os = 2%nat.
Proof.
  apply (batch_total toy_store [(JNull, "a"); (JInt 3, "b")] 7 (open_on toy_install 0 0)); [lia|].
  repeat constructor; intros c e; simpl; by intros [= <-].
Defined.
