(* ===== verification/Chronicle.v ===== *)
(** * A concrete governed history

    On the installation of [Scenario]: a consent grant, a bundle that brings
    the operator's actor, role, access policy and an evidence artifact with
    it, each prepared, approved, signed and executed; then an expected
    outcome with its assessment, its correction, and a contest.  It shows
    that the hypotheses of the theorems on governed writes can hold on a
    reachable store. *)
From S2P Require Import Prelude PyTime Urn Contracts Codec Unicode Retrieval Json Names.
From S2P Require Import Clock Capture Derive Tables Integrity Txn Approval Store Records.
From S2P Require Import Semantic Review Envelopes Bundles Relations Bitemporal Safety Machine Scenario.

(** The clock and the identifiers of [Scenario], with a nonce for every draw *)
Definition diary : environment := {|
  uuids := example_uuid;
  tokens n := String (Ascii.ascii_of_nat n) (repeated 31 "k");
  clock n := of_instant (instant example_now + Z.of_nat n * 1000000)
|}.
#[local] Existing Instance diary.

(** ** Asking, approving, executing *)

(** The request of the mutation prepared last *)
Definition last_request (d : db) : option ChallengeRequest :=
  match rev (prepared (the_authority d)) with
  | [] => None
  | r :: _ => match loads (pm_request r) with
              | Some (JObj m) => match request_of m with Ok q => Some q | Err _ => None end
              | _ => None
              end
  end.

(** Signed with the key of [Scenario] *)
Definition sign (challenge : obj) : obj :=
  [("challenge", JObj challenge);
   ("signature_b64", JStr (b64encode false
      (sha256 (public_key +:+ CHALLENGE_DOMAIN +:+ canonical_bytes (JObj challenge)))))].

(** The store once the command was prepared, its challenge issued and signed *)
Definition ready (k : option obj → command) (n t : nat) (d : db) : db * option obj :=
  let d1 := after toy_store (k None) n t d in
  match last_request d1 with
  | None => (d1, None)
  | Some q =>
      let r := approve_challenge operator_urn q 60 (open_on d1 (n + 20) (t + 5)) in
      (saved r.2, match r.1 with Ok (m, _) => Some (sign m) | Err _ => None end)
  end.

(** The nonces of a run are taken from [n] on. *)
Definition executed (k : option obj → command) (n t : nat) (d : db) : db :=
  let r := ready k n t d in after toy_store (k r.2) (n + 40) (t + 10) r.1.

Lemma ready_reaches k n t d : toy_reaches d (ready k n t d).1.
Proof.
  unfold ready. destruct (last_request _) as [q|]; simpl.
  - assert (saved (approve_challenge operator_urn q 60
        (open_on (after toy_store (k None) n t d) (n + 20) (t + 5))).2 =
      after toy_store (Approve operator_urn q 60) (n + 20) (t + 5) (after toy_store (k None) n t d)) as ->.
    { unfold after at 2, run, finish, mbind, txn_bind.
      by destruct (approve_challenge _ _ _ _) as [[]]. }
    do 2 apply reaches_step. apply reaches_here.
  - apply reaches_step, reaches_here.
Qed.

Lemma executed_reaches k n t d : toy_reaches d (executed k n t d).
Proof.
  unfold executed. eapply (reaches_step d diary toy_store). exact (ready_reaches k n t d).
Qed.

Lemma reachable_reaches d e : toy_reachable d → toy_reaches d e → toy_reachable e.
Proof.
  intros (i & ks & l & a & H) He. exists i, ks, l, a. induction He as [|env s c n t e _ IH]; [done|].
  by apply reaches_step.
Qed.

(** ** Consent *)
Definition diary_consent : json := JObj
  [("record_schema_version", JStr "3.1.0");
   ("node_id", JStr "urn:imprint:consentgrant:00000000-0000-4000-8000-0000000000c1");
   ("node_type", JStr "ConsentGrant"); ("operator_id", JStr operator_urn);
   ("payload", JObj
     [("ontology_schema_version", JStr "3.1.0"); ("operator_id", JStr operator_urn);
      ("source_class", JStr "operator_explicit"); ("purposes", texts_json ["self_modeling"]);
      ("sensitivity", JStr "standard"); ("allowed_operations", texts_json ["store"]);
      ("retention", JObj [("mode", JStr "indefinite"); ("days", JNull); ("delete_on_revoke", JBool false)]);
      ("effective_from", JStr "2024-01-01T00:00:00Z"); ("effective_to", JNull);
      ("granted_by", JStr operator_urn); ("granted_at", JStr "2024-01-01T00:00:00Z");
      ("revoked_at", JNull); ("revocation_reason", JNull); ("extensions", JObj [])]);
   ("provenance", JObj
     [("status", JStr "captured"); ("authority_tier", JStr "captured_judgment");
      ("actor_class", JStr "operator"); ("actor_id", JStr operator_urn); ("mechanism", JStr "direct");
      ("evidence_ids", JList []); ("model", JNull); ("ratifier_id", JNull)])].

Definition grant_consent (token : option obj) : command :=
  AppendNode diary_consent "2024-01-01T00:00:00Z" token.

Definition consented : db := Eval vm_compute in executed grant_consent 100 0 toy_install.

(** ** The founding bundle *)
Definition urn_ (kind id : string) : string := "urn:imprint:" +:+ kind +:+ ":00000000-0000-4000-8000-0000000000" +:+ id.
Definition SCOPE := urn_ "scope" "01".
Definition ACTOR := urn_ "actor" "a1".
Definition ACTOR_VERSION := urn_ "node-version" "a2".
Definition ROLE_VERSION := urn_ "node-version" "b2".
Definition POLICY_VERSION := urn_ "node-version" "d2".
Definition ARTIFACT_VERSION := urn_ "node-version" "e2".
Definition CONSENT_VERSION := urn_ "node-version" "65".
Definition NOON := "2026-07-16T12:00:00Z".

Definition diary_provenance (tier : string) : obj :=
  [("origin_status", JStr "captured"); ("lifecycle_status", JStr "active");
   ("authority_tier", JStr tier); ("authority_source", JStr "operator");
   ("mechanism", JStr "operator_authored"); ("actor_id", JStr ACTOR); ("actor_class", JStr "operator");
   ("role_assignment_version_id", JStr ROLE_VERSION);
   ("evidence_version_ids", texts_json [ARTIFACT_VERSION]);
   ("source_phase_ids", texts_json ["operator_authored"]);
   ("primary_source_phase_id", JStr "operator_authored")].

Definition diary_envelope (tier schema record version : string) (payload : obj) : json := JObj
  [("record_id", JStr record); ("version_id", JStr version); ("payload_schema_id", JStr schema);
   ("record_schema_version", JStr "3.1.0"); ("ontology_schema_version", JStr "3.6.1");
   ("operator_id", JStr operator_urn); ("payload", JObj payload);
   ("provenance", JObj (diary_provenance tier)); ("sensitivity", JStr "standard");
   ("access_policy_version_id", JStr POLICY_VERSION); ("consent_version_id", JNull);
   ("actor_id", JStr ACTOR); ("role_assignment_version_id", JStr ROLE_VERSION);
   ("valid_from", JStr NOON); ("valid_to", JNull); ("scope_id", JStr SCOPE);
   ("extensions", JObj [])].

Definition judged_envelope := diary_envelope "captured_judgment".

Definition evidence_bytes := "exact first-write evidence bytes".

Definition founders : list json :=
  [judged_envelope "imprint.node.actor/1.0.0" ACTOR ACTOR_VERSION
     [("actor_type", JStr "operator"); ("display_label", JStr "Operator")];
   judged_envelope "imprint.node.role-assignment/1.0.0" (urn_ "roleassignment" "b1") ROLE_VERSION
     [("actor_version_id", JStr ACTOR_VERSION); ("role_type", JStr "operator_of_record");
      ("scope_ids", texts_json [SCOPE]); ("authority_basis", JStr "operator_self");
      ("allowed_operations", texts_json ["store"]); ("valid_from", JStr NOON); ("valid_to", JNull);
      ("granted_by_role_assignment_version_id", JStr ROLE_VERSION)];
   judged_envelope "imprint.node.access-policy/1.0.0" (urn_ "accesspolicy" "d1") POLICY_VERSION
     [("principal_role_assignment_version_ids", texts_json [ROLE_VERSION]);
      ("operations", texts_json ["store"]); ("purposes", texts_json ["self_modeling"]);
      ("field_paths", JList []); ("valid_from", JStr NOON); ("valid_to", JNull);
      ("system_from", JStr NOON); ("system_to", JNull)];
   judged_envelope "imprint.node.evidence-artifact/1.0.0" (urn_ "evidenceartifact" "e1") ARTIFACT_VERSION
     [("original_sha256", JStr (sha256 evidence_bytes));
      ("byte_count", JInt (Z.of_nat (String.length evidence_bytes)));
      ("media_type", JStr "application/octet-stream"); ("media_type_source", JStr "unknown_sentinel");
      ("source_class", JStr "explicit_test"); ("source_locator", JStr "memory:test");
      ("source_system", JStr "example"); ("captured_at", JStr NOON);
      ("custody_actor_version_id", JStr ACTOR_VERSION); ("consent_version_id", JStr CONSENT_VERSION);
      ("access_policy_version_id", JStr POLICY_VERSION);
      ("storage_locator", JStr "sqlite:semantic_artifact_bytes");
      ("derived_from_version_ids", JList []); ("content_state", JStr "active")]].

Definition found (token : option obj) : command :=
  AppendBundle founders [(ARTIFACT_VERSION, evidence_bytes)] token.

Definition founded : db := Eval vm_compute in executed found 300 40 consented.

(** ** An expected outcome, with its assessment *)
Definition OUTCOME := urn_ "expectedoutcome" "f1".
Definition OUTCOME_VERSION := urn_ "node-version" "f2".

Definition outcome_payload (statement assessment : string) : obj :=
  [("statement", JStr statement); ("observable_criterion", JStr "observed"); ("horizon", JStr "P30D");
   ("confidence_assessment_version_id", JStr assessment)].

Definition assessment_of (subject record version : string) : json :=
  judged_envelope "imprint.node.confidence-assessment/1.0.0" record version
    [("subject_version_id", JStr subject); ("score", JInt 1); ("scale", JStr "unit_interval");
     ("assessor_actor_version_id", JStr ACTOR_VERSION); ("method", JStr "operator_intuition");
     ("assessed_at", JStr NOON)].

Definition expectation : list json :=
  [judged_envelope "imprint.node.expected-outcome/1.0.0" OUTCOME OUTCOME_VERSION
     (outcome_payload "Payload A" (urn_ "node-version" "f4"));
   assessment_of OUTCOME_VERSION (urn_ "confidenceassessment" "f3") (urn_ "node-version" "f4")].

Definition expect (token : option obj) : command := AppendBundle expectation [] token.

Definition expected_ready : db * option obj := Eval vm_compute in ready expect 500 80 founded.
Definition expected_start : conn := open_on expected_ready.1 540 90.
Definition expected_db : db := Eval vm_compute in executed expect 500 80 founded.

(** ** Its correction from the twentieth on, with a renewed assessment *)
Definition EFFECTIVE := "2026-07-20T00:00:00Z".
Definition CARRY := urn_ "node-version" "f5".
Definition CORRECTED := urn_ "node-version" "f6".
Definition CORRECTION := urn_ "correctionevent" "f7".
Definition renewed : json :=
  assessment_of CORRECTED (urn_ "confidenceassessment" "f8") (urn_ "node-version" "f9").
Definition corrected_outcome : json := JObj (outcome_payload "Payload B" (urn_ "node-version" "f9")).

Definition correct (token : option obj) : command :=
  CorrectVersion OUTCOME SCOPE EFFECTIVE corrected_outcome CORRECTION CARRY CORRECTED
    [ARTIFACT_VERSION] ACTOR ROLE_VERSION (Some renewed) token.

Definition correct_ready : db * option obj := Eval vm_compute in ready correct 700 120 expected_db.
Definition correct_start : conn := open_on correct_ready.1 740 130.
Definition correct_end : res (string * string) * conn :=
  Eval vm_compute in
    correct_ontology_version toy_store OUTCOME SCOPE EFFECTIVE corrected_outcome CORRECTION CARRY CORRECTED
      [ARTIFACT_VERSION] ACTOR ROLE_VERSION (Some renewed) correct_ready.2 correct_start.

(** ** Or its contest *)
Definition PRESERVED := urn_ "node-version" "f5".
Definition COMPETING := urn_ "node-version" "f6".
Definition CONTESTED_SET := urn_ "contested-set" "fa".
Definition rivals : list json :=
  [assessment_of PRESERVED (urn_ "confidenceassessment" "fb") (urn_ "node-version" "fc");
   assessment_of COMPETING (urn_ "confidenceassessment" "fd") (urn_ "node-version" "fe")].
Definition competing_outcome : json := JObj (outcome_payload "Payload C" (urn_ "node-version" "fe")).

Definition contest (token : option obj) : command :=
  ContestVersion OUTCOME SCOPE CONTESTED_SET (urn_ "contestevent" "fb") PRESERVED COMPETING
    competing_outcome [ARTIFACT_VERSION] ACTOR ROLE_VERSION rivals token.

Definition contest_ready : db * option obj := Eval vm_compute in ready contest 700 120 expected_db.
Definition contest_start : conn := open_on contest_ready.1 740 130.
Definition contest_end : res (string * string) * conn :=
  Eval vm_compute in
    contest_ontology_version toy_store OUTCOME SCOPE CONTESTED_SET (urn_ "contestevent" "fb") PRESERVED
      COMPETING competing_outcome [ARTIFACT_VERSION] ACTOR ROLE_VERSION rivals contest_ready.2 contest_start.

(** ** Every store of the history is reachable *)
Lemma executed_reachable k n t d e : executed k n t d = e → toy_reachable d → toy_reachable e.
Proof. intros <- H. exact (reachable_reaches _ _ H (executed_reaches k n t d)). Qed.

Lemma ready_reachable k n t d r : ready k n t d = r → toy_reachable d → toy_reachable r.1.
Proof. intros <- H. exact (reachable_reaches _ _ H (ready_reaches k n t d)). Qed.

Lemma consented_reachable : toy_reachable consented.
Proof. apply (executed_reachable grant_consent 100 0 toy_install); [vm_compute; reflexivity|exact installed_reachable]. Qed.

Lemma founded_reachable : toy_reachable founded.
Proof. apply (executed_reachable found 300 40 consented); [vm_compute; reflexivity|exact consented_reachable]. Qed.

Lemma expected_ready_reachable : toy_reachable expected_ready.1.
Proof. apply (ready_reachable expect 500 80 founded); [vm_compute; reflexivity|exact founded_reachable]. Qed.

Lemma expected_reachable : toy_reachable expected_db.
Proof.
  assert (after toy_store (expect expected_ready.2) 540 90 expected_ready.1 = expected_db) as <-
    by (vm_compute; reflexivity).
  apply (reachable_reaches _ _ expected_ready_reachable).
  apply (reaches_step expected_ready.1 diary toy_store). apply reaches_here.
Qed.

Lemma correct_ready_reachable : toy_reachable correct_ready.1.
Proof. apply (ready_reachable correct 700 120 expected_db); [vm_compute; reflexivity|exact expected_reachable]. Qed.

Lemma contest_ready_reachable : toy_reachable contest_ready.1.
Proof. apply (ready_reachable contest 700 120 expected_db); [vm_compute; reflexivity|exact expected_reachable]. Qed.
