(* ===== verification/Resolution.v ===== *)
(** * What accepted references say

    The references of an envelope or a relation, once accepted, name versions
    of the required type and operator; a governing role is judged and active,
    and the access policy names it. *)
From S2P Require Import Prelude PyTime Urn Contracts Codec Unicode Retrieval Json Names.
From S2P Require Import Clock Binding Business Tables Integrity Txn Approval Store Records.
From S2P Require Import Envelopes Bundles Relations.

Section resolution.
Context `{lite : sqlite} (d : db) (pending : candidates) (operator : string).

(** [id] resolves to [f], a version of one of [kinds], in force at [at_]. *)
Definition resolves (kinds : list string) (id : json) (at_ : option string) (f : found_ref) : Prop :=
  _v31_ref_type id pending d = Ok (Some f) ∧ fr_operator f = operator ∧ In (fr_type f) kinds ∧
  ∀ t, at_ = Some t → covers (fr_valid_from f) (fr_valid_to f) t = true.

(** [x in f.payload.get(key, [])] *)
Definition names (x key : string) (f : found_ref) : Prop :=
  ∃ v, fr_get key (JList []) f = Ok v ∧ member x v = Ok true.

(** Judged by the operator, and active *)
Definition judged (f : found_ref) : Prop :=
  ∃ tier, fr_tier f = JStr tier ∧ authoritative tier = true ∧ fr_lifecycle f = JStr "active".

Lemma require_Ok ref field kinds at_ f :
  _require_v31_ref ref pending operator field kinds at_ d = Ok f → resolves kinds ref at_ f.
Proof.
  unfold _require_v31_ref. intros H. apply bind_Ok in H as (found & Hf & H).
  destruct found as [g|]; [|discriminate]. inv_ok. bool_hyps.
  match goal with H : String.eqb _ _ = true |- _ => apply String.eqb_eq in H end.
  split_and!; [done..|by apply mem_In|]. intros t ->. by bool_hyps.
Qed.

Lemma require_each refs field kind :
  for_each (λ ref, _require_v31_ref ref pending operator field [kind] None d ;; Ok tt) refs = Ok tt →
  Forall (λ ref, ∃ f, resolves [kind] ref None f) refs.
Proof.
  intros H. inv_ok. eapply List.Forall_impl; [|exact H]. intros ref Hr. cbv beta in Hr.
  apply bind_Ok in Hr as (f & Hf & _). exists f. by apply require_Ok in Hf.
Qed.

Lemma not_judged_Ok f : not_judged f = Ok false → judged f.
Proof.
  unfold not_judged. intros H. inv_ok. bool_hyps.
  match goal with H : fr_tier f = JStr ?t |- _ => exists t end.
  match goal with H : py_eq _ _ = true |- _ => apply py_eq_str in H end. done.
Qed.

Lemma lacks_Ok x key f : lacks x key f = Ok false → names x key f.
Proof.
  unfold lacks. intros H. apply bind_Ok in H as (v & Hv & H). apply bind_Ok in H as (b & Hb & H).
  exists v. split; [done|]. injection H as H. by destruct b.
Qed.

(** The role may store, is judged and active; the policy allows the role to
    store. *)
Definition empowered (role_id : string) (role policy : found_ref) : Prop :=
  judged role ∧ names "store" "allowed_operations" role ∧ names "store" "operations" policy ∧
  names role_id "principal_role_assignment_version_ids" policy.
End resolution.

(** ** Under whose authority an envelope was accepted *)
Section envelopes.
Context `{lite : sqlite} (d : db) (pending : candidates) (en : envelope).

Let resolved := resolves d pending (en_operator en).

Definition governed_by (role policy : found_ref) : Prop :=
  resolved ["RoleAssignment"] (JStr (en_role en)) (Some (en_valid_from en)) role ∧
  resolved ["AccessPolicy"] (JStr (en_policy en)) (Some (en_valid_from en)) policy ∧
  empowered (en_role en) role policy ∧ names (en_scope en) "scope_ids" role.

Lemma governing_Ok : governing_check d pending en = Ok tt → ∃ role policy, governed_by role policy.
Proof.
  unfold governing_check, require. intros H.
  apply bind_Ok in H as (role & Hr & H). apply bind_Ok in H as (b & Hb & H). inv_ok.
  match goal with H : _require_v31_ref (JStr (en_policy en)) _ _ _ _ _ _ = Ok ?policy |- _ =>
    exists role, policy end. unfold governed_by, empowered. repeat match goal with
  | H : _require_v31_ref _ _ _ _ _ _ _ = Ok _ |- _ => apply require_Ok in H
  | H : not_judged _ = Ok false |- _ => apply not_judged_Ok in H
  | H : lacks _ _ _ = Ok false |- _ => apply lacks_Ok in H
  end.
  done.
Qed.

(** Evidence: its own version, where the record is an artifact, or artifacts *)
Definition evidenced : Prop :=
  Forall (λ id, (en_type en = "EvidenceArtifact" ∧ id = en_version en) ∨
                ∃ f, resolved ["EvidenceArtifact"] (JStr id) None f) (en_evidence en).

Lemma evidence_Ok : evidence_check d pending en = Ok tt → evidenced.
Proof.
  unfold evidence_check, require_all, require. intros H. apply require_each in H.
  apply List.Forall_forall. intros id Hid. rewrite List.Forall_forall in H.
  destruct (String.eqb (en_type en) "EvidenceArtifact" && String.eqb id (en_version en)) eqn:E.
  - apply andb_true_iff in E as [E1%String.eqb_eq E2%String.eqb_eq]. by left.
  - right. apply H, in_map, filter_In. by rewrite E.
Qed.

(** The actor: an [Actor] of the operator, in the bundle or in the store *)
Definition acted : Prop :=
  match pending_actor pending en with
  | Some m => ∃ schema, text_item "payload_schema_id" m = Ok schema ∧ schema_type schema = Ok "Actor" ∧
      text_item "operator_id" m = Ok (en_operator en)
  | None => ∃ n, find_node (en_actor en) d = Some n ∧ nd_type n = "Actor" ∧ nd_operator n = en_operator en
  end.

Lemma actor_Ok : actor_check d pending en = Ok tt → acted.
Proof.
  unfold actor_check, acted. intros H. apply bind_Ok in H as (x & Hx & H). inv_ok. bool_hyps.
  destruct x as [[type operator]|]; [|discriminate]. bool_hyps.
  repeat match goal with H : String.eqb _ _ = true |- _ => apply String.eqb_eq in H; subst end.
  destruct (pending_actor pending en) as [m|].
  - inv_ok. eauto.
  - destruct (find_node (en_actor en) d) as [n|]; [|discriminate]. inv_ok. eauto.
Qed.

(** A tier without authority is the one its origin may claim. *)
Definition capped (origin : string) (tier : json) : Prop :=
  (∃ t, tier = JStr t ∧ authoritative t = true) ∨
  ∃ ceiling, assoc origin CEILINGS = Some ceiling ∧ tier = JStr ceiling.

Lemma under_ceiling_Ok origin tier :
  under_ceiling origin tier = Ok true → ∃ ceiling, assoc origin CEILINGS = Some ceiling ∧ tier = JStr ceiling.
Proof.
  unfold under_ceiling. destruct (assoc origin CEILINGS) as [c|]; [|discriminate].
  intros [= H]. exists c. split; [done|]. by apply py_eq_str in H.
Qed.

Lemma business_authority_Ok : business_authority en = Ok tt → capped (en_origin en) (en_tier en).
Proof.
  unfold business_authority, capped. intros H. apply bind_Ok in H as (lifecycle & _ & H).
  apply bind_Ok in H as (b & Hb & H). apply bind_Ok in H as ([] & Hc & _). destruct b.
  - left. apply in_set_true in Hb as (t & Ht & Hm). by exists t.
  - right. apply bind_Ok in Hc as (ok & Hok & Hc). inv_ok. bool_hyps. subst. by apply under_ceiling_Ok.
Qed.

(** The bytes of an artifact are those its payload describes. *)
Definition exact_bytes (artifact_bytes : list (string * string)) : Prop :=
  str_is (get "content_state" (en_payload en)) "purged" = true ∨
  ∃ content, assoc (en_version en) artifact_bytes = Some content ∧
    py_eq (JInt (Z.of_nat (String.length content))) (get "byte_count" (en_payload en)) = true ∧
    py_eq (JStr (sha256 content)) (get "original_sha256" (en_payload en)) = true.

Lemma artifact_content_Ok bytes : artifact_content en bytes (en_payload en) = Ok tt → exact_bytes bytes.
Proof.
  unfold artifact_content, exact_bytes, get. intros H. apply bind_Ok in H as (state & Hs & H).
  apply item_Ok in Hs. rewrite Hs. simpl. destruct (str_is state "purged"); [by left|right].
  destruct (assoc (en_version en) bytes) as [content|]; [|discriminate]. exists content. split; [done|].
  inv_ok. bool_hyps. match goal with H : assoc "byte_count" _ = _ |- _ => rewrite H end.
  match goal with H : assoc "original_sha256" _ = _ |- _ => rewrite H end. done.
Qed.

(** What the acceptance of an envelope establishes *)
Record accountable (artifact_bytes : list (string * string)) : Prop := {
  ac_governed : ∃ role policy, governed_by role policy;
  ac_actor : acted;
  ac_evidence : evidenced;
  ac_bytes : en_type en = "EvidenceArtifact" → exact_bytes artifact_bytes;
  ac_ceiling : is_business (en_schema en) = true → capped (en_origin en) (en_tier en)
}.

Lemma type_references_bytes bytes :
  type_references d pending en bytes = Ok tt → en_type en = "EvidenceArtifact" → exact_bytes bytes.
Proof.
  unfold type_references. intros H E. rewrite E in H. simpl in H. unfold artifact_references in H.
  inv_ok. by apply artifact_content_Ok.
Qed.

Lemma accepted_accountable bytes :
  governing_check d pending en = Ok tt → payload_references d pending en bytes = Ok tt → accountable bytes.
Proof.
  unfold payload_references. intros Hg H. apply bind_Ok in H as ([] & Ha & H).
  apply bind_Ok in H as ([] & He & H). apply bind_Ok in H as ([] & Ht & H). split.
  - by apply governing_Ok.
  - by apply actor_Ok.
  - by apply evidence_Ok.
  - by apply type_references_bytes.
  - intros Hb. rewrite Hb in H. apply bind_Ok in H as ([] & _ & H). apply bind_Ok in H as ([] & _ & H).
    by apply business_authority_Ok.
Qed.
End envelopes.
