(* ===== verification/Writes.v ===== *)
(** * What the governed writes append

    The rows of the store as one value, with concatenation: a governed write
    is the rows it appends.  Reads, draws and the spending of an approval
    append none. *)
From S2P Require Import Prelude PyTime Urn Contracts Codec Unicode Retrieval Json Names.
From S2P Require Import Clock Binding Business Tables Integrity Txn Approval Store Records.
From S2P Require Import Semantic Review Envelopes Bundles Relations Bitemporal Governance Machine Scenario Rollback Intake.

(** ** Rows *)
Record rows : Type := {
  w_events : list event_row; w_nodes : list node_row; w_versions : list version_row;
  w_edges : list edge_row; w_edge_versions : list version_row; w_governed : list semantic_row;
  w_artifacts : list artifact_row; w_relations : list relation_row;
  w_partitions : list partition_row; w_policies : list policy_row;
  w_corrections : list correction_row; w_contests : list contest_row
}.

Definition rows_of (d : db) : rows :=
  let g := the_graph d in let m := the_semantic d in
  {| w_events := events g; w_nodes := nodes g; w_versions := node_versions g; w_edges := edges g;
     w_edge_versions := edge_versions g; w_governed := semantic_nodes m; w_artifacts := artifacts m;
     w_relations := semantic_relations m; w_partitions := partitions m; w_policies := policies m;
     w_corrections := corrections m; w_contests := contests m |}.

Definition no_rows : rows := Build_rows [] [] [] [] [] [] [] [] [] [] [] [].

Definition plus (a b : rows) : rows :=
  {| w_events := w_events a ++ w_events b; w_nodes := w_nodes a ++ w_nodes b;
     w_versions := w_versions a ++ w_versions b; w_edges := w_edges a ++ w_edges b;
     w_edge_versions := w_edge_versions a ++ w_edge_versions b;
     w_governed := w_governed a ++ w_governed b; w_artifacts := w_artifacts a ++ w_artifacts b;
     w_relations := w_relations a ++ w_relations b; w_partitions := w_partitions a ++ w_partitions b;
     w_policies := w_policies a ++ w_policies b; w_corrections := w_corrections a ++ w_corrections b;
     w_contests := w_contests a ++ w_contests b |}.

Declare Scope rows_scope.
Infix "⊕" := plus (at level 50, left associativity) : rows_scope.
Open Scope rows_scope.

Definition all_rows (l : list rows) : rows := fold_right plus no_rows l.

Lemma plus_assoc a b c : a ⊕ (b ⊕ c) = a ⊕ b ⊕ c.
Proof. unfold plus. simpl. f_equal; apply app_assoc. Qed.

Lemma plus_none a : a ⊕ no_rows = a.
Proof. destruct a. unfold plus. simpl. f_equal; apply app_nil_r. Qed.

Lemma none_plus a : no_rows ⊕ a = a.
Proof. by destruct a. Qed.

(** Rows of one table *)
Definition an_event (r : event_row) : rows := Build_rows [r] [] [] [] [] [] [] [] [] [] [] [].
Definition a_node (r : node_row) : rows := Build_rows [] [r] [] [] [] [] [] [] [] [] [] [].
Definition a_version (r : version_row) : rows := Build_rows [] [] [r] [] [] [] [] [] [] [] [] [].
Definition an_edge (r : edge_row) : rows := Build_rows [] [] [] [r] [] [] [] [] [] [] [] [].
Definition an_edge_version (r : version_row) : rows := Build_rows [] [] [] [] [r] [] [] [] [] [] [] [].
Definition an_envelope (r : semantic_row) : rows := Build_rows [] [] [] [] [] [r] [] [] [] [] [] [].
Definition artifact_rows (l : list artifact_row) : rows := Build_rows [] [] [] [] [] [] l [] [] [] [] [].
Definition a_relation (r : relation_row) : rows := Build_rows [] [] [] [] [] [] [] [r] [] [] [] [].
Definition partition_rows (l : list partition_row) : rows := Build_rows [] [] [] [] [] [] [] [] l [] [] [].
Definition a_policy (r : policy_row) : rows := Build_rows [] [] [] [] [] [] [] [] [] [r] [] [].
Definition a_correction (r : correction_row) : rows := Build_rows [] [] [] [] [] [] [] [] [] [] [r] [].
Definition a_contest (r : contest_row) : rows := Build_rows [] [] [] [] [] [] [] [] [] [] [] [r].

(** ** Writes that append, and steps that append nothing *)
Definition appends {A} (m : txn A) (w : rows) : Prop :=
  ∀ c a c1, m c = (Ok a, c1) → rows_of (live c1) = rows_of (live c) ⊕ w.
Definition keeps {A} (m : txn A) : Prop :=
  ∀ c a c1, m c = (Ok a, c1) → rows_of (live c1) = rows_of (live c).

Create HintDb rows.

Lemma idle_keeps {A} (m : txn A) : idle m → keeps m.
Proof. intros H c a c1 E. destruct (H c) as [Hl _]. by rewrite E in Hl; simpl in Hl; rewrite Hl. Qed.

Lemma idle_live {A} (m : txn A) c r c1 : idle m → m c = (r, c1) → live c1 = live c.
Proof. intros H E. destruct (H c) as [Hl _]. by rewrite E in Hl. Qed.

Lemma idle_saved {A} (m : txn A) c r c1 : idle m → m c = (r, c1) → saved c1 = saved c.
Proof. intros H E. destruct (H c) as [_ Hs]. by rewrite E in Hs. Qed.

Lemma connect_Ok {A} (body : txn A) c a c1 :
  connect body c = (Ok a, c1) →
  ∃ c2, body (rollback c) = (Ok a, c2) ∧ live c1 = live c2 ∧ saved c1 = live c2.
Proof.
  unfold connect. destruct (body (rollback c)) as [[x|e] c2]; [|discriminate].
  intros [= <- <-]. by exists c2.
Qed.

Lemma appends_none {A} (m : txn A) : keeps m → appends m no_rows.
Proof. intros H c a c1 E. rewrite plus_none. by apply (H c a). Qed.

Lemma keeps_exec f : (∀ d e, f d = Ok e → rows_of e = rows_of d) → keeps (exec f).
Proof. intros H c a c1 E. apply exec_Ok in E as (e & E & ->). by apply H. Qed.

Lemma keeps_update f : (∀ d, rows_of (f d).1 = rows_of d) → keeps (update f).
Proof. intros H c a c1 E. unfold update in E. specialize (H (live c)). destruct (f (live c)) as [e n]. injection E as <- <-. exact H. Qed.

Lemma keeps_commit : keeps commit.
Proof. by intros c a c1 [= <- <-]. Qed.

Lemma keeps_bind {A B} (m : txn A) (f : A → txn B) : keeps m → (∀ a, keeps (f a)) → keeps (m ≫= f).
Proof.
  intros Hm Hf c b c2 E. apply txn_bind_Ok in E as (a & c1 & E1 & E2).
  rewrite (Hf a _ _ _ E2). by apply (Hm c a).
Qed.

Lemma keeps_conflict {A} (m : txn A) msg : keeps m → keeps (conflict_on_integrity m msg).
Proof.
  intros H c a c1. unfold conflict_on_integrity. destruct (m c) as [[x|e] c'] eqn:E.
  - intros [= <- <-]. by apply (H c x).
  - by destruct (is_integrity e).
Qed.

Lemma keeps_raise {A} e : keeps (raise (A := A) e).
Proof. by intros c a c1. Qed.

(** Match on the statement at the head. *)
Ltac keeps_steps :=
  repeat first
  [ solve [eauto with rows nocore]
  | apply keeps_bind; [|intros ?]
  | apply keeps_raise | apply keeps_commit
  | apply idle_keeps; solve [eauto with rollback]
  | progress cbv beta
  | match goal with
    | |- keeps (match ?x with _ => _ end) => destruct x
    | |- keeps (if ?b then _ else _) => destruct b
    | |- keeps (let '_ := ?x in _) => destruct x
    end ].

#[export] Hint Resolve idle_references idle_check_items idle_fresh_events idle_fresh_list : rollback.

Section consumption.
Context `{signing : crypto} `{env : environment}.

Lemma keeps_load op command intent prior operator :
  keeps (load_prepared_mutation op command intent prior operator).
Proof. unfold load_prepared_mutation. keeps_steps. all: by apply keeps_update. Qed.

Lemma keeps_verify t expected operator : keeps (verify_and_consume t expected operator).
Proof.
  unfold verify_and_consume. keeps_steps.
  apply keeps_conflict. keeps_steps; [|by apply keeps_update].
  apply keeps_exec. intros d e H. unfold insert_grant in H. by inv_ok.
Qed.

Lemma keeps_mark op id : keeps (mark_prepared_executed op id).
Proof. unfold mark_prepared_executed. keeps_steps. by apply keeps_update. Qed.

Lemma keeps_prepare command request intent prior execution operator :
  keeps (prepare_mutation command request intent prior execution operator).
Proof.
  intros c v c1 H. apply prepare_Ok in H as (row & H & _). unfold insert_prepared in H. inv_ok.
  match goal with H : _ = live c1 |- _ => by rewrite <- H end.
Qed.
Hint Resolve keeps_load keeps_verify keeps_mark keeps_prepare : rows.

(** Spending an approval, or asking for one, writes none of these rows. *)
Lemma keeps_consume operator token dm : keeps (_consume_authority operator token dm).
Proof. unfold _consume_authority, approval_required. keeps_steps. Qed.
Hint Resolve keeps_consume : rows.

Lemma keeps_governed_execution s tiers token refused dm :
  keeps (governed_execution s tiers token refused dm).
Proof. unfold governed_execution. keeps_steps. Qed.

(** *** What a spent approval leaves *)

(** One grant more; the challenge of its nonce is consumed by it. *)
Definition spend (nonce at_ : string) (g : grant_row) (a : authority) : authority :=
  {| prepared := prepared a;
     challenges := map (λ r, if unconsumed (sha256 nonce) r then spend_row at_ (gr_id g) r else r) (challenges a);
     grants := grants a ++ [g]; keys_ := keys_ a; ledger := ledger a; trusted := trusted a |}.

(** The mutation of an operation is executed. *)
Definition execute (operation provenance at_ : string) (a : authority) : authority :=
  {| prepared := map (λ r, if pending operation r then with_status "executed" (Some at_) (Some provenance) r else r)
                   (prepared a);
     challenges := challenges a; grants := grants a; keys_ := keys_ a; ledger := ledger a; trusted := trusted a |}.

(** An approval goes into one grant: of a mutation that was pending and had no
    grant, through a challenge that had not been consumed. *)
Definition spends_one (a b : authority) : Prop :=
  ∃ nonce row challenge g at_ done,
    In row (prepared a) ∧ pm_operation row = gr_operation g ∧ pm_status row = "pending" ∧
    In challenge (challenges a) ∧ ch_nonce_sha challenge = sha256 nonce ∧ ch_consumed challenge = None ∧
    ~ In (gr_operation g) (map gr_operation (grants a)) ∧
    b = execute (gr_operation g) (gr_id g) done (spend nonce at_ g a).

Lemma read_authority_Ok {A} (f : authority → res A) c x c1 : read_authority f c = (Ok x, c1) → c1 = c.
Proof. unfold read_authority. intros H. by inv_txn. Qed.

Lemma spend_run grant id nonce at_ msg c n c1 :
  conflict_on_integrity (exec (insert_grant grant) ;; update (consume_challenge (sha256 nonce) at_ id)) msg c =
    (Ok n, c1) →
  gr_id grant = id →
  ~ In (gr_operation grant) (map gr_operation (grants (the_authority (live c)))) ∧
  live c1 = with_authority (spend nonce at_ grant (the_authority (live c))) (live c).
Proof.
  unfold conflict_on_integrity, mbind, txn_bind, exec, update. intros H <-.
  destruct (insert_grant grant (live c)) as [d|e] eqn:E; [|by destruct (is_integrity e)].
  cbn in H. injection H as <- <-. unfold insert_grant in E.
  unfold unique, raise_if in E. cbn zeta in E. destruct (_ || _) eqn:Hu in E; [discriminate|].
  cbn in E. injection E as <-. bool_hyps. split; [by apply mem_not_In|done].
Qed.

(** What a consumption that returned has found and done *)
Lemma consumed_run token r operator c id c1 :
  verify_and_consume token r operator c = (Ok id, c1) →
  let a := the_authority (live c) in
  ∃ nonce row g at_,
    text_item "nonce" (tk_challenge token) = Ok nonce ∧
    text_item "operation_id" (tk_challenge token) = Ok (gr_operation g) ∧
    In row (challenges a) ∧ ch_nonce_sha row = sha256 nonce ∧ ch_consumed row = None ∧
    gr_id g = id ∧ ~ In (gr_operation g) (map gr_operation (grants a)) ∧
    live c1 = with_authority (spend nonce at_ g a) (live c).
Proof.
  unfold verify_and_consume. intros E. cbv zeta in E |- *.
  apply txn_bind_Ok in E as (? & ? & E1 & E). apply txn_lift_Ok in E1 as [_ ->].
  apply txn_bind_Ok in E as (? & ? & E1 & E). apply txn_lift_Ok in E1 as [_ ->].
  apply txn_bind_Ok in E as ([k head] & ? & E1 & E). apply read_authority_Ok in E1 as ->.
  apply txn_bind_Ok in E as (? & ? & E1 & E). apply guard_Ok in E1 as [_ ->].
  apply txn_bind_Ok in E as (? & ? & E1 & E). apply guard_Ok in E1 as [_ ->].
  apply txn_bind_Ok in E as (encoded & ? & E1 & E). apply txn_lift_Ok in E1 as [_ ->].
  apply txn_bind_Ok in E as (nonce & ? & E1 & E). apply txn_lift_Ok in E1 as [Hn ->].
  apply txn_bind_Ok in E as (operation & ? & E1 & E). apply txn_lift_Ok in E1 as [Ho ->].
  apply txn_bind_Ok in E as (transition & ? & E1 & E). apply txn_lift_Ok in E1 as [_ ->].
  apply txn_bind_Ok in E as (a & ? & E1 & E). apply query_Ok in E1 as [-> ->].
  destruct (find_challenge _ _) as [row|] eqn:Ef; [|discriminate].
  apply List.find_some in Ef as [Hrow Hsha]. apply String.eqb_eq in Hsha.
  apply txn_bind_Ok in E as (? & ? & E1 & E). apply guard_Ok in E1 as [_ ->].
  apply txn_bind_Ok in E as (? & ? & E1 & E). apply guard_Ok in E1 as [Hc ->].
  apply txn_bind_Ok in E as (now & ? & E1 & E). injection E1 as <- <-. inv_txn.
  match goal with H : fresh _ _ = _ |- _ => apply fresh_live in H as [Hl _]; cbn in Hl end.
  match goal with H : conflict_on_integrity _ _ _ = _ |- _ => apply spend_run in H as (Hno & El); [|done] end.
  rewrite Hl in Hno, El. do 4 eexists. split_and!; try eassumption; try done.
  by destruct (ch_consumed row).
Qed.

Lemma loaded_run op command intent prior operator c x c1 :
  load_prepared_mutation op command intent prior operator c = (Ok x, c1) →
  ∃ row, In row (prepared (the_authority (live c))) ∧ pm_operation row = op ∧ pm_status row = "pending" ∧
    live c1 = live c.
Proof.
  unfold load_prepared_mutation. intros E.
  apply txn_bind_Ok in E as (a & ? & E1 & E). apply query_Ok in E1 as [-> ->].
  destruct (find_prepared op _) as [row|] eqn:Ef; [|discriminate].
  apply List.find_some in Ef as [Hrow Hop]. apply String.eqb_eq in Hop. exists row.
  apply txn_bind_Ok in E as (? & ? & E1 & E). apply guard_Ok in E1 as [Hs ->].
  apply negb_false_iff, String.eqb_eq in Hs. split_and!; try done.
  apply txn_bind_Ok in E as (? & ? & E1 & E). apply guard_Ok in E1 as [_ ->].
  apply txn_bind_Ok in E as (now & ? & E1 & E). injection E1 as <- <-.
  apply txn_bind_Ok in E as (? & ? & E1 & E). apply txn_lift_Ok in E1 as [_ ->].
  apply txn_bind_Ok in E as (? & ? & E1 & E).
  destruct (_ <=? _) in E1; [by inv_txn|]. apply ret_Ok in E1 as [_ ->]. inv_txn.
  match goal with H : match ?r with _ => _ end _ = (Ok x, c1) |- _ => destruct r; try discriminate; by inv_txn end.
Qed.

Lemma marked_run op id c u c1 :
  mark_prepared_executed op id c = (Ok u, c1) →
  ∃ at_, live c1 = with_authority (execute op id at_ (the_authority (live c))) (live c).
Proof.
  unfold mark_prepared_executed. intros E.
  apply txn_bind_Ok in E as (now & ? & E1 & E). injection E1 as <- <-.
  apply txn_bind_Ok in E as (n & ? & E1 & E). apply guard_Ok in E as [_ ->].
  unfold update, set_prepared in E1. injection E1 as _ <-. by eexists.
Qed.

(** A demand for authority that is granted spends one approval, and touches
    nothing else of the store. *)
Lemma consumption_run operator token dm c x c1 :
  _consume_authority operator token dm c = (Ok x, c1) →
  ∃ b, spends_one (the_authority (live c)) b ∧ live c1 = with_authority b (live c).
Proof.
  unfold _consume_authority. destruct operator as [operator|]; [|discriminate]. intros E.
  apply txn_bind_Ok in E as (t & ? & E1 & E). apply txn_lift_Ok in E1 as [_ ->].
  apply txn_bind_Ok in E as (op & c2 & E1 & E). apply txn_bind_Ok in E as (? & ? & E2 & E).
  apply txn_lift_Ok in E2 as [_ ->]. destruct t as [t|].
  2:{ apply txn_bind_Ok in E as (? & ? & _ & E). apply txn_bind_Ok in E as (? & ? & _ & E).
      unfold approval_required in E. by inv_txn. }
  apply txn_lift_Ok in E1 as [Hop ->].
  apply txn_bind_Ok in E as ([[row stored] execution] & ? & E1 & E).
  apply loaded_run in E1 as (pm & Hpm & Eop & Hs & L1).
  apply txn_bind_Ok in E as (? & ? & E1 & E). apply txn_lift_Ok in E1 as [_ ->].
  apply txn_bind_Ok in E as (? & ? & E1 & E). apply guard_Ok in E1 as [_ ->].
  apply txn_bind_Ok in E as (? & ? & E1 & E). apply read_authority_Ok in E1 as ->.
  apply txn_bind_Ok in E as (id & ? & E1 & E).
  apply consumed_run in E1 as (nonce & ch & g & at_ & Hn & Ho & Hch & Hsha & Hc & Hi & Hno & L2).
  rewrite Hop in Ho. injection Ho as ->.
  apply txn_bind_Ok in E as (? & ? & E1 & E). apply marked_run in E1 as (done & L3).
  apply txn_lift_Ok in E as [_ ->]. rewrite L3, L2, L1 in *. subst id.
  exists (execute (gr_operation g) (gr_id g) done (spend nonce at_ g (the_authority (live c)))).
  split; [|done]. by exists nonce, pm, ch, g, at_, done.
Qed.

(** What a write has spent: nothing, where no tier claims the judgment of the
    operator, and one approval otherwise *)
Definition spent_for (tiers : list json) (a b : authority) : Prop :=
  if existsb (λ t, authoritative (text_or_empty t)) tiers then spends_one a b else b = a.

Lemma governed_run s tiers token refused dm c x c1 :
  governed_execution s tiers token refused dm c = (Ok x, c1) →
  ∃ b, spent_for tiers (the_authority (live c)) b ∧ live c1 = with_authority b (live c).
Proof.
  unfold governed_execution, spent_for. intros E.
  apply txn_bind_Ok in E as (signed & ? & E1 & E). apply txn_lift_Ok in E1 as [Hs ->].
  apply any_signed in Hs as ->. destruct signed; [by apply consumption_run in E|].
  inv_txn. eexists. split; [reflexivity|]. by destruct (live _).
Qed.
End consumption.
#[export] Hint Resolve keeps_consume keeps_governed_execution : rows.

(** ** Row writers *)
Lemma row_appends (f : db → res db) w :
  (∀ d e, f d = Ok e → rows_of e = rows_of d ⊕ w) → appends (exec f) w.
Proof. intros H c a c1 E. apply exec_Ok in E as (e & E & ->). by apply H. Qed.

Lemma appends_bind {A B} (m : txn A) (f : A → txn B) w v :
  appends m w → (∀ a, appends (f a) v) → appends (m ≫= f) (w ⊕ v).
Proof.
  intros Hm Hf c b c2 E. apply txn_bind_Ok in E as (a & c1 & E1 & E2).
  rewrite (Hf a _ _ _ E2), (Hm _ _ _ E1). by rewrite plus_assoc.
Qed.

Lemma keeps_then {A B} (m : txn A) (f : A → txn B) w :
  keeps m → (∀ a, appends (f a) w) → appends (m ≫= f) w.
Proof. intros Hm Hf. rewrite <- (none_plus w). by apply appends_bind; [apply appends_none|]. Qed.

Lemma appends_eq {A} (m : txn A) w v : appends m w → w = v → appends m v.
Proof. by intros H <-. Qed.

(** An insert into one table: the other eleven stay. *)
Ltac one_table def :=
  apply row_appends; intros d e H; unfold on_graph, def in H; inv_ok;
  unfold rows_of, plus; simpl; f_equal; by rewrite app_nil_r.

Lemma write_event_appends id type operator now valid payload prior status :
  appends (write_event id type operator now valid payload prior status)
    (an_event {| ev_id := id; ev_type := type; ev_operator := operator; ev_system_time := now;
       ev_valid_time := valid; ev_payload := canonical_bytes (JObj payload);
       ev_sha := payload_sha256 (JObj payload); ev_prior := prior; ev_status := status |}).
Proof. one_table insert_event. Qed.

Lemma write_node_appends id type operator event :
  appends (write_node id type operator event)
    (a_node {| nd_id := id; nd_type := type; nd_operator := operator; nd_event := event |}).
Proof. one_table insert_node. Qed.

Lemma write_edge_appends id type source target operator event :
  appends (write_edge id type source target operator event)
    (an_edge {| ed_id := id; ed_type := type; ed_source := source; ed_target := target;
                ed_operator := operator; ed_event := event |}).
Proof. one_table insert_edge. Qed.

Lemma node_version_appends v : appends (insert_node_version v) (a_version v).
Proof.
  apply keeps_then; [apply idle_keeps; auto with rollback|]. intros u. one_table insert_version.
Qed.

Lemma edge_version_appends v : appends (insert_edge_version_row v) (an_edge_version v).
Proof.
  apply keeps_then; [apply idle_keeps; auto with rollback|]. intros u. one_table insert_edge_version.
Qed.

Lemma semantic_appends r : appends (put_semantic r) (an_envelope r).
Proof. one_table insert_semantic. Qed.

Lemma artifact_appends r : appends (exec (insert_artifact r)) (artifact_rows [r]).
Proof. one_table insert_artifact. Qed.

Lemma relation_appends r : appends (exec (insert_relation r)) (a_relation r).
Proof. one_table insert_relation. Qed.

Lemma partition_appends r : appends (exec (insert_partition r)) (partition_rows [r]).
Proof. one_table insert_partition. Qed.

Lemma policy_appends r : appends (exec (insert_policy r)) (a_policy r).
Proof. one_table insert_policy. Qed.

Lemma insert_correction_rows r d e : insert_correction r d = Ok e → rows_of e = rows_of d ⊕ a_correction r.
Proof.
  intros H. unfold insert_correction in H. inv_ok. unfold rows_of, plus. simpl. f_equal; by rewrite app_nil_r.
Qed.

Lemma insert_contest_rows r d e : insert_contest r d = Ok e → rows_of e = rows_of d ⊕ a_contest r.
Proof.
  intros H. unfold insert_contest in H. inv_ok. unfold rows_of, plus. simpl. f_equal; by rewrite app_nil_r.
Qed.

(** The heads of the assessments are no rows of history. *)
Lemma keeps_head replace r : keeps (exec (insert_head replace r)).
Proof. apply keeps_exec. intros d e H. unfold insert_head in H. by inv_ok. Qed.
#[export] Hint Resolve keeps_head : rows.

Lemma keeps_write_head `{lite : sqlite} replace subject en : keeps (write_head replace subject en).
Proof. unfold write_head. keeps_steps. Qed.
#[export] Hint Resolve keeps_write_head : rows.

(** ** Rows of an envelope *)
Definition envelope_content (now : string) (en : envelope) : obj := with_system now (en_value en).

Definition envelope_event (type operator : string) (prior : option string) (en : envelope)
    (event now : string) : event_row :=
  let content := JObj (envelope_content now en) in
  {| ev_id := event; ev_type := type; ev_operator := operator; ev_system_time := now;
     ev_valid_time := en_valid_from en; ev_payload := canonical_bytes content;
     ev_sha := payload_sha256 content; ev_prior := prior; ev_status := en_origin en |}.

(** The first version of the record: open, with the content and the interval
    of the envelope *)
Definition envelope_version (en : envelope) (event now : string) : version_row :=
  {| vr_id := en_version en; vr_owner := en_record en;
     vr_payload := canonical_bytes (JObj (en_payload en)); vr_sha := payload_sha256 (JObj (en_payload en));
     vr_status := en_origin en; vr_tier := text_or_empty (en_tier en);
     vr_provenance := canonical_bytes (JObj (en_provenance en));
     vr_evidence := dumps_strings (en_evidence en); vr_valid_from := en_valid_from en;
     vr_valid_to := en_valid_to en; vr_system_from := now; vr_system_to := None;
     vr_event := event; vr_prior := None |}.

Definition envelope_node (operator : string) (en : envelope) (event : string) : node_row :=
  {| nd_id := en_record en; nd_type := en_type en; nd_operator := operator; nd_event := event |}.

Definition envelope_rows (type operator : string) (prior : option string) (en : envelope)
    (event now : string) : rows :=
  {| w_events := [envelope_event type operator prior en event now];
     w_nodes := [envelope_node operator en event]; w_versions := [envelope_version en event now];
     w_edges := []; w_edge_versions := [];
     w_governed := [semantic_values en None (envelope_content now en)];
     w_artifacts := []; w_relations := []; w_partitions := []; w_policies := [];
     w_corrections := []; w_contests := [] |}.

Lemma write_envelope_appends type operator prior en event now :
  appends (write_envelope type operator prior en event now) (envelope_rows type operator prior en event now).
Proof.
  unfold write_envelope. cbv zeta. eapply appends_eq.
  - apply appends_bind; [apply write_event_appends|]. intros _.
    apply appends_bind; [apply write_node_appends|]. intros _.
    apply appends_bind; [apply node_version_appends|]. intros _. apply semantic_appends.
  - reflexivity.
Qed.

(** ** Rows of a relation *)
Definition relation_event (type : string) (r : relation_envelope) (content : obj) (event now : string)
    : event_row :=
  {| ev_id := event; ev_type := type; ev_operator := re_operator r; ev_system_time := now;
     ev_valid_time := re_valid_from r; ev_payload := canonical_bytes (JObj content);
     ev_sha := payload_sha256 (JObj content); ev_prior := None; ev_status := re_origin r |}.

Definition relation_version (r : relation_envelope) (payload : obj) (event now : string) : version_row :=
  {| vr_id := re_version r; vr_owner := re_id r; vr_payload := canonical_bytes (JObj payload);
     vr_sha := payload_sha256 (JObj payload); vr_status := re_origin r;
     vr_tier := text_or_empty (re_tier r); vr_provenance := canonical_bytes (JObj (re_provenance r));
     vr_evidence := dumps_strings (re_evidence r); vr_valid_from := re_valid_from r;
     vr_valid_to := re_valid_to r; vr_system_from := now; vr_system_to := None; vr_event := event;
     vr_prior := None |}.

Definition relation_values (r : relation_envelope) (content qualifier : obj) (now : string) : relation_row :=
  {| sr_version := re_version r; sr_relation := re_id r; sr_predicate := re_predicate r;
     sr_predicate_version := 1; sr_source := re_source r; sr_target := re_target r;
     sr_operator := re_operator r; sr_qualifier_schema := re_schema r;
     sr_qualifier := canonical_bytes (JObj qualifier); sr_envelope := canonical_bytes (JObj content);
     sr_sha := payload_sha256 (JObj content); sr_valid_from := re_valid_from r;
     sr_valid_to := re_valid_to r; sr_system_from := now; sr_system_to := None; sr_contested := None |}.

(** The relation joins the records its ends are versions of. *)
Definition relation_rows (type : string) (r : relation_envelope) (content payload qualifier : obj)
    (source target event now : string) : rows :=
  {| w_events := [relation_event type r content event now]; w_nodes := []; w_versions := [];
     w_edges := [{| ed_id := re_id r; ed_type := re_predicate r; ed_source := source;
                    ed_target := target; ed_operator := re_operator r; ed_event := event |}];
     w_edge_versions := [relation_version r payload event now]; w_governed := []; w_artifacts := [];
     w_relations := [relation_values r content qualifier now]; w_partitions := []; w_policies := [];
     w_corrections := []; w_contests := [] |}.

Lemma txn_read_Ok {A} (f : db → res A) c a c1 : read f c = (Ok a, c1) ↔ f (live c) = Ok a ∧ c1 = c.
Proof.
  unfold read. split.
  - intros H. by inv_txn.
  - intros [H ->]. unfold mbind, txn_bind, query, lift. by rewrite H.
Qed.

Lemma write_relation_appends type r content payload qualifier event now c u c1 :
  write_relation type r content payload qualifier event now c = (Ok u, c1) →
  ∃ source target, version_node (re_source r) (live c) = Ok source ∧
    version_node (re_target r) (live c) = Ok target ∧
    rows_of (live c1) = rows_of (live c) ⊕ relation_rows type r content payload qualifier source target event now.
Proof.
  unfold write_relation. intros H.
  apply txn_bind_Ok in H as (source & c' & H1 & H). apply txn_read_Ok in H1 as [Hs ->].
  apply txn_bind_Ok in H as (target & c' & H1 & H). apply txn_read_Ok in H1 as [Ht ->].
  exists source, target. split_and!; [done..|]. revert H. generalize c u c1. change (appends
    (write_event event type (re_operator r) now (re_valid_from r) content None (re_origin r) ;;
     write_edge (re_id r) (re_predicate r) source target (re_operator r) event ;;
     insert_edge_version_row (relation_version r payload event now) ;;
     exec (insert_relation (relation_values r content qualifier now)))
    (relation_rows type r content payload qualifier source target event now)).
  eapply appends_eq.
  - apply appends_bind; [apply write_event_appends|]. intros _.
    apply appends_bind; [apply write_edge_appends|]. intros _.
    apply appends_bind; [apply edge_version_appends|]. intros _. apply relation_appends.
  - reflexivity.
Qed.
