(* ===== verification/Versions.v ===== *)
(** * What a correction and a contest change

    The bitemporal reading before and after: system times before the change
    and valid times outside the version it replaces keep what they showed; at
    the others the version is split at the effective time, or replaced by two
    versions of one contested set. *)
From S2P Require Import Prelude PyTime Urn Contracts Codec Unicode Retrieval Json Names.
From S2P Require Import Clock Binding Business Tables Integrity Txn Approval Store Records.
From S2P Require Import Semantic Review Envelopes Bundles Relations Bitemporal Safety Governance Machine.
From S2P Require Import Scenario Rollback Chronicle Resolution Writes.

(** ** Texts in order *)
Lemma text_lt_leb a b : text_lt a b = true → String.leb a b = true.
Proof.
  unfold text_lt. intros H%negb_true_iff. destruct (str_leb_total a b) as [?|E]; [done|congruence].
Qed.

Lemma text_lt_irrefl a b : text_lt a b = true → String.leb b a = false.
Proof. by unfold text_lt; intros H%negb_true_iff. Qed.

Lemma not_text_lt a b : text_lt a b = false → String.leb b a = true.
Proof. by unfold text_lt; intros H%negb_false_iff. Qed.

(** A fraction of a second sorts before the whole second it follows. *)
Example fraction_sorts_first :
  text_lt "2026-01-01T00:00:00.5Z" "2026-01-01T00:00:00Z" = true.
Proof. reflexivity. Qed.

(** An interval cut inside: every time is in one half or outside both. *)
Lemma covers_split from to at_ t :
  text_lt from at_ = true → match to with Some e => String.leb e at_ | None => false end = false →
  covers from (Some at_) t = covers from to t && text_lt t at_ ∧
  covers at_ to t = covers from to t && negb (text_lt t at_).
Proof.
  intros Hf Ht. unfold covers. destruct (text_lt t at_) eqn:E; simpl; rewrite ?andb_true_r, ?andb_false_r.
  - rewrite (text_lt_irrefl _ _ E). split; [|done]. destruct to as [e|]; [|by rewrite andb_true_r].
    destruct (text_lt t e) eqn:E'; [by rewrite andb_true_r|]. exfalso.
    apply not_text_lt in E'. pose proof (str_leb_trans e t at_ E' (text_lt_leb _ _ E)). congruence.
  - apply not_text_lt in E. rewrite E. split; [done|].
    by rewrite (str_leb_trans from at_ t (text_lt_leb _ _ Hf) E).
Qed.

(** ** Ordering commutes with maps that keep the key *)
Lemma order_by_map {A} (key : A → string * string) (f : A → A) l :
  (∀ x, key (f x) = key x) → order_by key (map f l) = map f (order_by key l).
Proof.
  intros Hk. unfold order_by, sort_by. induction l as [|x l IH]; simpl; [done|]. rewrite IH. clear IH.
  set (r := fold_right _ [] l). clearbody r. induction r as [|y r IH]; simpl; [done|].
  rewrite !Hk. destruct (text_order _ _); simpl; [done|]. by rewrite IH.
Qed.

Lemma order_by_single {A} (key : A → string * string) l x : order_by key l = [x] → l = [x].
Proof.
  intros H. apply Permutation_length_1_inv. rewrite <- H. unfold order_by. by rewrite sort_by_perm.
Qed.

Lemma filter_filter {A} (p q : A → bool) l : List.filter p (List.filter q l) = List.filter (λ x, q x && p x) l.
Proof.
  induction l as [|x l IH]; simpl; [done|]. destruct (q x); simpl; [|done]. destruct (p x); by rewrite IH.
Qed.

Lemma filter_ext_In {A} (p q : A → bool) l : (∀ x, In x l → p x = q x) → List.filter p l = List.filter q l.
Proof.
  intros H. induction l as [|x l IH]; simpl; [done|]. rewrite H by (by left).
  rewrite IH by (intros y Hy; apply H; by right). done.
Qed.

Lemma filter_map {A B} (p : B → bool) (f : A → B) l :
  List.filter p (map f l) = map f (List.filter (λ x, p (f x)) l).
Proof. induction l as [|x l IH]; simpl; [done|]. destruct (p (f x)); simpl; by rewrite IH. Qed.

Lemma NoDup_app_disjoint {A} (l l' : list A) x : List.NoDup (l ++ l') → In x l → In x l' → False.
Proof.
  intros H Hx Hx'. apply in_split in Hx as (a & b & ->). rewrite <- app_assoc in H. simpl in H.
  apply NoDup_remove_2 in H. apply H, in_or_app. right. apply in_or_app. by right.
Qed.

(** ** The versions of a record, as a join *)
Section lookup.
Context `{signing : crypto}.

Definition joined (d : db) (r : semantic_row) : list held :=
  match find_versioned (sv_version r) d with
  | Some (n, v) => [{| h_node := n; h_version := v; h_semantic := r |}]
  | None => []
  end.

Definition of_record (record scope : string) (r : semantic_row) : bool :=
  String.eqb (sv_record r) record && String.eqb (sv_scope r) scope.

Lemma held_versions_joined record scope d :
  held_versions record scope d =
  flat_map (joined d) (List.filter (of_record record scope) (semantic_nodes (the_semantic d))).
Proof.
  unfold held_versions, of_record. induction (semantic_nodes _) as [|r l IH]; simpl; [done|].
  destruct (_ && _); simpl; by rewrite IH.
Qed.

Lemma find_versioned_In d n v :
  db_ok d → In v (node_versions (the_graph d)) → In n (nodes (the_graph d)) → nd_id n = vr_owner v →
  find_versioned (vr_id v) d = Some (n, v).
Proof.
  intros Hd Hv Hn E. pose proof (do_graph _ Hd) as Hg. unfold find_versioned, find_version, find_node.
  rewrite (find_unique vr_id _ v (go_node_versions _ Hg) Hv). simpl. rewrite <- E.
  by rewrite (find_unique nd_id _ n (go_nodes _ Hg) Hn).
Qed.

(** A version and its node are found by the identifier of the version. *)
Lemma version_found d v :
  db_ok d → In v (node_versions (the_graph d)) →
  ∃ n, In n (nodes (the_graph d)) ∧ nd_id n = vr_owner v ∧ find_versioned (vr_id v) d = Some (n, v).
Proof.
  intros Hd Hv. pose proof (go_node_version_refs _ (do_graph _ Hd)) as H. rewrite List.Forall_forall in H.
  destruct (H v Hv) as [Ho _]. apply in_map_iff in Ho as (n & E & Hn). exists n.
  split_and!; [done..|]. by apply find_versioned_In.
Qed.

Lemma governed_found d r :
  db_ok d → In r (semantic_nodes (the_semantic d)) →
  ∃ n v, In v (node_versions (the_graph d)) ∧ vr_id v = sv_version r ∧ vr_owner v = sv_record r ∧
    In n (nodes (the_graph d)) ∧ nd_id n = vr_owner v ∧ joined d r = [{| h_node := n; h_version := v; h_semantic := r |}].
Proof.
  intros Hd Hr. pose proof (so_node_refs _ _ (do_semantic _ Hd)) as H. rewrite List.Forall_forall in H.
  apply H in Hr. apply in_map_iff in Hr as (v & E & Hv). injection E as E Eo.
  destruct (version_found d v Hd Hv) as (n & Hn & En & F). exists n, v. unfold joined.
  rewrite <- E, F. by split_and!.
Qed.
End lookup.

(** ** A version superseded *)
Section superseded.
Context `{signing : crypto} (prior now : string) (d e : db).

Definition is_prior (v : version_row) : bool := String.eqb (vr_id v) prior.

Record supersedes (vs : list version_row) (rs : list semantic_row) : Prop := {
  sp_before : db_ok d;
  sp_after : db_ok e;
  sp_nodes : ∃ ns, nodes (the_graph e) = nodes (the_graph d) ++ ns;
  sp_versions : node_versions (the_graph e) =
    update_where is_prior (close now false) (node_versions (the_graph d)) ++ vs;
  sp_semantic : semantic_nodes (the_semantic e) = semantic_nodes (the_semantic d) ++ rs
}.

(** The version as it stands afterwards *)
Definition shut (h : held) : held :=
  if is_prior (h_version h)
  then {| h_node := h_node h; h_version := close now false (h_version h); h_semantic := h_semantic h |}
  else h.

Lemma joined_after vs rs r :
  supersedes vs rs → In r (semantic_nodes (the_semantic d)) → joined e r = map shut (joined d r).
Proof.
  intros [Hd He [ns Hn] Hv Hs] Hr. destruct (governed_found d r Hd Hr) as (n & v & Iv & Ev & _ & In_ & En & ->).
  set (w := if is_prior v then close now false v else v).
  assert (vr_id w = vr_id v ∧ vr_owner w = vr_owner v) as [E1 E2] by (unfold w; by destruct (is_prior v)).
  assert (find_versioned (vr_id w) e = Some (n, w)) as F.
  { apply find_versioned_In; [done| | |congruence].
    - rewrite Hv. apply in_or_app. left. apply in_map_iff. by exists v.
    - rewrite Hn. apply in_or_app. by left. }
  unfold joined. rewrite <- Ev, <- E1, F. simpl. unfold shut, w. simpl. by destruct (is_prior v).
Qed.

Lemma held_after vs rs record scope :
  supersedes vs rs →
  held_versions record scope e =
    map shut (held_versions record scope d) ++ flat_map (joined e) (List.filter (of_record record scope) rs).
Proof.
  intros H. rewrite !held_versions_joined, (sp_semantic _ _ H), List.filter_app, List.flat_map_app. f_equal.
  assert (incl (List.filter (of_record record scope) (semantic_nodes (the_semantic d)))
               (semantic_nodes (the_semantic d))) as Hi by (intros r [Hr _]%filter_In; done).
  revert Hi. generalize (List.filter (of_record record scope) (semantic_nodes (the_semantic d))).
  induction l as [|r l IH]; simpl; intros Hi; [done|].
  rewrite map_app, (joined_after vs rs) by (done || (apply Hi; by left)). f_equal.
  apply IH. intros x Hx. apply Hi. by right.
Qed.

(** ** Visibility *)
Definition visible (v s : string) (h : held) : bool := valid_at_ v h && system_at_ s h.
Definition by_version (h : held) : string * string := (vr_id (h_version h), "").

Lemma as_of_rows_visible record scope v s x :
  as_of_rows record scope v s x = order_by by_version (List.filter (visible v s) (held_versions record scope x)).
Proof. done. Qed.

Lemma shut_key h : by_version (shut h) = by_version h.
Proof. unfold shut, by_version. by destruct (is_prior _). Qed.

(** Before the change, a row reads as it did. *)
Lemma shut_visible_before v s h :
  text_lt s now = true → (is_prior (h_version h) = true → is_open (h_version h) = true) →
  visible v s (shut h) = visible v s h.
Proof.
  intros Hs Ho. unfold shut. destruct (is_prior (h_version h)) eqn:E; [|done].
  specialize (Ho eq_refl). unfold visible, valid_at_, system_at_, covers, is_open in *. simpl.
  destruct (vr_system_to (h_version h)); [discriminate|]. by rewrite Hs.
Qed.

(** From then on the superseded version is gone. *)
Lemma shut_visible_after v s h :
  text_lt s now = false → visible v s (shut h) = visible v s h && negb (is_prior (h_version h)).
Proof.
  intros Hs. unfold shut. destruct (is_prior (h_version h)); simpl; [|by rewrite andb_true_r].
  unfold visible, system_at_, covers. simpl. by rewrite Hs, !andb_false_r.
Qed.

Definition since (h : held) : Prop := vr_system_from (h_version h) = now ∧ vr_system_to (h_version h) = None.

Lemma since_visible v s h : since h → visible v s h = valid_at_ v h && negb (text_lt s now).
Proof.
  intros [E1 E2]. unfold visible, system_at_, covers. rewrite E1, E2, andb_true_r. f_equal.
  unfold text_lt. by rewrite negb_involutive.
Qed.

(** *** The reading before the change *)
Lemma rows_before vs rs record scope v s :
  supersedes vs rs → text_lt s now = true →
  (∀ h, In h (held_versions record scope d) → is_prior (h_version h) = true → is_open (h_version h) = true) →
  Forall since (flat_map (joined e) (List.filter (of_record record scope) rs)) →
  as_of_rows record scope v s e = map shut (as_of_rows record scope v s d).
Proof.
  intros H Hs Ho Hn. rewrite !as_of_rows_visible, (held_after vs rs) by done.
  rewrite List.filter_app, (filter_ext_In _ (λ _, false) (flat_map _ _)).
  2:{ intros h Hh. rewrite List.Forall_forall in Hn. rewrite since_visible by auto. by rewrite Hs, andb_false_r. }
  rewrite List.filter_false, app_nil_r, filter_map, order_by_map by apply shut_key. do 2 f_equal.
  apply filter_ext_In. intros h Hh. apply shut_visible_before; [done|]. by apply Ho.
Qed.

(** *** The reading after it *)
Lemma rows_after vs rs record scope v s :
  supersedes vs rs → text_lt s now = false →
  Forall since (flat_map (joined e) (List.filter (of_record record scope) rs)) →
  as_of_rows record scope v s e =
    order_by by_version
      (List.filter (λ h, visible v s h && negb (is_prior (h_version h))) (held_versions record scope d) ++
       List.filter (valid_at_ v) (flat_map (joined e) (List.filter (of_record record scope) rs))).
Proof.
  intros H Hs Hn. rewrite as_of_rows_visible, (held_after vs rs) by done. rewrite List.filter_app. do 2 f_equal.
  - rewrite filter_map. rewrite (filter_ext_In _ (λ h, visible v s h && negb (is_prior (h_version h)))).
    + rewrite <- (map_id (List.filter _ _)) at 2. apply map_ext_in. intros h [_ Hh]%filter_In.
      unfold shut. apply andb_true_iff in Hh as [_ Hh%negb_true_iff]. by rewrite Hh.
    + intros h _. by apply shut_visible_after.
  - apply filter_ext_In. intros h Hh. rewrite List.Forall_forall in Hn. rewrite since_visible by auto.
    by rewrite Hs, andb_true_r.
Qed.
End superseded.

(** ** The runs *)
Definition shut_rows (id now : string) (r : rows) : rows :=
  {| w_events := w_events r; w_nodes := w_nodes r;
     w_versions := update_where (is_prior id) (close now false) (w_versions r); w_edges := w_edges r;
     w_edge_versions := w_edge_versions r; w_governed := w_governed r; w_artifacts := w_artifacts r;
     w_relations := w_relations r; w_partitions := w_partitions r; w_policies := w_policies r;
     w_corrections := w_corrections r; w_contests := w_contests r |}.

Lemma close_rows id now c u c1 :
  close_node_version id now false c = (Ok u, c1) → rows_of (live c1) = shut_rows id now (rows_of (live c)).
Proof.
  unfold close_node_version. intros H. apply exec_Ok in H as (e & H & ->). unfold on_graph_update in H. by inv_ok.
Qed.

(** The assessments that come with a change, each with its event *)
Definition assessment_rows (type operator parent now : string) (l : list (envelope * string)) : rows :=
  all_rows (map (λ x, envelope_rows type operator (Some parent) x.1 x.2 now) l).

Lemma assessment_rows_tables type operator parent now l :
  let w := assessment_rows type operator parent now l in
  w_nodes w = map (λ x, envelope_node operator x.1 x.2) l ∧
  w_versions w = map (λ x, envelope_version x.1 x.2 now) l ∧
  w_governed w = map (λ x, semantic_values x.1 None (envelope_content now x.1)) l.
Proof.
  unfold assessment_rows. induction l as [|x l (IH1 & IH2 & IH3)]; simpl; [done|].
  by rewrite IH1, IH2, IH3.
Qed.

Ltac inv_reads :=
  repeat match goal with
  | H : read _ _ = (Ok _, _) |- _ => apply txn_read_Ok in H as [? ?]; subst
  end.

(** What the statements of a run appended *)
Ltac append_facts :=
  repeat match goal with
  | H : insert_node_version _ _ = (Ok _, _) |- _ => apply node_version_appends in H
  | H : put_semantic _ _ = (Ok _, _) |- _ => apply semantic_appends in H
  | H : write_change_event _ _ _ _ _ _ _ = (Ok _, _) |- _ => apply write_event_appends in H
  | H : close_node_version _ _ false _ = (Ok _, _) |- _ => apply close_rows in H
  | H : _consume_authority _ _ _ _ = (Ok _, _) |- _ => apply keeps_consume in H
  | H : insert_correction ?r _ = Ok _ |- _ => apply insert_correction_rows in H
  | H : insert_contest ?r _ = Ok _ |- _ => apply insert_contest_rows in H
  end.

Section runs.
Context `{signing : crypto} `{env : environment} `{lite : sqlite} (s : store).

Lemma put_successor_appends h evidence now event x :
  appends (put_successor h evidence now event x)
    (a_version (successor_row h x.1.1.1 x.1.1.2 evidence x.1.2 x.2 now event)).
Proof. destruct x as [[[? ?] ?] ?]. apply node_version_appends. Qed.

Lemma put_envelope_appends h provenance actor role now contested x :
  appends (put_successor_envelope h provenance actor role now contested x)
    (an_envelope (successor_semantic h x.1.1.1 actor role contested
       (successor_envelope h x.1.1.1 x.1.1.2 provenance actor role x.1.2 x.2 now contested))).
Proof. destruct x as [[[? ?] ?] ?]. apply semantic_appends. Qed.

Lemma for_all_appends {A} (f : A → txn unit) (w : A → rows) l :
  (∀ x, appends (f x) (w x)) → appends (for_all f l) (all_rows (map w l)).
Proof.
  intros H. induction l as [|x l IH]; simpl.
  - apply appends_none, idle_keeps. auto with rollback.
  - by apply appends_bind.
Qed.

Lemma write_assessment_appends replace type operator parent pending a event now :
  appends (write_assessment replace type operator parent pending a event now)
    (envelope_rows type operator (Some parent) a event now).
Proof.
  unfold write_assessment. apply keeps_then; [apply idle_keeps; auto with rollback|]. intros _.
  rewrite <- (plus_none (envelope_rows _ _ _ _ _ _)). apply appends_bind; [apply write_envelope_appends|].
  intros _. apply appends_none. keeps_steps.
Qed.

Lemma write_assessments_rows operator parent pending now l ids c u c1 :
  write_assessments operator parent pending now l ids c = (Ok u, c1) →
  ∃ extra, map fst extra = l ∧
    rows_of (live c1) = rows_of (live c) ⊕
      assessment_rows "ontology_contest_confidence" operator parent now extra.
Proof.
  revert ids c. induction l as [|a l IH]; intros [|id ids] c H; simpl in H; try discriminate.
  - apply ret_Ok in H as [_ ->]. exists []. by rewrite plus_none.
  - apply txn_bind_Ok in H as (event & c2 & H2 & H). apply txn_lift_Ok in H2 as [_ ->].
    apply txn_bind_Ok in H as ([] & c2 & H2 & H). apply write_assessment_appends in H2.
    apply IH in H as (extra & <- & E). exists ((a, event) :: extra). split; [done|].
    rewrite E, H2. unfold assessment_rows. simpl. by rewrite plus_assoc.
Qed.

(** Two versions take the place of [h], the prior one. *)
Record change_run (d e : db) (h : held) (now event : string) (x y : string * json * string * option string)
    (evidence : list string) (provenance : json) (actor role : string) (contested : option string)
    (extra : list (envelope * string)) : Prop := {
  cr_nodes : ∃ operator, nodes (the_graph e) = nodes (the_graph d) ++
    map (λ x, envelope_node operator x.1 x.2) extra;
  cr_versions : node_versions (the_graph e) =
    update_where (is_prior (vr_id (h_version h))) (close now false) (node_versions (the_graph d)) ++
    map (λ x, successor_row h x.1.1.1 x.1.1.2 evidence x.1.2 x.2 now event) [x; y] ++
    map (λ x, envelope_version x.1 x.2 now) extra;
  cr_semantic : semantic_nodes (the_semantic e) = semantic_nodes (the_semantic d) ++
    map (λ x, successor_semantic h x.1.1.1 actor role contested
       (successor_envelope h x.1.1.1 x.1.1.2 provenance actor role x.1.2 x.2 now contested)) [x; y] ++
    map (λ x, semantic_values x.1 None (envelope_content now x.1)) extra
}.

(** The tables of a change, from the rows of its run *)
Ltac change_tables extra :=
  let E := fresh "E" in cbn [live with_live] in *;
  match goal with
  | Ex : rows_of ?last = _ ⊕ assessment_rows ?type ?operator ?event ?now extra,
    Es : saved _ = ?last |- change_run ?d ?e _ _ _ _ _ _ _ _ _ _ _ =>
      assert (rows_of e = rows_of last) as E by (by rewrite Es); rewrite Ex in E;
      repeat match goal with H : rows_of ?x = _ |- _ => tryif constr_eq x e then fail else
        (rewrite H in E; clear H) end;
      destruct (assessment_rows_tables type operator event now extra) as (An & Av & As)
  end;
  split;
  [ match goal with An : w_nodes (assessment_rows _ ?operator _ _ _) = _ |- _ => exists operator; rewrite <- An end;
    apply (f_equal w_nodes) in E; simpl in E
  | match goal with Av : w_versions _ = _ |- _ => rewrite <- Av end; apply (f_equal w_versions) in E; simpl in E
  | match goal with As : w_governed _ = _ |- _ => rewrite <- As end; apply (f_equal w_governed) in E; simpl in E ];
  rewrite ?app_nil_r, <- ?app_assoc in E; exact E.

Lemma correction_run record scope from payload correction carry corrected evidence actor role assessment
    token c ids c1 :
  correct_ontology_version s record scope from payload correction carry corrected evidence actor role
    assessment token c = (Ok ids, c1) →
  ∃ h cg event now extra,
    sole (List.filter (valid_at_ from) (current_held record scope (saved c))) = Some h ∧
    split_check h from = Ok tt ∧ read_change h payload = Ok cg ∧ ids = (carry, corrected) ∧
    String.eqb carry corrected = false ∧
    change_run (saved c) (saved c1) h now event
      (carry, cg_prior cg, vr_valid_from (h_version h), Some from)
      (corrected, JObj (cg_replacement cg), from, vr_valid_to (h_version h))
      (dedup_strs evidence) (cg_provenance cg) actor role None extra.
Proof.
  unfold correct_ontology_version. cbv zeta. intros H. inv_txn.
  apply connect_Ok in H as (c2 & H & El & Es). inv_txn.
  match goal with H : fresh "event" c = _ |- _ => pose proof (idle_saved _ _ _ _ (idle_fresh _) H) as S1 end.
  match goal with H : match assessment with _ => _ end _ = _ |- _ =>
    eapply (idle_saved _ _ _ _) in H as S2; [|destruct assessment; auto with rollback] end.
  match goal with H : utc_now _ = _ |- _ => pose proof (idle_saved _ _ _ _ idle_utc_now H) as S3 end.
  simpl in H. rewrite S3, S2, S1 in H.
  destruct (sole _) as [h|] eqn:Eh; [|discriminate]. inv_txn. inv_reads.
  append_facts.
  match goal with H : rows_of _ = rows_of (live (rollback ?x)) |- _ =>
    assert (live (rollback x) = saved c) as Sc by (simpl; congruence); rewrite Sc in H end.
  match goal with H : match ?a with Some _ => _ | None => _ end _ = (Ok _, ?c') |- _ =>
    assert (∃ extra, rows_of (live c') = rows_of x2 ⊕ assessment_rows "ontology_confidence_renewal"
      (nd_operator (h_node h)) x24 x26 extra) as [extra Ex] by
      (destruct a as [a|]; inv_txn;
        [match goal with H : write_assessment _ _ _ _ _ _ ?id _ _ = _ |- _ =>
           apply write_assessment_appends in H; exists [(a, id)]; unfold assessment_rows; simpl;
           by rewrite plus_none end
        |exists []; by rewrite plus_none]) end.
  match goal with H : text_item "event_id" _ = Ok ?event, H' : text_item "system_time" _ = Ok ?now,
    H'' : read_change h payload = Ok ?cg |- _ => exists h, cg, event, now, extra end.
  split_and!; try done; [by destruct x0|].
  change_tables extra.
Qed.

Lemma contest_run record scope contested contest preserved competing payload evidence actor role
    assessments token c ids c1 :
  contest_ontology_version s record scope contested contest preserved competing payload evidence actor role
    assessments token c = (Ok ids, c1) →
  ∃ h cg event now extra,
    sole (current_held record scope (saved c)) = Some h ∧ read_change h payload = Ok cg ∧
    ids = (preserved, competing) ∧ String.eqb preserved competing = false ∧
    change_run (saved c) (saved c1) h now event
      (preserved, cg_prior cg, vr_valid_from (h_version h), vr_valid_to (h_version h))
      (competing, JObj (cg_replacement cg), vr_valid_from (h_version h), vr_valid_to (h_version h))
      (dedup_strs evidence) (cg_provenance cg) actor role (Some contested) extra.
Proof.
  unfold contest_ontology_version. cbv zeta. intros H. inv_txn.
  apply connect_Ok in H as (c2 & H & El & Es). inv_txn.
  match goal with H : fresh "event" c = _ |- _ => pose proof (idle_saved _ _ _ _ (idle_fresh _) H) as S1 end.
  match goal with H : utc_now _ = _ |- _ => pose proof (idle_saved _ _ _ _ idle_utc_now H) as S2 end.
  match goal with H : fresh_list _ _ = _ |- _ => pose proof (idle_saved _ _ _ _ (idle_fresh_list _) H) as S3 end.
  simpl in H. rewrite S3, S2, S1 in H.
  destruct (sole _) as [h|] eqn:Eh; [|discriminate]. unfold contest_successor in H. inv_txn. inv_reads.
  unfold put_successor, put_successor_envelope in *. append_facts.
  match goal with H : rows_of _ = rows_of (live (rollback ?x)) |- _ =>
    assert (live (rollback x) = saved c) as Sc by (simpl; congruence); rewrite Sc in H end.
  match goal with H : write_assessments _ _ _ _ _ _ _ = _ |- _ =>
    apply write_assessments_rows in H as (extra & _ & Ex) end.
  match goal with H : text_item "event_id" _ = Ok ?event, H' : text_item "system_time" _ = Ok ?now,
    H'' : read_change h payload = Ok ?cg |- _ => exists h, cg, event, now, extra end.
  split_and!; try done. change_tables extra.
Qed.
End runs.

(** ** What the change shows *)

(** The version, its content, its valid interval and its contested set *)
Definition reading (h : held) : string * string * (string * option string) * option string :=
  (vr_id (h_version h), vr_payload (h_version h),
   (vr_valid_from (h_version h), vr_valid_to (h_version h)), sv_contested (h_semantic h)).

Definition new_reading (contested : option string) (x : string * json * string * option string) :
    string * string * (string * option string) * option string :=
  (x.1.1.1, canonical_bytes x.1.1.2, (x.1.2, x.2), contested).

Section readings.
Context `{signing : crypto} (record scope : string) (d e : db) (h : held) (now : string).
Hypothesis Hd : db_ok d.
Hypothesis He : db_ok e.
Hypothesis Hh : In h (held_versions record scope d).
Hypothesis Ho : is_open (h_version h) = true.

Lemma held_of g x : db_ok g → In x (held_versions record scope g) →
  In (h_version x) (node_versions (the_graph g)) ∧ In (h_node x) (nodes (the_graph g)) ∧
  nd_id (h_node x) = record ∧ sv_record (h_semantic x) = record ∧ sv_scope (h_semantic x) = scope.
Proof.
  intros Hg Hx. rewrite held_versions_joined in Hx. apply in_flat_map in Hx as (r & Hr & Hx).
  apply filter_In in Hr as [Hr Hf]. unfold of_record in Hf. bool_hyps.
  repeat match goal with H : String.eqb _ _ = true |- _ => apply String.eqb_eq in H end.
  destruct (governed_found g r Hg Hr) as (n & v & Iv & Ev & Eo & In_ & En & J). rewrite J in Hx.
  destruct Hx as [<-|[]]. simpl. split_and!; congruence.
Qed.

Lemma same_version x :
  In x (held_versions record scope d) → is_prior (vr_id (h_version h)) (h_version x) = true →
  h_version x = h_version h.
Proof.
  intros Hx E%String.eqb_eq. destruct (held_of d x Hd Hx) as [Hv _], (held_of d h Hd Hh) as [Hv' _].
  by apply (NoDup_map_inj vr_id (node_versions (the_graph d)));
    [apply (go_node_versions _ (do_graph _ Hd))|..].
Qed.

Lemma change_successors event x y evidence provenance actor role contested extra :
  change_run d e h now event x y evidence provenance actor role contested extra →
  ∃ vs rs hx hy, supersedes (vr_id (h_version h)) now d e vs rs ∧
    flat_map (joined e) (List.filter (of_record record scope) rs) = [hx; hy] ∧
    since now hx ∧ since now hy ∧
    reading hx = new_reading contested x ∧ reading hy = new_reading contested y.
Proof.
  intros [[operator Cn] Cv Cs]. destruct (held_of d h Hd Hh) as (Iv & In_ & En & Er & Ec).
  set (row z := successor_row h z.1.1.1 z.1.1.2 evidence z.1.2 z.2 now event).
  set (sem z := successor_semantic h z.1.1.1 actor role contested
         (successor_envelope h z.1.1.1 z.1.1.2 provenance actor role z.1.2 z.2 now contested)).
  assert (∀ z, In z [x; y] → ∃ n, joined e (sem z) = [{| h_node := n; h_version := row z; h_semantic := sem z |}]) as J.
  { intros z Hz. destruct (version_found e (row z) He) as (n & _ & _ & F).
    - rewrite Cv. apply in_or_app. right. apply in_or_app. left. by apply (in_map row).
    - exists n. unfold joined. simpl. unfold row in F. simpl in F. by rewrite F. }
  destruct (J x ltac:(by left)) as [nx Jx], (J y ltac:(by right; left)) as [ny Jy].
  do 4 eexists. split_and!.
  - split; [done|done|by eexists|exact Cv|exact Cs].
  - rewrite List.filter_app, List.flat_map_app.
    rewrite (filter_ext_In _ (λ _, false) (map _ extra)), List.filter_false.
    2:{ intros r Hr. apply in_map_iff in Hr as (a & <- & Ha). unfold of_record. simpl.
        destruct (String.eqb_spec (en_record a.1) record) as [E|]; [exfalso|done].
        pose proof (go_nodes _ (do_graph _ He)) as Hn. rewrite Cn, map_app in Hn.
        apply (NoDup_app_disjoint _ _ record Hn).
        - rewrite <- En. by apply in_map.
        - apply in_map_iff. exists (envelope_node operator a.1 a.2). split; [done|].
          by apply (in_map (λ z, envelope_node operator z.1 z.2)). }
    simpl. unfold of_record. simpl. rewrite Er, Ec, !String.eqb_refl. simpl.
    fold (sem x) (sem y). rewrite Jx, Jy. simpl. reflexivity.
  - done.
  - done.
  - done.
  - done.
Qed.

Lemma reading_shut x : reading (shut (vr_id (h_version h)) now x) = reading x.
Proof. unfold shut. by destruct (is_prior _ _). Qed.

Lemma current_open x :
  In x (held_versions record scope d) → is_prior (vr_id (h_version h)) (h_version x) = true →
  is_open (h_version x) = true.
Proof. intros Hx E. by rewrite (same_version x Hx E). Qed.

Context (vs : list version_row) (rs : list semantic_row) (hx hy : held).
Hypothesis Hs : supersedes (vr_id (h_version h)) now d e vs rs.
Hypothesis Hnew : flat_map (joined e) (List.filter (of_record record scope) rs) = [hx; hy].
Hypothesis Hx : since now hx.
Hypothesis Hy : since now hy.

Lemma new_since : Forall (since now) (flat_map (joined e) (List.filter (of_record record scope) rs)).
Proof. rewrite Hnew. auto. Qed.

Lemma reads_before v s :
  text_lt s now = true →
  map reading (as_of_rows record scope v s e) = map reading (as_of_rows record scope v s d).
Proof.
  intros Hlt. rewrite (rows_before (vr_id (h_version h)) now d e vs rs) by
    (done || apply new_since || apply current_open).
  rewrite map_map. apply map_ext. intros x. apply reading_shut.
Qed.

Lemma reads_outside v s :
  valid_at_ v h = false → valid_at_ v hx = false → valid_at_ v hy = false →
  map reading (as_of_rows record scope v s e) = map reading (as_of_rows record scope v s d).
Proof.
  intros Vh Vx Vy. destruct (text_lt s now) eqn:Hlt; [by apply reads_before|].
  rewrite (rows_after (vr_id (h_version h)) now d e vs rs) by (done || apply new_since).
  rewrite Hnew. simpl. rewrite Vx, Vy, app_nil_r, as_of_rows_visible. do 2 f_equal.
  apply filter_ext_In. intros x Ix. destruct (is_prior (vr_id (h_version h)) (h_version x)) eqn:E;
    [|by rewrite andb_true_r].
  unfold visible, valid_at_ in *. by rewrite (same_version x Ix E), Vh.
Qed.

Lemma reads_after v s :
  text_lt s now = false →
  map (λ x, vr_id (h_version x)) (as_of_rows record scope v s d) = [vr_id (h_version h)] →
  valid_at_ v h = true ∧
  as_of_rows record scope v s e = order_by by_version (List.filter (valid_at_ v) [hx; hy]).
Proof.
  intros Hlt Hr. destruct (as_of_rows record scope v s d) as [|x [|]] eqn:E; try discriminate.
  injection Hr as Hr. rewrite as_of_rows_visible in E. apply order_by_single in E.
  assert (In x (held_versions record scope d) ∧ visible v s x = true) as [Ix Vx].
  { apply filter_In. rewrite E. by left. }
  assert (is_prior (vr_id (h_version h)) (h_version x) = true) as Px by by apply String.eqb_eq.
  split.
  - unfold visible in Vx. apply andb_true_iff in Vx as [Vx _]. unfold valid_at_ in *.
    by rewrite (same_version x Ix Px) in Vx.
  - rewrite (rows_after (vr_id (h_version h)) now d e vs rs) by (done || apply new_since).
    rewrite <- (filter_filter (λ x, negb (is_prior (vr_id (h_version h)) (h_version x))) (visible v s)), E.
    simpl. by rewrite Px, Hnew.
Qed.
End readings.

Section changes.
Context `{signing : crypto} `{env : environment} `{lite : sqlite} (s : store).

Lemma valid_at_reading v h contested x :
  reading h = new_reading contested x → valid_at_ v h = covers x.1.2 x.2 v.
Proof. unfold reading, new_reading, valid_at_. intros E. injection E as _ _ E1 E2 _. by rewrite E1, E2. Qed.

Lemma split_check_Ok h from :
  split_check h from = Ok tt →
  text_lt (vr_valid_from (h_version h)) from = true ∧
  match vr_valid_to (h_version h) with Some t => String.leb t from | None => false end = false.
Proof. unfold split_check. intros H. inv_ok. by bool_hyps. Qed.

Lemma read_change_Ok h payload cg :
  read_change h payload = Ok cg →
  load_json (vr_payload (h_version h)) = Ok (cg_prior cg) ∧
  validate_core_payload (sv_schema (h_semantic h)) payload = Ok (cg_replacement cg).
Proof.
  unfold read_change. intros H. apply bind_Ok in H as (r & Hr & H). apply bind_Ok in H as (p & Hp & H).
  apply bind_Ok in H as (q & _ & H). apply bind_Ok in H as (m & _ & H). by injection H as <-.
Qed.

Lemma contested_pair contested x y rows :
  Permutation rows [x; y] → sv_contested (h_semantic x) = Some contested →
  sv_contested (h_semantic y) = Some contested → one_contest rows = true.
Proof.
  intros P Ex Ey. apply Permutation_sym, Permutation_length_2_inv in P as [-> | ->]; unfold one_contest; simpl;
    rewrite ?Ex, ?Ey; simpl; by rewrite ?String.eqb_refl.
Qed.

(** The one current version that a change replaces *)
Lemma current_one record scope rows h d :
  incl rows (current_held record scope d) → sole rows = Some h →
  In h (held_versions record scope d) ∧ is_open (h_version h) = true ∧ sv_contested (h_semantic h) = None.
Proof.
  intros Hi H. apply sole_In in H as [-> Hc]. specialize (Hi h ltac:(by left)).
  by apply filter_In in Hi as [Hi Ho].
Qed.

(** C15: A correction that returns closes the one current, uncontested version
    of the record and splits its valid interval at the effective time: every
    coordinate whose system time precedes the correction, or whose valid time
    lies outside that version, reads exactly as before; at every other
    coordinate that resolved to that version, the record now resolves to the
    carried-forward version with the prior payload before the effective time
    and to the corrected version with the accepted payload from it on. *)
Theorem correction_splits record scope from payload correction carry corrected evidence actor role
    assessment token c ids c1 :
  db_ok (saved c) →
  correct_ontology_version s record scope from payload correction carry corrected evidence actor role
    assessment token c = (Ok ids, c1) →
  ids = (carry, corrected) ∧
  ∃ h now prior replacement,
    In h (held_versions record scope (saved c)) ∧ is_open (h_version h) = true ∧
    sv_contested (h_semantic h) = None ∧ load_json (vr_payload (h_version h)) = Ok prior ∧
    validate_core_payload (sv_schema (h_semantic h)) payload = Ok replacement ∧
    ∀ valid_at system_at,
      let before := as_of_rows record scope valid_at system_at (saved c) in
      let after := as_of_rows record scope valid_at system_at (saved c1) in
      (text_lt system_at now = true ∨ valid_at_ valid_at h = false →
         map reading after = map reading before) ∧
      (text_lt system_at now = false →
       map (λ x, vr_id (h_version x)) before = [vr_id (h_version h)] →
       map reading after =
         [if text_lt valid_at from
          then (carry, canonical_bytes prior, (vr_valid_from (h_version h), Some from), None)
          else (corrected, canonical_bytes (JObj replacement), (from, vr_valid_to (h_version h)), None)]).
Proof.
  intros Hd H. assert (db_ok (saved c1)) as He.
  { pose proof (correct_ontology_version_safe s record scope from payload correction carry corrected
      evidence actor role assessment token c Hd) as [He _]. by rewrite H in He. }
  apply correction_run in H as (h & cg & event & now & extra & Hh & Hsplit & Hcg & -> & _ & Hrun).
  split; [done|]. apply read_change_Ok in Hcg as [Hp Hr].
  apply (current_one record scope _ h (saved c)) in Hh as (Hh & Ho & Hc);
    [|by intros x [Hx _]%filter_In].
  destruct (change_successors record scope (saved c) (saved c1) h now Hd He Hh _ _ _ _ _ _ _ _ _ Hrun)
    as (vs & rs & hx & hy & Hs & Hnew & Sx & Sy & Rx & Ry).
  exists h, now, (cg_prior cg), (cg_replacement cg). split_and!; [done..|]. intros v sy before after.
  destruct (split_check_Ok _ _ Hsplit) as [Hf Ht].
  destruct (covers_split (vr_valid_from (h_version h)) (vr_valid_to (h_version h)) from v Hf Ht) as [C1 C2].
  pose proof (valid_at_reading v _ _ _ Rx) as Vx. pose proof (valid_at_reading v _ _ _ Ry) as Vy.
  simpl in Vx, Vy. rewrite C1 in Vx. rewrite C2 in Vy. split.
  - intros [Hlt|Vh].
    + by apply (reads_before record scope (saved c) (saved c1) h now Hd Hh Ho vs rs hx hy).
    + apply (reads_outside record scope (saved c) (saved c1) h now Hd Hh Ho vs rs hx hy); try done.
      * unfold valid_at_ in Vh. by rewrite Vx, Vh.
      * unfold valid_at_ in Vh. by rewrite Vy, Vh.
  - intros Hlt Hb. destruct (reads_after record scope (saved c) (saved c1) h now Hd Hh vs rs hx hy
      Hs Hnew Sx Sy v sy Hlt Hb) as [Vh E]. unfold after. rewrite E. unfold valid_at_ in Vh.
    simpl. rewrite Vx, Vy, Vh. destruct (text_lt v from); simpl; [by rewrite Rx|by rewrite Ry].
Qed.

(** C16: A contest that returns keeps both sides: wherever the record resolved
    to the version contested, it now reads as two versions of one contested
    set, the preserved one with the prior payload and the competing one with
    the accepted payload, over the same valid interval, and the bitemporal
    read answers "contested" with no winner; earlier system times and valid
    times outside the version read as before. *)
Theorem contest_keeps_both record scope contested contest preserved competing payload evidence actor role
    assessments token c ids c1 :
  db_ok (saved c) →
  contest_ontology_version s record scope contested contest preserved competing payload evidence actor role
    assessments token c = (Ok ids, c1) →
  ids = (preserved, competing) ∧
  ∃ h now prior replacement,
    In h (held_versions record scope (saved c)) ∧ is_open (h_version h) = true ∧
    sv_contested (h_semantic h) = None ∧ load_json (vr_payload (h_version h)) = Ok prior ∧
    validate_core_payload (sv_schema (h_semantic h)) payload = Ok replacement ∧
    ∀ valid_at system_at,
      let before := as_of_rows record scope valid_at system_at (saved c) in
      let after := as_of_rows record scope valid_at system_at (saved c1) in
      let interval := (vr_valid_from (h_version h), vr_valid_to (h_version h)) in
      (text_lt system_at now = true ∨ valid_at_ valid_at h = false →
         map reading after = map reading before) ∧
      (text_lt system_at now = false →
       map (λ x, vr_id (h_version x)) before = [vr_id (h_version h)] →
       Permutation (map reading after)
         [(preserved, canonical_bytes prior, interval, Some contested);
          (competing, canonical_bytes (JObj replacement), interval, Some contested)] ∧
       ontology_as_of record scope valid_at system_at (saved c1) =
         (_v31_time (JStr valid_at) "valid_at" false ;; _v31_time (JStr system_at) "system_at" false ;;
          versions ← map_res as_of_item after;
          Ok [("record_id", JStr record); ("scope_id", JStr scope); ("state", JStr "contested");
              ("winner", JNull); ("versions", JList (map JObj versions))])).
Proof.
  intros Hd H. assert (db_ok (saved c1)) as He.
  { pose proof (contest_ontology_version_safe s record scope contested contest preserved competing payload
      evidence actor role assessments token c Hd) as [He _]. by rewrite H in He. }
  apply contest_run in H as (h & cg & event & now & extra & Hh & Hcg & -> & _ & Hrun).
  split; [done|]. apply read_change_Ok in Hcg as [Hp Hr].
  apply (current_one record scope _ h (saved c)) in Hh as (Hh & Ho & Hc); [|by intros x].
  destruct (change_successors record scope (saved c) (saved c1) h now Hd He Hh _ _ _ _ _ _ _ _ _ Hrun)
    as (vs & rs & hx & hy & Hs & Hnew & Sx & Sy & Rx & Ry).
  exists h, now, (cg_prior cg), (cg_replacement cg). split_and!; [done..|]. intros v sy before after interval.
  pose proof (valid_at_reading v _ _ _ Rx) as Vx. pose proof (valid_at_reading v _ _ _ Ry) as Vy.
  simpl in Vx, Vy. split.
  - intros [Hlt|Vh].
    + by apply (reads_before record scope (saved c) (saved c1) h now Hd Hh Ho vs rs hx hy).
    + by apply (reads_outside record scope (saved c) (saved c1) h now Hd Hh Ho vs rs hx hy);
        rewrite ?Vx, ?Vy.
  - intros Hlt Hb. destruct (reads_after record scope (saved c) (saved c1) h now Hd Hh vs rs hx hy
      Hs Hnew Sx Sy v sy Hlt Hb) as [Vh E]. unfold valid_at_ in Vh.
    simpl in E. rewrite Vx, Vy, Vh in E. fold after in E.
    assert (Permutation after [hx; hy]) as P by (rewrite E; unfold order_by; by rewrite sort_by_perm).
    split; [rewrite P; simpl; by rewrite Rx, Ry|].
    unfold ontology_as_of. fold after. rewrite (contested_pair contested hx hy after P) by
      (unfold reading, new_reading in *; congruence).
    destruct after as [|? [|? ?]] eqn:Ea; [by apply Permutation_length in P..|]. reflexivity.
Qed.
End changes.

(** ** On the history of [Chronicle] *)
#[local] Existing Instance diary.

Definition LATER := "2026-07-16T13:30:00Z".

(** The versions shown at a coordinate *)
Definition shown (v s : string) (d : db) : list string :=
  map (λ h, vr_id (h_version h)) (as_of_rows OUTCOME SCOPE v s d).

(** The coordinate before the change shows the version, the change returns,
    and both of its sides are shown from then on. *)
Lemma correction_splits_witness :
  db_ok (saved correct_start) ∧
  shown NOON LATER (saved correct_start) = [OUTCOME_VERSION] ∧
  correct_ontology_version toy_store OUTCOME SCOPE EFFECTIVE corrected_outcome CORRECTION CARRY CORRECTED
    [ARTIFACT_VERSION] ACTOR ROLE_VERSION (Some renewed) correct_ready.2 correct_start = correct_end ∧
  (∃ h, In h (held_versions OUTCOME SCOPE (saved correct_start)) ∧ is_open (h_version h) = true) ∧
  shown NOON LATER (saved correct_end.2) = [CARRY] ∧
  shown EFFECTIVE LATER (saved correct_end.2) = [CORRECTED].
Proof.
  assert (db_ok (saved correct_start)) as Hd by (apply reachable_ok, correct_ready_reachable).
  assert (correct_ontology_version toy_store OUTCOME SCOPE EFFECTIVE corrected_outcome CORRECTION CARRY
    CORRECTED [ARTIFACT_VERSION] ACTOR ROLE_VERSION (Some renewed) correct_ready.2 correct_start = correct_end)
    as H by (vm_compute; reflexivity).
  split; [exact Hd|]. split; [vm_compute; reflexivity|]. split; [exact H|]. split.
  - destruct (correction_splits toy_store OUTCOME SCOPE EFFECTIVE corrected_outcome CORRECTION CARRY
      CORRECTED [ARTIFACT_VERSION] ACTOR ROLE_VERSION (Some renewed) correct_ready.2 correct_start
      (CARRY, CORRECTED) correct_end.2 Hd ltac:(rewrite H; vm_compute; reflexivity))
      as (_ & h & now & prior & replacement & Hh & Ho & _).
    exists h. exact (conj Hh Ho).
  - split; vm_compute; reflexivity.
Defined.

Lemma contest_keeps_both_witness :
  db_ok (saved contest_start) ∧
  shown NOON LATER (saved contest_start) = [OUTCOME_VERSION] ∧
  contest_ontology_version toy_store OUTCOME SCOPE CONTESTED_SET (urn_ "contestevent" "fb") PRESERVED
    COMPETING competing_outcome [ARTIFACT_VERSION] ACTOR ROLE_VERSION rivals contest_ready.2 contest_start =
    contest_end ∧
  (∃ h, In h (held_versions OUTCOME SCOPE (saved contest_start)) ∧ is_open (h_version h) = true) ∧
  shown NOON LATER (saved contest_end.2) = [PRESERVED; COMPETING].
Proof.
  assert (db_ok (saved contest_start)) as Hd by (apply reachable_ok, contest_ready_reachable).
  assert (contest_ontology_version toy_store OUTCOME SCOPE CONTESTED_SET (urn_ "contestevent" "fb") PRESERVED
    COMPETING competing_outcome [ARTIFACT_VERSION] ACTOR ROLE_VERSION rivals contest_ready.2 contest_start =
    contest_end) as H by (vm_compute; reflexivity).
  split; [exact Hd|]. split; [vm_compute; reflexivity|]. split; [exact H|]. split.
  - destruct (contest_keeps_both toy_store OUTCOME SCOPE CONTESTED_SET (urn_ "contestevent" "fb") PRESERVED
      COMPETING competing_outcome [ARTIFACT_VERSION] ACTOR ROLE_VERSION rivals contest_ready.2 contest_start
      (PRESERVED, COMPETING) contest_end.2 Hd ltac:(rewrite H; vm_compute; reflexivity))
      as (_ & h & now & prior & replacement & Hh & Ho & _).
    exists h. exact (conj Hh Ho).
  - vm_compute; reflexivity.
Defined.
