(* ===== verification/FirstWrites.v ===== *)
(** * First writes: what a bundle appends, and under whose authority

    [append_ontology_bundle] against its specification: exactly the rows of
    its envelopes, all fresh, all checked on the store it found. *)
From S2P Require Import Prelude PyTime Urn Contracts Codec Unicode Retrieval Json Names.
From S2P Require Import Clock Binding Business Tables Integrity Txn Approval Store Records.
From S2P Require Import Semantic Review Envelopes Bundles Relations Bitemporal Governance Machine.
From S2P Require Import Scenario Rollback Chronicle Resolution Writes.

(** ** The rows of one item *)
Definition partition_row_of (en : envelope) : list partition_row :=
  match assoc (en_schema en) _BUSINESS_SCHEMA_PARTITIONS with
  | Some partition => [{| bp_version := en_version en; bp_partition := partition |}]
  | None => []
  end.

(** The bytes of an artifact that has not been purged, with their digest *)
Definition artifact_row_of (artifact_bytes : list (string * string)) (en : envelope) : list artifact_row :=
  if String.eqb (en_type en) "EvidenceArtifact" && negb (str_is (get "content_state" (en_payload en)) "purged")
  then match assoc (en_version en) artifact_bytes with
       | Some content => [{| ar_version := en_version en; ar_content := content; ar_sha := sha256 content;
                             ar_count := Z.of_nat (String.length content) |}]
       | None => []
       end
  else [].

Definition item_rows (operator now : string) (artifact_bytes : list (string * string)) (en : envelope)
    (event : string) : rows :=
  envelope_rows "ontology_first_write" operator None en event now ⊕
  partition_rows (partition_row_of en) ⊕ artifact_rows (artifact_row_of artifact_bytes en).

(** *** The tables that are not history *)

(** The head an assessment puts in the place of the one with its key *)
Definition head_text `{lite : sqlite} (k : string) (en : envelope) : option string :=
  match item k (en_payload en) with
  | Ok v => match bind_text v with Ok t => t | Err _ => None end
  | Err _ => None
  end.

Definition head_of `{lite : sqlite} (en : envelope) : list head_row :=
  match head_text "subject_version_id" en, head_text "assessor_actor_version_id" en,
        head_text "method" en, head_text "scale" en with
  | Some subject, Some assessor, Some method, Some scale =>
      if is_assessment en
      then [{| hd_subject := subject; hd_assessor := assessor; hd_method := method; hd_scale := scale;
               hd_assessment := en_version en |}]
      else []
  | _, _, _, _ => []
  end.

Definition heads_after `{lite : sqlite} (values : list envelope) (l : list head_row) : list head_row :=
  fold_left (λ l r, put_heads r l) (flat_map head_of values) l.

Definition heads_of (d : db) : list head_row := confidence_heads (the_semantic d).

(** Intake, approvals and the identity of the store *)
Definition beside (d : db) : intake * authority * option string := (the_intake d, the_authority d, store_identity d).

(** Steps that write neither *)
Definition quiet {A} (m : txn A) : Prop :=
  ∀ c a c1, m c = (Ok a, c1) → beside (live c1) = beside (live c) ∧ heads_of (live c1) = heads_of (live c).

Lemma idle_quiet {A} (m : txn A) : idle m → quiet m.
Proof. intros H c a c1 E. by rewrite (idle_live _ _ _ _ H E). Qed.

Lemma quiet_bind {A B} (m : txn A) (f : A → txn B) : quiet m → (∀ a, quiet (f a)) → quiet (m ≫= f).
Proof.
  intros Hm Hf c b c2 E. apply txn_bind_Ok in E as (a & c1 & E1 & E2).
  destruct (Hm _ _ _ E1) as [<- <-]. by apply (Hf a _ _ _ E2).
Qed.

Lemma quiet_exec f : (∀ d e, f d = Ok e → beside e = beside d ∧ heads_of e = heads_of d) → quiet (exec f).
Proof. intros H c a c1 E. apply exec_Ok in E as (e & E & ->). by apply H. Qed.

Ltac quiet_table def := apply quiet_exec; intros d e H; unfold on_graph, def in H; inv_ok; done.

Lemma quiet_event id type operator now valid payload prior status :
  quiet (write_event id type operator now valid payload prior status).
Proof. quiet_table insert_event. Qed.

Lemma quiet_node id type operator event : quiet (write_node id type operator event).
Proof. quiet_table insert_node. Qed.

Lemma quiet_version v : quiet (insert_node_version v).
Proof. apply quiet_bind; [apply idle_quiet; auto with rollback|]. intros u. quiet_table insert_version. Qed.

Lemma quiet_semantic r : quiet (put_semantic r).
Proof. quiet_table insert_semantic. Qed.

Lemma quiet_envelope type operator prior en event now : quiet (write_envelope type operator prior en event now).
Proof.
  unfold write_envelope. cbv zeta.
  repeat (apply quiet_bind; [first [apply quiet_event|apply quiet_node|apply quiet_version]|intros _]).
  apply quiet_semantic.
Qed.

Lemma quiet_partition r : quiet (exec (insert_partition r)).
Proof. quiet_table insert_partition. Qed.

Lemma quiet_artifact r : quiet (exec (insert_artifact r)).
Proof. quiet_table insert_artifact. Qed.

Lemma write_artifact_quiet bytes en : quiet (write_artifact bytes en).
Proof.
  unfold write_artifact. apply quiet_bind; [apply idle_quiet; auto with rollback|]. intros state.
  destruct (str_is _ _); [apply idle_quiet; auto with rollback|].
  apply quiet_bind; [apply idle_quiet; auto with rollback|]. intros content. apply quiet_artifact.
Qed.

Lemma write_head_run `{lite : sqlite} subject en c u c1 :
  item "subject_version_id" (en_payload en) = Ok subject → is_assessment en = true →
  write_head true subject en c = (Ok u, c1) →
  beside (live c1) = beside (live c) ∧ heads_of (live c1) = heads_after [en] (heads_of (live c)).
Proof.
  intros Hi Ha H. unfold write_head in H. inv_txn.
  match goal with H : insert_head _ _ _ = Ok _ |- _ => rename H into Hh end.
  unfold heads_after. cbn [flat_map]. rewrite app_nil_r. unfold head_of, head_text. rewrite Hi, Ha.
  repeat match goal with
  | H : not_null ?v = Ok _ |- _ => destruct v; [injection H as ->|discriminate]
  | H : (_ ≫= _) = Ok _ |- _ => apply bind_Ok in H as (? & -> & H)
  | H : bind_text _ = Ok _ |- _ => rewrite H; clear H
  end.
  unfold insert_head in Hh. inv_ok. done.
Qed.

Lemma write_item_quiet `{lite : sqlite} operator now events bytes en c u c1 :
  write_item operator now events bytes en c = (Ok u, c1) →
  beside (live c1) = beside (live c) ∧ heads_of (live c1) = heads_after [en] (heads_of (live c)).
Proof.
  unfold write_item. intros H. apply txn_bind_Ok in H as (event & c2 & H2 & H). apply txn_lift_Ok in H2 as [_ ->].
  apply txn_bind_Ok in H as (? & c2 & H2 & H). apply quiet_envelope in H2 as [<- <-].
  apply txn_bind_Ok in H as (? & c3 & H2 & H).
  assert (beside (live c3) = beside (live c2) ∧ heads_of (live c3) = heads_of (live c2)) as [<- <-].
  { destruct (assoc _ _); [by apply quiet_partition in H2|by apply ret_Ok in H2 as [_ ->]]. }
  apply txn_bind_Ok in H as (? & c4 & H4 & H).
  assert (beside (live c4) = beside (live c3) ∧ heads_of (live c4) = heads_of (live c3)) as [<- <-].
  { destruct (String.eqb _ _); [by apply write_artifact_quiet in H4|by apply ret_Ok in H4 as [_ ->]]. }
  destruct (is_assessment en) eqn:Ha.
  - apply txn_bind_Ok in H as (subject & ? & H5 & H). apply txn_lift_Ok in H5 as [Hi ->].
    by eapply write_head_run.
  - apply ret_Ok in H as [_ ->]. split; [done|]. unfold heads_after. cbn [flat_map]. rewrite app_nil_r.
    unfold head_of. rewrite Ha. by repeat case_match.
Qed.

Lemma heads_after_cons `{lite : sqlite} en l heads : heads_after (en :: l) heads = heads_after l (heads_after [en] heads).
Proof. unfold heads_after. cbn [flat_map]. by rewrite app_nil_r, fold_left_app. Qed.

Lemma write_items_quiet `{lite : sqlite} operator now events bytes l c u c1 :
  for_all (write_item operator now events bytes) l c = (Ok u, c1) →
  beside (live c1) = beside (live c) ∧ heads_of (live c1) = heads_after l (heads_of (live c)).
Proof.
  revert c. induction l as [|en l IH]; simpl; intros c H.
  - by apply ret_Ok in H as [_ ->].
  - apply txn_bind_Ok in H as ([] & c2 & H2 & H). apply write_item_quiet in H2 as [<- E2].
    apply IH in H as [<- E1]. split; [done|]. by rewrite E1, E2, <- heads_after_cons.
Qed.

(** What a write that is no capture has changed besides the rows of history *)
Definition settled_with (tiers : list json) (heads : list head_row → list head_row) (d e : db) : Prop :=
  spent_for tiers (the_authority d) (the_authority e) ∧ heads_of e = heads (heads_of d) ∧
  the_intake e = the_intake d ∧ store_identity e = store_identity d.

(** ** What was checked before an item was written *)
Record item_checked `{lite : sqlite} (d : db) (pending : candidates) (artifact_bytes : list (string * string))
    (en : envelope) : Prop := {
  ic_governing : governing_check d pending en = Ok tt;
  ic_consent : ∃ at_, ∀ consent, governing_consent d pending en = Ok (Some consent) →
    consent_check d en consent at_ = Ok tt;
  ic_payload : payload_references d pending en artifact_bytes = Ok tt
}.

Section first_writes.
Context `{signing : crypto} `{env : environment} `{lite : sqlite} (s : store).

Lemma references_Ok en pending bytes at_ c u c1 :
  _validate_v31_references en pending bytes at_ c = (Ok u, c1) → item_checked (live c) pending bytes en.
Proof.
  destruct u. unfold _validate_v31_references. intros H.
  apply txn_bind_Ok in H as ([] & c2 & H2 & H). apply txn_read_Ok in H2 as [Hg ->].
  apply txn_bind_Ok in H as (consent & c2 & H2 & H). apply txn_read_Ok in H2 as [Hc ->].
  destruct consent as [consent|].
  - apply txn_bind_Ok in H as ([] & c2 & H2 & H). apply txn_bind_Ok in H2 as (now & c3 & H3 & H2).
    assert (live c3 = live c) as E3.
    { destruct at_; [by apply ret_Ok in H3 as [_ ->]|].
      pose proof (idle_utc_now c) as [E _]. by rewrite H3 in E. }
    apply txn_read_Ok in H2 as [H2 ->]. apply txn_read_Ok in H as [H ->]. rewrite E3 in *.
    split; [done| |done]. exists now. intros x Hx. rewrite Hc in Hx. injection Hx as <-. exact H2.
  - apply txn_bind_Ok in H as ([] & c2 & H2 & H). apply ret_Ok in H2 as [_ ->].
    apply txn_read_Ok in H as [H ->]. split; [done| |done]. exists "". intros x Hx. congruence.
Qed.

Lemma check_item_Ok values bytes en c u c1 :
  check_item values bytes en c = (Ok u, c1) →
  item_checked (live c) (pending_of values) bytes en ∧ live c1 = live c.
Proof.
  unfold check_item. intros H. apply txn_bind_Ok in H as (at_ & c2 & H2 & H).
  pose proof (idle_utc_now c) as [E _]. rewrite H2 in E. simpl in E. rewrite <- E. split.
  - by apply references_Ok in H.
  - pose proof (idle_references en (pending_of values) bytes (Some at_) c2) as [E' _]. by rewrite H in E'.
Qed.

Lemma checked_items values bytes l c u c1 :
  for_all (check_item values bytes) l c = (Ok u, c1) →
  Forall (item_checked (live c) (pending_of values) bytes) l ∧ live c1 = live c.
Proof.
  revert c. induction l as [|en l IH]; simpl; intros c H.
  - by apply ret_Ok in H as [_ ->].
  - apply txn_bind_Ok in H as ([] & c2 & H2 & H). apply check_item_Ok in H2 as [Hen E].
    apply IH in H as [Hl E']. rewrite E in Hl, E'. auto.
Qed.

Lemma write_item_rows operator now events bytes en c u c1 :
  write_item operator now events bytes en c = (Ok u, c1) →
  ∃ event, text_item (en_version en) events = Ok event ∧
    rows_of (live c1) = rows_of (live c) ⊕ item_rows operator now bytes en event.
Proof.
  unfold write_item. intros H. apply txn_bind_Ok in H as (event & c2 & H2 & H).
  apply txn_lift_Ok in H2 as [He ->]. exists event. split; [done|]. revert H. generalize c u c1.
  unfold item_rows. rewrite <- plus_assoc. apply appends_bind; [apply write_envelope_appends|]. intros _.
  apply appends_bind.
  { unfold partition_row_of. destruct (assoc _ _); [apply partition_appends|].
    apply appends_none, idle_keeps. auto with rollback. }
  intros _. rewrite <- (plus_none (artifact_rows _)). apply appends_bind.
  - unfold artifact_row_of. destruct (String.eqb (en_type en) "EvidenceArtifact"); simpl;
      [|apply appends_none, idle_keeps; auto with rollback].
    unfold write_artifact. intros c' u' c1' H'. apply txn_bind_Ok in H' as (state & c2 & H2 & H').
    apply txn_lift_Ok in H2 as [Hs ->]. apply item_Ok in Hs. unfold get. rewrite Hs. simpl.
    destruct (str_is state "purged"); simpl; [apply ret_Ok in H' as [_ ->]; by rewrite plus_none|].
    apply txn_bind_Ok in H' as (content & c2 & H2 & H'). apply txn_lift_Ok in H2 as [Hb ->].
    destruct (assoc (en_version en) bytes) as [b|]; [|discriminate]. injection Hb as ->.
    by apply artifact_appends in H'.
  - intros _. destruct (is_assessment en); apply appends_none; keeps_steps.
Qed.

Lemma write_items_rows operator now events bytes l c u c1 :
  for_all (write_item operator now events bytes) l c = (Ok u, c1) →
  ∃ ids, Forall2 (λ en event, text_item (en_version en) events = Ok event) l ids ∧
    rows_of (live c1) = rows_of (live c) ⊕ all_rows (zip_with (item_rows operator now bytes) l ids).
Proof.
  revert c. induction l as [|en l IH]; simpl; intros c H.
  - apply ret_Ok in H as [_ ->]. exists []. split; [constructor|]. by rewrite plus_none.
  - apply txn_bind_Ok in H as ([] & c2 & H2 & H). apply write_item_rows in H2 as (event & He & E).
    apply IH in H as (ids & Hids & E'). exists (event :: ids). split; [by constructor|].
    rewrite E', E. simpl. by rewrite plus_assoc.
Qed.

Lemma one_operator l : Nat.eqb (length (dedup_strs l)) 1 = true → Forall (λ x, x = hd "" (dedup_strs l)) l.
Proof.
  intros H%Nat.eqb_eq. apply List.Forall_forall. intros x Hx. apply (proj2 (dedup_strs_In x l)) in Hx.
  destruct (dedup_strs l) as [|y [|]]; try discriminate. simpl in *. naive_solver.
Qed.

Lemma distinct_NoDup l : distinct l = true → List.NoDup l.
Proof. intros H%Nat.eqb_eq. by apply dedup_strs_length. Qed.

Lemma taken_free {A} (f : A → string) names l :
  existsb (λ x, mem (f x) names) l = false → Forall (λ n, ~ In n (map f l)) names.
Proof.
  intros H. apply List.Forall_forall. intros n Hn Hi. apply in_map_iff in Hi as (x & <- & Hx).
  apply not_true_iff_false in H. apply H, existsb_exists. exists x. split; [done|]. by apply mem_In.
Qed.

(** Fresh, of the operator of the store, and checked on the store it found *)
Definition admitted (d : db) (operator : string) (values : list envelope)
    (artifact_bytes : list (string * string)) (en : envelope) : Prop :=
  en_operator en = operator ∧
  ~ In (en_record en) (map nd_id (nodes (the_graph d))) ∧
  ~ In (en_version en) (map vr_id (node_versions (the_graph d))) ∧
  item_checked d (pending_of values) artifact_bytes en.

Lemma bundle_run envelopes bytes token c versions c1 :
  append_ontology_bundle s envelopes bytes token c = (Ok versions, c1) →
  ∃ values now ids, let operator := hd "" (dedup_strs (map en_operator values)) in
    map_res read_envelope envelopes = Ok values ∧ values ≠ [] ∧ versions = map en_version values ∧
    differs (expected_operator_id s) operator = false ∧
    List.NoDup (map en_version values) ∧ List.NoDup (map en_record values) ∧
    Forall (admitted (saved c) operator values bytes) values ∧ length ids = length values ∧
    saved c1 = live c1 ∧
    rows_of (saved c1) = rows_of (saved c) ⊕ all_rows (zip_with (item_rows operator now bytes) values ids) ∧
    settled_with (map en_tier values) (heads_after values) (saved c) (saved c1).
Proof.
  unfold append_ontology_bundle. cbv zeta. intros H. inv_txn.
  apply connect_Ok in H as (c2 & H & El & Es). inv_txn. rename x into values.
  match goal with H : utc_now c = (Ok _, ?c') |- _ => pose proof (idle_saved _ _ _ _ (idle_utc_now) H) as Sa end.
  match goal with H : fresh_events _ _ _ = (Ok _, ?c') |- _ =>
    pose proof (idle_saved _ _ _ _ (idle_fresh_events _ _) H) as Sb end.
  match goal with H : for_all (check_item _ _) _ _ = _ |- _ => apply checked_items in H as [Hc Lc] end.
  match goal with H : governed_execution _ _ _ _ _ _ = _ |- _ =>
    apply keeps_governed_execution in H as Hk; apply governed_run in H as (b & Hspent & Hb) end.
  match goal with H : for_all (write_item _ _ _ _) _ _ = _ |- _ =>
    apply write_items_quiet in H as Hq; apply write_items_rows in H as (ids & Hids & Er) end.
  simpl in Hc, Lc. rewrite Sb, Sa in Hc, Lc. bool_hyps.
  match goal with H : text_item "system_time" _ = Ok ?now |- _ => exists values, now, ids end.
  split_and!; try done; try by apply distinct_NoDup.
  - by intros ->.
  - match goal with H : _require_configured_operator _ _ = Ok ?u |- _ =>
      destruct u; unfold _require_configured_operator in H; by apply raise_if_Ok in H end.
  - apply List.Forall_forall. intros en Hen. split_and!.
    + match goal with H : Nat.eqb _ 1 = true |- _ =>
        apply one_operator in H; by apply (proj1 (List.Forall_forall _ _) H), in_map end.
    + match goal with H : false = taken_records _ _ |- _ => symmetry in H; apply taken_free in H;
        simpl in H; rewrite Sb, Sa in H; apply (proj1 (List.Forall_forall _ _) H), in_map, Hen end.
    + match goal with H : false = taken_versions _ _ |- _ => symmetry in H; apply taken_free in H;
        simpl in H; rewrite Sb, Sa in H; apply (proj1 (List.Forall_forall _ _) H), in_map, Hen end.
    + by apply (proj1 (List.Forall_forall _ _) Hc).
  - symmetry. by eapply Forall2_length.
  - congruence.
  - by rewrite Es, Er, Hk, Lc.
  - destruct Hq as [Hq Hh]. rewrite Es. rewrite Hb in Hq, Hh. rewrite Lc in Hspent, Hq, Hh.
    unfold beside in Hq. injection Hq as Hi Ha' Hs. unfold settled_with. rewrite Hi, Ha', Hs, Hh. by split_and!.
Qed.

(** C13: A bundle that returns wrote exactly its envelopes: the committed
    store is the store it found with, for each envelope in order, its event,
    its node, its version, its governed row and, where it has them, its
    partition and its artifact bytes, and no other row of history; with the
    current heads of confidence replaced, in order, by those its assessments
    name; and with one approval spent for one pending mutation where an
    envelope claims the judgment of the operator, and the approval tables
    untouched otherwise.  Intake tables and the identity of the store stay.
    The version ids returned are those of the envelopes, and every record and
    version id was free in the store and is used once. *)
Theorem bundle_writes_exactly envelopes bytes token c versions c1 :
  append_ontology_bundle s envelopes bytes token c = (Ok versions, c1) →
  ∃ values now ids,
    map_res read_envelope envelopes = Ok values ∧ versions = map en_version values ∧
    List.NoDup (map en_record values) ∧ List.NoDup versions ∧
    (∀ en, In en values → ~ In (en_record en) (map nd_id (nodes (the_graph (saved c)))) ∧
                          ~ In (en_version en) (map vr_id (node_versions (the_graph (saved c))))) ∧
    length ids = length values ∧ live c1 = saved c1 ∧
    rows_of (saved c1) = rows_of (saved c) ⊕
      all_rows (zip_with (item_rows (hd "" (map en_operator values)) now bytes) values ids) ∧
    heads_of (saved c1) = heads_after values (heads_of (saved c)) ∧
    spent_for (map en_tier values) (the_authority (saved c)) (the_authority (saved c1)) ∧
    the_intake (saved c1) = the_intake (saved c) ∧ store_identity (saved c1) = store_identity (saved c).
Proof.
  intros (values & now & ids & Hr & Hne & -> & _ & Nv & Nr & Ha & Hl & E & Er & Hs & Hh & Hi & Hid)%bundle_run.
  exists values, now, ids. rewrite List.Forall_forall in Ha. split_and!; try done.
  - intros en Hen. by destruct (Ha en Hen) as (_ & ? & ? & _).
  - rewrite Er. do 4 f_equal. destruct values as [|en values]; [done|]. simpl.
    by destruct (Ha en ltac:(by left)) as [-> _].
Qed.

(** C14: No record enters the store without accountability: for every envelope
    of a bundle that returns, its role assignment resolves in the store found
    or in the bundle itself, at its valid time, to one of the same operator,
    judged by that operator, active, allowed to store and covering the scope;
    its access policy to one that lets that role store; its actor to an Actor
    of the operator; its evidence to artifacts; an artifact's bytes have the
    digest and the length its payload states; and a business record, unless it
    claims the judgment of the operator, claims no tier above the ceiling of
    its origin.  (Core records have no such ceiling.) *)
Theorem first_writes_accountable envelopes bytes token c versions c1 :
  append_ontology_bundle s envelopes bytes token c = (Ok versions, c1) →
  ∃ values operator,
    map_res read_envelope envelopes = Ok values ∧ versions = map en_version values ∧
    differs (expected_operator_id s) operator = false ∧
    ∀ en, In en values →
      en_operator en = operator ∧ accountable (saved c) (pending_of values) en bytes.
Proof.
  intros (values & now & ids & Hr & Hne & -> & Ho & _ & _ & Ha & _)%bundle_run.
  exists values, (hd "" (dedup_strs (map en_operator values))). split_and!; try done.
  rewrite List.Forall_forall in Ha. intros en Hen. destruct (Ha en Hen) as (? & _ & _ & [Hg _ Hp]).
  split; [done|]. by apply accepted_accountable.
Qed.
End first_writes.

(** ** On the history of [Chronicle] *)
#[local] Existing Instance diary.

Definition expected_token := expected_ready.2.

Lemma bundle_writes_exactly_witness :
  ∃ versions c1,
    append_ontology_bundle toy_store expectation [] expected_token expected_start = (Ok versions, c1) ∧
    versions = [OUTCOME_VERSION; urn_ "node-version" "f4"] ∧ live c1 = saved c1.
Proof.
  destruct (append_ontology_bundle toy_store expectation [] expected_token expected_start) as [r c1] eqn:H.
  assert (r = Ok [OUTCOME_VERSION; urn_ "node-version" "f4"]) as ->.
  { change r with (r, c1).1. rewrite <- H. vm_compute. reflexivity. }
  exists [OUTCOME_VERSION; urn_ "node-version" "f4"], c1. split; [exact eq_refl|]. split; [exact eq_refl|].
  destruct (bundle_writes_exactly toy_store expectation [] expected_token expected_start _ c1 H)
    as (values & now & ids & _ & _ & _ & _ & _ & _ & E & _). exact E.
Defined.

(** The founding bundle vouches for itself; the outcome rests on the store. *)
Lemma first_writes_accountable_witness :
  ∃ versions c1 operator,
    append_ontology_bundle toy_store expectation [] expected_token expected_start = (Ok versions, c1) ∧
    ∃ values, map_res read_envelope expectation = Ok values ∧
      ∀ en, In en values → en_operator en = operator ∧
        accountable (saved expected_start) (pending_of values) en [].
Proof.
  destruct (append_ontology_bundle toy_store expectation [] expected_token expected_start) as [r c1] eqn:H.
  assert (r = Ok [OUTCOME_VERSION; urn_ "node-version" "f4"]) as ->.
  { change r with (r, c1).1. rewrite <- H. vm_compute. reflexivity. }
  destruct (first_writes_accountable toy_store expectation [] expected_token expected_start _ c1 H)
    as (values & operator & Hr & _ & _ & Ha).
  exists [OUTCOME_VERSION; urn_ "node-version" "f4"], c1, operator. split; [exact eq_refl|].
  exists values. exact (conj Hr Ha).
Defined.
