(* ===== verification/Ceremony.v ===== *)
(** * A challenge that is issued and signed in time is accepted

    The converse of [Machine.no_authority_without_approval]: what
    [approve_challenge] hands out, signed with the key of the installation, is
    consumed by [verify_and_consume] for exactly the request it was issued for,
    and a second time by nobody. *)
From S2P Require Import Prelude PyTime Urn Contracts Codec Json Names Clock Tables Integrity.
From S2P Require Import Unicode Capture Txn Approval Store Records Semantic Review Safety Machine.
From S2P Require Import Scenario Intake Writes.

(** ** Lookups in a challenge *)
Lemma assoc_app k (m m' : obj) :
  assoc k (m ++ m') = match assoc k m with Some v => Some v | None => assoc k m' end.
Proof.
  induction m as [|[x v] m IH]; simpl; [done|]. destruct (String.eqb k x); [done|exact IH].
Qed.

Lemma py_eq_texts_refl l : py_eq (texts_json l) (texts_json l) = true.
Proof.
  unfold texts_json. simpl. induction l as [|x l IH]; simpl; [done|]. by rewrite String.eqb_refl.
Qed.

(** The challenge of a request, as [build_challenge] writes it *)
Definition challenge_of (r : ChallengeRequest) (k : key_row) (head : Z) (nonce issued expires : string) : obj :=
  [("contract_version", JStr CONTRACT_VERSION); ("domain_separator", JStr DOMAIN_SEPARATOR);
   ("operator_id", JStr (ky_operator k)); ("install_id", JStr (ky_install k)); ("key_id", JStr (ky_id k));
   ("store_identity", JStr (ky_store k)); ("ledger_sequence", JInt head)] ++
  request_value r ++
  [("nonce", JStr nonce); ("issued_at", JStr issued); ("expires_at", JStr expires)].

Lemma py_eq_str_refl x : py_eq (JStr x) (JStr x) = true.
Proof. simpl. apply String.eqb_refl. Qed.

Lemma py_eq_int_refl z : py_eq (JInt z) (JInt z) = true.
Proof. simpl. unfold num_eq, num_compare, fin_compare. by rewrite Z.compare_refl. Qed.

#[local] Opaque py_eq texts_json.

Lemma challenge_exact r k head nonce issued expires :
  existsb (λ kv, negb (py_eq (get kv.1 (challenge_of r k head nonce issued expires)) kv.2)) (request_value r) = false.
Proof.
  unfold challenge_of, request_value, get, request_texts, request_lists. simpl.
  by rewrite !py_eq_str_refl, !py_eq_texts_refl.
Qed.

Lemma challenge_bound r k head nonce issued expires :
  existsb (λ kv, negb (py_eq (get kv.1 (challenge_of r k head nonce issued expires)) (JStr kv.2))) (BOUND_FIELDS k) = false.
Proof. unfold BOUND_FIELDS, challenge_of, get. simpl. by rewrite !py_eq_str_refl. Qed.
#[local] Transparent py_eq texts_json.

(** ** Rows found by a unique key *)
Lemma count_unique {A} (f : A → string) p l x :
  List.NoDup (map f l) → In x l → p x = true → (∀ y, p y = true → f y = f x) → count p l = 1.
Proof.
  unfold count. induction l as [|y l IH]; simpl; [done|]. intros Hn Hx Hp Hf. inversion_clear Hn as [|? ? Hy Hl].
  destruct Hx as [->|Hx].
  - rewrite Hp. simpl. assert (List.filter p l = []) as ->; [|done].
    destruct (List.filter p l) as [|z k] eqn:E; [done|]. exfalso.
    assert (In z (List.filter p l)) as Hz by (rewrite E; by left).
    apply filter_In in Hz as [Hz Hpz]. apply Hy. rewrite <- (Hf z Hpz). by apply in_map.
  - destruct (p y) eqn:E; [|by apply IH]. exfalso. apply Hy. rewrite (Hf y E). by apply in_map.
Qed.

Section ceremony.
Context `{signing : crypto} `{env : environment}.

(** What [approve_challenge] has done when it returns *)
Record issued (operator : string) (r : ChallengeRequest) (challenge : obj) (k : key_row) (a : authority) : Prop := {
  is_shape : validate_challenge_shape challenge = Ok tt;
  is_request : validate_request r = Ok tt;
  is_form : ∃ head nonce from until, challenge = challenge_of r k head nonce from until ∧
    active_binding operator a = Ok (k, head);
  is_row : ∃ encoded row nonce, rfc8785_bytes (JObj challenge) = Ok encoded ∧
    text_item "nonce" challenge = Ok nonce ∧ In row (challenges a) ∧
    ch_nonce_sha row = sha256 nonce ∧ ch_sha row = sha256 encoded ∧
    ch_operation row = cr_operation_id r ∧ ch_consumed row = None
}.

Lemma for_all_lift {A} (f : A → res unit) l c u c1 :
  for_all (λ x, lift (f x)) l c = (Ok u, c1) → c1 = c.
Proof.
  revert c. induction l as [|x l IH]; simpl; intros c H; inv_txn; [done|]. by apply IH.
Qed.

Lemma build_challenge_Ok r k head ttl c m c1 :
  build_challenge r (ky_operator k) (ky_install k) (ky_id k) (ky_store k) head ttl c = (Ok m, c1) →
  live c1 = live c ∧ validate_request r = Ok tt ∧ validate_challenge_shape m = Ok tt ∧
  ∃ nonce from until, m = challenge_of r k head nonce from until.
Proof.
  unfold build_challenge. intros H. inv_txn.
  repeat match goal with u : unit |- _ => destruct u end.
  match goal with H : now_ _ = _ |- _ => injection H as <- <- end.
  match goal with H : fresh_token _ = _ |- _ => injection H as <- <- end.
  match goal with H : for_all _ _ _ = _ |- _ => apply for_all_lift in H as -> end.
  split_and!; [done|done|done|]. do 3 eexists. reflexivity.
Qed.

Lemma text_item_challenge r k head nonce from until :
  text_item "nonce" (challenge_of r k head nonce from until) = Ok nonce ∧
  text_item "operation_id" (challenge_of r k head nonce from until) = Ok (cr_operation_id r) ∧
  text_item "authority_transition" (challenge_of r k head nonce from until) = Ok (cr_authority_transition r).
Proof. split_and!; apply text_item_Ok; reflexivity. Qed.

Lemma active_binding_operator op a k head : active_binding op a = Ok (k, head) → ky_operator k = op.
Proof.
  unfold active_binding. destruct (List.filter is_active (keys_ a)) as [|b [|]]; try discriminate.
  intros H. inv_ok. destruct (max_sequence _); [|discriminate]. inv_ok. bool_hyps. by apply String.eqb_eq.
Qed.

Lemma insert_challenge_Ok row msg c u c1 :
  conflict_on_integrity (exec (insert_challenge row)) msg c = (Ok u, c1) →
  let a := the_authority (live c) in
  the_authority (live c1) = {| prepared := prepared a; challenges := challenges a ++ [row]; grants := grants a;
    keys_ := keys_ a; ledger := ledger a; trusted := trusted a |}.
Proof.
  unfold conflict_on_integrity, exec. destruct (insert_challenge row (live c)) as [d|e] eqn:E.
  - intros [= <- <-]. unfold insert_challenge in E. by inv_ok.
  - by destruct (is_integrity e).
Qed.

Lemma issue_Ok operator r ttl c challenge k c1 :
  issue_challenge r operator ttl c = (Ok (challenge, k), c1) →
  issued operator r challenge k (the_authority (live c1)).
Proof.
  unfold issue_challenge, read_authority. intros H. inv_txn. 
  match goal with H : context [match ?x with pair _ _ => _ end] |- _ => destruct x as [b head]; inv_txn end.
  match goal with H : (_, _) = (_, _) |- _ => injection H as -> -> end.
  match goal with H : build_challenge _ _ _ _ _ _ _ _ = _ |- _ =>
    apply build_challenge_Ok in H as (El & Hr & Hs & nonce & from & until & ->) end.
  match goal with H : conflict_on_integrity _ _ _ = _ |- _ => apply insert_challenge_Ok in H; rewrite El in H end.
  destruct (text_item_challenge r b head nonce from until) as (En & Eo & _).
  split; [done|done| |].
  - exists head, nonce, from, until. split; [done|].
    match goal with H : the_authority _ = _ |- _ => rewrite H end. done.
  - do 3 eexists. split; [eassumption|]. split; [exact En|].
    match goal with H : the_authority _ = _ |- _ => rewrite H end. simpl.
    split; [apply in_app_iff; right; left; reflexivity|]. simpl. split_and!; congruence.
Qed.

Lemma approve_Ok operator r ttl d n t challenge k c1 :
  approve_challenge operator r ttl (open_on d n t) = (Ok (challenge, k), c1) →
  issued operator r challenge k (the_authority (saved c1)).
Proof.
  unfold approve_challenge, connect.
  match goal with |- context [match ?m ?c with _ => _ end] => destruct (m c) as [[x|e] c2] eqn:E end;
    [|discriminate]. intros [= -> <-]. simpl.
  apply txn_bind_Ok in E as (? & ? & _ & E). inv_txn.
  destruct (find_prepared _ _) as [row|]; [|discriminate]. inv_txn. by eapply issue_Ok.
Qed.

(** ** Consumption *)

(** The instant of the check lies within the challenge. *)
Definition in_time (challenge : obj) (now : datetime) : Prop :=
  ∃ from until, parse_timestamp (get "issued_at" challenge) = Ok from ∧
    parse_timestamp (get "expires_at" challenge) = Ok until ∧
    instant from ≤ instant now < instant until.

(** A connection on which the approval is still to be spent *)
Record ready (operator : string) (r : ChallengeRequest) (challenge : obj) (k : key_row) (id : string) (c : conn) : Prop := {
  rd_ok : db_ok (live c);
  rd_issued : issued operator r challenge k (the_authority (live c));
  rd_time : in_time challenge (clock (ticks c));
  rd_id : make_urn (uuids (drawn c)) "authority-provenance" = Ok id;
  rd_new : ~ In id (map gr_id (grants (the_authority (live c))));
  rd_operation : ~ In (cr_operation_id r) (map gr_operation (grants (the_authority (live c))))
}.

(** The row of the challenge has been consumed. *)
Definition spent_challenge (challenge : obj) (d : db) : Prop := ∃ nonce row at_,
  text_item "nonce" challenge = Ok nonce ∧ In row (challenges (the_authority d)) ∧
  ch_nonce_sha row = sha256 nonce ∧ ch_consumed row = Some at_.

Lemma spent_challenge_durable challenge : durable (spent_challenge challenge).
Proof.
  intros d e Hx (nonce & row & at_ & Hn & Hrow & Hs & Hc).
  destruct (advances_In _ _ _ _ (ax_challenges _ _ (xt_authority _ _ Hx)) Hrow) as (row' & [->|[Hne _]] & Hrow').
  - by exists nonce, row, at_.
  - by rewrite Hc in Hne.
Qed.

Lemma txn_read_authority {A B} (f : authority → res A) (g : A → txn B) c :
  (read_authority f ≫= g) c = match f (the_authority (live c)) with Ok a => g a c | Err e => (Err e, c) end.
Proof. unfold read_authority, mbind, txn_bind, query, lift. by destruct (f _). Qed.

Lemma txn_query_bind {A B} (f : db → A) (g : A → txn B) c : (query f ≫= g) c = g (f (live c)) c.
Proof. done. Qed.

Lemma txn_now_bind {B} (g : datetime → txn B) c :
  (now_ ≫= g) c =
  g (clock (ticks c)) {| live := live c; saved := saved c; drawn := drawn c; ticks := S (ticks c) |}.
Proof. done. Qed.

Lemma find_issued a nonce row :
  authority_ok a → In row (challenges a) → ch_nonce_sha row = sha256 nonce →
  find_challenge (sha256 nonce) a = Some row.
Proof.
  intros Ha Hin <-. apply (find_unique ch_nonce_sha); [apply (ao_challenges _ Ha)|done].
Qed.

(** Spending the grant and the challenge *)
Lemma spend_Ok grant nonce at_ msg row c :
  db_ok (live c) → ~ In (gr_id grant) (map gr_id (grants (the_authority (live c)))) →
  ~ In (gr_operation grant) (map gr_operation (grants (the_authority (live c)))) →
  In row (challenges (the_authority (live c))) → ch_nonce_sha row = nonce → ch_consumed row = None →
  ∃ c1, conflict_on_integrity (exec (insert_grant grant) ;; update (consume_challenge nonce at_ (gr_id grant))) msg c =
    (Ok 1, c1) ∧ In (spend_row at_ (gr_id grant) row) (challenges (the_authority (live c1))).
Proof.
  intros Hd Hid Hop Hrow Hn Hc. apply mem_not_In in Hid, Hop.
  unfold conflict_on_integrity, mbind, txn_bind, exec, insert_grant, unique. rewrite Hid, Hop. simpl.
  unfold update, consume_challenge. simpl.
  assert (count (unconsumed nonce) (challenges (the_authority (live c))) = 1) as ->.
  { apply (count_unique ch_nonce_sha _ _ row); [apply (ao_challenges _ (do_authority _ Hd))|done| |].
    - unfold unconsumed. by rewrite Hc, Hn, String.eqb_refl.
    - intros y Hy. unfold unconsumed in Hy. bool_hyps. apply String.eqb_eq in H. congruence. }
  eexists. split; [reflexivity|]. simpl. apply in_map_iff. exists row. split; [|done].
  unfold unconsumed. by rewrite Hc, Hn, String.eqb_refl.
Qed.

Lemma verify_accepts operator r challenge k id c signature encoded :
  ready operator r challenge k id c →
  rfc8785_bytes (JObj challenge) = Ok encoded →
  signature_valid (ky_public k) signature encoded = Ok tt →
  ∃ c1, verify_and_consume {| tk_challenge := challenge; tk_signature := signature |} r operator c = (Ok id, c1) ∧
    spent_challenge challenge (live c1).
Proof.
  intros [Hd [Hs Hr (head & nonce & from & until & -> & Hb) (enc & row & nonce' & He & Hn & Hin & E1 & E2 & E3 & E4)]
    (ti & tx & Hi & Hx & Hlo & Hhi) Hid Hnew Hop] Henc Hsig.
  rewrite Henc in He. injection He as <-.
  destruct (text_item_challenge r k head nonce from until) as (En & Eo & Et). rewrite En in Hn. injection Hn as <-.
  unfold verify_and_consume. cbn [tk_challenge tk_signature].
  rewrite txn_lift_bind, Hs. rewrite txn_lift_bind. unfold _assert_request_exact at 1. rewrite Hr. cbn [mbind res_bind].
  rewrite challenge_exact. cbn [raise_if]. rewrite txn_read_authority, Hb. cbv beta iota.
  rewrite txn_guard_bind, challenge_bound. rewrite txn_guard_bind.
  change (get "ledger_sequence" (challenge_of r k head nonce from until)) with (JInt head).
  assert (py_eq (JInt head) (JInt head) = true) as -> by apply py_eq_int_refl.
  rewrite !txn_lift_bind, Henc, txn_lift_bind, En, txn_lift_bind, Eo, txn_lift_bind, Et. cbv zeta.
  rewrite txn_query_bind, (find_issued _ _ row (do_authority _ Hd) Hin E1).
  rewrite txn_guard_bind, E2, E3, !String.eqb_refl. rewrite txn_guard_bind, E4.
  rewrite txn_now_bind, !txn_lift_bind, Hi, txn_lift_bind, Hx, txn_guard_bind.
  destruct (Z.ltb_spec (instant (clock (ticks c))) (instant ti)); [lia|].
  destruct (Z.leb_spec (instant tx) (instant (clock (ticks c)))); [lia|].
  rewrite txn_lift_bind, Hsig. cbn [negb andb orb].
  set (cn := {| live := live c; saved := saved c; drawn := drawn c; ticks := S (ticks c) |}).
  assert (fresh "authority-provenance" cn =
    (Ok id, {| live := live c; saved := saved c; drawn := S (drawn c); ticks := S (ticks c) |})) as Hf.
  { unfold fresh. subst cn. cbn [drawn live saved ticks]. by rewrite Hid. }
  rewrite (txn_bind_run _ _ _ _ _ Hf).
  match goal with |- context [conflict_on_integrity (exec (insert_grant ?g) ;; _) ?msg ≫= _] =>
    edestruct (spend_Ok g (sha256 nonce) (utc_text (clock (ticks c))) msg row) as (c1 & Hc & Hspent);
      [..|rewrite (txn_bind_run _ _ _ _ _ Hc)] end; try done.
  rewrite txn_guard_bind. cbn. exists c1. split; [done|].
  by exists nonce, (spend_row (utc_text (clock (ticks c))) id row), (utc_text (clock (ticks c))).
Qed.

Lemma spent_refused challenge signature r operator c :
  db_ok (live c) → spent_challenge challenge (live c) →
  ∃ e, (verify_and_consume {| tk_challenge := challenge; tk_signature := signature |} r operator c).1 = Err e.
Proof.
  intros Hd (nonce & row & at_ & Hn & Hrow & Hs & Hc).
  destruct (verify_and_consume _ r operator c) as [[id|e] c1] eqn:E; [|by exists e]. exfalso.
  unfold verify_and_consume in E. cbn [tk_challenge] in E.
  do 2 (rewrite txn_lift_bind in E; case_match; [|discriminate]).
  rewrite txn_read_authority in E. case_match; [|discriminate]. case_match; subst.
  do 2 (rewrite txn_guard_bind in E; case_match; [discriminate|]).
  rewrite txn_lift_bind in E; case_match; [|discriminate]. rewrite txn_lift_bind, Hn in E.
  do 2 (rewrite txn_lift_bind in E; case_match; [|discriminate]). cbv zeta in E.
  rewrite txn_query_bind, (find_issued _ _ row (do_authority _ Hd) Hrow Hs) in E.
  rewrite txn_guard_bind in E. case_match; [discriminate|]. by rewrite txn_guard_bind, Hc in E.
Qed.

(** *** One approval is spent once *)

(** What remains of a consumed approval in the approval tables: the challenge
    of the nonce is consumed and the operation has its grant. *)
Definition spent_approval (nonce : string) (g : grant_row) (a : authority) : Prop :=
  In g (grants a) ∧ ∃ row at_, In row (challenges a) ∧ ch_nonce_sha row = sha256 nonce ∧ ch_consumed row = Some at_.

Lemma spent_approval_advances nonce g a b :
  advances eq (grants a) (grants b) → advances spends (challenges a) (challenges b) →
  spent_approval nonce g a → spent_approval nonce g b.
Proof.
  intros Hg Hc (Hin & row & at_ & Hrow & Hs & Ht). split; [by apply (advances_eq_In _ _ _ Hg)|].
  destruct (advances_In _ _ _ _ Hc Hrow) as (row' & [->|[Hne _]] & Hrow').
  - by exists row, at_.
  - by rewrite Ht in Hne.
Qed.

Lemma refused_operation token r operator c g :
  In g (grants (the_authority (live c))) → text_item "operation_id" (tk_challenge token) = Ok (gr_operation g) →
  ∃ e, (verify_and_consume token r operator c).1 = Err e.
Proof.
  intros Hg Ho. destruct (verify_and_consume token r operator c) as [[id|e] c1] eqn:E; [|by exists e].
  apply consumed_run in E as (? & ? & ? & ? & _ & Ho' & _ & _ & _ & _ & Hno & _).
  rewrite Ho in Ho'. injection Ho' as E'. exfalso. apply Hno. rewrite <- E'. by apply in_map.
Qed.

(** C5: One approval, one use.  When a token is consumed, its nonce belonged to
    a challenge that was still unspent and its operation had no grant; exactly
    one grant, for that operation, is added, exactly that challenge is marked
    spent and nothing else of the approval tables changes.  In every later
    state of the store in which grants and spent challenges have been kept, no
    token that carries the same nonce or names the same operation is consumed
    again, whatever its signature, the request it is presented for and the
    operator. *)
Theorem approval_single_use token r operator c id c1 :
  db_ok (live c) → verify_and_consume token r operator c = (Ok id, c1) →
  let a := the_authority (live c) in let b := the_authority (live c1) in
  ∃ nonce row g at_,
    text_item "nonce" (tk_challenge token) = Ok nonce ∧
    text_item "operation_id" (tk_challenge token) = Ok (gr_operation g) ∧
    In row (challenges a) ∧ ch_nonce_sha row = sha256 nonce ∧ ch_consumed row = None ∧
    gr_id g = id ∧ ~ In (gr_operation g) (map gr_operation (grants a)) ∧
    grants b = grants a ++ [g] ∧ prepared b = prepared a ∧
    challenges b = map (λ x, if String.eqb (ch_nonce_sha x) (sha256 nonce) then spend_row at_ id row else x)
                     (challenges a) ∧
    ∀ later token' r' operator',
      db_ok (live later) → advances eq (grants b) (grants (the_authority (live later))) →
      advances spends (challenges b) (challenges (the_authority (live later))) →
      (text_item "nonce" (tk_challenge token') = Ok nonce ∨
       text_item "operation_id" (tk_challenge token') = Ok (gr_operation g)) →
      ∃ x, (verify_and_consume token' r' operator' later).1 = Err x.
Proof.
  intros Hd E. pose proof (consumed_run _ _ _ _ _ _ E) as
    (nonce & row & g & at_ & Hn & Ho & Hrow & Hs & Hc & Hi & Hno & El).
  exists nonce, row, g, at_. rewrite El. cbn [the_authority with_authority spend grants challenges prepared].
  split_and!; try done.
  - apply List.map_ext_in. intros x Hx. unfold unconsumed.
    destruct (String.eqb_spec (ch_nonce_sha x) (sha256 nonce)) as [Hxs|]; [|done].
    assert (x = row) as ->.
    { apply (NoDup_map_inj ch_nonce_sha _ x row (ao_challenges _ (do_authority _ Hd)) Hx Hrow). congruence. }
    by rewrite Hc, Hi.
  - intros later [m' sig'] r' operator' Hl Hxg Hxc Ht.
    assert (spent_approval nonce g (the_authority (live c1))) as Hspent.
    { rewrite El. split; [apply in_app_iff; right; by left|]. exists (spend_row at_ (gr_id g) row), at_.
      split; [|by rewrite <- Hs]. apply in_map_iff. exists row. split; [|done].
      unfold unconsumed. by rewrite Hc, Hs, String.eqb_refl. }
    destruct (spent_approval_advances nonce g (the_authority (live c1)) (the_authority (live later)) ltac:(by rewrite El) ltac:(by rewrite El) Hspent) as (Hgl & row' & t' & Hr').
    destruct Ht as [Ht|Ht]; [|by eapply refused_operation].
    apply spent_refused; [done|]. exists nonce, row', t'. by split.
Qed.

(** C19: Approvals are live.  A challenge that [approve_challenge] has issued,
    presented to a well-formed store whose approval tables are as it left them,
    within its time and with a signature its key verifies, is accepted for
    exactly the request it was issued for; and in every later state of the
    store the same challenge is refused, whatever the signature, the request or
    the operator. *)
Theorem issued_challenge_accepted operator r ttl d n t challenge k c1 signature encoded id c :
  approve_challenge operator r ttl (open_on d n t) = (Ok (challenge, k), c1) →
  rfc8785_bytes (JObj challenge) = Ok encoded → signature_valid (ky_public k) signature encoded = Ok tt →
  db_ok (live c) → the_authority (live c) = the_authority (saved c1) →
  in_time challenge (clock (ticks c)) →
  make_urn (uuids (drawn c)) "authority-provenance" = Ok id →
  ~ In id (map gr_id (grants (the_authority (live c)))) →
  ~ In (cr_operation_id r) (map gr_operation (grants (the_authority (live c)))) →
  ∃ c2, verify_and_consume {| tk_challenge := challenge; tk_signature := signature |} r operator c = (Ok id, c2) ∧
    ∀ later signature' r' operator', db_ok (live later) → extends (live c2) (live later) →
      ∃ x, (verify_and_consume {| tk_challenge := challenge; tk_signature := signature' |} r' operator' later).1 = Err x.
Proof.
  intros Ha Henc Hsig Hok Hsame Ht Hid Hnew Hop. apply approve_Ok in Ha. rewrite <- Hsame in Ha.
  destruct (verify_accepts operator r challenge k id c signature encoded) as (c2 & Hv & Hs); [by split|done|done|].
  exists c2. split; [done|]. intros later signature' r' operator' He Hx. apply spent_refused; [done|].
  by apply (spent_challenge_durable challenge (live c2)).
Qed.
End ceremony.

Definition toy_signature : string := text_at "signature_b64" toy_token.

Definition toy_provenance : string :=
  Eval vm_compute in match make_urn (uuids 5) "authority-provenance" with Ok u => u | Err _ => "" end.

Lemma issued_challenge_accepted_witness :
  ∃ c2, verify_and_consume {| tk_challenge := toy_challenge; tk_signature := toy_signature |} toy_request
          operator_urn (open_on approved_db 5 40) = (Ok toy_provenance, c2).
Proof.
  destruct (issued_challenge_accepted operator_urn toy_request 60 prepared_db 300 20 toy_challenge toy_key
    approved_conn.2 toy_signature (canonical_bytes (JObj toy_challenge)) toy_provenance
    (open_on approved_db 5 40)) as (c2 & Hc & _); [..|by exists c2].
  - exact approved_run.
  - reflexivity.
  - vm_compute. reflexivity.
  - apply approved_ok.
  - reflexivity.
  - do 2 eexists. split; [vm_compute; reflexivity|]. split; [vm_compute; reflexivity|]. vm_compute. split; congruence.
  - reflexivity.
  - vm_compute. tauto.
  - vm_compute. tauto.
Defined.

(** The toy approval, presented once *)
Definition spent_token : ApprovalToken := {| tk_challenge := toy_challenge; tk_signature := toy_signature |}.

Definition spent_conn : conn :=
  Eval vm_compute in (verify_and_consume spent_token toy_request operator_urn (open_on approved_db 5 40)).2.

Lemma spent_ok : db_ok (live spent_conn).
Proof.
  assert (spent_conn = (verify_and_consume spent_token toy_request operator_urn (open_on approved_db 5 40)).2) as ->
    by (vm_compute; reflexivity).
  assert (∃ row, In row (prepared (the_authority approved_db))) as [row Hrow] by (vm_compute; eauto).
  assert (good approved_db approved_db) as Hg by (split; [apply approved_ok|done]).
  by destruct (verify_and_consume_spec approved_db always spent_token toy_request operator_urn row (λ _ _ _ _, I)
    (open_on approved_db 5 40)) as [[[Hok _] _] _].
Qed.

Lemma approval_single_use_witness :
  ∃ e, (verify_and_consume spent_token toy_request operator_urn spent_conn).1 = Err e.
Proof.
  destruct (approval_single_use spent_token toy_request operator_urn (open_on approved_db 5 40) toy_provenance spent_conn)
    as (nonce & row & g & at_ & Hn & Ho & _ & _ & _ & _ & _ & _ & _ & _ & Hl).
  - apply approved_ok.
  - vm_compute. reflexivity.
  - apply Hl; [apply spent_ok|apply (advances_refl _)|apply (advances_refl _)|by left].
Defined.
