(* ===== verification/History.v ===== *)
(** * What a verified ledger of keys proves

    The replay of [Chain] is refined by an abstract machine on the keys
    ([moves]): keys are certified, succeed one another and end, and nothing
    else happens to them. *)
From stdpp Require Import relations.
From S2P Require Import Prelude PyTime Urn Contracts Codec Json Names Clock Tables Integrity.
From S2P Require Import Txn Approval Chain.

(** ** Reading the checks *)
Lemma refuse_if_Ok b msg u : refuse_if b msg = Ok u ↔ b = false.
Proof. apply raise_if_Ok. Qed.

Lemma differs_str k m s : differs k m (JStr s) = false ↔ get k m = JStr s.
Proof. unfold differs. rewrite negb_false_iff. apply py_eq_str. Qed.

Lemma py_eq_str_l s v : py_eq (JStr s) v = true → v = JStr s.
Proof.
  destruct v; simpl; try discriminate. intros H. apply String.eqb_eq in H. by rewrite H.
Qed.

Lemma py_eq_null v : py_eq v JNull = true ↔ v = JNull.
Proof. destruct v as [| | |f| | |]; simpl; try (split; discriminate); tauto. Qed.

Lemma differs_opt k m o : differs k m (opt_json o) = false ↔ get k m = opt_json o.
Proof.
  destruct o; [apply differs_str|]. unfold differs, opt_json. rewrite negb_false_iff. apply py_eq_null.
Qed.

Lemma opt_json_inj a b : opt_json a = opt_json b → a = b.
Proof. destruct a, b; simpl; congruence. Qed.

Lemma dict_get_Ok {A} k (m : list (json * A)) o : dict_get k m = Ok o ↔ hashable k = true ∧ o = jassoc k m.
Proof. unfold dict_get. destruct (hashable k); split; intros; naive_solver. Qed.

Lemma bool_decide_is_Some_false {A} (o : option A) : bool_decide (is_Some o) = false ↔ o = None.
Proof. rewrite bool_decide_eq_false. apply symmetry, eq_None_not_Some. Qed.

(** ** Rings of keys with text names *)
Definition text_names (m : keyring) : Prop := Forall (λ kv, is_str kv.1 = true) m.

(** Each key is under its own identifier and the identifiers are distinct texts. *)
Record ring (m : keyring) : Prop := {
  ri_text : text_names m;
  ri_names : List.NoDup (map fst m);
  ri_own : Forall (λ kv, kv.1 = ce_id (ck_certificate kv.2)) m
}.

Lemma jassoc_str {A} s (m : list (json * A)) a : jassoc (JStr s) m = Some a → In (JStr s, a) m.
Proof.
  induction m as [|[x b] m IH]; [done|]. cbn [jassoc]. destruct (scalar_eq (JStr s) x) eqn:E.
  - apply scalar_eq_str_l in E as ->. intros [= ->]. by left.
  - intros H. right. by apply IH.
Qed.

Lemma jassoc_In s a (m : keyring) : List.NoDup (map fst m) → In (JStr s, a) m → jassoc (JStr s) m = Some a.
Proof.
  induction m as [|[x b] m IH]; [done|]. intros Hn Hin. inversion_clear Hn as [|? ? Hx Hm]. cbn [jassoc].
  destruct Hin as [[= -> ->]|Hin].
  - assert (scalar_eq (JStr s) (JStr s) = true) as -> by by apply scalar_eq_str_l.
    done.
  - destruct (scalar_eq (JStr s) x) eqn:E; [|by apply IH].
    apply scalar_eq_str_l in E as ->. exfalso. apply Hx. change (JStr s) with (JStr s, a).1. by apply in_map.
Qed.

Lemma jassoc_named (m : keyring) k key : text_names m → jassoc k m = Some key → ∃ s, k = JStr s.
Proof.
  induction 1 as [|[x b] m Hx Hm IH]; [done|]. cbn [jassoc]. destruct (scalar_eq k x) eqn:E; [|exact IH].
  intros _. destruct x as [| | | |s| |]; try discriminate. apply scalar_eq_str_r in E. eauto.
Qed.

Lemma jassoc_app {A} k (m m' : list (json * A)) :
  jassoc k (m ++ m') = match jassoc k m with Some a => Some a | None => jassoc k m' end.
Proof. induction m as [|[x a] m IH]; [done|]. cbn [jassoc app]. by destruct (scalar_eq k x). Qed.

Lemma jassoc_None_str (m : keyring) s : jassoc (JStr s) m = None → ~ In (JStr s) (map fst m).
Proof.
  induction m as [|[x b] m IH]; [by intros _ []|]. cbn [jassoc map In fst].
  destruct (scalar_eq (JStr s) x) eqn:E; [done|].
  intros Hm [->|Hin]; [|by apply IH]. by rewrite (proj2 (scalar_eq_str_l _ _) eq_refl) in E.
Qed.

Lemma jupdate_fst {A} k f (m : list (json * A)) : map fst (jupdate k f m) = map fst m.
Proof.
  unfold jupdate. rewrite map_map. apply map_ext. intros [x a]. simpl. by destruct (scalar_eq k x).
Qed.

Lemma jassoc_jupdate s k f (m : keyring) :
  jassoc (JStr s) (jupdate (JStr k) f m) =
  if String.eqb k s then option_map f (jassoc (JStr s) m) else jassoc (JStr s) m.
Proof.
  induction m as [|[x a] m IH]; [by destruct (String.eqb k s)|]. unfold jupdate. rewrite map_cons. cbn [fst snd].
  destruct (scalar_eq (JStr k) x) eqn:Ek; cbn [jassoc]; destruct (scalar_eq (JStr s) x) eqn:E; try exact IH.
  - apply scalar_eq_str_l in E as ->. apply scalar_eq_str_l in Ek as [= ->]. by rewrite String.eqb_refl.
  - apply scalar_eq_str_l in E as ->. destruct (String.eqb_spec k s) as [->|]; [|done].
    by rewrite (proj2 (scalar_eq_str_l _ _) eq_refl) in Ek.
Qed.

(** ** The abstract machine of keys *)
Inductive moves : keyring → keyring → Prop :=
| mv_end id key status effective compromised replacement m :
    jassoc id m = Some key → ck_status key = Active → status ≠ Active →
    moves m (jupdate id (ended status effective compromised replacement) m)
| mv_retire id key effective m :
    jassoc id m = Some key → ck_status key = Active → moves m (jupdate id (retired effective) m)
| mv_certify id c sequence sha effective m :
    ce_id c = JStr id → jassoc (JStr id) m = None →
    (ce_kind c = Installation → installed_at (ce_install c) m = false) →
    moves m (m ++ [(JStr id, certified c sequence sha effective)])
| mv_succeed old key id c sequence sha effective m :
    jassoc old m = Some key → ck_status key = Active →
    ce_id c = JStr id → jassoc (JStr id) m = None → ce_kind c = Installation →
    py_eq (ce_install c) (ck_install key) = true →
    moves m (jupdate old (retired effective) m ++ [(JStr id, certified c sequence sha effective)]).

(** *** A ring stays a ring *)
Lemma in_jupdate {A} k f (m : list (json * A)) x a :
  In (x, a) (jupdate k f m) ↔
  (scalar_eq k x = false ∧ In (x, a) m) ∨ (scalar_eq k x = true ∧ ∃ b, a = f b ∧ In (x, b) m).
Proof.
  unfold jupdate. rewrite in_map_iff. split.
  - intros ([y b] & E & Hin). simpl in E. destruct (scalar_eq k y) eqn:Ey; injection E as <- <-; [right|left]; eauto.
  - intros [[E Hin]|(E & b & -> & Hin)]; [exists (x, a)|exists (x, b)]; simpl; by rewrite E.
Qed.

Lemma text_names_fst (m : keyring) : text_names m ↔ Forall (λ x, is_str x = true) (map fst m).
Proof. unfold text_names. by rewrite List.Forall_map. Qed.

Lemma ring_map g m :
  (∀ kv, (g kv).1 = kv.1 ∧ ck_certificate (g kv).2 = ck_certificate kv.2) → ring m → ring (map g m).
Proof.
  intros Hg [Ht Hn Ho]. assert (map fst (map g m) = map fst m) as E.
  { rewrite map_map. apply map_ext. intros kv. apply Hg. }
  split.
  - apply text_names_fst. rewrite E. by apply text_names_fst.
  - by rewrite E.
  - apply List.Forall_map. revert Ho. apply List.Forall_impl. intros kv Hkv. destruct (Hg kv) as [-> ->]. done.
Qed.

Lemma ring_update k f m :
  (∀ a, ck_certificate (f a) = ck_certificate a) → ring m → ring (jupdate k f m).
Proof. intros Hf. apply ring_map. intros [x a]. simpl. destruct (scalar_eq k x); simpl; auto. Qed.

Lemma ring_enter id c sequence sha effective m :
  ce_id c = JStr id → jassoc (JStr id) m = None → ring m →
  ring (m ++ [(JStr id, certified c sequence sha effective)]).
Proof.
  intros Hc Hm [Ht Hn Ho]. apply jassoc_None_str in Hm. split.
  - apply Forall_app. split; [done|]. by repeat constructor.
  - rewrite map_app. apply List.NoDup_app; [done|repeat constructor; tauto|]. by intros x Hx [<-|[]].
  - apply Forall_app. split; [done|]. by repeat constructor.
Qed.

Lemma moves_ring m m' : moves m m' → ring m → ring m'.
Proof.
  destruct 1; intros Hr; [by apply ring_update..|by apply ring_enter|].
  apply ring_enter; [done| |by apply ring_update].
  destruct (jassoc_named m old key (ri_text _ Hr) H) as [x ->]. rewrite jassoc_jupdate.
  rewrite H2. by destruct (String.eqb x id).
Qed.

(** *** Keys only move forward *)

(** The certificate stands; a key that is no longer active does not change. *)
Record follows (k k' : chain_key) : Prop := {
  fo_certificate : ck_certificate k' = ck_certificate k;
  fo_sequence : ck_sequence k' = ck_sequence k;
  fo_sha : ck_sha k' = ck_sha k;
  fo_final : k' = k ∨ ck_status k = Active
}.

Definition evolves (m m' : keyring) : Prop :=
  ∀ s k, jassoc (JStr s) m = Some k → ∃ k', jassoc (JStr s) m' = Some k' ∧ follows k k'.

#[export] Instance follows_preorder : PreOrder follows.
Proof.
  split; [intros k; split; auto|]. intros k l n [] []. split; [congruence..|]. naive_solver.
Qed.

#[export] Instance evolves_preorder : PreOrder evolves.
Proof.
  split; [intros m s k H; by exists k|]. intros m n o H H' s k Hk. destruct (H _ _ Hk) as (k' & Hk' & F).
  destruct (H' _ _ Hk') as (k'' & Hk'' & F'). exists k''. split; [done|]. by transitivity k'.
Qed.

Lemma evolves_app m m' : evolves m (m ++ m').
Proof. intros s k Hk. exists k. rewrite jassoc_app, Hk. done. Qed.

Lemma evolves_update id key f m :
  text_names m → jassoc id m = Some key → ck_status key = Active →
  (∀ a, ck_certificate (f a) = ck_certificate a ∧ ck_sequence (f a) = ck_sequence a ∧ ck_sha (f a) = ck_sha a) →
  evolves m (jupdate id f m).
Proof.
  intros Ht Hid Ha Hf s k Hk. destruct (jassoc_named m id key Ht Hid) as [x ->]. rewrite jassoc_jupdate, Hk.
  destruct (String.eqb_spec x s) as [->|]; simpl; eexists; (split; [reflexivity|]); [|done].
  assert (k = key) as -> by congruence. destruct (Hf key) as (E1 & E2 & E3). split; auto.
Qed.

Lemma moves_evolves m m' : ring m → moves m m' → evolves m m'.
Proof.
  intros Hr. destruct 1.
  - by eapply evolves_update; [apply ri_text|..].
  - by eapply evolves_update; [apply ri_text|..].
  - apply evolves_app.
  - transitivity (jupdate old (retired effective) m); [by eapply evolves_update; [apply ri_text|..]|apply evolves_app].
Qed.

Lemma rtc_moves m m' : rtc moves m m' → ring m → ring m' ∧ evolves m m'.
Proof.
  induction 1 as [|m n o H _ IH]; intros Hr; [done|]. destruct IH as [Hr' He]; [by apply (moves_ring m)|].
  split; [done|]. by transitivity n; [apply moves_evolves|].
Qed.

(** *** One active key per installation *)
Definition serves (s : string) (kv : json * chain_key) : Prop :=
  ck_kind kv.2 = Installation ∧ ck_status kv.2 = Active ∧ ck_install kv.2 = JStr s.

Definition single_keys (m : keyring) : Prop :=
  ∀ s x y, In x m → In y m → serves s x → serves s y → x.1 = y.1.

Definition recovery_never_retired (m : keyring) : Prop :=
  ∀ kv, In kv m → ck_kind kv.2 = Recovery → ck_status kv.2 ≠ Retired.

Lemma serves_update s k f m x :
  (∀ a, ck_status (f a) ≠ Active) → In x (jupdate k f m) → serves s x → In x m ∧ scalar_eq k x.1 = false.
Proof.
  intros Hf Hx (_ & Ha & _). destruct x as [i a]. apply in_jupdate in Hx as [[E Hx]|(_ & b & -> & _)]; [done|].
  by destruct (Hf b).
Qed.

Lemma single_update k f m : (∀ a, ck_status (f a) ≠ Active) → single_keys m → single_keys (jupdate k f m).
Proof.
  intros Hf Hs s x y Hx Hy Sx Sy.
  destruct (serves_update s k f m x Hf Hx Sx), (serves_update s k f m y Hf Hy Sy). by apply (Hs s).
Qed.

Lemma single_snoc m z : single_keys m → (∀ s x, In x m → serves s x → ~ serves s z) → single_keys (m ++ [z]).
Proof.
  intros Hs Hz s x y Hx Hy Sx Sy. apply in_app_iff in Hx as [Hx|[<-|[]]], Hy as [Hy|[<-|[]]].
  - by apply (Hs s).
  - by destruct (Hz s x).
  - by destruct (Hz s y).
  - done.
Qed.

Lemma installed_at_serves m s x : installed_at (JStr s) m = false → In x m → ~ serves s x.
Proof.
  intros H Hx (H1 & H2 & H3). apply not_true_iff_false in H. apply H. apply existsb_exists. exists x. split; [done|].
  unfold is_installation, is_live. rewrite H1, H2, H3, !bool_decide_eq_true_2 by done. simpl. by rewrite String.eqb_refl.
Qed.

Lemma moves_single m m' :
  ring m → moves m m' → recovery_never_retired m' → single_keys m → single_keys m'.
Proof.
  intros Hr Hm Hnr Hs. destruct Hm as [| |id c sequence sha effective m Hc Hn Hi|old key id c sequence sha effective m Ho Ha Hc Hn Hk Hp].
  - by apply single_update.
  - by apply single_update.
  - apply single_snoc; [done|]. intros s x Hx Sx (S1 & _ & S3). change (ce_kind c = Installation) in S1. change (ce_install c = JStr s) in S3.
    specialize (Hi S1). rewrite S3 in Hi. by apply (installed_at_serves m s x).
  - apply single_snoc; [by apply single_update|]. intros s x Hx Sx (_ & _ & S3). change (ce_install c = JStr s) in S3. rewrite S3 in Hp.
    assert (ck_install key = JStr s) as Hks.
    { by apply py_eq_str_l. }
    destruct (jassoc_named m old key (ri_text _ Hr) Ho) as [o ->]. apply jassoc_str in Ho.
    destruct (serves_update s (JStr o) (retired effective) m x) as [Hxm Ex]; [done..|].
    assert (ck_kind key = Installation) as Hki.
    { destruct (ck_kind key) eqn:E; [done|]. exfalso.
      apply (Hnr (JStr o, retired effective key)); [|done|done]. apply in_app_iff. left. apply in_jupdate. right.
      split; [by apply scalar_eq_str_l|]. by exists key. }
    assert (x.1 = JStr o) as E by by apply (Hs s x (JStr o, key)).
    by rewrite E, (proj2 (scalar_eq_str_l _ _) eq_refl) in Ex.
Qed.

Lemma recovery_back m m' : ring m → evolves m m' → recovery_never_retired m' → recovery_never_retired m.
Proof.
  intros Hr He H [x k] Hx Hk Hs. simpl in *.
  assert (∃ s, x = JStr s) as [s ->].
  { pose proof (proj1 (List.Forall_forall _ _) (ri_text _ Hr) _ Hx) as Ht. destruct x; try discriminate. eauto. }
  destruct (He s k) as (k' & Hk' & [Ec _ _ [->|Ha]]); [by apply jassoc_In; [apply ri_names|]| |congruence].
  apply jassoc_str in Hk'. by apply (H _ Hk').
Qed.

Lemma rtc_single m m' :
  rtc moves m m' → ring m → recovery_never_retired m' → single_keys m → single_keys m'.
Proof.
  induction 1 as [|m n o H Hrest IH]; intros Hr Hnr Hs; [done|].
  assert (ring n) as Hr' by by apply (moves_ring m).
  apply IH; [done..|]. apply (moves_single m n); [done..| |done].
  apply (recovery_back n o); [done| |done]. by apply rtc_moves.
Qed.

(** *** The lifecycle rules are moves *)
Lemma new_id_Ok c m msg u : new_id c m msg = Ok u → jassoc (ce_id c) m = None.
Proof.
  unfold new_id, refuse_if. intros H. inv_ok.
  match goal with H : dict_get _ _ = _ |- _ => apply dict_get_Ok in H as [_ ->] end. by apply bool_decide_is_Some_false.
Qed.

Lemma new_chain_key_kind details kind c : _new_chain_key details kind = Ok c → ce_kind c = kind.
Proof.
  unfold _new_chain_key, refuse_if, refuse. intros H. inv_ok.
  destruct (decode_b64 _); [|discriminate]. cbv zeta in *. by inv_ok.
Qed.

Lemma is_live_Active k : negb (is_live k) = false ↔ ck_status k = Active.
Proof. unfold is_live. by rewrite negb_false_iff, bool_decide_eq_true. Qed.

Lemma enter_named x c m : text_names (enter x c m) → ∃ s, ce_id c = JStr s ∧
  enter x c m = m ++ [(JStr s, certified c (cx_sequence x) (Some (cx_digest x)) (cx_created x))].
Proof.
  unfold enter. intros H. apply Forall_app in H as [_ H]. apply Forall_inv in H. simpl in H.
  destruct (ce_id c); try discriminate. eauto.
Qed.

Lemma pair_key_moves kind x m m' : pair_key kind x m = Ok m' → text_names m' → moves m m'.
Proof.
  unfold pair_key, refuse_if. intros H Ht. inv_ok.
  match goal with H : _new_chain_key _ _ = _ |- _ => apply new_chain_key_kind in H as Hk end.
  match goal with H : new_id _ _ _ = _ |- _ => apply new_id_Ok in H as Hn end.
  destruct (enter_named _ _ _ Ht) as (s & Es & ->). rewrite Es in Hn. constructor; [done..|].
  intros E. rewrite E in Hk. subst kind. by inv_ok.
Qed.

Lemma rotate_key_moves x m m' : rotate_key x m = Ok m' → text_names m' → ring m → moves m m'.
Proof.
  unfold rotate_key, refuse_if, refuse. cbv zeta. intros H Ht Hr. inv_ok. 
  match goal with H : dict_get _ _ = _ |- _ => apply dict_get_Ok in H as [_ ->] end.
  destruct (jassoc _ _) as [old|] eqn:Eo; [|discriminate]. inv_ok.
  match goal with H : _new_chain_key _ _ = _ |- _ => apply new_chain_key_kind in H end.
  match goal with H : new_id _ _ _ = _ |- _ => apply new_id_Ok in H as Hn end.
  destruct (enter_named _ _ _ Ht) as (s & Es & ->). rewrite Es in Hn.
  eapply mv_succeed; [exact Eo|by apply is_live_Active|done..|]. by apply negb_false_iff.
Qed.

Lemma end_key_moves e x m m' : end_key e x m = Ok m' → moves m m'.
Proof.
  unfold end_key, refuse_if, refuse. cbv zeta. intros H. inv_ok.
  match goal with H : dict_get _ _ = _ |- _ => apply dict_get_Ok in H as [_ ->] end.
  destruct (jassoc _ _) as [key|] eqn:Ek; [|discriminate]. inv_ok.
  eapply mv_end; [exact Ek|by apply is_live_Active|]. by destruct e.
Qed.

Lemma rebind_moves x m m' : rebind x m = Ok m' → text_names m' → ring m → rtc moves m m'.
Proof.
  unfold rebind, refuse_if, refuse. cbv zeta. intros H Ht Hr. inv_ok.
  destruct (List.filter _ m) as [|[old_id key] [|]] eqn:Ef; try discriminate. inv_ok.
  assert (In (old_id, key) m ∧ ck_status key = Active) as [Hin Ha].
  { assert (In (old_id, key) (List.filter (λ kv, py_eq (ck_install kv.2) (get "old_install_id" (cx_details x)) && is_live kv.2) m))
      as Hin by (rewrite Ef; by left).
    apply filter_In in Hin as [Hin Hb]. split; [done|]. simpl in Hb. bool_hyps. by apply is_live_Active, negb_false_iff. }
  match goal with H : new_id _ _ _ = _ |- _ => apply new_id_Ok in H as Hn end.
  assert (∃ s, old_id = JStr s) as [o ->].
  { pose proof (proj1 (List.Forall_forall _ _) (ri_text _ Hr) _ Hin) as Hs. destruct old_id; try discriminate. eauto. }
  eapply rtc_l; [eapply mv_retire; [by apply jassoc_In; [apply ri_names|]|done]|].
  destruct (enter_named _ _ _ Ht) as (s & Es & ->). rewrite Es in Hn. apply rtc_once. by constructor.
Qed.

Lemma adjudicate_same x m m' : adjudicate x m = Ok m' → m' = m.
Proof. unfold adjudicate, refuse_if, refuse. intros H. by inv_ok. Qed.

Lemma lifecycle_moves op store event signer by_ sequence digest m m' :
  lifecycle op store event signer by_ sequence digest m = Ok m' → text_names m' → ring m → rtc moves m m'.
Proof.
  unfold lifecycle, refuse_if, refuse. intros H Ht Hr. inv_ok. do 2 (case_match; try discriminate).
  destruct (assoc _ LIFECYCLE) as [rule|] eqn:E; [|discriminate].
  apply assoc_In in E. unfold LIFECYCLE in E.
  repeat (apply in_inv in E as [E|E]; [apply pair_equal_spec in E as [<- <-]|]); [..|done].
  - by eapply rtc_once, pair_key_moves.
  - by eapply rtc_once, pair_key_moves.
  - by eapply rtc_once, rotate_key_moves.
  - by eapply rtc_once, end_key_moves.
  - by eapply rtc_once, end_key_moves.
  - by eapply rtc_once, end_key_moves.
  - by eapply rebind_moves.
  - by apply adjudicate_same in H as ->.
Qed.

(** ** One event *)
Lemma nth_error_snoc {A} (l : list A) x i y :
  nth_error (l ++ [x]) i = Some y ↔ nth_error l i = Some y ∨ (i = length l ∧ y = x).
Proof.
  destruct (Nat.lt_ge_cases i (length l)) as [H|H].
  - rewrite nth_error_app1 by done. split; [by left|]. intros [?|[-> _]]; [done|lia].
  - rewrite nth_error_app2 by done. assert (nth_error l i = None) as -> by by apply nth_error_None.
    destruct (i - length l)%nat as [|[|k]] eqn:E; simpl; split; intros E'.
    + right. split; [lia|congruence].
    + by destruct E' as [[=]|[_ ->]].
    + done.
    + destruct E' as [[=]|[-> _]]. lia.
    + done.
    + destruct E' as [[=]|[-> _]]. lia.
Qed.

Section history.
Context `{signing : crypto}.

(** The signature of an encoded event verifies under a public key. *)
Definition signed (public : json) (signature encoded : string) : Prop :=
  ∃ raw sig, decode_b64 public = Some raw ∧ String.length raw = 32%nat ∧
    b64decode false signature = Some sig ∧ ed25519_verify raw sig (LEDGER_DOMAIN +:+ encoded) = true.

Record link (operator : string) (before : chain) (row : ledger_row) (event : obj) (encoded : string)
    (signer : chain_key) (after : chain) : Prop := {
  lk_event : loads (lg_json row) = Some (JObj event);
  lk_encoded : rfc8785_bytes (JObj event) = Ok encoded;
  lk_digest : lg_sha row = sha256 encoded;
  lk_fields : Forall (λ kv, get kv.1 event = kv.2) (row_values row);
  lk_operator : lg_operator row = operator;
  lk_previous : lg_previous row = head_sha before;
  lk_signer : jassoc (signer_of event) (held before) = Some signer;
  lk_active : ck_status signer = Active;
  lk_signed : signed (ce_public (ck_certificate signer)) (lg_signature row) encoded;
  lk_after : ∃ state, after = {| held := held after; head_sha := Some (lg_sha row);
    marks := marks before ++ [{| mk_sha := lg_sha row; mk_keys := held after; mk_state := state |}] |}
}.

Lemma verify_signature_signed public signature encoded msg u :
  verify_signature LEDGER_DOMAIN public (JStr signature) (Ok encoded) msg = Ok u → signed public signature encoded.
Proof.
  unfold verify_signature, refuse, refuse_if, signed. simpl. destruct (b64decode false signature) as [sig|]; [|discriminate].
  destruct public; try discriminate. destruct (decode_b64 _) as [raw|]; [|discriminate]. intros H. inv_ok. bool_hyps.
  exists raw, sig. split_and!; try done. by apply Nat.eqb_eq.
Qed.

Lemma row_values_agree row event :
  existsb (λ kv, differs kv.1 event kv.2) (row_values row) = false →
  Forall (λ kv, get kv.1 event = kv.2) (row_values row).
Proof.
  unfold row_values. cbn [existsb fst snd]. intros H. bool_hyps.
  repeat constructor; cbn [fst snd]; first [by apply differs_str|by apply differs_opt].
Qed.

Lemma row_value row event k v :
  Forall (λ kv, get kv.1 event = kv.2) (row_values row) → In (k, v) (row_values row) → get k event = v.
Proof. intros H Hin. exact (proj1 (List.Forall_forall _ _) H _ Hin). Qed.

Lemma state_names m s : key_state_sha256 m = Ok s → text_names m ∨ (length m ≤ 1)%nat.
Proof.
  unfold key_state_sha256, _key_state_value, sorted_keys. intros H. inv_ok.
  match goal with H : (if ?b then _ else _) = _ |- _ => destruct b eqn:E; [|discriminate] end.
  apply orb_true_iff in E as [E|E]; [left|right; by apply Nat.leb_le].
  apply List.Forall_forall. by apply forallb_forall.
Qed.

Lemma event_object_Ok row msg event : event_object row msg = Ok event ↔ loads (lg_json row) = Some (JObj event).
Proof. unfold event_object, refuse. destruct (loads _) as [[]|]; split; naive_solver. Qed.

(** The keys after an event: named by its own digest at the first, by its rule at the others *)
Definition ruled (operator : string) (store : json) (before : chain) (event : obj) (signer : chain_key)
    (digest : string) (m : keyring) : Prop :=
  if Z.of_nat (length (marks before)) =? 0 then m = map (λ kv, (kv.1, with_sha digest kv.2)) (held before)
  else lifecycle operator store event (signer_of event) signer (Z.of_nat (length (marks before)) + 1) digest
         (held before) = Ok m.

Lemma verify_event_Ok operator store before row after :
  verify_event operator store before row = Ok after →
  ∃ event encoded signer, link operator before row event encoded signer after ∧
    ruled operator store before event signer (lg_sha row) (held after) ∧
    (text_names (held after) ∨ (length (held after) ≤ 1)%nat).
Proof.
  unfold verify_event. cbv zeta. unfold refuse_if. intros H. inv_ok.
  match goal with H : event_object _ _ = _ |- _ => apply event_object_Ok in H end.
  match goal with H : loads _ = Some (JObj ?e) |- _ => rename e into event end.
  match goal with H : dict_get _ _ = _ |- _ => apply dict_get_Ok in H as [_ ->] end.
  destruct (jassoc _ _) as [signer|] eqn:Es; [|discriminate]. unfold refuse in *. inv_ok.
  match goal with H : existsb _ _ = false |- _ => apply row_values_agree in H as Hv end.
  match goal with H : verify_signature _ _ _ _ _ = _ |- _ => apply verify_signature_signed in H end.
  match goal with H : key_state_sha256 _ = _ |- _ => apply state_names in H end.
  match goal with H : negb (is_live _) = false |- _ => apply is_live_Active in H end.
  match goal with H : differs "operator_id" _ _ = false |- _ => apply differs_str in H as Hop end.
  match goal with H : differs "previous_event_sha256" _ _ = false |- _ => apply differs_opt in H as Hprev end.
  match goal with H : negb (String.eqb _ (lg_sha row)) = false |- _ => apply negb_false_iff, String.eqb_eq in H as Hsha end.
  do 3 eexists. split; [split|split].
  - eassumption.
  - eassumption.
  - by symmetry.
  - done.
  - pose proof (row_value row event "operator_id" (JStr (lg_operator row)) Hv) as E.
    rewrite Hop in E. by injection E; [|simpl; tauto].
  - pose proof (row_value row event "previous_event_sha256" (opt_json (lg_previous row)) Hv) as E.
    rewrite Hprev in E. apply opt_json_inj. symmetry. apply E. simpl; tauto.
  - exact Es.
  - done.
  - done.
  - eexists. simpl. rewrite Hsha. done.
  - unfold ruled. cbn [held]. rewrite <- Hsha. by case_match; [|done]; inv_ok.
  - done.
Qed.

(** ** The first event *)
Lemma item_get k m v : item k m = Ok v → get k m = v.
Proof. intros H. apply item_Ok in H. unfold get. by rewrite H. Qed.

Lemma genesis_keys_ring genesis m s :
  genesis_keys genesis = Ok m → get "key_id" genesis = JStr s → text_names m ∨ (length m ≤ 1)%nat →
  ring m ∧ (∀ x y, In x m → In y m → ck_kind x.2 = Installation → ck_kind y.2 = Installation → x.1 = y.1).
Proof.
  unfold genesis_keys, refuse_if, refuse. cbv zeta. intros H Hs Ht.
  apply bind_Ok in H as (? & E%item_get & H). rewrite Hs in E. subst.
  do 3 (apply bind_Ok in H as (? & _ & H)). apply bind_Ok in H as (? & _ & H).
  destruct (get "recovery_binding" genesis); try discriminate.
  - injection H as <-. split.
    + split; [by repeat constructor|by repeat constructor; simpl; tauto|by repeat constructor].
    + by intros y z [<-|[]] [<-|[]].
  - inv_ok. match goal with H : new_id _ _ _ = _ |- _ => apply new_id_Ok in H as Hn end.
    match goal with H : _new_chain_key _ _ = _ |- _ => apply new_chain_key_kind in H as Hk end.
    destruct Ht as [Ht|Ht]; [|simpl in Ht; lia]. apply Forall_inv_tail, Forall_inv in Ht. simpl in Ht.
    match goal with c : certificate |- _ => destruct (ce_id c) as [| | | |t| |] eqn:E; try discriminate end.
    split.
    + apply (ring_enter t _ 1 None _ [_]); [done..|]. split; [by repeat constructor|by repeat constructor; simpl; tauto|by repeat constructor].
    + intros y z [<-|[<-|[]]] [<-|[<-|[]]] Hy Hz; unfold ck_kind in *; simpl in *; congruence.
Qed.

(** ** The whole replay *)
Record kept (st : chain) : Prop := {
  kp_ring : ∀ i m, nth_error (marks st) i = Some m → ring (mk_keys m);
  kp_moves : ∀ i j m m', (i ≤ j)%nat → nth_error (marks st) i = Some m → nth_error (marks st) j = Some m' →
    rtc moves (mk_keys m) (mk_keys m');
  kp_single : ∀ m, nth_error (marks st) 0 = Some m → single_keys (mk_keys m);
  kp_last : ∃ l m, marks st = l ++ [m] ∧ held st = mk_keys m ∧ head_sha st = Some (mk_sha m)
}.

Lemma with_sha_same sha (kv : json * chain_key) :
  (kv.1, with_sha sha kv.2).1 = kv.1 ∧ ck_certificate (kv.1, with_sha sha kv.2).2 = ck_certificate kv.2.
Proof. done. Qed.

Lemma first_kept operator expected store before row after :
  opening operator expected row = Ok (store, before) → verify_event operator store before row = Ok after →
  kept after ∧ length (marks after) = 1%nat.
Proof.
  intros Ho Hv. unfold opening, refuse_if in Ho. cbv zeta in Ho. inv_ok.
  match goal with H : event_object _ _ = _ |- _ => apply event_object_Ok in H as He end.
  apply verify_event_Ok in Hv as (event & encoded & signer & [Hl _ _ Hf _ _ _ _ _ [state Ha]] & Hr & Ht).
  rewrite He in Hl. injection Hl as ->. unfold ruled in Hr. simpl in Hr.
  pose proof (row_value row event "key_id" (JStr (lg_key row)) Hf ltac:(simpl; tauto)) as Hk.
  match goal with H : genesis_keys _ = Ok ?m |- _ => rename m into m0; rename H into Hg end.
  assert (text_names m0 ∨ (length m0 ≤ 1)%nat) as Ht0.
  { rewrite Hr, length_map in Ht. destruct Ht as [Ht|Ht]; [left|by right]. apply List.Forall_map in Ht. exact Ht. }
  destruct (genesis_keys_ring _ _ _ Hg Hk Ht0) as [Hring Hone].
  assert (ring (held after)) as Hra by (rewrite Hr; apply ring_map; [apply with_sha_same|done]).
  assert (single_keys (held after)) as Hs.
  { intros s x y Hx Hy (Kx & _) (Ky & _). rewrite Hr in Hx, Hy.
    apply in_map_iff in Hx as (x' & <- & Hx), Hy as (y' & <- & Hy). exact (Hone x' y' Hx Hy Kx Ky). }
  rewrite Ha. split; [|done]. split; simpl.
  - intros [|[|i]] m; [|done..]. by intros [= <-].
  - intros [|[|i]] [|[|j]] m m' Hij; try done. by intros [= <-] [= <-].
  - by intros m [= <-].
  - eexists [], _. by split_and!.
Qed.

(** No rule removes or renames a key. *)
Definition names_kept (m m' : keyring) : Prop := ∃ tail, map fst m' = map fst m ++ tail.

Lemma names_refl m : names_kept m m.
Proof. exists []. by rewrite app_nil_r. Qed.

Lemma names_enter x c m m' : names_kept m m' → names_kept m (enter x c m').
Proof. intros [tail E]. unfold names_kept, enter. rewrite map_app, E, <- app_assoc. eauto. Qed.

Lemma names_update k f m : names_kept m (jupdate k f m).
Proof. exists []. by rewrite jupdate_fst, app_nil_r. Qed.

Create HintDb names.
#[local] Hint Resolve names_refl names_enter names_update : names.

Lemma lifecycle_names operator store event signer by_ sequence digest m m' :
  lifecycle operator store event signer by_ sequence digest m = Ok m' → names_kept m m'.
Proof.
  unfold lifecycle, refuse_if, refuse. intros H. inv_ok. do 2 (case_match; try discriminate).
  destruct (assoc _ LIFECYCLE) as [rule|] eqn:E; [|discriminate].
  apply assoc_In in E. unfold LIFECYCLE in E.
  repeat (apply in_inv in E as [E|E]; [apply pair_equal_spec in E as [<- <-]|]); [..|done];
    unfold pair_key, rotate_key, end_key, rebind, adjudicate, refuse_if, refuse in *; cbv zeta in *; inv_ok;
    repeat (case_match; try discriminate; inv_ok); auto with names.
Qed.

Lemma step_kept operator store before row after :
  kept before → verify_event operator store before row = Ok after →
  kept after ∧ length (marks after) = S (length (marks before)).
Proof.
  intros [Kr Km Ks (l & m & El & Eh & Esha)] Hv.
  apply verify_event_Ok in Hv as (event & encoded & signer & Hl & Hr & Ht).
  destruct (lk_after _ _ _ _ _ _ _ Hl) as [state Ha]. unfold ruled in Hr.
  assert (length (marks before) = S (length l)) as Hlen by (rewrite El, length_app; simpl; lia).
  destruct (Z.eqb_spec (Z.of_nat (length (marks before))) 0) as [?|_]; [lia|].
  assert (nth_error (marks before) (length l) = Some m) as Hm by (rewrite El; apply nth_error_snoc; by right).
  assert (ring (held before)) as Hrb by (rewrite Eh; by apply (Kr (length l))).
  assert (text_names (held after)) as Hta.
  { destruct Ht as [Ht|Ht]; [done|]. destruct (lifecycle_names _ _ _ _ _ _ _ _ _ Hr) as [tail Et].
    apply text_names_fst. rewrite Et. apply (f_equal (@length _)) in Et. rewrite length_app, !length_map in Et.
    assert (held before ≠ []) as Hne.
    { intros E0. apply (f_equal (jassoc (signer_of event))) in E0. rewrite (lk_signer _ _ _ _ _ _ _ Hl) in E0. done. }
    destruct (held before) as [|kv k] eqn:E0; [done|]. destruct tail; [|simpl in Et; lia].
    rewrite app_nil_r. rewrite <- E0 in *. by apply text_names_fst, ri_text. }
  pose proof (lifecycle_moves _ _ _ _ _ _ _ _ _ Hr Hta Hrb) as Hmv.
  rewrite Ha. simpl. rewrite length_app. simpl. split; [|lia].
  assert (∀ i k, nth_error (marks before) i = Some k → rtc moves (mk_keys k) (held after)) as Hto.
  { intros i k Hi. etransitivity; [|exact Hmv]. rewrite Eh. apply (Km i (length l)); [|done..].
    assert (i < length (marks before))%nat by (apply nth_error_Some; by rewrite Hi). lia. }
  split; cbn [marks held head_sha].
  - intros i k [Hi|[-> ->]]%nth_error_snoc; [by apply (Kr i)|]. by eapply rtc_moves.
  - intros i j k k' Hij [Hi|[-> ->]]%nth_error_snoc [Hj|[-> ->]]%nth_error_snoc.
    + by apply (Km i j).
    + by apply (Hto i).
    + assert (j < length (marks before))%nat by (apply nth_error_Some; by rewrite Hj). lia.
    + done.
  - intros k [Hi|[E _]]%nth_error_snoc; [by apply Ks|]. lia.
  - eexists _, _. split; [reflexivity|]. done.
Qed.

Lemma fold_res_app {A S} (f : S → A → res S) l k s :
  fold_res f s (l ++ k) = (t ← fold_res f s l; fold_res f t k).
Proof.
  revert s. induction l as [|x l IH]; intros s; simpl; [done|]. destruct (f s x); simpl; [apply IH|done].
Qed.

Lemma verify_event_marks operator store before row after :
  verify_event operator store before row = Ok after →
  ∃ m, marks after = marks before ++ [m] ∧ mk_sha m = lg_sha row ∧ mk_keys m = held after.
Proof.
  intros (event & encoded & signer & Hl & _)%verify_event_Ok. destruct (lk_after _ _ _ _ _ _ _ Hl) as [state ->].
  by eexists.
Qed.

Lemma fold_kept operator store rows : ∀ st st',
  kept st → fold_res (verify_event operator store) st rows = Ok st' →
  kept st' ∧ ∃ tail, marks st' = marks st ++ tail ∧ map mk_sha tail = map lg_sha rows.
Proof.
  induction rows as [|row rows IH]; simpl; intros st st' Hk H.
  - injection H as <-. split; [done|]. exists []. by rewrite app_nil_r.
  - apply bind_Ok in H as (mid & Hv & H). destruct (step_kept _ _ _ _ _ Hk Hv) as [Hk' _].
    destruct (verify_event_marks _ _ _ _ _ Hv) as (m & Em & Es & _).
    destruct (IH _ _ Hk' H) as (Hk'' & tail & Et & Ets). split; [done|].
    exists (m :: tail). rewrite Et, Em, <- app_assoc. split; [done|]. simpl. congruence.
Qed.

(** The shape of a replay: the first row opens it, the others follow. *)
Lemma replay_Ok operator expected rows store st :
  replay operator expected rows = Ok (store, st) →
  ∃ first rest st0 st1, rows = first :: rest ∧ consecutive 1 rows = true ∧
    opening operator expected first = Ok (store, st0) ∧
    verify_event operator store st0 first = Ok st1 ∧
    fold_res (verify_event operator store) st1 rest = Ok st ∧ kept st ∧
    map mk_sha (marks st) = map lg_sha rows.
Proof.
  unfold replay, refuse, refuse_if. destruct rows as [|first rest]; [discriminate|]. intros H. inv_ok. 
  match goal with x : (json * chain)%type |- _ => destruct x as [store0 st0] end.
  apply bind_Ok in H as (st' & Hf & H). injection H as -> ->. simpl in Hf. apply bind_Ok in Hf as (st1 & Hv & Hf).
  match goal with H : opening _ _ _ = _ |- _ => destruct (first_kept _ _ _ _ _ _ H Hv) as [Hk Hlen] end.
  destruct (fold_kept _ _ _ _ _ Hk Hf) as (Hk' & tail & Et & Ets).
  destruct (verify_event_marks _ _ _ _ _ Hv) as (m & Em & Es & _).
  exists first, rest, st0, st1. split_and!; try done.
  - match goal with H : negb _ = false |- _ => by apply negb_false_iff in H end.
  - rewrite Et, Em in *. destruct (marks st0); [|rewrite length_app in Hlen; simpl in Hlen; lia].
    simpl. congruence.
Qed.

Lemma consecutive_at l r k n : consecutive n (l ++ r :: k) = true → lg_sequence r = n + Z.of_nat (length l).
Proof.
  revert n. induction l as [|x l IH]; simpl; intros n H; bool_hyps; [lia|]. rewrite (IH (n + 1)) by done. lia.
Qed.

Lemma verify_chain_Ok operator expected checkpoint pinned a rp :
  verify_authority_chain operator expected checkpoint pinned a = Ok rp →
  replay operator expected (sort_by by_sequence (ledger a)) = Ok (rp_store rp, rp_chain rp) ∧
  match pinned with Some p => check_pinned p (rp_chain rp) | None => Ok tt end = Ok tt ∧
  (∃ m, last (marks (rp_chain rp)) = Some m ∧ rp_head_sha rp = mk_sha m ∧ rp_state rp = mk_state m) ∧
  rp_head rp = Z.of_nat (length (ledger a)) ∧
  match checkpoint with
  | Some (v, fr) => ∃ c, check_checkpoint v operator (rp_store rp) (rp_chain rp) fr = Ok c ∧ rp_checkpoint rp = Some c
  | None => rp_checkpoint rp = None
  end.
Proof.
  unfold verify_authority_chain. cbv zeta. intros H. apply bind_Ok in H as ([store st] & Hr & H). 
  apply bind_Ok in H as (u & Hp & H). apply bind_Ok in H as (acc & Hc & H).
  destruct (marks st) as [|g l] eqn:Em; [discriminate|]. rewrite <- Em in H.
  destruct (last (marks st)) as [m|] eqn:El; [|discriminate]. destruct (last (sort_by _ _)) as [row|]; [|discriminate].
  injection H as <-. cbn. split; [done|]. split; [by destruct u|]. split; [by exists m|].
  split; [by rewrite (Permutation_length (sort_by_perm by_sequence (ledger a)))|].
  destruct checkpoint as [[v fr]|]; [|by injection Hc as <-].
  apply bind_Ok in Hc as (c & Hc & E). injection E as <-. by exists c.
Qed.

(** ** What is proved of a ledger that verifies *)

(** The keys in force when an event was written: the first event brings its own. *)
Definition keys_before (st : chain) (before : list ledger_row) (event : obj) (m : keyring) : Prop :=
  match before with
  | [] => genesis_keys event = Ok m
  | _ => ∃ k, mark_at st (Z.of_nat (length before)) = Some k ∧ mk_keys k = m
  end.

Record authentic (operator : string) (st : chain) (before : list ledger_row) (row : ledger_row)
    (event : obj) (encoded : string) (signer : chain_key) : Prop := {
  au_event : loads (lg_json row) = Some (JObj event);
  au_encoded : rfc8785_bytes (JObj event) = Ok encoded;
  au_digest : lg_sha row = sha256 encoded;
  au_fields : Forall (λ kv, get kv.1 event = kv.2) (row_values row);
  au_operator : lg_operator row = operator;
  au_sequence : lg_sequence row = Z.of_nat (length before) + 1;
  au_previous : lg_previous row = option_map lg_sha (last before);
  au_signer : ∃ m, keys_before st before event m ∧ jassoc (signer_of event) m = Some signer;
  au_active : ck_status signer = Active;
  au_signed : signed (ce_public (ck_certificate signer)) (lg_signature row) encoded
}.

Lemma opening_keys operator expected row store st event :
  opening operator expected row = Ok (store, st) → loads (lg_json row) = Some (JObj event) →
  genesis_keys event = Ok (held st) ∧ head_sha st = None.
Proof.
  unfold opening, refuse_if. cbv zeta. intros H He. inv_ok.
  match goal with H : event_object _ _ = _ |- _ => apply event_object_Ok in H; rewrite He in H; injection H as <- end.
  done.
Qed.

Lemma last_map {A B} (f : A → B) l : last (map f l) = option_map f (last l).
Proof. induction l as [|x [|y l] IH]; [done..|exact IH]. Qed.

Lemma replay_authentic operator expected rows store st before row after :
  replay operator expected rows = Ok (store, st) → rows = before ++ row :: after →
  ∃ event encoded signer, authentic operator st before row event encoded signer.
Proof.
  intros Hr Hrows. apply replay_Ok in Hr as (first & rest & st0 & st1 & -> & Hc & Ho & Hv & Hf & Hk & Hm).
  rewrite Hrows in Hc. apply consecutive_at in Hc.
  destruct before as [|first' b]; simpl in Hrows; injection Hrows as -> Hrest.
  - apply verify_event_Ok in Hv as (event & encoded & signer & Hl & _). exists event, encoded, signer.
    destruct Hl as [L1 L2 L3 L4 L5 L6 L7 L8 L9 _]. destruct (opening_keys _ _ _ _ _ _ Ho L1) as [Hg Hh].
    split; try done; [by rewrite L6|by exists (held st0)].
  - subst rest. rewrite fold_res_app in Hf. apply bind_Ok in Hf as (mid & Hf1 & Hf2). simpl in Hf2.
    apply bind_Ok in Hf2 as (st2 & Hv2 & Hf2).
    destruct (first_kept _ _ _ _ _ _ Ho Hv) as [Hk1 Hl1]. destruct (fold_kept _ _ _ _ _ Hk1 Hf1) as (Hkm & t1 & E1 & E1').
    destruct (step_kept _ _ _ _ _ Hkm Hv2) as [Hk2 _]. destruct (fold_kept _ _ _ _ _ Hk2 Hf2) as (_ & t2 & E2 & _).
    destruct (verify_event_marks _ _ _ _ _ Hv2) as (m2 & E3 & _).
    destruct (verify_event_marks _ _ _ _ _ Hv) as (m1 & E4 & E4' & _).
    destruct (marks st0) as [|? ?]; [|rewrite E4, length_app in Hl1; simpl in Hl1; lia].
    assert (map mk_sha (marks mid) = map lg_sha (first' :: b)) as Emid.
    { rewrite E1, E4. simpl. rewrite E1', E4'. done. }
    apply verify_event_Ok in Hv2 as (event & encoded & signer & [L1 L2 L3 L4 L5 L6 L7 L8 L9 _] & _).
    destruct Hkm as [_ _ _ (l & m & El & Eh & Es)]. exists event, encoded, signer. split; try done.
    + lia.
    + rewrite L6, Es, <- last_map. rewrite <- Emid, El, map_app. cbn [map]. by rewrite last_snoc.
    + exists (held mid). split; [|done]. exists m. split; [|done].
      apply (f_equal (@length _)) in Emid. rewrite !length_map, El, length_app in Emid. cbn [length] in *.
      unfold mark_at. destruct (Z.leb_spec 1 (Z.of_nat (S (length b)))); [|lia].
      rewrite E2, E3, El, <- !app_assoc. rewrite nth_error_app2 by lia.
      replace (Z.to_nat _ - length l)%nat with 0%nat by lia. done.
Qed.

(** C20: A verified ledger is authentic.  When [verify_authority_chain] accepts,
    every row of the ledger, in order, is a signed event: the digest is that of
    its canonical bytes, the columns say what the event says, the operator is
    the expected one, the sequence counts from one without gaps, the previous
    digest is that of the row before, and the signature verifies under a key
    that was active among the keys in force before the event (the first event
    brings its own keys).  The reported head is the digest of the last row. *)
Theorem verified_ledger_authentic operator expected checkpoint pinned a rp :
  verify_authority_chain operator expected checkpoint pinned a = Ok rp →
  let rows := sort_by by_sequence (ledger a) in
  (∀ before row after, rows = before ++ row :: after →
     ∃ event encoded signer, authentic operator (rp_chain rp) before row event encoded signer) ∧
  option_map lg_sha (last rows) = Some (rp_head_sha rp) ∧ rp_head rp = Z.of_nat (length rows).
Proof.
  intros H rows. subst rows. apply verify_chain_Ok in H as (Hr & _ & (m & Hm & Hs & _) & Hh & _). split; [|split].
  - intros before row after E. by eapply replay_authentic.
  - apply replay_Ok in Hr as (first & rest & st0 & st1 & E & _ & _ & _ & _ & _ & Hmk).
    rewrite <- last_map, <- Hmk, last_map, Hm, Hs. done.
  - rewrite Hh. f_equal. symmetry. apply Permutation_length, sort_by_perm.
Qed.

(** The keys after the [n]-th event *)
Definition keys_after (rp : report) (n : Z) (m : keyring) : Prop :=
  ∃ k, mark_at (rp_chain rp) n = Some k ∧ mk_keys k = m.

Lemma mark_at_nth st n k : mark_at st n = Some k ↔ 1 ≤ n ∧ nth_error (marks st) (Z.to_nat (n - 1)) = Some k.
Proof. unfold mark_at. destruct (Z.leb_spec 1 n); split; intros; naive_solver lia. Qed.

(** C22: Keys only move forward.  Between any two events of a verified ledger no
    key disappears and no certificate changes, and a key that has been retired,
    revoked or declared compromised is never again active and never changes. *)
Theorem ended_keys_stay_ended operator expected checkpoint pinned a rp i j m m' :
  verify_authority_chain operator expected checkpoint pinned a = Ok rp →
  i ≤ j → keys_after rp i m → keys_after rp j m' → evolves m m'.
Proof.
  intros H Hij (k & Hk%mark_at_nth & <-) (k' & Hk'%mark_at_nth & <-). apply verify_chain_Ok in H as (Hr & _).
  apply replay_Ok in Hr as (? & ? & ? & ? & _ & _ & _ & _ & _ & Hkept & _). destruct Hk as [Hi Hk], Hk' as [_ Hk'].
  eapply rtc_moves; [|by eapply kp_ring]. eapply kp_moves; [done| |exact Hk|exact Hk']. lia.
Qed.

(** C23: One installation, one key.  In a verified ledger that never retired a
    recovery key, at most one active installation key is certified for each
    installation: the recovery certificates, pairings, rotations, rebinds and
    revocations accepted on the way cannot leave two. *)
Theorem installation_keys_unique operator expected checkpoint pinned a rp :
  verify_authority_chain operator expected checkpoint pinned a = Ok rp →
  recovery_never_retired (held (rp_chain rp)) →
  single_keys (held (rp_chain rp)).
Proof.
  intros H Hn. apply verify_chain_Ok in H as (Hr & _).
  apply replay_Ok in Hr as (? & ? & ? & ? & Erows & _ & _ & _ & _ & [Kr Km Ks (l & m & El & Eh & _)] & Hm).
  rewrite Eh in *. assert (nth_error (marks (rp_chain rp)) (length l) = Some m) as Hl.
  { rewrite El. apply nth_error_snoc. by right. }
  destruct (nth_error (marks (rp_chain rp)) 0) as [k|] eqn:Hk.
  - apply (rtc_single (mk_keys k)); [|by apply (Kr 0%nat)|done|by apply Ks]. apply (Km 0%nat (length l)); [lia|done..].
  - apply nth_error_None in Hk. rewrite El, length_app in Hk. simpl in Hk. lia.
Qed.

(** ** A head fixes the history behind it *)

(** Canonical bytes are JSON text of the same members: what [rfc8785] promises,
    as far as members that are text go. *)
Definition reads_back : Prop := ∀ m s, jcs (JObj m) = Some s →
  ∃ m', loads s = Some (JObj m') ∧ ∀ k t, get k m = JStr t ↔ get k m' = JStr t.

Lemma reads_back_text m m' s k o o' :
  reads_back → rfc8785_bytes (JObj m) = Ok s → rfc8785_bytes (JObj m') = Ok s →
  get k m = opt_json o → get k m' = opt_json o' → o = o'.
Proof.
  unfold rfc8785_bytes. intros Hb Hm Hm' Ho Ho'.
  destruct (jcs (JObj m)) as [t|] eqn:E; [|discriminate]. injection Hm as ->.
  destruct (jcs (JObj m')) as [t|] eqn:E'; [|discriminate]. injection Hm' as ->.
  destruct (Hb _ _ E) as (x & Hx & Hmx), (Hb _ _ E') as (y & Hy & Hmy). rewrite Hx in Hy. injection Hy as <-.
  assert (∀ t, get k m = JStr t ↔ get k m' = JStr t) as H by (intros t; by rewrite Hmx, Hmy).
  destruct o as [t|], o' as [t'|]; simpl in *; [|specialize (H t)|specialize (H t')|done]; rewrite Ho, Ho' in H.
  - f_equal. specialize (H t). destruct H as [H _]. specialize (H eq_refl). congruence.
  - destruct H as [H _]. by specialize (H eq_refl).
  - destruct H as [_ H]. by specialize (H eq_refl).
Qed.

(** Two rows record the same event: the same canonical bytes. *)
Definition same_event (r r' : ledger_row) : Prop := ∃ event event' encoded,
  loads (lg_json r) = Some (JObj event) ∧ loads (lg_json r') = Some (JObj event') ∧
  rfc8785_bytes (JObj event) = Ok encoded ∧ rfc8785_bytes (JObj event') = Ok encoded.

(** Two histories part at two rows: the events of the rows have different
    canonical bytes with one SHA-256 digest, and the events after them are the
    same. *)
Definition part_at_collision (rows rows' : list ledger_row) : Prop :=
  ∃ before r after before' r' after' event event' encoded encoded',
    rows = before ++ r :: after ∧ rows' = before' ++ r' :: after' ∧
    length before = length before' ∧ Forall2 same_event after after' ∧
    loads (lg_json r) = Some (JObj event) ∧ rfc8785_bytes (JObj event) = Ok encoded ∧ lg_sha r = sha256 encoded ∧
    loads (lg_json r') = Some (JObj event') ∧ rfc8785_bytes (JObj event') = Ok encoded' ∧
    lg_sha r' = sha256 encoded' ∧ encoded ≠ encoded' ∧ sha256 encoded = sha256 encoded'.

Lemma part_at_collision_app rows rows' tail tail' :
  part_at_collision rows rows' → Forall2 same_event tail tail' → part_at_collision (rows ++ tail) (rows' ++ tail').
Proof.
  intros (b & r & a & b' & r' & a' & e & e' & x & x' & -> & -> & Hl & Hf & H) Ht.
  exists b, r, (a ++ tail), b', r', (a' ++ tail'), e, e', x, x'. rewrite <- !app_assoc.
  split_and!; try done; try tauto. by apply Forall2_app.
Qed.

(** Each row names the digest of the row before it. *)
Definition chained (rows : list ledger_row) : Prop := ∀ before row after, rows = before ++ row :: after →
  ∃ event encoded, loads (lg_json row) = Some (JObj event) ∧ rfc8785_bytes (JObj event) = Ok encoded ∧
    lg_sha row = sha256 encoded ∧
    get "previous_event_sha256" event = opt_json (option_map lg_sha (last before)).

Lemma chained_app l k : chained (l ++ k) → chained l.
Proof. intros H before row after ->. apply (H before row (after ++ k)). by rewrite <- app_assoc. Qed.

Lemma replay_chained operator expected rows store st : replay operator expected rows = Ok (store, st) → chained rows.
Proof.
  intros Hr before row after E. destruct (replay_authentic _ _ _ _ _ _ _ _ Hr E) as (event & encoded & signer & []).
  exists event, encoded. split_and!; try done. rewrite <- au_previous0.
  apply (row_value row); [done|]. simpl. tauto.
Qed.

Lemma same_head_same_history rows : ∀ rows',
  reads_back → chained rows → chained rows' → length rows = length rows' →
  option_map lg_sha (last rows) = option_map lg_sha (last rows') →
  part_at_collision rows rows' ∨ Forall2 same_event rows rows'.
Proof.
  induction rows as [|r rows IH] using rev_ind; intros rows' Hb Hc Hc' Hlen Hlast.
  - destruct rows'; [by right|done].
  - destruct rows' as [|r' rows' _] using rev_ind; [rewrite length_app in Hlen; simpl in Hlen; lia|].
    rewrite !last_snoc in Hlast. injection Hlast as Hsha. rewrite !length_app in Hlen. simpl in Hlen.
    destruct (Hc rows r [] eq_refl) as (event & encoded & He & Hen & Hd & Hp).
    destruct (Hc' rows' r' [] eq_refl) as (event' & encoded' & He' & Hen' & Hd' & Hp').
    destruct (decide (encoded = encoded')) as [<-|Hne].
    2:{ left. exists rows, r, [], rows', r', [], event, event', encoded, encoded'.
        split_and!; try done; [lia|congruence]. }
    assert (Forall2 same_event [r] [r']) as Hone by (repeat constructor; by exists event, event', encoded).
    destruct (IH rows') as [?|Hf]; [done|by apply chained_app in Hc|by apply chained_app in Hc'|lia| | |].
    + by apply (reads_back_text event event' encoded "previous_event_sha256").
    + left. by apply part_at_collision_app.
    + right. by apply Forall2_app.
Qed.

(** The head a verified ledger is pinned by *)
Definition pin (rp : report) : obj :=
  [("sequence", JInt (rp_head rp)); ("event_sha256", JStr (rp_head_sha rp))].

(** C21: A pinned head fixes the history behind it.  A ledger accepted against
    the head of an earlier accepted ledger, whoever presents it and whatever
    operator, store or checkpoint either was checked with, starts with a ledger
    as long as the earlier one and with exactly its events; otherwise the two
    part at a position where they hold two different events whose canonical
    bytes have one SHA-256 digest.  A rollback, a fork or a rewritten event is
    refused but for such a forged pair.  (Assumed of the canonicalisation: its
    bytes read back to the same text members.) *)
Theorem pinned_head_fixes_history op es cp pn old rp op' es' cp' new rp' :
  reads_back →
  verify_authority_chain op es cp pn old = Ok rp →
  verify_authority_chain op' es' cp' (Some (pin rp)) new = Ok rp' →
  ∃ l k, sort_by by_sequence (ledger new) = l ++ k ∧ length l = length (ledger old) ∧
    (part_at_collision (sort_by by_sequence (ledger old)) l ∨
     Forall2 same_event (sort_by by_sequence (ledger old)) l).
Proof.
  intros Hb H H'. apply verify_chain_Ok in H as (Hr & _ & (m & Hm & Hs & _) & Hh & _).
  apply verify_chain_Ok in H' as (Hr' & Hp & _).
  set (rows := sort_by by_sequence (ledger old)) in *. set (rows' := sort_by by_sequence (ledger new)) in *.
  assert (length rows = length (ledger old)) as Hlen by apply Permutation_length, sort_by_perm.
  unfold check_pinned, refuse, refuse_if in Hp. inv_ok.
  change (as_int (get "sequence" (pin rp))) with (Some (rp_head rp)) in *. cbv iota in *.
  match goal with H : context [mark_at ?s ?n] |- _ => destruct (mark_at s n) as [k|] eqn:Ek; [|discriminate] end.
  inv_ok. match goal with H : differs _ _ _ = false |- _ => apply differs_str in H end.
  match goal with H : get "event_sha256" (pin rp) = _ |- _ => change (JStr (rp_head_sha rp) = JStr (mk_sha k)) in H; injection H as Hsha end.
  apply mark_at_nth in Ek as [H1 Ek]. set (i := Z.to_nat (rp_head rp - 1)) in *.
  destruct (replay_Ok _ _ _ _ _ Hr) as (? & ? & ? & ? & _ & _ & _ & _ & _ & _ & Hmk).
  destruct (replay_Ok _ _ _ _ _ Hr') as (? & ? & ? & ? & _ & _ & _ & _ & _ & _ & Hmk').
  assert (nth_error (map lg_sha rows') i = Some (mk_sha k)) as Hi by (rewrite <- Hmk'; by apply map_nth_error).
  apply nth_error_split in Hi as (shas & tail & Hsplit & Hl).
  apply map_eq_app in Hsplit as (l & k' & Ek' & <- & Hk'). destruct k' as [|r k']; [done|]. injection Hk' as Hr1 _.
  assert (length (l ++ [r]) = length (ledger old)) as Hll.
  { rewrite length_app. rewrite length_map in Hl. simpl. lia. }
  exists (l ++ [r]), k'. split; [by rewrite <- app_assoc|]. split; [done|].
  apply same_head_same_history.
  - done.
  - by eapply replay_chained.
  - apply (chained_app _ k'). rewrite <- app_assoc. simpl. rewrite <- Ek'. by eapply replay_chained.
  - congruence.
  - rewrite last_snoc, <- last_map, <- Hmk, last_map, Hm. simpl. congruence.
Qed.
End history.
