(* ===== verification/Checkpoint.v ===== *)
(** * Checkpoints of the ledger of keys, and a concrete ledger

    The checkpoint [create_checkpoint] signs is accepted by
    [verify_authority_chain]; a ledger of an enrollment, a rotation and a
    compromise shows that the hypotheses of [History] can hold, and another
    that a rotated recovery key leaves an installation with two active keys. *)
From S2P Require Import Prelude PyTime Urn Contracts Codec Retrieval Json Names Clock Tables Integrity.
From S2P Require Import Capture Txn Approval Chain History.

(** ** A fresh checkpoint is accepted *)
Section checkpoint.
Context `{signing : crypto} `{env : environment}.

(** The private key signs for the public key of a certificate. *)
Definition signs (sign : string → string) (k : chain_key) : Prop :=
  ∃ p raw, ce_public (ck_certificate k) = JStr p ∧ b64decode false p = Some raw ∧ String.length raw = 32%nat ∧
    ∀ m, ed25519_verify raw (sign m) m = true.

Lemma verify_signature_signs domain sign k encoded msg :
  signs sign k →
  verify_signature domain (ce_public (ck_certificate k)) (JStr (b64encode false (sign (domain +:+ encoded))))
    (Ok encoded) msg = Ok tt.
Proof.
  intros (p & raw & -> & Hp & Hl & Hs). unfold verify_signature, decode_b64, refuse_if. rewrite b64_roundtrip, Hp, Hl.
  cbn. by rewrite Hs.
Qed.

Lemma replay_any_store operator store rows x st :
  replay operator (Some store) rows = Ok (x, st) → x = JStr store ∧ replay operator None rows = Ok (x, st).
Proof.
  unfold replay, opening, refuse, refuse_if. destruct rows as [|first rest]; [discriminate|]. cbv zeta.
  intros H. apply bind_Ok in H as (u & Hc & H). rewrite Hc. cbn [mbind res_bind].
  apply bind_Ok in H as ([y st0] & Ho & H). apply bind_Ok in Ho as (genesis & Hg & Ho). rewrite Hg. cbn [mbind res_bind].
  apply bind_Ok in Ho as (u1 & H1 & Ho). rewrite H1. cbn [mbind res_bind].
  apply bind_Ok in Ho as (u2 & H2 & Ho). apply bind_Ok in Ho as (m & Hm & Ho). rewrite Hm. cbn [mbind res_bind raise_if].
  injection Ho as <- <-. apply bind_Ok in H as (st' & Hf & H). rewrite Hf. injection H as <- <-.
  apply raise_if_Ok, negb_false_iff, py_eq_str in H2. done.
Qed.

(** A verified ledger whose head is at hand *)
Lemma report_head operator expected checkpoint pinned a rp :
  verify_authority_chain operator expected checkpoint pinned a = Ok rp →
  ∃ g l m, marks (rp_chain rp) = g :: l ∧ rp_genesis_sha rp = mk_sha g ∧
    mark_at (rp_chain rp) (rp_head rp) = Some m ∧ rp_head_sha rp = mk_sha m ∧ rp_state rp = mk_state m ∧
    mk_keys m = held (rp_chain rp).
Proof.
  intros H. pose proof H as (Hr & _ & (m & Hm & Es & Et) & Hh & _)%verify_chain_Ok.
  apply replay_Ok in Hr as (? & ? & ? & ? & _ & _ & _ & _ & _ & [_ _ _ (l & m' & El & Eh & _)] & Hmk).
  rewrite El, last_snoc in Hm. injection Hm as ->.
  assert (∃ g t, marks (rp_chain rp) = g :: t ∧ rp_genesis_sha rp = mk_sha g) as (g & t & Eg & Eg').
  { unfold verify_authority_chain in H. cbv zeta in H. apply bind_Ok in H as ([store st] & _ & H).
    apply bind_Ok in H as (u & _ & H). apply bind_Ok in H as (acc & _ & H).
    destruct (marks st) as [|g t] eqn:E; [discriminate|]. rewrite <- E in H.
    destruct (last (marks st)); [|discriminate]. destruct (last (sort_by _ _)); [|discriminate].
    injection H as <-. cbn. rewrite E. eauto. }
  exists g, t, m. split_and!; try done. apply mark_at_nth.
  apply (f_equal (@length _)) in Hmk. rewrite !length_map, El, length_app in Hmk. cbn [length] in Hmk.
  rewrite Hh. pose proof (Permutation_length (sort_by_perm by_sequence (ledger a))) as Hp. 
  split; [lia|]. rewrite El. apply nth_error_snoc. right. split; [lia|done].
Qed.

(** The checkpoint of a report, without its signature *)
Definition checkpoint_of (operator : string) (rp : report) (signer_key_id : string) (signer : chain_key)
    (prior : option string) (issued expires : string) : obj :=
  [("checkpoint_version", JStr "imprint.authority.checkpoint/1.1.0");
   ("domain_separator", JStr "imprint-authority-checkpoint-v1");
   ("operator_id", JStr operator); ("store_identity", rp_store rp);
   ("sequence", JInt (rp_head rp)); ("event_sha256", JStr (rp_head_sha rp));
   ("genesis_event_sha256", JStr (rp_genesis_sha rp));
   ("key_state_sha256", JStr (rp_state rp)); ("prior_checkpoint_sha256", opt_json prior);
   ("signer_certificate", JObj (_signer_certificate signer));
   ("issued_at", JStr issued); ("expires_at", JStr expires); ("signer_key_id", JStr signer_key_id)].

Lemma create_checkpoint_Ok operator id sign ttl prior approve c cp c1 :
  create_checkpoint operator id sign ttl prior approve c = (Ok cp, c1) →
  ∃ rp signer expires encoded,
    1 ≤ ttl ≤ MAX_CHECKPOINT_AGE_SECONDS ∧
    verify_authority_chain operator None None None (the_authority (live c)) = Ok rp ∧
    jassoc (JStr id) (held (rp_chain rp)) = Some signer ∧ ck_status signer = Active ∧
    plus_seconds (clock (ticks c)) ttl = Ok expires ∧
    let value := checkpoint_of operator rp id signer prior (utc_text (clock (ticks c))) (utc_text expires) in
    rfc8785_bytes (JObj value) = Ok encoded ∧
    cp = value ++ [("signature_b64", JStr (b64encode false (sign (CHECKPOINT_DOMAIN +:+ encoded))))].
Proof.
  unfold create_checkpoint. intros H. inv_txn.
  match goal with H : verify_authority_chain _ _ _ _ _ = Ok ?x |- _ => rename x into rp end.
  destruct (jassoc _ _) as [signer|] eqn:Es; [|discriminate]. inv_txn.
  match goal with H : now_ _ = _ |- _ => injection H as <- <- end. cbn [live ticks] in *.
  match goal with H : negb (is_live _) = false |- _ => apply is_live_Active in H end.
  bool_hyps. eexists rp, signer, _, _. split; [done|]. split; [done|]. split; [exact Es|]. split; [done|].
  split; [eassumption|]. split; [eassumption|done].
Qed.

(** A checkpoint within its time *)
Record timely (fr : freshness) (from until : Z) : Prop := {
  tm_age : until - from ≤ fr_max_age fr * 1000000;
  tm_now : fr_enforce fr = true → from ≤ instant (fr_now fr) < until
}.

Lemma plus_seconds_Ok d n d' : plus_seconds d n = Ok d' →
  d' = of_instant (instant d + n * 1000000) ∧ instant d + n * 1000000 < (max_ordinal + 1) * us_per_day.
Proof.
  unfold plus_seconds. set (t := instant d + n * 1000000). set (top := (max_ordinal + 1) * us_per_day).
  destruct (Z.leb_spec top t) as [|Ht]; [by rewrite orb_true_r|]. rewrite orb_false_r.
  destruct (t <? us_per_day); [discriminate|]. intros [= <-]. split; [reflexivity|exact Ht].
Qed.

Lemma check_window_ok checkpoint fr from until :
  parse_timestamp (get "issued_at" checkpoint) = Ok from →
  parse_timestamp (get "expires_at" checkpoint) = Ok until →
  instant from < instant until → timely fr (instant from) (instant until) →
  check_window checkpoint fr = Ok tt.
Proof.
  intros Hi He Hlt [Ha Hn]. unfold check_window, refuse_if. rewrite Hi, He. cbn [mbind res_bind].
  destruct (Z.leb_spec (instant until) (instant from)); [lia|].
  destruct (Z.ltb_spec (fr_max_age fr * 1000000) (instant until - instant from)); [lia|]. cbn [orb raise_if mbind res_bind].
  destruct (fr_enforce fr); [|done]. specialize (Hn eq_refl). cbn [andb].
  destruct (Z.ltb_spec (instant (fr_now fr)) (instant from)); [lia|].
  destruct (Z.leb_spec (instant until) (instant (fr_now fr))); [lia|done].
Qed.

Lemma differs_refl k m s : get k m = JStr s → differs k m (JStr s) = false.
Proof. intros H. unfold differs. rewrite H. by apply negb_false_iff, py_eq_str. Qed.

Definition well_formed_prior (prior : option string) : Prop :=
  match prior with Some p => is_sha256_hex p = true | None => True end.

Lemma prior_accepted prior : well_formed_prior prior → is_null (opt_json prior) || hex_text (opt_json prior) = true.
Proof. by destruct prior. Qed.

Lemma check_checkpoint_ok operator expected a rp store id signer prior from until sign encoded whole fr :
  verify_authority_chain operator expected None None a = Ok rp → rp_store rp = JStr store →
  jassoc (JStr id) (held (rp_chain rp)) = Some signer → ck_status signer = Active → signs sign signer →
  py_eq (JObj (_signer_certificate signer)) (JObj (_signer_certificate signer)) = true → well_formed_prior prior →
  let value := checkpoint_of operator rp id signer prior (utc_text from) (utc_text until) in
  let cp := value ++ [("signature_b64", JStr (b64encode false (sign (CHECKPOINT_DOMAIN +:+ encoded))))] in
  rfc8785_bytes (JObj value) = Ok encoded → rfc8785_bytes (JObj cp) = Ok whole →
  check_window cp fr = Ok tt →
  ∃ acc, check_checkpoint (JObj cp) operator (rp_store rp) (rp_chain rp) fr = Ok acc ∧
    ac_sequence acc = rp_head rp ∧ ac_sha acc = sha256 whole.
Proof.
  intros Hv Hst Hs Ha Hsign Hcert Hprior value cp Henc Hwhole Hwin.
  apply report_head in Hv as (g & l & m & Eg & Egs & Em & Es & Et & Ek).
  unfold check_checkpoint. cbv zeta. unfold refuse_if.
  assert (set_eq (keys cp) CHECKPOINT_FIELDS = true) as -> by reflexivity. cbn [negb raise_if mbind res_bind].
  assert (differs "checkpoint_version" cp (JStr "imprint.authority.checkpoint/1.1.0") = false) as -> by reflexivity.
  assert (differs "domain_separator" cp (JStr "imprint-authority-checkpoint-v1") = false) as -> by reflexivity.
  cbn [orb raise_if mbind res_bind].
  change (get "signer_key_id" cp) with (JStr id). unfold dict_get. cbn [hashable mbind res_bind]. rewrite Hs.
  rewrite (differs_refl "operator_id" cp operator) by reflexivity.
  rewrite Hst, (differs_refl "store_identity" cp store) by exact Hst. cbn [orb raise_if mbind res_bind].
  rewrite Eg, (differs_refl "genesis_event_sha256" cp (mk_sha g)) by (rewrite <- Egs; reflexivity).
  cbn [raise_if mbind res_bind]. change (as_int (get "sequence" cp)) with (Some (rp_head rp)).
  cbn [mbind option_bind]. rewrite Em. cbn [option_map].
  rewrite (differs_refl "event_sha256" cp (mk_sha m)) by (rewrite <- Es; reflexivity).
  rewrite (differs_refl "key_state_sha256" cp (mk_state m)) by (rewrite <- Et; reflexivity).
  cbn [raise_if mbind res_bind]. change (get "prior_checkpoint_sha256" cp) with (opt_json prior).
  rewrite (prior_accepted prior Hprior). cbn [negb raise_if mbind res_bind].
  rewrite Ek, Hs. unfold is_live. rewrite (bool_decide_eq_true_2 _ Ha). cbn [negb raise_if mbind res_bind].
  assert (differs "signer_certificate" cp (JObj (_signer_certificate signer)) = false) as ->.
  { unfold differs. by rewrite negb_false_iff. }
  cbn [raise_if mbind res_bind]. rewrite Hwin. cbn [mbind res_bind].
  change (unsigned cp) with value. rewrite Henc.
  change (get "signature_b64" cp) with (JStr (b64encode false (sign (CHECKPOINT_DOMAIN +:+ encoded)))).
  rewrite (verify_signature_signs CHECKPOINT_DOMAIN sign signer encoded) by done. cbn [mbind res_bind].
  rewrite Hwhole. cbn [mbind res_bind]. eexists. split; [reflexivity|]. done.
Qed.

Lemma verify_with_checkpoint operator expected a rp v fr acc :
  verify_authority_chain operator expected None None a = Ok rp →
  check_checkpoint v operator (rp_store rp) (rp_chain rp) fr = Ok acc →
  ∃ rp', verify_authority_chain operator expected (Some (v, fr)) None a = Ok rp' ∧
    rp_checkpoint rp' = Some acc ∧ rp_unseen rp' = (ac_sequence acc <? rp_head rp).
Proof.
  unfold verify_authority_chain. cbv zeta. intros H Hc. apply bind_Ok in H as ([store st] & Hr & H).
  rewrite Hr. cbn [mbind res_bind] in *.
  destruct (marks st) as [|g l] eqn:Em; [discriminate|]. destruct (last (g :: l)) as [m|] eqn:El; [|discriminate].
  destruct (last (sort_by _ _)) as [row|] eqn:Er; [|discriminate]. injection H as <-. cbn in Hc.
  rewrite Hc. cbn [mbind res_bind]. by eexists.
Qed.

Lemma verify_any_store operator store a rp :
  verify_authority_chain operator (Some store) None None a = Ok rp →
  verify_authority_chain operator None None None a = Ok rp ∧ rp_store rp = JStr store.
Proof.
  intros H. pose proof H as (Hr & _)%verify_chain_Ok. apply replay_any_store in Hr as [Hs Hr]. split; [|done].
  unfold verify_authority_chain in *. cbv zeta in *. rewrite Hr. cbn [mbind res_bind].
  apply bind_Ok in H as ([x st] & Hr' & H). apply replay_any_store in Hr' as [-> Hr'].
  rewrite Hr in Hr'. injection Hr' as E1 E2. rewrite E1, E2. exact H.
Qed.

(** C24: A fresh checkpoint is accepted.  What [create_checkpoint] returns on a
    ledger that verifies for its store, with a private key that signs for the
    certified public key of the signer, is accepted by [verify_authority_chain]
    on that ledger at every time from its issue until its expiry, for any age
    limit of at least its time to live, and it shows nothing unseen. *)
Theorem fresh_checkpoint_accepted operator store id sign ttl prior approve c t cp c1 rp signer fr whole :
  create_checkpoint operator id sign ttl prior approve c = (Ok cp, c1) →
  clock (ticks c) = of_instant t → us_per_day ≤ t < (max_ordinal + 1) * us_per_day →
  verify_authority_chain operator (Some store) None None (the_authority (live c)) = Ok rp →
  jassoc (JStr id) (held (rp_chain rp)) = Some signer → signs sign signer →
  py_eq (JObj (_signer_certificate signer)) (JObj (_signer_certificate signer)) = true →
  well_formed_prior prior → rfc8785_bytes (JObj cp) = Ok whole → timely fr t (t + ttl * 1000000) →
  ∃ rp' acc,
    verify_authority_chain operator (Some store) (Some (JObj cp, fr)) None (the_authority (live c)) = Ok rp' ∧
    rp_checkpoint rp' = Some acc ∧ ac_sequence acc = rp_head rp ∧ ac_sha acc = sha256 whole ∧ rp_unseen rp' = false.
Proof.
  intros Hc Ht Hrange Hv Hs Hsign Hcert Hprior Hwhole Htime.
  destruct (verify_any_store _ _ _ _ Hv) as [Hv0 Hstore].
  apply create_checkpoint_Ok in Hc as (rp0 & signer0 & expires & encoded & Httl & Hv1 & Hs1 & Ha & He & Henc & ->).
  rewrite Hv0 in Hv1. injection Hv1 as <-. rewrite Hs in Hs1. injection Hs1 as <-.
  destruct (parse_utc_text t Hrange) as [Hp Hi]. rewrite Ht in *. apply plus_seconds_Ok in He as [-> He]. rewrite Hi in *.
  destruct (parse_utc_text (t + ttl * 1000000)) as [Hp' Hi']; [lia|].
  edestruct (check_checkpoint_ok operator (Some store) (the_authority (live c)) rp store id signer prior) as (acc & Hacc & Hseq & Hsha);
    [done..|exact Hwhole| |].
  { eapply check_window_ok; [exact Hp|exact Hp'|lia|]. by rewrite Hi, Hi'. }
  destruct (verify_with_checkpoint _ _ _ _ _ _ _ Hv Hacc) as (rp' & Hv' & Hc' & Hu).
  exists rp', acc. split_and!; try done. rewrite Hu, Hseq. apply Z.ltb_irrefl.
Qed.
End checkpoint.

(** ** A concrete ledger *)

(** The text members of two objects agree. *)
Definition same_text_member (m m' : obj) (k : string) : bool :=
  match get k m, get k m' with
  | JStr a, JStr b => String.eqb a b
  | JStr _, _ | _, JStr _ => false
  | _, _ => true
  end.

Definition same_texts (m m' : obj) : bool := forallb (same_text_member m m') (keys m ++ keys m').

Definition checked_bytes (v : json) : option string :=
  let s := canonical_bytes v in
  match v with
  | JObj m => match loads s with
              | Some (JObj m') => if same_texts m m' then Some s else None
              | _ => None
              end
  | _ => Some s
  end.

(** Canonical bytes that read back, and a keyed digest in the place of Ed25519 *)
#[export] Instance ledger_crypto : crypto := {
  jcs := checked_bytes;
  ed25519_verify public signature message := String.eqb signature (sha256 (public +:+ message))
}.

#[export] Instance ledger_environment : environment := {
  uuids := example_uuid; tokens _ := "";
  clock n := of_instant (64000000000000000 + Z.of_nat n * 60000000)
}.

Lemma same_texts_spec m m' : same_texts m m' = true → ∀ k t, get k m = JStr t ↔ get k m' = JStr t.
Proof.
  unfold same_texts. rewrite forallb_forall. intros H k t.
  assert (same_text_member m m' k = true ∨ get k m = JNull ∧ get k m' = JNull) as [E|[-> ->]]; [| |done].
  { destruct (mem k (keys m ++ keys m')) eqn:E; [left; by apply H, mem_In|right].
    rewrite mem_app in E. apply orb_false_iff in E as [E E']. unfold get.
    by rewrite (proj2 (assoc_None k m) E), (proj2 (assoc_None k m') E'). }
  unfold same_text_member in E. destruct (get k m), (get k m'); try done; split; intros [= ->].
  - apply String.eqb_eq in E. by subst.
  - apply String.eqb_eq in E. by subst.
Qed.

Lemma ledger_reads_back : reads_back.
Proof.
  intros m s H. simpl in H. unfold checked_bytes in H. destruct (loads _) as [[| | | | | |m']|] eqn:E; try discriminate.
  destruct (same_texts m m') eqn:Es; [|discriminate]. injection H as <-. exists m'. split; [done|]. by apply same_texts_spec.
Qed.

(** A raw key of 32 bytes and its signatures *)
Definition raw_key (a : ascii) : string := string_of_list_ascii (List.repeat a 32).
Definition sign_as (a : ascii) (m : string) : string := sha256 (raw_key a +:+ m).
Definition key_certificate (a : ascii) (key_id install : string) : obj :=
  [("key_id", JStr key_id); ("public_key_b64", JStr (b64encode false (raw_key a)));
   ("public_key_fingerprint", JStr ("sha256:" +:+ sha256 (raw_key a))); ("install_id", JStr install)].
Definition blob_certificate : obj :=
  [("blob_rel_path", JStr "keys/1"); ("blob_sha256", JStr (sha256 "")); ("blob_size", JInt 80);
   ("algorithm_suite", JStr "ed25519")].

Definition ledger_operator := "urn:imprint:operator:example".
Definition ledger_store := "urn:imprint:store:example".

Definition ledger_metadata : metadata := {|
  md_operator := ledger_operator; md_install := "laptop"; md_store := ledger_store; md_key := "key-a";
  md_public := b64encode false (raw_key "a"); md_fingerprint := "sha256:" +:+ sha256 (raw_key "a");
  md_suite := "ed25519"; md_nonce := "nonce"; md_created := "2029-01-01T00:00:00.000000Z";
  md_blob_path := "keys/0"; md_blob_sha := sha256 ""; md_blob_size := 80
|}.

Definition empty_db : db := {|
  the_graph := {| events := []; subjects := []; nodes := []; node_versions := []; edges := [];
                  edge_versions := []; generation := 0 |};
  the_intake := {| receipts := []; dedup := []; consumed := [] |};
  the_authority := {| prepared := []; challenges := []; grants := []; keys_ := []; ledger := []; trusted := no_trust |};
  the_semantic := no_semantic;
  store_identity := Some ledger_store
|}.

Definition agree (_ : obj) : txn unit := mret tt.

(** The database a write leaves, and the authority tables of it *)
Definition written {A} (m : txn A) (d : db) (n : nat) : db :=
  live (m {| live := d; saved := d; drawn := n; ticks := n |}).2.

Definition recovery_certificate : obj := key_certificate "r" "key-r" "vault".

Definition enrolled_db : db := Eval vm_compute in
  written (insert_genesis ledger_metadata (sign_as "a") (Some recovery_certificate) agree) empty_db 1.

(** [key-a] is succeeded by [key-b] ... *)
Definition rotated_db : db := Eval vm_compute in
  written (append_ledger_event "key_rotated" ledger_operator "laptop" "key-b"
    (key_certificate "b" "key-b" "laptop" ++ blob_certificate ++ [("old_key_id", JStr "key-a")])
    "key-a" (sign_as "a") agree) enrolled_db 2.

(** ... which the recovery key declares compromised. *)
Definition compromised_db : db := Eval vm_compute in
  written (append_ledger_event "key_compromised" ledger_operator "laptop" "key-b"
    [("target_key_id", JStr "key-b"); ("effective_at", JStr "2029-02-02T00:00:00Z");
     ("compromised_at", JStr "2029-02-01T00:00:00Z"); ("reason", JStr "lost laptop");
     ("replacement_key_id", JNull); ("affected_installation_ids", JList [JStr "laptop"]);
     ("evidence_sha256s", JList []); ("required_revocation_key_ids", JList [JStr "key-b"])]
    "key-r" (sign_as "r") agree) rotated_db 3.

Abbreviation verified d pinned :=
  (verify_authority_chain ledger_operator (Some ledger_store) None pinned (the_authority d)).

Definition statuses (d : db) : res (list (json * string)) :=
  rp ← verified d None; Ok (map (λ kv, (kv.1, status_text (ck_status kv.2))) (held (rp_chain rp))).

Example statuses_compromised : statuses compromised_db =
  Ok [(JStr "key-a", "retired"); (JStr "key-r", "active"); (JStr "key-b", "compromised")].
Proof. vm_compute. reflexivity. Qed.

(** A recovery certificate that names the installation, rotated: the rotation
    certifies an installation key, and the laptop has two. *)
Definition doubled_db : db := Eval vm_compute in
  written (append_ledger_event "key_rotated" ledger_operator "laptop" "key-c"
    (key_certificate "c" "key-c" "laptop" ++ blob_certificate ++ [("old_key_id", JStr "key-r")])
    "key-r" (sign_as "r") agree)
  (written (insert_genesis ledger_metadata (sign_as "a") (Some (key_certificate "r" "key-r" "laptop")) agree)
     empty_db 1) 2.

Definition active_installations (d : db) : res (list (json * json)) :=
  rp ← verified d None; Ok (map (λ kv, (kv.1, ck_install kv.2)) (rp_active rp)).

Lemma rotated_recovery_doubles :
  active_installations doubled_db = Ok [(JStr "key-a", JStr "laptop"); (JStr "key-c", JStr "laptop")].
Proof. vm_compute. reflexivity. Qed.

(** *** The hypotheses of the guarantees can hold *)
Definition report_of (r : res report) : report :=
  match r with
  | Ok rp => rp
  | Err _ =>
      {| rp_store := JNull; rp_chain := {| held := []; head_sha := None; marks := [] |}; rp_genesis_sha := "";
         rp_head := 0; rp_head_sha := ""; rp_state := ""; rp_checkpoint := None; rp_valid_as_of := JNull;
         rp_unseen := false; rp_active := [] |}
  end.

Definition compromised_report : report := Eval vm_compute in report_of (verified compromised_db None).
Definition rotated_report : report := Eval vm_compute in report_of (verified rotated_db None).

Lemma compromised_verified : verified compromised_db None = Ok compromised_report.
Proof. vm_compute. reflexivity. Qed.
Lemma rotated_verified : verified rotated_db None = Ok rotated_report.
Proof. vm_compute. reflexivity. Qed.
Lemma compromised_pinned : verified compromised_db (Some (pin rotated_report)) = Ok compromised_report.
Proof. vm_compute. reflexivity. Qed.

Lemma verified_ledger_authentic_witness :
  option_map lg_sha (last (sort_by by_sequence (ledger (the_authority compromised_db)))) =
    Some (rp_head_sha compromised_report) ∧ rp_head compromised_report = 3.
Proof.
  destruct (verified_ledger_authentic ledger_operator (Some ledger_store) None None (the_authority compromised_db)
    compromised_report compromised_verified) as (_ & H & E). split; [exact H|exact E].
Defined.

Definition held_at (n : Z) : keyring :=
  match mark_at (rp_chain compromised_report) n with Some k => mk_keys k | None => [] end.

Lemma ended_keys_stay_ended_witness : evolves (held_at 2) (held_at 3).
Proof.
  apply (ended_keys_stay_ended ledger_operator (Some ledger_store) None None (the_authority compromised_db)
    compromised_report 2 3); [exact compromised_verified|lia|..]; eexists; (split; [vm_compute; reflexivity|reflexivity]).
Defined.

Lemma installation_keys_unique_witness : single_keys (held (rp_chain compromised_report)).
Proof.
  apply (installation_keys_unique ledger_operator (Some ledger_store) None None (the_authority compromised_db)
    compromised_report compromised_verified).
  intros kv Hkv Hk. vm_compute in Hkv. repeat (destruct Hkv as [<-|Hkv]; [by (discriminate Hk || discriminate)|]). done.
Defined.

Lemma pinned_head_fixes_history_witness :
  ∃ l k, sort_by by_sequence (ledger (the_authority compromised_db)) = l ++ k ∧
    length l = length (ledger (the_authority rotated_db)) ∧
    (part_at_collision (sort_by by_sequence (ledger (the_authority rotated_db))) l ∨
     Forall2 same_event (sort_by by_sequence (ledger (the_authority rotated_db))) l).
Proof.
  apply (pinned_head_fixes_history ledger_operator (Some ledger_store) None None (the_authority rotated_db) rotated_report
    ledger_operator (Some ledger_store) None (the_authority compromised_db) compromised_report).
  - exact ledger_reads_back.
  - exact rotated_verified.
  - exact compromised_pinned.
Defined.

(** *** A checkpoint signed by [key-b] on the rotated ledger *)
Definition checkpoint_conn : conn := {| live := rotated_db; saved := rotated_db; drawn := 9; ticks := 9 |}.
Definition key_b : option chain_key := jassoc (JStr "key-b") (held (rp_chain rotated_report)).

Definition example_checkpoint : res obj * conn :=
  Eval vm_compute in create_checkpoint ledger_operator "key-b" (sign_as "b") 3600 None agree checkpoint_conn.

Lemma key_b_signs k : key_b = Some k → signs (sign_as "b") k.
Proof.
  intros H. vm_compute in H. injection H as <-. eexists _, (raw_key "b"). split; [reflexivity|].
  split; [vm_compute; reflexivity|]. split; [reflexivity|]. intros m. simpl. unfold sign_as. apply String.eqb_refl.
Qed.

Definition checkpoint_value : obj :=
  Eval vm_compute in match example_checkpoint.1 with Ok cp => cp | Err _ => [] end.
Definition checkpoint_bytes : string := Eval vm_compute in default "" (checked_bytes (JObj checkpoint_value)).
Definition checkpoint_after : conn := Eval vm_compute in example_checkpoint.2.
Definition checkpoint_time : Z := 64000000000000000 + 9 * 60000000.
Definition half_an_hour_later : freshness :=
  {| fr_now := of_instant (checkpoint_time + 1800000000); fr_max_age := MAX_CHECKPOINT_AGE_SECONDS; fr_enforce := true |}.
Definition signer_b : chain_key := Eval vm_compute in
  match key_b with Some k => k | None => certified {| ce_id := JNull; ce_public := JNull; ce_fingerprint := JNull;
    ce_install := JNull; ce_kind := Recovery; ce_blob := None |} 0 None JNull end.

Lemma checkpoint_run :
  create_checkpoint ledger_operator "key-b" (sign_as "b") 3600 None agree checkpoint_conn =
  (Ok checkpoint_value, checkpoint_after).
Proof. vm_compute. reflexivity. Qed.

Lemma half_an_hour_timely : timely half_an_hour_later checkpoint_time (checkpoint_time + 3600 * 1000000).
Proof. split; [vm_compute; congruence|]. intros _. vm_compute. split; congruence. Qed.

Lemma fresh_checkpoint_accepted_witness :
  ∃ rp acc, verify_authority_chain ledger_operator (Some ledger_store)
      (Some (JObj checkpoint_value, half_an_hour_later)) None (the_authority rotated_db) = Ok rp ∧
    rp_checkpoint rp = Some acc ∧ ac_sequence acc = 2.
Proof.
  destruct (fresh_checkpoint_accepted ledger_operator ledger_store "key-b" (sign_as "b") 3600 None agree checkpoint_conn
    checkpoint_time checkpoint_value checkpoint_after rotated_report signer_b half_an_hour_later checkpoint_bytes)
    as (rp & acc & H1 & H2 & H3 & _).
  - exact checkpoint_run.
  - reflexivity.
  - vm_compute. split; congruence.
  - exact rotated_verified.
  - vm_compute. reflexivity.
  - apply key_b_signs. vm_compute. reflexivity.
  - vm_compute. reflexivity.
  - exact I.
  - vm_compute. reflexivity.
  - exact half_an_hour_timely.
  - exists rp, acc. split; [exact H1|]. split; [exact H2|]. rewrite H3. reflexivity.
Defined.
