(* ===== verification/Source.v ===== *)
(** * The store as a source of retrieval ([retrieve/store_source.py], [lifecycle.py])

    [StoreRetrievalSource.retrieval_candidates] turns the current rows of the
    store into records for the engine of [Retrieval]: rows of the operator
    only, governed rows only under a live consent and a policy that allows
    retrieval, with evidence and cases checked against canonical rows rather
    than taken from a payload.  [review_list] and [review_show] list what
    awaits the operator. *)
From S2P Require Import Prelude PyTime Urn Contracts Codec Unicode World Clock Json Retrieval.
From S2P Require Import Tables Integrity Txn Store Records Chain.

Definition _JUDGMENT_TYPES :=
  ["Verdict"; "Principle"; "Belief"; "Value"; "Rule"; "Pattern"; "IngestedItem"].
Definition _SEMANTIC_TYPES :=
  _JUDGMENT_TYPES ++ ["SelfModelAssertion"; "Observation"; "Outcome"] ++
  DECLARED_BUSINESS_TYPES ++ OBSERVED_BUSINESS_TYPES.

Definition _partition (node_type : string) : string :=
  if String.eqb node_type "SelfModelAssertion" then "self_model"
  else if mem node_type DECLARED_BUSINESS_TYPES then "business_declared"
  else if mem node_type OBSERVED_BUSINESS_TYPES || mem node_type ["Observation"; "Outcome"]
  then "business_observed"
  else "judgment".

(** [str] of a list or a dictionary: the printer of the runtime *)
Class printing : Type := { repr_container : json → string }.

Section printing.
Context `{printer : printing}.

Definition py_str (v : json) : string :=
  match v with
  | JNull => "None"
  | JBool b => if b then "True" else "False"
  | JInt z => print_int z
  | JFloat (S754_infinity s) => if s then "-inf" else "inf"
  | JFloat S754_nan => "nan"
  | JFloat f => float_text f
  | JStr s => s
  | _ => repr_container v
  end.

Definition _path (node_type : string) (payload : obj) (partition : string) : list string :=
  if String.eqb node_type "SelfModelAssertion" then
    map py_str (List.filter truthy
      [JStr "operator"; JStr "self_model"; get "function_class" payload; get "subtype" payload;
       get "dimension" payload])
  else if mem partition ["business_declared"; "business_observed"] then
    ["business_world"; py_str (get_default "evidence_mode" (JStr "unclassified") payload); node_type]
  else ["judgment"; node_type].

Definition TEXT_KEYS :=
  ["statement"; "raw_operator_text"; "description"; "content"; "text"; "name"; "definition"; "action";
   "metric"; "status"; "referred_party"; "candidate_move"].

Definition _text (node_type : string) (payload : obj) : option string :=
  match List.find (λ k, match get k payload with JStr s => negb (blank s) | _ => false end) TEXT_KEYS with
  | Some k => match get k payload with JStr s => Some s | _ => None end
  | None =>
      let or_empty k := py_str (get_default k (JStr "") payload) in
      if mem node_type ["Price"; "Purchase"; "Refund"] && negb (is_null (get "amount" payload)) then
        Some (strip (node_type +:+ ": " +:+ py_str (get "amount" payload) +:+ " " +:+ or_empty "currency"))
      else if String.eqb node_type "Result" && negb (is_null (get "value" payload)) then
        Some (strip (py_str (get "metric" payload) +:+ ": " +:+ py_str (get "value" payload) +:+ " " +:+
                     or_empty "unit"))
      else None
  end.
End printing.

Definition _confidence (payload : obj) : option spec_float :=
  match get "confidence" payload with
  | JObj m =>
      match get "score" m with
      | JInt z => if (0 <=? z) && (z <=? 1) then Some (of_Z z) else None
      | JFloat f => if unit_interval (JFloat f) then Some f else None
      | _ => None
      end
  | _ => None
  end.

Definition DISCLOSURES :=
  [("captured", "operator_captured"); ("ratified", "operator_ratified");
   ("extracted", "source_extracted_not_operator_ratified");
   ("inferred", "model_inference_not_operator_authority")].

Definition _disclosure (status authority : string) : string :=
  if String.eqb authority "imported_floor" then "approved_import_not_operator_judgment"
  else default "authority_unclassified" (assoc status DISCLOSURES).

(** ** Rows the source reads *)
Definition is_type (type : string) (node : obj) : bool := py_eq (get "node_type" node) (JStr type).

Definition same_operator (operator : option string) (actual : string) : bool :=
  match operator with Some o => String.eqb actual o | None => true end.

Definition of_operator (operator : option string) (nodes : list obj) : list obj :=
  match operator with
  | Some o => List.filter (λ node, py_eq (get "operator_id" node) (JStr o)) nodes
  | None => nodes
  end.

Definition _operator_id (s : store) (nodes : list obj) : res (option string) :=
  match expected_operator_id s with
  | Some o => Ok (Some o)
  | None =>
      operators ← map_res (text_item "operator_id") nodes;
      match dedup_strs (List.filter (λ o, negb (String.eqb o "")) operators) with
      | [] => Ok None
      | [o] => Ok (Some o)
      | _ => Err (ValidationError "operator-scoped retrieval requires a configured operator for a mixed store")
      end
  end.

Definition source_edges (operator : option string) (d : db) : list edge_row :=
  List.filter (λ e, mem (ed_type e) ["verdict_about_case"; "supported_by"] &&
                    same_operator operator (ed_operator e))
    (map fst (List.filter (λ ev, is_open ev.2) (joined_edges d))).

Definition source_receipts (operator : option string) (d : db) : list string :=
  map rc_source (List.filter (λ r,
    match operator with
    | None => true
    | Some _ => match find_event (rc_event r) d with
                | Some e => same_operator operator (ev_operator e)
                | None => false
                end
    end) (receipts (the_intake d))).

(** ** Governed versions *)
Definition governance (version : string) (d : db) : option semantic_row :=
  List.find (λ r, String.eqb (sv_version r) version) (semantic_nodes (the_semantic d)).

Definition policy_of (version : string) (d : db) : option (node_row * version_row) :=
  List.find (λ nv, String.eqb (vr_id nv.2) version && String.eqb (nd_type nv.1) "AccessPolicy") (joined d).

(** The policy is the operator's and allows retrieval. *)
Definition policy_allows (operator policy : string) (d : db) : res bool :=
  match policy_of policy d with
  | None => Ok false
  | Some (n, v) =>
      if negb (String.eqb (nd_operator n) operator) then Ok false
      else payload ← read_obj (vr_payload v);
           member "retrieve" (get_default "operations" (JList []) payload)
  end.

Definition consent_allows (operator consent : string) (node : obj) (now : string) (d : db) : res bool :=
  payload ← obj_item "payload" node;
  valid_at ← text_item "valid_from" node;
  match authorize_consent_version consent operator
          (get_default "source_class" (JStr "operator_explicit") payload) "retrieval" "retrieve"
          valid_at now d with
  | Ok _ => Ok true
  | Err e => if is_validation e then Ok false else Err e
  end.

Definition allowed (operator : option string) (now : string) (d : db) (node : obj) : res bool :=
  version ← text_item "version_id" node;
  match governance version d with
  | None => Ok true
  | Some sv =>
      match sv_consent sv, operator with
      | Some consent, Some o =>
          if String.eqb consent "" then Ok false
          else and_then (policy_allows o (sv_policy sv) d) (consent_allows o consent node now d)
      | _, _ => Ok false
      end
  end.

Fixpoint filter_res {A} (f : A → res bool) (l : list A) : res (list A) :=
  match l with
  | [] => Ok []
  | x :: r => b ← f x; rest ← filter_res f r; Ok (if (b : bool) then x :: rest else rest)
  end.

Fixpoint somes {A} (l : list (option A)) : list A :=
  match l with
  | [] => []
  | Some x :: r => x :: somes r
  | None :: r => somes r
  end.

(** ** Records *)
Section records.
Context `{printer : printing}.

(** What the rows around a node say of it *)
Record surroundings : Type := {
  evidence_nodes : list string; receipts_ : list string; links : list edge_row;
  cases_ : list (string * option string)
}.

(** [target] for the open edges of a type from [node_id] to known nodes *)
Definition linked (type : string) (known : list string) (node_id : string) (w : surroundings)
    : list string :=
  map ed_target (List.filter (λ e, String.eqb (ed_type e) type && String.eqb (ed_source e) node_id &&
                                   mem (ed_target e) known) (links w)).

Definition evidence_complete (node_type node_id : string) (evidence : list string) (w : surroundings) : bool :=
  negb (is_nil evidence) &&
  forallb (λ id, mem id (evidence_nodes w) || mem id (receipts_ w)) evidence &&
  (negb (String.eqb node_type "Verdict") ||
   forallb (λ id, mem id (linked "supported_by" (evidence_nodes w) node_id w)) evidence).

Definition record_of (w : surroundings) (node : obj) : res (option RetrievalRecord) :=
  node_type ← text_item "node_type" node;
  if negb (mem node_type _SEMANTIC_TYPES) then Ok None
  else
    node_id ← text_item "node_id" node;
    evidence ← texts_item "evidence" node;
    let evidence := sorted_strs (dedup_strs evidence) in
    let cases := sorted_strs (dedup_strs (linked "verdict_about_case" (map fst (cases_ w)) node_id w)) in
    status ← text_item "provenance_status" node;
    authority ← text_item "authority_tier" node;
    payload ← obj_item "payload" node;
    let domain_id := match get "domain_id" payload with JStr x => Some x | _ => None end in
    let partition := _partition node_type in
    match _text node_type payload with
    | None => Ok None
    | Some text =>
        if blank text then Ok None
        else
          recurrence ← py_int (get_default "recurrence_count" (JInt 0) payload);
          valid_from ← text_item "valid_from" node;
          valid_to ← (v ← item "valid_to" node; opt_text v);
          Ok (Some {|
            record_id := node_id; r_text := text;
            r_section := match domain_id with
                         | Some x => if String.eqb x "" then
                                       if mem node_type ["Belief"; "Value"; "SelfModelAssertion"]
                                       then core else general
                                     else domain
                         | None => if mem node_type ["Belief"; "Value"; "SelfModelAssertion"]
                                   then core else general
                         end;
            provenance_status := status; authority_tier := authority; evidence_ids := evidence;
            case_ids := cases;
            case_referents := somes (map (λ c, match assoc c (cases_ w) with Some t => t | None => None end) cases);
            source_receipt_ids := List.filter (λ id, mem id (receipts_ w)) evidence;
            domain_id := domain_id; pinned := truthy (get_default "pinned" (JBool false) payload);
            recurrence_count := recurrence; valid_from := valid_from;
            Retrieval.current := true; rejected := false; tombstoned := false; valid_until := valid_to;
            provenance_complete :=
              evidence_complete node_type node_id evidence w &&
              (negb (String.eqb status "captured") || String.eqb partition "business_declared" ||
               negb (is_nil cases));
            imported_selected := truthy (get_default "imported_selected" (JBool false) payload);
            ontology_partition := partition; ontology_type := node_type;
            ontology_path := _path node_type payload partition;
            r_confidence := _confidence payload; disclosure := _disclosure status authority |})
    end.

(** [case_nodes] with [case_referents] *)
Definition case_entry (node : obj) : res (string * option string) :=
  id ← text_item "node_id" node;
  payload ← obj_item "payload" node;
  Ok (id, _text "Case" payload).

Definition retrieval_candidates_of (s : store) (now : string) (d : db) : res (list RetrievalRecord) :=
  nodes ← current_nodes (Some (_SEMANTIC_TYPES ++ ["Evidence"; "Case"])) d;
  operator ← _operator_id s nodes;
  let nodes := of_operator operator nodes in
  evidence ← map_res (text_item "node_id") (List.filter (is_type "Evidence") nodes);
  nodes ← filter_res (allowed operator now d) nodes;
  cases ← map_res case_entry (List.filter (is_type "Case") nodes);
  records ← map_res (record_of {| evidence_nodes := evidence; receipts_ := source_receipts operator d;
                                  links := source_edges operator d; cases_ := cases |}) nodes;
  Ok (somes records).
End records.

(** ** [lifecycle.py] *)
Definition REVIEWABLE := ["inferred"; "extracted"].

Definition awaits_review (node : obj) : res bool :=
  status ← item "provenance_status" node; in_set status REVIEWABLE.

Definition review_list (d : db) : res (list obj) :=
  nodes ← current_nodes None d; filter_res awaits_review nodes.

Definition review_show (node_id : string) (d : db) : res obj :=
  nodes ← current_nodes None d;
  match List.filter (λ node, py_eq (get "node_id" node) (JStr node_id)) nodes with
  | [] => Err (ValidationError "review object is missing or not current")
  | node :: _ =>
      waiting ← awaits_review node;
      raise_if (negb waiting) (ValidationError "object is not awaiting review") ;;
      Ok node
  end.
