(* ===== verification/Io.v ===== *)
(** * Programs over private files and the store

    A program of the services around the store is a tree of calls: file
    operations on the operator root, which no link leaves, and operations of
    the writer on its connection.  One call is atomic; [run] executes a
    program alone, [step] interleaves any number of them, and a process that
    is never scheduled again has crashed.  Temporary files, which no glob of
    the program matches, modes and owners of files are left out.

    The last part is a rely-guarantee logic: [ok Q p w] says that [p], whose
    processes around it only make moves in [R], keeps the invariant, makes
    such moves itself and ends in [Q]. *)
From stdpp Require Import gmap relations.
From S2P Require Import Prelude Urn Codec Names Tables Txn Records.

(** A path below the operator root, by its components *)
Definition path := list string.

Record world : Type := { files : gmap path string; dirs : gset path; backend : conn }.

Definition with_files (f : gmap path string) (w : world) : world :=
  {| files := f; dirs := dirs w; backend := backend w |}.
Definition with_dirs (d : gset path) (w : world) : world :=
  {| files := files w; dirs := d; backend := backend w |}.
Definition with_backend (c : conn) (w : world) : world :=
  {| files := files w; dirs := dirs w; backend := c |}.

(** ** Calls *)
Inductive call : Type → Type :=
| Exists (p : path) : call bool
| IsDir (p : path) : call bool
| Read (p : path) : call (option string)
| Link (p : path) (content : string) : call bool
| Replace (p : path) (content : string) : call unit
| Unlink (p : path) : call bool
| Mkdirs (p : path) : call unit
| Mkdir (p : path) : call bool
| Rmdir (p : path) : call bool
| Glob (directory : path) (depth : nat) : call (list path)
| Query {A} (m : txn A) : call (res A).

Fixpoint prefixes (p : path) : list path :=
  match p with [] => [[]] | x :: r => [] :: map (cons x) (prefixes r) end.

Fixpoint path_leb (p q : path) : bool :=
  match p, q with
  | [], _ => true
  | _, [] => false
  | x :: p', y :: q' => match String.compare x y with Lt => true | Gt => false | Eq => path_leb p' q' end
  end.

Definition is_json_name (s : string) : bool := ends_with ".json" s.

(** [sorted(directory.glob("*/.../*.json"))], [depth] components below *)
Definition listing (directory : path) (depth : nat) (f : gmap path string) : list path :=
  sort_by path_leb
    (List.filter (λ p, bool_decide (take (length directory) p = directory) &&
                       Nat.eqb (length p) (length directory + depth) &&
                       is_json_name (List.last p ""))
       (map fst (map_to_list f))).

Definition perform {B} (c : call B) : world → B * world :=
  match c in call B return world → B * world with
  | Exists p => λ w, (bool_decide (is_Some (files w !! p)), w)
  | IsDir p => λ w, (bool_decide (p ∈ dirs w), w)
  | Read p => λ w, (files w !! p, w)
  | Link p content => λ w,
      match files w !! p with
      | Some _ => (false, w)
      | None => (true, with_files (<[p := content]> (files w)) w)
      end
  | Replace p content => λ w, (tt, with_files (<[p := content]> (files w)) w)
  | Unlink p => λ w, (bool_decide (is_Some (files w !! p)), with_files (delete p (files w)) w)
  | Mkdirs p => λ w, (tt, with_dirs (list_to_set (prefixes p) ∪ dirs w) w)
  | Mkdir p => λ w, if bool_decide (p ∈ dirs w) then (false, w) else (true, with_dirs ({[p]} ∪ dirs w) w)
  | Rmdir p => λ w, (bool_decide (p ∈ dirs w), with_dirs (dirs w ∖ {[p]}) w)
  | Glob p depth => λ w, (listing p depth (files w), w)
  | Query m => λ w, let '(r, c) := m (backend w) in (r, with_backend c w)
  end.

(** ** Programs *)
Inductive io (A : Type) : Type :=
| Done (r : res A)
| Call {B} (c : call B) (k : B → io A).
Arguments Done {A} r.
Arguments Call {A B} c k.

(** What follows a program, whether it returned or raised *)
Fixpoint and_then_io {A B} (p : io A) (f : res A → io B) : io B :=
  match p with
  | Done r => f r
  | Call c k => Call c (λ b, and_then_io (k b) f)
  end.

#[export] Instance io_ret : MRet io := λ A a, Done (Ok a).
#[export] Instance io_bind : MBind io := λ A B f p,
  and_then_io p (λ r, match r with Ok a => f a | Err e => Done (Err e) end).

Definition io_raise {A} (e : exn) : io A := Done (Err e).
Definition pure_res {A} (r : res A) : io A := Done r.
Definition ask {B} (c : call B) : io B := Call c (λ b, Done (Ok b)).
Definition io_guard (bad : bool) (e : exn) : io unit := Done (raise_if bad e).

(** [try: p except <the errors of h>: ...]: [None] leaves the error. *)
Definition io_try {A} (p : io A) (h : exn → option (io A)) : io A :=
  and_then_io p (λ r, match r with
                      | Ok a => Done (Ok a)
                      | Err e => default (Done (Err e)) (h e)
                      end).

(** [try: p finally: q], where [q] may raise over the outcome of [p] *)
Definition io_finally {A} (p : io A) (q : io unit) : io A :=
  and_then_io p (λ r, and_then_io q (λ s, match s with Ok _ => Done r | Err e => Done (Err e) end)).

Fixpoint io_each {A} (f : A → io unit) (l : list A) : io unit :=
  match l with [] => mret tt | x :: r => f x ;; io_each f r end.

Fixpoint run {A} (p : io A) (w : world) : res A * world :=
  match p with
  | Done r => (r, w)
  | Call c k => run (k (perform c w).1) (perform c w).2
  end.

(** ** [durable_io.py] and [permissions.py] on regular files *)
Definition OSError := OperationalError "[Errno 2] No such file or directory".

Definition parent (p : path) : path := removelast p.

Definition publish_new_private (p : path) (content : string) : io unit :=
  there ← ask (IsDir (parent p));
  io_guard (negb there) OSError ;;
  taken ← ask (Exists p);
  io_guard taken (SafetyError "refusing to replace existing publication target") ;;
  linked ← ask (Link p content);
  io_guard (negb linked) (SafetyError "refusing to replace existing publication target").

Definition replace_private (p : path) (content : string) : io unit :=
  there ← ask (IsDir (parent p));
  io_guard (negb there) OSError ;;
  ask (Replace p content).

Definition secure_directory (p : path) : io unit := ask (Mkdirs p).

(** A missing file is not a regular file. *)
Definition secure_file (p : path) : io unit :=
  there ← ask (Exists p); io_guard (negb there) OSError.

Definition read_bytes (p : path) : io string :=
  content ← ask (Read p);
  match content with Some s => mret s | None => io_raise OSError end.

Definition unlink (p : path) : io unit :=
  there ← ask (Unlink p); io_guard (negb there) OSError.

Definition unlink_missing_ok (p : path) : io unit := ask (Unlink p) ;; mret tt.

(** The well-formed byte sequences of UTF-8 *)
Fixpoint valid_utf8 (s : string) : bool :=
  let cont a := is_cont a in
  match s with
  | EmptyString => true
  | String a r =>
      let z := byte_val a in
      if z <? 128 then valid_utf8 r
      else if z <? 194 then false
      else if z <? 224 then match r with String b r => cont b && valid_utf8 r | _ => false end
      else if z <? 240 then
        match r with
        | String b (String c r) =>
            cont b && cont c && (if z =? 224 then 160 <=? byte_val b else true) &&
            (if z =? 237 then byte_val b <? 160 else true) && valid_utf8 r
        | _ => false
        end
      else if z <? 245 then
        match r with
        | String b (String c (String e r)) =>
            cont b && cont c && cont e && (if z =? 240 then 144 <=? byte_val b else true) &&
            (if z =? 244 then byte_val b <? 144 else true) && valid_utf8 r
        | _ => false
        end
      else false
  end.

Definition UNDECODABLE := ValueError "codec can't decode byte".

(** [path.read_text(encoding="utf-8")] and [read_text(encoding="ascii")] *)
Definition read_text (p : path) : io string :=
  s ← read_bytes p; io_guard (negb (valid_utf8 s)) UNDECODABLE ;; mret s.
Definition read_ascii (p : path) : io string :=
  s ← read_bytes p; io_guard (negb (str_forallb (λ a, byte_val a <? 128) s)) UNDECODABLE ;; mret s.

(** An operation of the writer *)
Definition writer {A} (m : txn A) : io A := r ← ask (Query m); pure_res r.

(** ** Interleaving *)
Inductive step {A} : list (io A) * world → list (io A) * world → Prop :=
| step_call l1 B (c : call B) k l2 w :
    step (l1 ++ Call c k :: l2, w) (l1 ++ k (perform c w).1 :: l2, (perform c w).2).

(** The next call of the [i]-th program, and the programs in turn of a schedule *)
Fixpoint act {A} (i : nat) (ps : list (io A)) (w : world) : list (io A) * world :=
  match ps, i with
  | Call c k :: r, O => (k (perform c w).1 :: r, (perform c w).2)
  | p :: r, S i => let '(r1, w1) := act i r w in (p :: r1, w1)
  | _, _ => (ps, w)
  end.

Definition schedule {A} (turns : list nat) (x : list (io A) * world) : list (io A) * world :=
  fold_left (λ x i, act i x.1 x.2) turns x.

Lemma act_step {A} i (ps : list (io A)) w : rtc step (ps, w) (act i ps w).
Proof.
  assert (∀ pre, rtc step (pre ++ ps, w) (pre ++ (act i ps w).1, (act i ps w).2)) as H.
  { revert i. induction ps as [|p ps IH]; intros i pre; simpl; [destruct i; reflexivity|].
    destruct i as [|i]; [destruct p; [reflexivity|apply rtc_once, step_call]|].
    specialize (IH i (pre ++ [p])). rewrite <- !app_assoc in IH.
    destruct p; simpl in *; destruct (act i ps w); exact IH. }
  specialize (H []). simpl in H. by destruct (act i ps w).
Qed.

Lemma schedule_steps {A} turns (x : list (io A) * world) : rtc step x (schedule turns x).
Proof.
  revert x. induction turns as [|i turns IH]; intros [ps w]; simpl; [reflexivity|].
  etrans; [|apply IH]. apply act_step.
Qed.

(** ** Running alone *)
Lemma run_and_then {A B} (p : io A) (f : res A → io B) w :
  run (and_then_io p f) w = run (f (run p w).1) (run p w).2.
Proof. revert w. induction p as [r|C c k IH]; intros w; simpl; [done|apply IH]. Qed.

Lemma run_bind {A B} (p : io A) (f : A → io B) w :
  run (p ≫= f) w = match run p w with
                   | (Ok a, w1) => run (f a) w1
                   | (Err e, w1) => (Err e, w1)
                   end.
Proof. unfold mbind, io_bind. rewrite run_and_then. by destruct (run p w) as [[]]. Qed.

Lemma run_try {A} (p : io A) h w :
  run (io_try p h) w = match run p w with
                       | (Ok a, w1) => (Ok a, w1)
                       | (Err e, w1) => match h e with Some q => run q w1 | None => (Err e, w1) end
                       end.
Proof.
  unfold io_try. rewrite run_and_then. destruct (run p w) as [[a|e] w1]; simpl; [done|].
  by destruct (h e).
Qed.

Lemma run_finally {A} (p : io A) q w :
  run (io_finally p q) w =
    match run q (run p w).2 with (Ok _, w1) => ((run p w).1, w1) | (Err e, w1) => (Err e, w1) end.
Proof.
  unfold io_finally. rewrite !run_and_then. by destruct (run q _) as [[]].
Qed.

Lemma run_ask {B} (c : call B) w : run (ask c) w = (Ok (perform c w).1, (perform c w).2).
Proof. done. Qed.

Lemma run_pure {A} (r : res A) w : run (pure_res r) w = (r, w).
Proof. done. Qed.

Lemma run_ret {A} (a : A) w : run (mret a) w = (Ok a, w).
Proof. done. Qed.

Lemma run_guard b e w : run (io_guard b e) w = (raise_if b e, w).
Proof. done. Qed.

Lemma run_writer {A} (m : txn A) w : run (writer m) w = ((m (backend w)).1, with_backend (m (backend w)).2 w).
Proof. unfold writer. rewrite run_bind, run_ask. simpl. by destruct (m (backend w)). Qed.

Lemma run_publish p content w :
  parent p ∈ dirs w → files w !! p = None →
  run (publish_new_private p content) w = (Ok tt, with_files (<[p := content]> (files w)) w).
Proof.
  intros Hd Hf. unfold publish_new_private. rewrite !run_bind, !run_ask. simpl.
  rewrite bool_decide_true by done. simpl. rewrite Hf. simpl. by rewrite Hf.
Qed.

Lemma run_secure_file p w : is_Some (files w !! p) → run (secure_file p) w = (Ok tt, w).
Proof. intros Hf. unfold secure_file. simpl. by rewrite bool_decide_true by done. Qed.

Lemma run_read_bytes p content w : files w !! p = Some content → run (read_bytes p) w = (Ok content, w).
Proof. intros Hf. unfold read_bytes. simpl. by rewrite Hf. Qed.

Lemma run_unlink_missing_ok p w : run (unlink_missing_ok p) w = (Ok tt, with_files (delete p (files w)) w).
Proof. done. Qed.

(** The database a program sees *)
Definition seen (w : world) : db := live (backend w).

Lemma run_read {A} (f : db → res A) w : run (writer (read f)) w = (f (seen w), w).
Proof. rewrite run_writer. by destruct w. Qed.

(** ** Rely-guarantee *)
Section logic.
Context (I : world → Prop) (R : world → world → Prop) `{!PreOrder R}.

Fixpoint ok {A} (Q : res A → world → Prop) (p : io A) (w : world) : Prop :=
  match p with
  | Done r => ∀ w1, I w1 → R w w1 → Q r w1
  | Call c k => ∀ w1, I w1 → R w w1 →
      I (perform c w1).2 ∧ R w1 (perform c w1).2 ∧ ok Q (k (perform c w1).1) (perform c w1).2
  end.

Lemma ok_later {A} (Q : res A → world → Prop) p w w1 : R w w1 → ok Q p w → ok Q p w1.
Proof.
  intros H. destruct p as [r|B c k]; simpl; intros Hp w2 H2 H3; apply Hp; try done; by trans w1.
Qed.

Lemma ok_weaken {A} (P Q : res A → world → Prop) p w :
  (∀ r w1, P r w1 → Q r w1) → ok P p w → ok Q p w.
Proof.
  intros HPQ. revert w. induction p as [r|B c k IH]; simpl; intros w Hp w1 H1 H2.
  - apply HPQ. by apply Hp.
  - destruct (Hp w1 H1 H2) as (? & ? & ?). split_and!; [done..|by apply IH].
Qed.

Lemma ok_and_then {A B} (Q : res B → world → Prop) (p : io A) f w :
  ok (λ r w1, ok Q (f r) w1) p w → ok Q (and_then_io p f) w.
Proof.
  revert w. induction p as [r|C c k IH]; simpl; intros w Hp.
  - destruct (f r) as [r'|C c k] eqn:E.
    + intros w1 H1 H2. specialize (Hp w1 H1 H2). simpl in Hp. by apply Hp.
    + intros w1 H1 H2. specialize (Hp w1 H1 H2). simpl in Hp. by apply Hp.
  - intros w1 H1 H2. destruct (Hp w1 H1 H2) as (? & ? & ?). split_and!; [done..|by apply IH].
Qed.

Lemma ok_bind {A B} (Q : res B → world → Prop) (p : io A) (f : A → io B) w :
  ok (λ r w1, match r with Ok a => ok Q (f a) w1 | Err e => ∀ w2, I w2 → R w1 w2 → Q (Err e) w2 end) p w →
  ok Q (p ≫= f) w.
Proof. intros H. apply ok_and_then. eapply ok_weaken; [|exact H]. by intros [a|e] w1. Qed.

(** What every end of a program can rely on *)
Lemma ok_track {A} (Q : res A → world → Prop) p w :
  ok Q p w → ok (λ r w1, I w1 ∧ R w w1 ∧ Q r w1) p w.
Proof.
  revert w. induction p as [r|C c k IH]; simpl; intros w Hp w1 H1 H2; [split_and!; auto|].
  destruct (Hp w1 H1 H2) as (? & ? & H). split_and!; [done..|]. apply IH in H.
  eapply ok_weaken; [|exact H]. intros r w2 (? & ? & ?). split_and!; [done| |done].
  trans w1; [done|]. by etrans.
Qed.

Lemma ok_done {A} (Q : res A → world → Prop) r w :
  (∀ w1, I w1 → R w w1 → Q r w1) → ok Q (Done r) w.
Proof. done. Qed.

Lemma ok_ask {A B} (Q : res A → world → Prop) (c : call B) f w :
  (∀ w1, I w1 → R w w1 →
     I (perform c w1).2 ∧ R w1 (perform c w1).2 ∧ ok Q (f (perform c w1).1) (perform c w1).2) →
  ok Q (ask c ≫= f) w.
Proof. done. Qed.

Lemma ok_run {A} (Q : res A → world → Prop) p w :
  ok Q p w → I w → I (run p w).2 ∧ R w (run p w).2 ∧ Q (run p w).1 (run p w).2.
Proof.
  revert w. induction p as [r|B c k IH]; simpl; intros w Hp Hw.
  - split_and!; [done|reflexivity|]. by apply Hp.
  - destruct (Hp w Hw ltac:(reflexivity)) as (H1 & H2 & H3). destruct (IH _ _ H3 H1) as (? & ? & ?).
    split_and!; [done| |done]. by etrans.
Qed.

(** Every interleaving of such programs keeps the invariant. *)
Lemma ok_steps {A} (Q : res A → world → Prop) s1 s2 :
  rtc step s1 s2 → I s1.2 → Forall (λ p, ok Q p s1.2) s1.1 →
  I s2.2 ∧ R s1.2 s2.2 ∧ Forall (λ p, ok Q p s2.2) s2.1.
Proof.
  induction 1 as [s|s1 s2 s3 Hs _ IH]; intros Hi Hp; [split_and!; [done|reflexivity|done]|].
  destruct Hs as [l1 B c k l2 w]. simpl in *. apply List.Forall_app in Hp as [H1 H2].
  apply List.Forall_cons_iff in H2 as [Hc H2]. destruct (Hc w Hi ltac:(reflexivity)) as (Hi' & Hr & Hk).
  assert (∀ l, Forall (λ p, ok Q p w) l → Forall (λ p, ok Q p (perform c w).2) l) as Hl.
  { intros l Hl. eapply List.Forall_impl; [|exact Hl]. intros p Hp. by eapply ok_later. }
  destruct IH as (? & ? & ?); [done| |split_and!; [done|by etrans|done]].
  apply List.Forall_app. split; [by apply Hl|]. constructor; [done|by apply Hl].
Qed.

Lemma ok_outcome {A} (Q : res A → world → Prop) ps w ps1 w1 r :
  rtc step (ps, w) (ps1, w1) → I w → Forall (λ p, ok Q p w) ps → In (Done r) ps1 → Q r w1.
Proof.
  intros Hs Hw Hp Hr. destruct (ok_steps Q _ _ Hs Hw Hp) as (Hi & _ & Hf). simpl in *.
  rewrite List.Forall_forall in Hf. apply (Hf _ Hr w1 Hi). reflexivity.
Qed.
End logic.
