(* ===== verification/Delivery.v ===== *)
(** * Once-delivery of context ([retrieve/__init__.py], [retrieve/receipts.py])

    [retrieve_payload] builds one bounded payload per session and snapshot: a
    response is prepared as an immutable file, its caller prints it, and
    [commit_payload_delivery] closes the latch.  The receipts are files of
    the operator root, so the programs are those of [Io]; the records come
    from [Source] and the payload from the engine of [Retrieval]. *)
From stdpp Require Import gmap relations.
From S2P Require Import Prelude PyTime Urn Contracts Codec Json Unicode Retrieval Clock.
From S2P Require Import Tables Txn Store Records Source Io.

(** ** [DeliveryReceipts] *)
Definition _safe (value label : string) : res string :=
  raise_if (negb (safe_id value)) (ValueError ("unsafe " +:+ label)) ;; Ok value.

Definition prefix_of (n : nat) (s : string) : string := String.substring 0 n s.

Definition RECEIPTS : path := ["receipts"].

(** The name shared by a latch and its pending file *)
Definition latch_name (snapshot_id : string) (domain_id : option string) : res string :=
  let snapshot := prefix_of 24 (sha256 snapshot_id) in
  suffix ← match domain_id with
           | None => Ok "session-start"
           | Some d => d ← _safe d "domain id"; Ok ("domain-" +:+ d)
           end;
  Ok (snapshot +:+ "-" +:+ suffix).

Definition pending_path (session name : string) : path := ["receipts"; session; name +:+ ".pending.json"].
Definition final_path (session name : string) : path := ["receipts"; session; name +:+ ".json"].

Definition secure_session (session : string) : io unit :=
  secure_directory RECEIPTS ;; secure_directory ["receipts"; session].

Definition _paths (session_id snapshot_id : string) (domain_id : option string) : io (path * path) :=
  session ← pure_res (_safe session_id "session id");
  name ← pure_res (latch_name snapshot_id domain_id);
  secure_session session ;;
  mret (pending_path session name, final_path session name).

Definition _claim (session_id snapshot_id kind : string) (domain_id : option string) : io bool :=
  session ← pure_res (_safe session_id "session id");
  name ← pure_res (latch_name snapshot_id domain_id);
  secure_session session ;;
  let final := final_path session name in
  let receipt := canonical_bytes (JObj
    [("receipt_schema_version", JStr "1.0.0");
     ("snapshot_ref", JStr (prefix_of 24 (sha256 snapshot_id))); ("type", JStr kind)]) in
  io_try (publish_new_private final receipt ;; mret true)
    (λ e, match e with
          | SafetyError _ => Some (
              there ← ask (Exists final);
              if (there : bool) then secure_file final ;; mret false else io_raise e)
          | _ => None
          end).

Definition CORRUPT := ValueError "prepared delivery receipt is corrupt".

(** The part of [_decode_prepared] after the bytes were read and decoded *)
Definition decode_response (text : string) : res obj :=
  match loads text with
  | None => Err CORRUPT
  | Some (JObj envelope) =>
      match assoc "response" envelope with
      | None => Err CORRUPT
      | Some response =>
          raise_if (negb (py_eq (get "receipt_schema_version" envelope) (JStr "1.1.0")))
            (ValueError "unsupported prepared delivery receipt") ;;
          raise_if (negb (py_eq (get "response_sha256" envelope) (JStr (sha256 (canonical_bytes response)))))
            (ValueError "prepared delivery response hash mismatch") ;;
          match response with
          | JObj r =>
              match get "payload" r, get "budget_bytes" r with
              | JStr payload, JInt budget =>
                  raise_if (budget <? Z.of_nat (String.length payload))
                    (ValueError "prepared delivery exceeds retrieval budget") ;;
                  Ok r
              | JStr payload, JBool b =>
                  raise_if ((if b then 1 else 0) <? Z.of_nat (String.length payload))
                    (ValueError "prepared delivery exceeds retrieval budget") ;;
                  Ok r
              | _, _ => Err (ValueError "prepared delivery response is invalid")
              end
          | _ => Err AttributeError
          end
      end
  | Some _ => Err CORRUPT
  end.

Definition _decode_prepared (p : path) : io obj :=
  content ← ask (Read p);
  match content with
  | None => io_raise CORRUPT
  | Some bytes => io_guard (negb (valid_utf8 bytes)) UNDECODABLE ;; pure_res (decode_response bytes)
  end.

(** The bytes a response is cached as *)
Definition prepared_bytes (response : obj) : string :=
  canonical_bytes (JObj
    [("receipt_schema_version", JStr "1.1.0"); ("response", JObj response);
     ("response_sha256", JStr (sha256 (canonical_bytes (JObj response))))]).

(** [None] when the latch is closed, the winning cached response otherwise *)
Definition prepare_delivery (session_id snapshot_id : string) (domain_id : option string) (response : obj)
    : io (option obj) :=
  paths ← _paths session_id snapshot_id domain_id;
  let '(pending, final) := paths in
  delivered ← ask (Exists final);
  if (delivered : bool) then secure_file final ;; mret None
  else
    cached ← ask (Exists pending);
    if (cached : bool) then secure_file pending ;; r ← _decode_prepared pending; mret (Some r)
    else
      io_try (publish_new_private pending (prepared_bytes response))
        (λ e, match e with
              | SafetyError _ => Some (
                  there ← ask (Exists pending); if (there : bool) then mret tt else io_raise e)
              | _ => None
              end) ;;
      delivered ← ask (Exists final);
      if (delivered : bool) then unlink_missing_ok pending ;; mret None
      else secure_file pending ;; r ← _decode_prepared pending; mret (Some r).

(** [except SafetyError] of a commit that was not the first *)
Definition lost_race (pending final : path) (e : exn) : option (io bool) :=
  match e with
  | SafetyError _ => Some (
      there ← ask (Exists final);
      if (there : bool) then unlink_missing_ok pending ;; mret false else io_raise e)
  | _ => None
  end.

Definition commit_delivery (session_id snapshot_id : string) (domain_id : option string) : io bool :=
  paths ← _paths session_id snapshot_id domain_id;
  let '(pending, final) := paths in
  delivered ← ask (Exists final);
  if (delivered : bool) then secure_file final ;; mret false
  else
    secure_file pending ;;
    _decode_prepared pending ;;
    io_try (content ← read_bytes pending;
            publish_new_private final content ;;
            secure_file final ;;
            unlink_missing_ok pending ;; mret true)
      (lost_race pending final).

Definition claim_session_start (session_id snapshot_id : string) : io bool :=
  _claim session_id snapshot_id "session_start" None.
Definition claim_domain (session_id snapshot_id domain_id : string) : io bool :=
  _claim session_id snapshot_id "domain" (Some domain_id).

(** ** [retrieve_payload] *)
Definition _snapshot_id (d : db) : res string :=
  g ← retrieval_generation d; Ok (sha256 (g.1 +:+ ":" +:+ print_int g.2)).

Definition section_text (s : section) : string :=
  match s with core => "core" | general => "general" | domain => "domain" end.

Definition texts (l : list string) : json := JList (map JStr l).

Definition response_of (snapshot_id : string) (receipt_scope : option string) (r : RetrievalResult) : obj :=
  [("status", JStr "delivered"); ("snapshot_id", JStr snapshot_id); ("payload", JStr (payload r));
   ("selected_ids", texts (selected_ids r)); ("selected_bytes", JInt (selected_bytes r));
   ("budget_bytes", JInt (budget_bytes r)); ("eligible_count", JInt (eligible_count r));
   ("omitted_count", JInt (omitted_count r));
   ("section_bytes", JObj (map (λ p, (section_text p.1, JInt p.2)) (section_bytes r)));
   ("tokenizer_version", JStr TOKENIZER_VERSION); ("authority_mode", JStr (result_mode r));
   ("requested_partitions", texts (requested_partitions r));
   ("selected_by_partition", JObj (map (λ p, (p.1, texts p.2)) (selected_by_partition r)));
   ("receipt_scope", opt_json receipt_scope)].

Definition already_delivered (snapshot_id : string) : obj :=
  [("status", JStr "already_delivered"); ("snapshot_id", JStr snapshot_id); ("payload", JStr "");
   ("selected_ids", JList [])].

Record request : Type := {
  rq_session : string; rq_prompt : string; rq_domain : option string; rq_budget : Z;
  rq_refresh : bool; rq_domain_only : bool; rq_format : string; rq_mode : string;
  rq_partitions : option (list string)
}.

Definition config_of (q : request) : RetrievalConfig :=
  {| total_budget_bytes := rq_budget q; allow_higher_budget := 32 * 1024 <? rq_budget q;
     tokenizer_version := TOKENIZER_VERSION; authority_mode := rq_mode q; output_format := rq_format q |}.

(** Delivery of a query is counted by its mode and partitions. *)
Definition receipt_scope (q : request) : option string :=
  if negb (String.eqb (rq_mode q) "authoritative") || is_some (rq_partitions q)
  then Some ("query-" +:+ prefix_of 16 (sha256 (join_with (byte 0) (rq_mode q :: default [] (rq_partitions q)))))
  else if rq_domain_only q then rq_domain q else None.

Definition session_of (q : request) : string := prefix_of 24 (sha256 (rq_session q)).

Section retrieval.
Context `{env : environment} `{ucd : unicode_data} `{printer : printing} (s : store).

(** The records of the store at the moment of the call *)
Definition store_records (q : request) : txn (list RetrievalRecord) :=
  now ← utc_now;
  records ← read (retrieval_candidates_of s now);
  mret (if rq_domain_only q then List.filter (λ r, is_domain (r_section r)) records else records).

(** [engine.retrieve]: mode and partitions are checked before the source is
    read. *)
Definition engine_retrieve (q : request) (snapshot_id : string) : txn RetrievalResult :=
  lift (raise_if (negb (mem (rq_mode q) ["authoritative"; "analytical"]))
          (ValueError "unsupported retrieval authority mode") ;;
        _partitions (rq_partitions q) (rq_mode q) ;; Ok tt) ;;
  records ← store_records q;
  lift (retrieve (source := {| retrieval_candidates := λ _, records |}) (config_of q) snapshot_id
          (rq_prompt q) (rq_domain q) (rq_partitions q) (Some (rq_mode q))).

Definition build_response (q : request) (snapshot_id : string) : io obj :=
  result ← writer (engine_retrieve q snapshot_id);
  mret (response_of snapshot_id (receipt_scope q) result).

(** The latch, then the cache, then a new response that is cached first *)
Definition deliver (q : request) (snapshot_id : string) (paths : path * path) : io obj :=
  let '(pending, delivered) := paths in
  closed ← ask (Exists delivered);
  if (closed : bool) then mret (already_delivered snapshot_id)
  else
    cached ← ask (Exists pending);
    if (cached : bool) then _decode_prepared pending
    else
      response ← build_response q snapshot_id;
      cached ← prepare_delivery (session_of q) snapshot_id (receipt_scope q) response;
      mret (default (already_delivered snapshot_id) cached).

Definition retrieve_payload (q : request) : io obj :=
  snapshot_id ← writer (read _snapshot_id);
  pure_res (_validate_config (config_of q)) ;;
  io_guard (rq_domain_only q && negb (match rq_domain q with Some d => negb (String.eqb d "") | None => false end))
    (ValueError "domain_only retrieval requires an explicit selected domain") ;;
  if rq_refresh q then build_response q snapshot_id
  else
    paths ← _paths (session_of q) snapshot_id (receipt_scope q);
    deliver q snapshot_id paths.
End retrieval.

Definition commit_payload_delivery (session_id snapshot_id : string) (domain_id : option string) : io bool :=
  commit_delivery (prefix_of 24 (sha256 session_id)) snapshot_id domain_id.
