(* ===== verification/Latch.v ===== *)
(** * The delivery latch

    Whatever processes do on one latch at the same time, it is closed once;
    alone, a prepared response is handed out unchanged until it is committed
    and never after.  The last part runs the interleaving in which a late
    builder hands out a response after the latch was closed. *)
From stdpp Require Import gmap relations.
From S2P Require Import Prelude Urn Codec Names Json Unicode Retrieval Clock Tables Txn Store Records.
From S2P Require Import Rollback Source Io Delivery.

(** ** Programs that leave a file alone, and programs that wait for it *)
Section latch.
Context (final : path).

(** The call neither removes nor overwrites the file. *)
Definition spares {B} (c : call B) : Prop :=
  match c with Unlink p | Replace p _ => p ≠ final | _ => True end.

Fixpoint keeps {A} (p : io A) : Prop :=
  match p with Done _ => True | Call c k => spares c ∧ ∀ b, keeps (k b) end.

(** [c] creates the file if it answers [b]. *)
Definition creates {B} (c : call B) : B → Prop :=
  match c in call B return B → Prop with Link p _ => λ b, p = final ∧ b = true | _ => λ _, False end.

(** Unless it creates the file, the program ends in [Q]. *)
Fixpoint waits {A} (Q : res A → Prop) (p : io A) : Prop :=
  match p with
  | Done r => Q r
  | Call c k => spares c ∧ (∀ b, keeps (k b)) ∧ ∀ b, creates c b ∨ waits Q (k b)
  end.

Lemma keeps_and_then {A B} (p : io A) (f : res A → io B) :
  keeps p → (∀ r, keeps (f r)) → keeps (and_then_io p f).
Proof. induction p as [r|C c k IH]; simpl; [auto|]. intros [Hs Hk] Hf. split; [done|]. auto. Qed.

Lemma waits_and_then {A B} (Q : res B → Prop) (p : io A) (f : res A → io B) :
  (∀ r, keeps (f r)) → waits (λ r, waits Q (f r)) p → waits Q (and_then_io p f).
Proof.
  intros Hf. induction p as [r|C c k IH]; simpl; [done|]. intros (Hs & Hk & Hw). split_and!; [done| |].
  - intros b. by apply keeps_and_then.
  - intros b. destruct (Hw b) as [?|?]; [by left|right; auto].
Qed.

Lemma waits_keeps {A} (Q : res A → Prop) (p : io A) : waits Q p → keeps p.
Proof. destruct p; simpl; [done|]. by intros (? & ? & _). Qed.

Lemma waits_any {A} (Q : res A → Prop) (p : io A) : (∀ r, Q r) → keeps p → waits Q p.
Proof. intros HQ. induction p as [r|C c k IH]; simpl; [auto|]. intros [? ?]. split_and!; auto. Qed.

Lemma waits_weaken {A} (P Q : res A → Prop) (p : io A) : (∀ r, P r → Q r) → waits P p → waits Q p.
Proof.
  intros H. induction p as [r|C c k IH]; simpl; [auto|]. intros (? & ? & Hw). split_and!; [done..|].
  intros b. destruct (Hw b); auto.
Qed.

Lemma creates_file {B} (c : call B) w : creates c (perform c w).1 → is_Some (files (perform c w).2 !! final).
Proof.
  destruct c; simpl; try done. destruct (files w !! p) eqn:E; simpl; intros [-> [=]].
  rewrite lookup_insert_eq. by eexists.
Qed.

Lemma spares_file {B} (c : call B) w :
  spares c → is_Some (files w !! final) → is_Some (files (perform c w).2 !! final) ∧ ~ creates c (perform c w).1.
Proof.
  intros Hs Hf. destruct c; simpl in *; try by split; [|intros ?].
  - destruct (files w !! p) eqn:E; simpl; [split; [done|by intros [_ [=]]]|].
    destruct (decide (p = final)) as [->|Hne]; [by destruct Hf as [x Hf]; rewrite Hf in E|].
    rewrite lookup_insert_ne by done. split; [done|by intros [? _]].
  - rewrite lookup_insert_ne by done. by split; [|intros ?].
  - rewrite lookup_delete_ne by done. by split; [|intros ?].
  - destruct (bool_decide _); simpl; by split; [|intros ?].
  - destruct (m (backend w)) as [r c']. simpl. by split; [|intros ?].
Qed.

(** ** At most one of the processes closes the latch *)
Context {A : Type} (Q : res A → Prop).

Definition open_or_won (ps : list (io A)) (w : world) : Prop :=
  Forall (waits Q) ps ∨
  is_Some (files w !! final) ∧
  ∃ l1 p l2, ps = l1 ++ p :: l2 ∧ keeps p ∧ Forall (waits Q) (l1 ++ l2).

Lemma waiting_step {B} (c : call B) (k : B → io A) w :
  waits Q (Call c k) →
  waits Q (k (perform c w).1) ∨ is_Some (files (perform c w).2 !! final) ∧ keeps (k (perform c w).1).
Proof.
  intros (Hs & Hk & Hw). destruct (Hw (perform c w).1) as [Hc|?]; [|by left].
  right. split; [by apply creates_file|apply Hk].
Qed.

Lemma won_step {B} (c : call B) (k : B → io A) w :
  is_Some (files w !! final) → waits Q (Call c k) →
  is_Some (files (perform c w).2 !! final) ∧ waits Q (k (perform c w).1).
Proof.
  intros Hf (Hs & Hk & Hw). destruct (spares_file c w Hs Hf) as [Hf' Hn]. split; [done|].
  by destruct (Hw (perform c w).1).
Qed.

Lemma open_or_won_step s1 s2 : step s1 s2 → open_or_won s1.1 s1.2 → open_or_won s2.1 s2.2.
Proof.
  intros [l1 B c k l2 w] [Hw|(Hf & m1 & p & m2 & E & Hp & Hw)]; simpl in *.
  - apply List.Forall_app in Hw as [H1 H2]. apply List.Forall_cons_iff in H2 as [Hc H2].
    destruct (waiting_step c k w Hc) as [?|[? ?]]; [left|right].
    + apply List.Forall_app. auto.
    + split; [done|]. exists l1, (k (perform c w).1), l2. split_and!; [done..|]. apply List.Forall_app. auto.
  - right. apply app_eq_inv in E as [(l & -> & E)|(l & -> & E)].
    + destruct l as [|q l]; injection E as -> E; simpl in *.
      * subst m2. destruct Hp as [Hs Hk]. destruct (spares_file c w Hs Hf) as [? _]. split; [done|].
        rewrite app_nil_r. exists m1, (k (perform c w).1), l2. auto.
      * subst m2. apply List.Forall_app in Hw as [H1 H2]. apply List.Forall_app in H2 as [H2 H3].
        apply List.Forall_cons_iff in H3 as [Hc H3].
        destruct (won_step c k w Hf Hc) as [? ?]. split; [done|].
        exists m1, q, (l ++ k (perform c w).1 :: l2). rewrite <- app_assoc. split_and!; [done..|].
        apply List.Forall_app. split; [done|]. apply List.Forall_app. auto.
    + destruct l as [|q l]; injection E as <- E; simpl in *.
      * subst l2. rewrite app_nil_r in *. destruct Hp as [Hs Hk]. destruct (spares_file c w Hs Hf) as [? _].
        split; [done|]. exists l1, (k (perform c w).1), m2. auto.
      * subst l2. rewrite <- app_assoc in Hw. apply List.Forall_app in Hw as [H1 H2].
        apply List.Forall_cons_iff in H2 as [Hc H2].
        destruct (won_step c k w Hf Hc) as [? ?]. split; [done|].
        exists (l1 ++ k (perform c w).1 :: l), p, m2. rewrite <- !app_assoc. split_and!; [done..|].
        apply List.Forall_app. split; [done|]. by constructor.
Qed.

Lemma open_or_won_steps s1 s2 : rtc step s1 s2 → Forall (waits Q) s1.1 → open_or_won s2.1 s2.2.
Proof.
  intros Hs Hw. assert (open_or_won s1.1 s1.2) as H by by left. clear Hw.
  induction Hs as [|s1 s2 s3 Hs _ IH]; [done|]. apply IH. by apply (open_or_won_step s1).
Qed.
End latch.

(** ** The programs of [DeliveryReceipts] *)
Create HintDb latch.

Section programs.
Context (final : path).

Lemma keeps_done {A} (r : res A) : keeps final (Done r).
Proof. done. Qed.

Lemma keeps_ret {A} (a : A) : keeps final (mret a : io A).
Proof. done. Qed.

Lemma keeps_io_bind {A B} (p : io A) (f : A → io B) :
  keeps final p → (∀ a, keeps final (f a)) → keeps final (p ≫= f).
Proof. intros Hp Hf. apply keeps_and_then; [done|]. by intros [a|e]; simpl. Qed.

Lemma keeps_ask {B} (c : call B) : spares final c → keeps final (ask c).
Proof. done. Qed.

Lemma keeps_try {A} (p : io A) h :
  keeps final p → (∀ e q, h e = Some q → keeps final q) → keeps final (io_try p h).
Proof.
  intros Hp Hh. apply keeps_and_then; [done|]. intros [a|e]; simpl; [done|].
  destruct (h e) eqn:E; simpl; [by eapply Hh|done].
Qed.

Lemma waits_bind {A B} (Q : res B → Prop) (p : io A) (f : A → io B) :
  keeps final p → (∀ a, waits final Q (f a)) → (∀ e, Q (Err e)) → waits final Q (p ≫= f).
Proof.
  intros Hp Hf He. apply waits_and_then.
  - intros [a|e]; simpl; [by eapply waits_keeps|done].
  - apply waits_any; [|done]. by intros [a|e]; simpl.
Qed.

Lemma keeps_publish p content : keeps final (publish_new_private p content).
Proof.
  unfold publish_new_private. simpl. split; [done|]. intros []; simpl; [|done]. split; [done|].
  intros []; simpl; [done|]. split; [done|]. by intros [].
Qed.

(** Publication fails unless it creates the file. *)
Lemma publish_waits content :
  waits final (λ r, match r with Ok _ => False | Err _ => True end) (publish_new_private final content).
Proof.
  unfold publish_new_private. simpl. split_and!; [done| |].
  - intros []; simpl; [|done]. split; [done|]. intros []; simpl; [done|]. split; [done|]. by intros [].
  - intros []; right; simpl; [|done]. split_and!; [done|intros []; simpl; [done|]; split; [done|]; by intros []|].
    intros []; right; simpl; [done|]. split_and!; [done|by intros []|]. intros []; simpl; [by left|by right].
Qed.
End programs.

#[export] Hint Resolve keeps_done keeps_ret keeps_publish : latch.

Ltac keeps_steps :=
  repeat first
  [ solve [auto with latch]
  | apply keeps_ask; simpl; solve [auto | congruence]
  | apply keeps_try; [|intros [] ? [= <-]]
  | apply keeps_io_bind; [|intros ?]
  | match goal with
    | |- keeps _ (match ?x with _ => _ end) => destruct x
    | |- keeps _ (if ?b then _ else _) => destruct b
    | |- keeps _ (let '_ := ?x in _) => destruct x
    end
  | progress cbv [default from_option id]
  | progress unfold secure_file, secure_directory, secure_session, read_bytes, unlink_missing_ok,
      _decode_prepared, _paths, pure_res, io_guard, io_raise ].

Lemma pending_not_final session name : pending_path session name ≠ final_path session name.
Proof.
  intros [= H]. assert (String.length (name +:+ ".pending.json") = String.length (name +:+ ".json")) as L
    by by rewrite H. rewrite !str_app_length in L. simpl in L. lia.
Qed.

Section once.
Context (session_id snapshot_id : string) (domain_id : option string).

Definition the_latch : path :=
  final_path session_id (match latch_name snapshot_id domain_id with Ok n => n | Err _ => "" end).

Lemma paths_run {A} (f : path * path → io A) Q :
  (∀ name, latch_name snapshot_id domain_id = Ok name →
     waits the_latch Q (f (pending_path session_id name, final_path session_id name))) →
  (∀ e, Q (Err e)) →
  waits the_latch Q (_paths session_id snapshot_id domain_id ≫= f).
Proof.
  intros Hf He. unfold _paths, _safe. destruct (raise_if _ _) as [u|e] eqn:E1; [|apply He]. simpl.
  destruct (latch_name snapshot_id domain_id) as [name|e] eqn:E2; [|apply He]. simpl.
  assert (waits the_latch Q (f (pending_path session_id name, final_path session_id name))) as Hn by auto.
  split_and!; [done| |].
  - intros _. split; [done|]. intros _. by eapply waits_keeps.
  - intros _. right. split_and!; [done| |].
    + intros _. by eapply waits_keeps.
    + intros _. by right.
Qed.

(** A builder never closes the latch. *)
Definition builder (response : obj) : io bool :=
  prepare_delivery session_id snapshot_id domain_id response ;; mret false.

Definition not_won (r : res bool) : Prop := r ≠ Ok true.

Lemma builder_waits response : waits the_latch not_won (builder response).
Proof.
  unfold builder. apply waits_bind; [|intros _; by simpl|done].
  eapply waits_keeps. apply (paths_run _ (λ _, True)); [|done]. intros name Hn.
  apply waits_any; [done|].
  assert (pending_path session_id name ≠ the_latch) as Hne.
  { unfold the_latch. rewrite Hn. apply pending_not_final. }
  cbv beta iota. keeps_steps.
Qed.

Lemma lost_race_waits pending e :
  pending ≠ the_latch → waits the_latch not_won (default (Done (Err e)) (lost_race pending the_latch e)).
Proof.
  intros Hne. destruct e; simpl; try done. split_and!; [done| |].
  - intros []; simpl; [|done]. done.
  - intros []; right; simpl; [|done]. split_and!; [done|done|]. by right.
Qed.

Lemma commit_waits : waits the_latch not_won (commit_delivery session_id snapshot_id domain_id).
Proof.
  unfold commit_delivery. apply paths_run; [|done]. intros name Hn.
  assert (pending_path session_id name ≠ the_latch) as Hne.
  { unfold the_latch. rewrite Hn. apply pending_not_final. }
  assert (the_latch = final_path session_id name) as <- by (unfold the_latch; by rewrite Hn).
  apply waits_bind; [by keeps_steps| |done]. intros [].
  { apply waits_bind; [by keeps_steps|done|done]. }
  apply waits_bind; [by keeps_steps| |done]. intros _.
  apply waits_bind; [by keeps_steps| |done]. intros _.
  apply waits_and_then; [intros [b|e]; [done|]; by eapply waits_keeps, lost_race_waits|].
  apply waits_bind; [by keeps_steps| |intros e; by apply lost_race_waits].
  intros content. apply waits_and_then; [intros [u|e]; [by keeps_steps|done]|].
  eapply waits_weaken; [|apply publish_waits]. intros [u|e] He; [done|]. by apply lost_race_waits.
Qed.

Definition closed_it (p : io bool) : bool := match p with Done (Ok true) => true | _ => false end.

Lemma waiting_not_closed ps : Forall (waits the_latch not_won) ps → List.filter closed_it ps = [].
Proof.
  induction 1 as [|p ps Hp _ IH]; simpl; [done|]. by destruct p as [[[]|]|].
Qed.

(** C17: Delivery is committed at most once: whatever the interleaving of any
    number of processes that commit one latch and any number that build a
    response for it, on whatever files they find, at most one commit answers
    that it closed the latch. *)
Theorem latch_closes_once n responses w ps w1 :
  rtc step (repeat (commit_delivery session_id snapshot_id domain_id) n ++ map builder responses, w) (ps, w1) →
  (length (List.filter closed_it ps) ≤ 1)%nat.
Proof.
  intros H. apply (open_or_won_steps the_latch not_won) in H; simpl in H.
  - destruct H as [Hw|(_ & l1 & p & l2 & -> & _ & Hw)].
    + rewrite waiting_not_closed by done. simpl. lia.
    + apply List.Forall_app in Hw as [H1 H2]. rewrite List.filter_app. simpl.
      rewrite !waiting_not_closed by done. destruct (closed_it p); simpl; rewrite ?waiting_not_closed by done; simpl; lia.
  - simpl. apply List.Forall_app. split; apply List.Forall_forall; intros p Hp.
    + apply repeat_spec in Hp as ->. apply commit_waits.
    + apply in_map_iff in Hp as (r & <- & _). apply builder_waits.
Qed.
End once.

(** ** One process alone *)
Section alone.
Context `{env : environment} `{ucd : unicode_data} `{printer : printing} (s : store).

Definition secured (session : string) (w : world) : world :=
  with_dirs (list_to_set (prefixes ["receipts"; session]) ∪ (list_to_set (prefixes RECEIPTS) ∪ dirs w)) w.

Lemma paths_Ok session snapshot scope w p w1 :
  run (_paths session snapshot scope) w = (Ok p, w1) ↔
  ∃ name, safe_id session = true ∧ latch_name snapshot scope = Ok name ∧
    p = (pending_path session name, final_path session name) ∧ w1 = secured session w.
Proof.
  unfold _paths, _safe. destruct (safe_id session); simpl.
  - destruct (latch_name snapshot scope) as [name|e]; simpl; split.
    + intros [= <- <-]. by exists name.
    + by intros (n & _ & [= ->] & -> & ->).
    + done.
    + by intros (n & _ & ? & _).
  - split; [done|]. by intros (n & ? & _).
Qed.

Definition pend (session name : string) (r : obj) (w : world) : Prop :=
  ∃ bytes, files w !! pending_path session name = Some bytes ∧ valid_utf8 bytes = true ∧
           decode_response bytes = Ok r.

Lemma decode_bounded bytes r :
  decode_response bytes = Ok r →
  ∃ payload, get "payload" r = JStr payload ∧
    ∀ budget, get "budget_bytes" r = JInt budget → Z.of_nat (String.length payload) ≤ budget.
Proof.
  unfold decode_response. destruct (loads bytes) as [[| | | | | |m]|]; try done.
  destruct (assoc "response" m) as [response|]; [|done]. intros H. inv_ok. destruct response; try done.
  destruct (get "payload" m0) eqn:Ep; try done. destruct (get "budget_bytes" m0) eqn:Eb; try done; inv_ok; bool_hyps.
  - exists s0. split; [done|]. intros ? ?. congruence.
  - exists s0. split; [done|]. intros b Hb. rewrite Eb in Hb. injection Hb as <-. lia.
Qed.

Lemma decode_run session name r w :
  pend session name r w → run (_decode_prepared (pending_path session name)) w = (Ok r, w).
Proof. intros (b & Hf & Hv & Hd). unfold _decode_prepared. simpl. rewrite Hf. simpl. rewrite Hv. simpl. by rewrite Hd. Qed.

Lemma decode_Ok session name r w w1 :
  run (_decode_prepared (pending_path session name)) w = (Ok r, w1) → w1 = w ∧ pend session name r w.
Proof.
  unfold _decode_prepared, pend. simpl. destruct (files w !! _) as [b|]; simpl; [|done].
  destruct (valid_utf8 b) eqn:Hv; simpl; [|done]. intros [= H <-]. eauto.
Qed.

Lemma commit_run session snapshot scope name r w :
  safe_id session = true → latch_name snapshot scope = Ok name →
  files w !! final_path session name = None → pend session name r w →
  ∃ w1, run (commit_delivery session snapshot scope) w = (Ok true, w1) ∧
    is_Some (files w1 !! final_path session name) ∧ backend w1 = backend w.
Proof.
  intros Hs Hn Hf Hp. unfold commit_delivery.
  rewrite run_bind, (proj2 (paths_Ok _ _ _ w _ _)) by eauto. cbv beta iota.
  pose proof Hp as (b & Hb & _). assert (pend session name r (secured session w)) as Hp' by done.
  rewrite run_bind, run_ask. cbn [perform fst snd]. rewrite bool_decide_false by (simpl; rewrite Hf; by intros []).
  cbv iota. rewrite run_bind, run_secure_file by by eexists. rewrite run_bind, (decode_run _ _ _ _ Hp').
  rewrite run_try, run_bind, (run_read_bytes _ b) by done. rewrite run_bind, run_publish; [|simpl; set_solver|done].
  rewrite run_bind, run_secure_file by (simpl; rewrite lookup_insert_eq; by eexists).
  rewrite run_bind, run_unlink_missing_ok, run_ret. eexists. split; [done|]. simpl.
  rewrite lookup_delete_ne by apply pending_not_final. rewrite lookup_insert_eq. by split; [eexists|].
Qed.

Lemma commit_closed session snapshot scope name w :
  safe_id session = true → latch_name snapshot scope = Ok name →
  is_Some (files w !! final_path session name) →
  (run (commit_delivery session snapshot scope) w).1 = Ok false.
Proof.
  intros Hs Hn Hf. unfold commit_delivery. rewrite run_bind, (proj2 (paths_Ok _ _ _ w _ _)) by eauto.
  cbv beta iota. rewrite run_bind, run_ask. cbn [perform fst snd]. rewrite bool_decide_true by done.
  cbv iota. by rewrite run_bind, run_secure_file.
Qed.

Lemma engine_idle q sn : idle (engine_retrieve s q sn).
Proof.
  unfold engine_retrieve, store_records. apply idle_bind; [auto with rollback|]. intros _.
  apply idle_bind; [|auto with rollback]. auto 10 with rollback.
Qed.

Lemma build_seen q sn w r w1 :
  run (build_response s q sn) w = (r, w1) → seen w1 = seen w ∧ files w1 = files w ∧ dirs w1 = dirs w.
Proof.
  unfold build_response. rewrite run_bind, run_writer. unfold seen.
  destruct (engine_idle q sn (backend w)) as [Hl _].
  destruct (engine_retrieve s q sn (backend w)) as [[x|e] c]; simpl in *; by intros [= <- <-].
Qed.

(** The checks before the latch *)
Record admitted (q : request) (d : db) (sn name : string) : Prop := {
  ad_snapshot : _snapshot_id d = Ok sn;
  ad_config : _validate_config (config_of q) = Ok tt;
  ad_domain : rq_domain_only q && negb (match rq_domain q with Some d => negb (String.eqb d "") | None => false end) = false;
  ad_session : safe_id (session_of q) = true;
  ad_name : latch_name sn (receipt_scope q) = Ok name
}.

Definition latch_of (q : request) (name : string) : path := final_path (session_of q) name.

Lemma retrieve_admitted q w sn name :
  rq_refresh q = false → admitted q (seen w) sn name →
  run (retrieve_payload s q) w =
    run (deliver s q sn (pending_path (session_of q) name, latch_of q name)) (secured (session_of q) w).
Proof.
  intros Hr [H1 H2 H3 H4 H5]. unfold retrieve_payload.
  rewrite run_bind, run_read, H1, run_bind, run_pure, H2, run_bind, run_guard, H3. cbn [raise_if].
  rewrite Hr, run_bind. by rewrite (proj2 (paths_Ok _ _ _ w _ _)) by eauto.
Qed.

Lemma retrieve_Ok q w r w1 :
  rq_refresh q = false → run (retrieve_payload s q) w = (Ok r, w1) → ∃ sn name, admitted q (seen w) sn name.
Proof.
  intros Hr. unfold retrieve_payload. rewrite run_bind, run_read.
  destruct (_snapshot_id (seen w)) as [sn|] eqn:E1; [|done]. rewrite run_bind, run_pure.
  destruct (_validate_config (config_of q)) as [[]|] eqn:E2; [|done]. rewrite run_bind, run_guard.
  destruct (rq_domain_only q && _) eqn:E3; [done|]. cbn [raise_if]. rewrite Hr, run_bind.
  destruct (run (_paths _ _ _) w) as [[p|] w2] eqn:E4; [|done].
  apply paths_Ok in E4 as (name & ? & ? & _). intros _. by exists sn, name.
Qed.

(** What a call finds decides what it answers. *)
Lemma deliver_closed q sn name w :
  is_Some (files w !! latch_of q name) →
  run (deliver s q sn (pending_path (session_of q) name, latch_of q name)) w =
    (Ok (already_delivered sn), w).
Proof. intros Hf. unfold deliver. rewrite run_bind, run_ask. simpl. by rewrite bool_decide_true. Qed.

Lemma deliver_cached q sn name r w :
  files w !! latch_of q name = None → pend (session_of q) name r w →
  run (deliver s q sn (pending_path (session_of q) name, latch_of q name)) w = (Ok r, w).
Proof.
  intros Hf Hp. unfold deliver. rewrite run_bind, run_ask. cbn [perform fst snd].
  rewrite bool_decide_false by (rewrite Hf; by intros []). cbv iota. rewrite run_bind, run_ask. cbn [perform fst snd].
  pose proof Hp as (b & Hb & _). rewrite bool_decide_true by by eexists. cbv iota. by apply decode_run.
Qed.

Lemma prepare_io_Ok session sn scope name response w r w1 :
  safe_id session = true → latch_name sn scope = Ok name →
  files w !! final_path session name = None → files w !! pending_path session name = None →
  run (prepare_delivery session sn scope response) w = (Ok r, w1) →
  ∃ r', r = Some r' ∧ pend session name r' w1 ∧ files w1 !! final_path session name = None ∧
    backend w1 = backend w.
Proof.
  intros Hs Hn Hf Hp. unfold prepare_delivery. rewrite run_bind, (proj2 (paths_Ok _ _ _ w _ _)) by eauto.
  cbv beta iota. rewrite run_bind, run_ask. cbn [perform fst snd].
  rewrite bool_decide_false by (simpl; rewrite Hf; by intros []). cbv iota. rewrite run_bind, run_ask.
  cbn [perform fst snd]. rewrite bool_decide_false by (simpl; rewrite Hp; by intros []). cbv iota.
  rewrite run_bind, run_try, run_publish; [|simpl; set_solver|done].
  rewrite run_bind, run_ask. cbn [perform fst snd].
  assert (final_path session name ≠ pending_path session name) as Hne by (intros E; by apply (pending_not_final session name)).
  set (w2 := with_files _ _). assert (files w2 !! final_path session name = None) as Hf2
    by (simpl; by rewrite lookup_insert_ne by done).
  rewrite bool_decide_false by (rewrite Hf2; by intros []). cbv iota.
  rewrite run_bind, run_secure_file by (simpl; rewrite lookup_insert_eq; by eexists). rewrite run_bind.
  destruct (run (_decode_prepared _) w2) as [[x|] w3] eqn:E; [|done]. intros [= <- <-].
  apply decode_Ok in E as [-> E]. by exists x.
Qed.

Lemma deliver_open q sn name r w w1 :
  safe_id (session_of q) = true → latch_name sn (receipt_scope q) = Ok name →
  files w !! latch_of q name = None →
  run (deliver s q sn (pending_path (session_of q) name, latch_of q name)) w = (Ok r, w1) →
  pend (session_of q) name r w1 ∧ files w1 !! latch_of q name = None ∧ seen w1 = seen w.
Proof.
  intros Hs Hn Hf. unfold deliver. rewrite run_bind, run_ask. cbn [perform fst snd].
  rewrite bool_decide_false by (rewrite Hf; by intros []). cbv iota. rewrite run_bind, run_ask. cbn [perform fst snd].
  destruct (decide (is_Some (files w !! pending_path (session_of q) name))) as [Hp|Hp].
  - rewrite bool_decide_true by done. cbv iota. intros H. by apply decode_Ok in H as [-> H].
  - rewrite bool_decide_false by done. cbv iota. rewrite run_bind.
    destruct (run (build_response s q sn) w) as [[x|] w2] eqn:E; [|done].
    apply build_seen in E as (Es & Ef & Ed). rewrite run_bind.
    destruct (run (prepare_delivery _ _ _ x) w2) as [[y|] w3] eqn:E2; [|done].
    apply (prepare_io_Ok _ _ _ name) in E2 as (r' & -> & Hr & Hf' & Eb); try done.
    + intros [= <- <-]. split_and!; [done..|]. unfold seen in *. congruence.
    + by rewrite Ef.
    + rewrite Ef. by apply eq_None_not_Some.
Qed.

(** C18: The life of a delivery, for a process alone in its world and a request
    that asks for no refresh (which builds anew and looks at no latch).  While
    the latch is closed a request answers "already delivered" and writes no
    file.  Otherwise what it answers is kept: asking again gives the same
    response, its payload is within the budget it names, the commit succeeds,
    after which the request answers "already delivered" and a second commit
    answers no.  Between processes less holds: see [late_builder_redelivers]. *)
Theorem delivery_cycle q w r w1 :
  rq_refresh q = false → run (retrieve_payload s q) w = (Ok r, w1) →
  ∃ sn name,
    _snapshot_id (seen w) = Ok sn ∧ latch_name sn (receipt_scope q) = Ok name ∧
    (is_Some (files w !! latch_of q name) → r = already_delivered sn ∧ files w1 = files w) ∧
    (files w !! latch_of q name = None →
       (run (retrieve_payload s q) w1).1 = Ok r ∧
       (∃ payload, get "payload" r = JStr payload ∧
          ∀ budget, get "budget_bytes" r = JInt budget → Z.of_nat (String.length payload) ≤ budget) ∧
       ∃ w2, run (commit_payload_delivery (rq_session q) sn (receipt_scope q)) w1 = (Ok true, w2) ∧
         (run (retrieve_payload s q) w2).1 = Ok (already_delivered sn) ∧
         (run (commit_payload_delivery (rq_session q) sn (receipt_scope q)) w2).1 = Ok false).
Proof.
  intros Hr H. destruct (retrieve_Ok q w r w1 Hr H) as (sn & name & Ha). pose proof Ha as [H1 _ _ H4 H5].
  exists sn, name. split_and!; [done..| |].
  - intros Hf. rewrite (retrieve_admitted q w sn name Hr Ha), deliver_closed in H by done. by injection H as <- <-.
  - intros Hf. rewrite (retrieve_admitted q w sn name Hr Ha) in H.
    apply deliver_open in H as (Hp & Hf1 & Hs); try done.
    assert (admitted q (seen w1) sn name) as Ha1 by by rewrite Hs.
    split_and!.
    + by rewrite (retrieve_admitted q w1 sn name Hr Ha1), (deliver_cached _ _ _ r).
    + destruct Hp as (b & _ & _ & Hb). by apply decode_bounded in Hb.
    + destruct (commit_run (session_of q) sn (receipt_scope q) name r w1 H4 H5 Hf1 Hp) as (w2 & Hc & Hf2 & Eb).
      exists w2. split_and!; [done| |by eapply commit_closed].
      rewrite (retrieve_admitted q w2 sn name Hr), deliver_closed; [done|done|]. unfold seen in *. by rewrite Eb.
Qed.
End alone.

(** ** Concrete runs *)
From S2P Require Import PyTime Integrity Machine Scenario.

#[local] Instance plain_printing : printing := {| repr_container _ := "" |}.

Definition quiet : request :=
  {| rq_session := "s1"; rq_prompt := ""; rq_domain := None; rq_budget := 1024; rq_refresh := false;
     rq_domain_only := false; rq_format := "compact"; rq_mode := "authoritative"; rq_partitions := None |}.

Definition start : world := {| files := ∅; dirs := ∅; backend := open_on toy_install 0 0 |}.

Definition first_response : obj :=
  Eval vm_compute in match (Io.run (retrieve_payload toy_store quiet) start).1 with Ok r => r | Err _ => [] end.
Definition first_world : world := (Io.run (retrieve_payload toy_store quiet) start).2.

Lemma delivery_cycle_witness :
  Io.run (retrieve_payload toy_store quiet) start = (Ok first_response, first_world) ∧
  (Io.run (retrieve_payload toy_store quiet) first_world).1 = Ok first_response.
Proof.
  assert (Io.run (retrieve_payload toy_store quiet) start = (Ok first_response, first_world)) as H
    by (apply injective_projections; [vm_compute; reflexivity|reflexivity]).
  split; [exact H|].
  destruct (delivery_cycle toy_store quiet start first_response first_world eq_refl H)
    as (sn & name & _ & _ & _ & Hopen).
  exact (proj1 (Hopen eq_refl)).
Defined.

(** A response of a builder *)
Definition offer (text : string) : obj := [("budget_bytes", JInt 64); ("payload", JStr text)].

Definition session := "0123456789abcdef01234567".

Lemma latch_closes_once_witness :
  ∃ ps w1, rtc Io.step (repeat (commit_delivery session "snapshot" None) 2 ++
                     map (builder session "snapshot" None) [offer "a"], start) (ps, w1) ∧
    List.filter closed_it ps ≠ [] ∧ (length (List.filter closed_it ps) ≤ 1)%nat.
Proof.
  pose (x := schedule (repeat 2 12 ++ repeat 0 4 ++ repeat 1 12 ++ repeat 0 12)%nat
    (repeat (commit_delivery session "snapshot" None) 2 ++
     map (builder session "snapshot" None) [offer "a"], start)).
  assert (rtc Io.step (repeat (commit_delivery session "snapshot" None) 2 ++
    map (builder session "snapshot" None) [offer "a"], start) (x.1, x.2)) as H
    by (rewrite <- surjective_pairing; apply schedule_steps).
  exists x.1, x.2. split; [exact H|]. split; [vm_compute; discriminate|].
  exact (latch_closes_once session "snapshot" None 2 [offer "a"] start x.1 x.2 H).
Defined.

(** A builder that saw no pending file before another delivery was prepared
    and committed publishes a new one; a process that saw no latch before
    hands it out: two responses are delivered for one latch. *)
Definition handed (response : obj) : io (option obj) := prepare_delivery session "snapshot" None response.
Definition closing : io (option obj) := commit_delivery session "snapshot" None ;; mret None.

Example late_builder_redelivers :
  ∃ ps w1, rtc Io.step ([handed (offer "a"); closing; handed (offer "b"); handed (offer "c")], start) (ps, w1) ∧
    ps = [Done (Ok (Some (offer "a"))); Done (Ok None); Done (Ok None); Done (Ok (Some (offer "b")))] ∧
    (∃ name, latch_name "snapshot" None = Ok name ∧
       files w1 !! final_path session name = Some (prepared_bytes (offer "a"))).
Proof.
  pose (x := schedule (repeat 2 6 ++ repeat 0 10 ++ repeat 3 3 ++ repeat 1 11 ++ [2] ++ repeat 3 3 ++ [2; 2])%nat
    ([handed (offer "a"); closing; handed (offer "b"); handed (offer "c")], start)).
  exists x.1, x.2. split; [rewrite <- surjective_pairing; apply schedule_steps|].
  split; [vm_compute; reflexivity|]. eexists. split; vm_compute; reflexivity.
Qed.
