(* ===== verification/Grounded.v ===== *)
(** * What reaches a model's context

    Every record the store source offers is a current row of the operator,
    with its evidence and cases checked; what the engine selects from them is
    eligible, and what it shows as the operator's judgment was signed. *)
From S2P Require Import Prelude PyTime Urn Contracts Codec Unicode Json Names Clock Retrieval.
From S2P Require Import Tables Integrity Txn Approval Store Records Chain Semantic Envelopes Safety Machine Scenario.
From S2P Require Import Rollback Writes Source Io Delivery.
From stdpp Require Import gmap.

(** ** Loops *)
Lemma filter_res_In {A} (f : A → res bool) l l1 :
  filter_res f l = Ok l1 → ∀ x, In x l1 → In x l ∧ f x = Ok true.
Proof.
  revert l1. induction l as [|y l IH]; simpl; intros l1 H x Hx; [by injection H as <-|].
  apply bind_Ok in H as (b & Hb & H). apply bind_Ok in H as (rest & Hr & H). injection H as <-.
  destruct b; [destruct Hx as [->|Hx]; [by split; [left|]|]|]; destruct (IH _ Hr x Hx); auto.
Qed.

Lemma map_res_In {A B} (f : A → res B) l ys y :
  map_res f l = Ok ys → In y ys → ∃ x, In x l ∧ f x = Ok y.
Proof.
  intros H%map_res_Forall2. revert y. induction H as [|x z l zs Hf _ IH]; [done|].
  intros y [<-|Hy]; [exists x; by split; [left|]|]. destruct (IH y Hy) as (u & ? & ?). exists u. by split; [right|].
Qed.

Lemma somes_In {A} (l : list (option A)) x : In x (somes l) ↔ In (Some x) l.
Proof.
  induction l as [|[y|] l IH]; simpl; [done| |].
  - rewrite IH. split; intros [H|H]; auto; [left; congruence|injection H as ->; auto].
  - rewrite IH. split; [auto|]. intros [?|?]; [done|auto].
Qed.

(** ** What a record stands for *)
Section grounding.
Context `{printer : printing}.

(** An open row of a type and operator *)
Definition current_node (type : string) (operator : option string) (id : string) (d : db) : Prop :=
  ∃ n v, In (n, v) (joined d) ∧ is_open v = true ∧ nd_id n = id ∧ nd_type n = type ∧
         same_operator operator (nd_operator n) = true.

Record grounded (operator : option string) (now : string) (d : db) (r : RetrievalRecord)
    (n : node_row) (v : version_row) : Prop := {
  gd_row : In (n, v) (joined d) ∧ is_open v = true;
  gd_same : record_id r = nd_id n ∧ ontology_type r = nd_type n ∧
            provenance_status r = vr_status v ∧ Retrieval.authority_tier r = vr_tier v;
  gd_operator : same_operator operator (nd_operator n) = true;
  gd_governed : ∀ sv, governance (vr_id v) d = Some sv →
    ∃ o consent source_class grant, operator = Some o ∧ sv_consent sv = Some consent ∧
      policy_allows o (sv_policy sv) d = Ok true ∧
      authorize_consent_version consent o source_class "retrieval" "retrieve" (vr_valid_from v) now d = Ok grant;
  gd_evidence : provenance_complete r = true → evidence_ids r ≠ [] ∧
    ∀ id, In id (evidence_ids r) → current_node "Evidence" operator id d ∨ In id (source_receipts operator d);
  gd_cases : ∀ c, In c (case_ids r) → current_node "Case" operator c d ∧
    ∃ e, In e (source_edges operator d) ∧ ed_type e = "verdict_about_case" ∧ ed_source e = nd_id n ∧ ed_target e = c;
  gd_judged : provenance_complete r = true → vr_status v = "captured" →
    ontology_partition r ≠ "business_declared" → case_ids r ≠ []
}.

(** ** Rows behind dictionaries *)
(** The dictionary of a row *)
Definition item_of (node : obj) (n : node_row) (v : version_row) : Prop :=
  text_item "node_id" node = Ok (nd_id n) ∧ text_item "node_type" node = Ok (nd_type n) ∧
  text_item "operator_id" node = Ok (nd_operator n) ∧ text_item "version_id" node = Ok (vr_id v) ∧
  text_item "provenance_status" node = Ok (vr_status v) ∧ text_item "authority_tier" node = Ok (vr_tier v) ∧
  text_item "valid_from" node = Ok (vr_valid_from v).

Lemma node_item_fields nv node : node_item nv = Ok node → item_of node nv.1 nv.2.
Proof. unfold node_item, decoded. intros H. inv_ok. split_and!; reflexivity. Qed.

Lemma current_nodes_In types d nodes node :
  current_nodes types d = Ok nodes → In node nodes →
  ∃ n v, In (n, v) (joined d) ∧ is_open v = true ∧ item_of node n v.
Proof.
  intros H Hn. destruct (map_res_In _ _ _ _ H Hn) as ([n v] & Hi & Hf).
  apply current_rows_In in Hi as [? ?]. exists n, v. by apply node_item_fields in Hf.
Qed.

(** ** One record *)
Lemma linked_In type known id w x :
  In x (linked type known id w) →
  In x known ∧ ∃ e, In e (links w) ∧ ed_type e = type ∧ ed_source e = id ∧ ed_target e = x.
Proof.
  unfold linked. intros (e & <- & He)%in_map_iff. apply filter_In in He as [He Hf]. bool_hyps.
  repeat match goal with H : String.eqb _ _ = true |- _ => apply String.eqb_eq in H end.
  split; [by apply mem_In|]. by exists e.
Qed.

Lemma complete_evidence type id evidence w :
  evidence_complete type id evidence w = true →
  evidence ≠ [] ∧ ∀ x, In x evidence → In x (evidence_nodes w) ∨ In x (receipts_ w).
Proof.
  unfold evidence_complete. intros H. bool_hyps. split; [by destruct evidence|].
  intros x Hx. match goal with H : forallb _ evidence = true |- _ =>
    rewrite forallb_forall in H; specialize (H x Hx); apply orb_true_iff in H as [H|H] end;
    [left|right]; by apply mem_In.
Qed.

Lemma sorted_In l x : In x (sorted_strs (dedup_strs l)) ↔ In x l.
Proof. unfold sorted_strs. rewrite sort_by_In. apply dedup_strs_In. Qed.

Lemma record_of_Ok w node n v r :
  item_of node n v → record_of w node = Ok (Some r) →
  (record_id r = nd_id n ∧ ontology_type r = nd_type n ∧ provenance_status r = vr_status v ∧
   Retrieval.authority_tier r = vr_tier v) ∧
  (provenance_complete r = true →
     evidence_complete (nd_type n) (nd_id n) (evidence_ids r) w = true ∧
     (vr_status v = "captured" → ontology_partition r ≠ "business_declared" → case_ids r ≠ [])) ∧
  (∀ c, In c (case_ids r) → In c (linked "verdict_about_case" (map fst (cases_ w)) (nd_id n) w)).
Proof.
  intros (Hi & Ht & _ & _ & Hs & Ha & Hv). unfold record_of. rewrite Ht, Hi, Hs, Ha, Hv. simpl.
  destruct (negb (mem (nd_type n) _SEMANTIC_TYPES)); [done|]. intros H. inv_ok.
  destruct (_text (nd_type n) _) as [text|]; [|done]. destruct (blank text); [done|]. inv_ok. simpl.
  split_and!; try done.
  - intros [Hc Hj]%andb_true_iff. split; [done|]. intros E Hp Hn. rewrite E, Hn in Hj. simpl in Hj.
    rewrite orb_false_r in Hj. by apply String.eqb_eq in Hj.
  - intros c. by rewrite sorted_In.
Qed.

(** ** The nodes around a record *)
Lemma text_item_det k (m : obj) x y : text_item k m = Ok x → text_item k m = Ok y → x = y.
Proof. congruence. Qed.

Lemma is_type_Ok type node n v : item_of node n v → is_type type node = true → nd_type n = type.
Proof.
  intros (_ & Ht & _) H. unfold is_type in H. apply text_item_Ok, assoc_get in Ht. rewrite Ht in H.
  by apply String.eqb_eq.
Qed.

Lemma of_operator_In operator nodes node n v :
  item_of node n v → In node (of_operator operator nodes) →
  In node nodes ∧ same_operator operator (nd_operator n) = true.
Proof.
  intros (_ & _ & Ho & _) H. destruct operator as [o|]; [|done]. apply filter_In in H as [H Ho'].
  apply text_item_Ok, assoc_get in Ho. rewrite Ho in Ho'. by split.
Qed.

(** Every record the store offers for retrieval stands for an open row of
    the configured operator.  A governed row is offered only under a policy of
    the operator that allows retrieval and a consent that allows it at the
    row's valid time and now; a record said to be complete has evidence, each
    item a current Evidence node or a source receipt of the operator; its
    cases are current Case nodes linked by open edges, and a captured
    judgment has at least one. *)
Lemma records_grounded s now d rs :
  retrieval_candidates_of s now d = Ok rs →
  ∃ operator, (∀ o, expected_operator_id s = Some o → operator = Some o) ∧
    ∀ r, In r rs → ∃ n v, grounded operator now d r n v.
Proof.
  unfold retrieval_candidates_of. intros H.
  apply bind_Ok in H as (all & Hall & H). apply bind_Ok in H as (operator & Ho & H). cbv zeta in H.
  apply bind_Ok in H as (evidence & He & H). apply bind_Ok in H as (nodes & Hn & H).
  apply bind_Ok in H as (cases & Hc & H). apply bind_Ok in H as (records & Hr & H). injection H as <-.
  assert (∀ node, In node (of_operator operator all) → ∃ n v, In (n, v) (joined d) ∧ is_open v = true ∧
    item_of node n v ∧ same_operator operator (nd_operator n) = true) as Hnode.
  { intros node Hi. assert (In node all) as Ha.
    { destruct operator; [by apply filter_In in Hi as [? _]|done]. }
    destruct (current_nodes_In _ _ _ _ Hall Ha) as (n & v & ? & ? & Hf).
    exists n, v. split_and!; [done..|]. by destruct (of_operator_In _ _ _ _ _ Hf Hi). }
  exists operator. split.
  { intros o E. unfold _operator_id in Ho. rewrite E in Ho. by injection Ho as <-. }
  intros r Hi%somes_In. destruct (map_res_In _ _ _ _ Hr Hi) as (node & Hin & Hrec).
  destruct (filter_res_In _ _ _ Hn node Hin) as [Hin' Hal].
  destruct (Hnode node Hin') as (n & v & Hj & Hop & Hf & Hso). exists n, v.
  destruct (record_of_Ok _ _ _ _ _ Hf Hrec) as (Hsame & Hcomplete & Hcases). split; try done.
  - intros sv Hg. unfold allowed in Hal. destruct Hf as (_ & _ & _ & Hv & _ & _ & Hvf). rewrite Hv in Hal.
    simpl in Hal. rewrite Hg in Hal. destruct (sv_consent sv) as [consent|]; [|done].
    destruct operator as [o|]; [|done]. destruct (String.eqb consent ""); [done|].
    apply and_then_Ok_true in Hal as [Hp Ha]. unfold consent_allows in Ha. rewrite Hvf in Ha.
    apply bind_Ok in Ha as (payload & _ & Ha). simpl in Ha.
    destruct (authorize_consent_version _ _ _ _ _ _ _ _) as [grant|e] eqn:Eg; [|by destruct (is_validation e)].
    eexists o, consent, _, grant. by split_and!.
  - intros Hpc. destruct (Hcomplete Hpc) as [Hev _]. apply complete_evidence in Hev as [Hne Hev].
    split; [done|]. intros x Hx. destruct (Hev x Hx) as [Hx'|Hx']; [left|by right]. simpl in Hx'.
    destruct (map_res_In _ _ _ _ He Hx') as (m & Hm & Hid). apply filter_In in Hm as [Hm Ht].
    destruct (Hnode m Hm) as (n' & v' & ? & ? & Hf' & ?). exists n', v'. split_and!; try done.
    + destruct Hf' as (Hid' & _). by apply (text_item_det _ _ _ _ Hid' Hid).
    + by apply (is_type_Ok _ m n' v').
  - intros c Hx. destruct (linked_In _ _ _ _ _ (Hcases c Hx)) as [Hx' Hl]. split; [|exact Hl]. simpl in Hx'.
    apply in_map_iff in Hx' as (entry & <- & Hentry). destruct (map_res_In _ _ _ _ Hc Hentry) as (m & Hm & Hid).
    apply filter_In in Hm as [Hm Ht]. destruct (filter_res_In _ _ _ Hn m Hm) as [Hm' _].
    destruct (Hnode m Hm') as (n' & v' & ? & ? & Hf' & ?). exists n', v'. split_and!; try done.
    + destruct Hf' as (Hid' & _). apply bind_Ok in Hid as (i & Hi' & Hid).
      apply bind_Ok in Hid as (p & _ & Hid). injection Hid as <-. by apply (text_item_det _ _ _ _ Hid' Hi').
    + by apply (is_type_Ok _ m n' v').
  - intros Hpc. by destruct (Hcomplete Hpc).
Qed.
End grounding.

(** ** What the engine shows of them *)
Section context.
Context `{env : environment} `{ucd : unicode_data} `{printer : printing} (s : store).

Lemma engine_Ok q sn c result c1 :
  engine_retrieve s q sn c = (Ok result, c1) →
  ∃ now records, retrieval_candidates_of s now (live c) = Ok records ∧
    ∃ shown, incl shown records ∧
    retrieve (source := {| retrieval_candidates := λ _, shown |}) (config_of q) sn (rq_prompt q)
      (rq_domain q) (rq_partitions q) (Some (rq_mode q)) = Ok result.
Proof.
  unfold engine_retrieve, store_records. intros H. apply txn_bind_Ok in H as (u & c2 & Hu & H).
  apply txn_lift_Ok in Hu as [_ ->]. apply txn_bind_Ok in H as (shown & c2 & Hs & H).
  apply txn_bind_Ok in Hs as (now & c3 & Ht & Hs). apply txn_bind_Ok in Hs as (records & c4 & Hr & Hs).
  apply ret_Ok in Hs as [-> ->]. apply txn_read_Ok in Hr as [Hr ->]. apply txn_lift_Ok in H as [H _].
  destruct (idle_utc_now c) as [E _]. rewrite Ht in E. simpl in E. rewrite E in Hr.
  exists now, records. split; [done|]. eexists. split; [|exact H].
  destruct (rq_domain_only q); [by intros r [Hi _]%filter_In|apply incl_refl].
Qed.

(** C2: From the store to the prompt.  Whatever a response built from a
    reachable store selects stands for a current row of the operator that is
    eligible for the mode and the domain of the request, complete by the rows
    of the store, and, where its tier claims the operator's judgment, written
    by an event whose mutation spent a verified signature of the operator. *)
Theorem context_grounded `{signing : crypto} `{norm : normalization} `{lite : sqlite} q sn w r w1 :
  reachable (seen w) → _validate_config (config_of q) = Ok tt →
  Io.run (build_response s q sn) w = (Ok r, w1) →
  ∃ operator now result, r = response_of sn (receipt_scope q) result ∧
    (∀ o, expected_operator_id s = Some o → operator = Some o) ∧
    ∀ id, In id (selected_ids result) →
      ∃ record n v, id = nd_id n ∧ grounded operator now (seen w) record n v ∧
        eligible record (rq_domain q) (result_mode result) = true ∧ provenance_complete record = true ∧
        (In (vr_tier v) ["captured_judgment"; "ratified_knowledge"] →
         authorized (vr_event v) (the_authority (seen w))).
Proof.
  intros Hd Hv H. unfold build_response in H. rewrite run_bind, run_writer in H.
  destruct (engine_retrieve s q sn (backend w)) as [[result|] c1] eqn:E; [|done]. simpl in H. injection H as <- _.
  apply engine_Ok in E as (now & records & Hr & shown & Hsub & E).
  destruct (config_Ok _ _ Hv) as ([Hb _] & _). apply retrieve_selected in E as (rs & _ & Es & Hrs); [|lia].
  destruct (records_grounded s now (seen w) records Hr) as (operator & Ho & Hg).
  exists operator, now, result. split_and!; [done..|]. intros id Hid.
  rewrite Es in Hid. apply in_map_iff in Hid as (record & <- & Hi).
  destruct (Hrs record Hi) as (Hc & He & _). destruct (Hg record (Hsub _ Hc)) as (n & v & G).
  exists record, n, v. split_and!; [by destruct (gd_same _ _ _ _ _ _ G)|done..| |].
  - apply eligible_complete in He. exact He.
  - intros Ht. apply authority_approved; [by apply reachable_ok| |done]. apply in_app_iff. left.
    destruct (gd_row _ _ _ _ _ _ G) as [Hj _]. by apply joined_In in Hj as [Hj _].
Qed.
End context.

(** ** The promoted verdict of [Scenario] reaches the context *)
#[local] Instance plain_printing : printing := {| repr_container _ := "" |}.

Definition asking : request :=
  {| rq_session := "s1"; rq_prompt := "short draft"; rq_domain := None; rq_budget := 4096;
     rq_refresh := true; rq_domain_only := false; rq_format := "compact"; rq_mode := "authoritative";
     rq_partitions := None |}.

Definition asked_start : world := {| files := ∅; dirs := ∅; backend := open_on promoted_db 500 40 |}.
Definition asked_response : obj :=
  Eval vm_compute in match (Io.run (build_response toy_store asking "snap") asked_start).1 with
                     | Ok r => r | Err _ => [] end.

Lemma context_grounded_witness :
  Io.run (build_response toy_store asking "snap") asked_start =
    (Ok asked_response, (Io.run (build_response toy_store asking "snap") asked_start).2) ∧
  get "selected_ids" asked_response = JList [JStr toy_verdict] ∧
  ∃ operator now result, asked_response = response_of "snap" None result ∧
    ∀ id, In id (selected_ids result) → ∃ record n v, id = nd_id n ∧
      grounded operator now promoted_db record n v ∧ provenance_complete record = true.
Proof.
  assert (Io.run (build_response toy_store asking "snap") asked_start =
    (Ok asked_response, (Io.run (build_response toy_store asking "snap") asked_start).2)) as H
    by (apply injective_projections; [vm_compute; reflexivity|reflexivity]).
  split; [exact H|]. split; [reflexivity|].
  destruct (context_grounded toy_store asking "snap" asked_start asked_response
    (Io.run (build_response toy_store asking "snap") asked_start).2 promoted_reachable eq_refl H)
    as (operator & now & result & Hr & _ & Hg).
  exists operator, now, result. split; [exact Hr|]. intros id Hid.
  destruct (Hg id Hid) as (record & n & v & E & G & _ & Hp & _). exists record, n, v. exact (conj E (conj G Hp)).
Defined.
