(* ===== verification/Spool.v ===== *)
(** * Capture spools and their compiler ([compiler/spool.py])

    A hook leaves each capture as an immutable file in the spool of its
    producer.  One compiler at a time, behind a lease directory, applies the
    files to the store in batches, leaves an acknowledgement for each and a
    content-free receipt for what it refuses; files that were acknowledged
    long enough ago are pruned.  The programs are those of [Io]: every file
    operation and every call of the writer is a step that others may come
    between.  [store.initialize], modes of files and links are left out, and
    so is [recover_stale_compiler_lock], which works on file identities. *)
From stdpp Require Import gmap relations.
From S2P Require Import Prelude PyTime Urn Contracts Codec Unicode Retrieval Json Names Clock Capture Chain.
From S2P Require Import Tables Txn Store Records Io.

Definition LOCK_STALE_SECONDS : Z := 300.
Definition CAPTURE_BATCH_SIZE : Z := 100.

(** What the operating system and its runtime answer: the name of the host,
    the process identifier and which others live, times of modification, the
    local zone, and how [json.loads] reads bytes that are not plain UTF-8 *)
Class host : Type := {
  hostname : string; pid : Z; alive : Z → bool; modified : path → option spec_float;
  local_utc : datetime → res datetime; other_encoding : string → option json
}.

(** ** [json.dumps(v, sort_keys=True, separators=(",", ":"))] *)
Fixpoint dumps_ascii (v : json) : string :=
  match v with
  | JStr s => ascii_json_string s
  | JList l => "[" +:+ commas (map dumps_ascii l) +:+ "]"
  | JObj m =>
      let fields := map (λ kv, (kv.1, dumps_ascii kv.2)) m in
      "{" +:+ commas (map (λ kv, ascii_json_string kv.1 +:+ ":" +:+ kv.2)
                        (sort_by (λ a b, String.leb a.1 b.1) fields)) +:+ "}"
  | _ => dumps v
  end.

Definition newline : string := byte 10.

(** [value.rsplit(":", 1)[-1]] *)
Definition last_part (s : string) : string := List.last (split_on ":" s) "".

(** [path.relative_to(operator_root).as_posix()] *)
Definition posix (p : path) : string := join_with "/" p.

(** The parts of [Path(s)], and [Path(s).is_absolute()] *)
Definition path_parts (s : string) : path :=
  List.filter (λ x, negb (String.eqb x "" || String.eqb x ".")) (split_on "/" s).
Definition is_absolute (s : string) : bool := starts_with "/" s.

(** [json.loads(bytes)]: UTF-8 unless the first bytes say otherwise *)
Definition utf8_text (b : string) : bool :=
  valid_utf8 b && negb (starts_with (byte 0xEF +:+ byte 0xBB +:+ byte 0xBF) b) &&
  match b with
  | String x (String y _) => negb (byte_val x =? 0) && negb (byte_val y =? 0)
  | _ => true
  end.

Definition JSON_ERROR := ValueError "malformed JSON".

Section json_bytes.
Context `{os : host}.

Definition loads_bytes (b : string) : res json :=
  match (if utf8_text b then loads b else other_encoding b) with
  | Some v => Ok v
  | None => Err JSON_ERROR
  end.

(** [value.astimezone(timezone.utc)] *)
Definition in_utc (d : datetime) : res datetime := if aware d then to_utc d else local_utc d.
End json_bytes.

(** [datetime.fromisoformat(value.replace("Z", "+00:00"))] of a field *)
Definition iso_time (v : json) : res datetime :=
  match v with
  | JStr s => match parse_rfc3339 s with Some d => Ok d | None => Err (ValueError "Invalid isoformat string") end
  | _ => Err AttributeError
  end.

Definition is_true (v : json) : bool := match v with JBool b => b | _ => false end.
Definition is_false (v : json) : bool := match v with JBool b => negb b | _ => false end.
Definition str_or (k : string) (m : obj) : string := match get k m with JStr s => s | _ => "" end.

Section clock.
Context `{env : environment}.
Definition _now : io string := writer utc_now.
(** [uuid.uuid4().hex] *)
Definition new_nonce : io string :=
  writer (λ c, (Ok (print_hex 32 (uuids (drawn c))),
                {| live := live c; saved := saved c; drawn := S (drawn c); ticks := ticks c |})).
End clock.

(** ** The lease *)
Definition LOCK : path := ["compiler.lock"].
Definition _lock_owner_path : path := ["compiler.lock"; "owner.json"].
Definition LEASE_FIELDS :=
  ["lock_schema_version"; "nonce"; "pid"; "host"; "created_at"; "heartbeat_at"].

Definition _write_lock_owner (owner : obj) : io unit :=
  replace_private _lock_owner_path (dumps_ascii (JObj owner) +:+ newline).

Definition _lease_timestamp (value : json) : res datetime :=
  match value with
  | JStr s =>
      raise_if (negb (ends_with "Z" s)) (ValueError "lease timestamp must be UTC") ;;
      d ← iso_time value;
      raise_if (negb (match utcoffset d with Some 0 => true | _ => false end))
        (ValueError "lease timestamp must be timezone-aware UTC") ;;
      Ok d
  | _ => Err (ValueError "lease timestamp must be UTC")
  end.

Definition lease_valid (owner : obj) (created heartbeat : datetime) : bool :=
  py_eq (get "lock_schema_version" owner) (JStr "1.0.0") &&
  match get "nonce" owner with JStr n => Nat.eqb (String.length n) 32 && str_forallb is_hex n | _ => false end &&
  match get "pid" owner with JInt z => 0 <? z | _ => false end &&
  match get "host" owner with
  | JStr h => negb (blank h) && String.eqb h (strip h) && negb (contains (byte 0) h)
  | _ => false
  end &&
  (instant created <=? instant heartbeat).

(** The fields of a lease and its last heartbeat *)
Definition read_lease (text : string) : res (obj * datetime) :=
  match loads text with
  | Some (JObj owner) =>
      raise_if (negb (set_eq (keys owner) LEASE_FIELDS)) (ValueError "lease fields are invalid") ;;
      created ← _lease_timestamp (get "created_at" owner);
      heartbeat ← _lease_timestamp (get "heartbeat_at" owner);
      raise_if (negb (lease_valid owner created heartbeat)) (ValueError "lease values are invalid") ;;
      Ok (owner, heartbeat)
  | Some _ => Err (ValueError "lease fields are invalid")
  | None => Err JSON_ERROR
  end.

(** [max(0, int(seconds))] *)
Definition whole_seconds (f : spec_float) : Z :=
  match py_int (JFloat f) with Ok z => Z.max 0 z | Err _ => 0 end.

Section lease.
Context `{env : environment} `{os : host}.

Definition held (owner : obj) (age : Z) : obj :=
  let local := String.eqb (str_or "host" owner) hostname in
  let living := match get "pid" owner with JInt z => alive z | _ => false end in
  [("state", JStr "held");
   ("stale", JBool ((LOCK_STALE_SECONDS <=? age) && (negb local || negb living)));
   ("age_seconds", JInt age); ("nonce", get "nonce" owner); ("host", get "host" owner);
   ("pid", get "pid" owner); ("local_owner", JBool local);
   ("pid_alive", if local then JBool living else JNull)].

Definition invalid_lease (age : Z) : obj :=
  [("state", JStr "invalid"); ("stale", JBool (LOCK_STALE_SECONDS <=? age)); ("age_seconds", JInt age)].

Definition compiler_lock_state : io obj :=
  directory ← ask (IsDir LOCK);
  file ← ask (Exists LOCK);
  if negb (directory || file) then mret [("state", JStr "absent"); ("stale", JBool false)]
  else
    content ← ask (Read _lock_owner_path);
    let lease := match content with
                 | Some text => if str_forallb (λ a, byte_val a <? 128) text then read_lease text
                                else Err UNDECODABLE
                 | None => Err OSError
                 end in
    match lease with
    | Ok (owner, heartbeat) =>
        now ← writer now_;
        mret (held owner (whole_seconds (float_seconds (instant now - instant heartbeat))))
    | Err _ =>
        now ← writer now_;
        mret (invalid_lease match modified LOCK with
                            | Some at_ => whole_seconds (SFsub 53 1024 (float_seconds (instant now - epoch_us)) at_)
                            | None => -1
                            end)
    end.
End lease.

(** ** Files of a capture *)
Definition ACK_FIELDS :=
  ["ack_schema_version"; "input_event_id"; "node_id"; "payload_sha256"; "source_file_sha256";
   "source_path"; "committed"; "compiler_result"; "acknowledged_at"].

Definition spool_path (envelope : obj) : path :=
  ["spool"; str_or "node_id" envelope; last_part (str_or "input_event_id" envelope) +:+ ".json"].
Definition spool_bytes (envelope : obj) : string := canonical_bytes (JObj envelope) +:+ newline.

Definition _ack_path (envelope : obj) : path :=
  ["runtime"; "acknowledgements"; str_or "node_id" envelope;
   last_part (str_or "input_event_id" envelope) +:+ ".json"].

(** Publish once: the same bytes again are no error. *)
Definition write_envelope (envelope : json) : io path :=
  m ← pure_res (validate_capture_envelope envelope);
  let final := spool_path m in
  secure_directory (parent final) ;;
  there ← ask (Exists final);
  if (there : bool) then
    secure_file final ;;
    bytes ← read_bytes final;
    if String.eqb bytes (spool_bytes m) then mret final
    else io_raise (ConflictError "same spool event path contains different bytes")
  else
    io_try (publish_new_private final (spool_bytes m))
      (λ e, match e with
            | SafetyError _ => Some (
                there ← ask (Exists final);
                if (there : bool) then
                  bytes ← read_bytes final;
                  if String.eqb bytes (spool_bytes m) then mret tt else io_raise e
                else io_raise e)
            | _ => None
            end) ;;
    mret final.

(** ** Acknowledgements *)
Definition ack_object (text : string) : option obj :=
  if str_forallb (λ a, byte_val a <? 128) text
  then match loads text with Some (JObj m) => Some m | _ => None end else None.

(** The conditions before the source is read, and after *)
Definition ack_names (ack envelope : obj) : bool :=
  set_eq (keys ack) ACK_FIELDS && py_eq (get "ack_schema_version" ack) (JStr "1.0.0") &&
  is_true (get "committed" ack) && py_eq (get "input_event_id" ack) (get "input_event_id" envelope) &&
  py_eq (get "node_id" ack) (get "node_id" envelope) &&
  py_eq (get "payload_sha256" ack) (JStr (payload_sha256 (JObj envelope))).

Definition ack_source (ack : obj) (p : path) (bytes : string) : bool :=
  py_eq (get "source_file_sha256" ack) (JStr (sha256 bytes)) &&
  py_eq (get "source_path" ack) (JStr (posix p)) &&
  match get "compiler_result" ack with JStr r => mem r ["captured"; "duplicate"] | _ => false end.

(** Every error but those of the operating system's making answers no. *)
Definition acknowledgement_committed (p : path) (envelope : obj) : io bool :=
  let target := _ack_path envelope in
  regular ← ask (Exists target);
  if negb regular then mret false
  else
    content ← ask (Read target);
    match content ≫= ack_object with
    | None => mret false
    | Some ack =>
        if negb (ack_names ack envelope) then mret false
        else bytes ← ask (Read p);
             mret match bytes with Some b => ack_source ack p b | None => false end
    end.

Section receipts.
Context `{env : environment}.

(** A content-free receipt for an input that was refused *)
Definition quarantine_body (receipt_id error_type now : string) : obj :=
  [("content_included", JBool false); ("error_type", JStr error_type);
   ("quarantine_schema_version", JStr "1.0.0"); ("receipt_id", JStr receipt_id); ("recorded_at", JStr now)].

Definition _quarantine_receipt (p : path) (error_type : string) : io unit :=
  let receipt_id := sha256 (posix p) in
  secure_directory ["quarantine"] ;;
  let final := ["quarantine"; receipt_id +:+ ".json"] in
  now ← _now;
  there ← ask (Exists final);
  if (there : bool) then secure_file final
  else
    io_try (publish_new_private final (dumps_ascii (JObj (quarantine_body receipt_id error_type now)) +:+ newline))
      (λ e, match e with
            | SafetyError _ => Some (
                there ← ask (Exists final); if (there : bool) then mret tt else io_raise e)
            | _ => None
            end) ;;
    there ← ask (Exists final);
    if (there : bool) then secure_file final else mret tt.

(** In the order of the sorted keys *)
Definition ack_body (envelope : obj) (p : path) (source result now : string) : obj :=
  [("ack_schema_version", JStr "1.0.0"); ("acknowledged_at", JStr now); ("committed", JBool true);
   ("compiler_result", JStr result); ("input_event_id", get "input_event_id" envelope);
   ("node_id", get "node_id" envelope); ("payload_sha256", JStr (payload_sha256 (JObj envelope)));
   ("source_file_sha256", JStr (sha256 source)); ("source_path", JStr (posix p))].

Definition STABLE_FIELDS :=
  ["ack_schema_version"; "input_event_id"; "node_id"; "payload_sha256"; "source_file_sha256";
   "source_path"; "committed"].

(** [matches_prior] *)
Definition matches_prior (target : path) (body : obj) : io bool :=
  text ← read_ascii target;
  match loads text with
  | None => io_raise JSON_ERROR
  | Some (JObj prior) => mret (forallb (λ k, py_eq (get k prior) (get k body)) STABLE_FIELDS)
  | Some _ => io_raise AttributeError
  end.

Definition ACK_CONFLICT := ConflictError "acknowledgement identity conflicts with committed input".

Definition _write_acknowledgement (p : path) (envelope : obj) (result : string) : io unit :=
  let target := _ack_path envelope in
  secure_directory (parent target) ;;
  source ← read_bytes p;
  now ← _now;
  let body := ack_body envelope p source result now in
  there ← ask (Exists target);
  if (there : bool) then
    secure_file target ;;
    same ← matches_prior target body;
    io_guard (negb same) ACK_CONFLICT
  else
    io_try (publish_new_private target (dumps_ascii (JObj body) +:+ newline))
      (λ e, match e with
            | SafetyError _ => Some (
                there ← ask (Exists target);
                if (there : bool) then
                  same ← matches_prior target body; io_guard (negb same) ACK_CONFLICT
                else io_raise ACK_CONFLICT)
            | _ => None
            end) ;;
    there ← ask (Exists target);
    if (there : bool) then secure_file target else mret tt.
End receipts.

(** ** Pruning *)
Record prune_counts : Type := {
  deleted : Z; retained : Z; already_pruned : Z; acknowledgements_deleted : Z;
  quarantine_deleted : Z; invalid : Z
}.

Definition no_counts : prune_counts :=
  {| deleted := 0; retained := 0; already_pruned := 0; acknowledgements_deleted := 0;
     quarantine_deleted := 0; invalid := 0 |}.

Definition count_deleted (c : prune_counts) : prune_counts :=
  {| deleted := deleted c + 1; retained := retained c; already_pruned := already_pruned c;
     acknowledgements_deleted := acknowledgements_deleted c + 1;
     quarantine_deleted := quarantine_deleted c; invalid := invalid c |}.
Definition count_retained (c : prune_counts) : prune_counts :=
  {| deleted := deleted c; retained := retained c + 1; already_pruned := already_pruned c;
     acknowledgements_deleted := acknowledgements_deleted c;
     quarantine_deleted := quarantine_deleted c; invalid := invalid c |}.
Definition count_already_pruned (c : prune_counts) : prune_counts :=
  {| deleted := deleted c; retained := retained c; already_pruned := already_pruned c + 1;
     acknowledgements_deleted := acknowledgements_deleted c + 1;
     quarantine_deleted := quarantine_deleted c; invalid := invalid c |}.
Definition count_quarantine (c : prune_counts) : prune_counts :=
  {| deleted := deleted c; retained := retained c; already_pruned := already_pruned c;
     acknowledgements_deleted := acknowledgements_deleted c;
     quarantine_deleted := quarantine_deleted c + 1; invalid := invalid c |}.
Definition count_invalid (c : prune_counts) : prune_counts :=
  {| deleted := deleted c; retained := retained c; already_pruned := already_pruned c;
     acknowledgements_deleted := acknowledgements_deleted c;
     quarantine_deleted := quarantine_deleted c; invalid := invalid c + 1 |}.

(** [(OSError, ValueError, TypeError, KeyError, JSONDecodeError, SafetyError)];
    validation errors, attribute errors and overflows are not among them. *)
Definition counted (e : exn) : bool :=
  match e with
  | OperationalError _ | ValueError _ | ValueErrorNames _ _ | TypeError | KeyError _ | SafetyError _ => true
  | _ => false
  end.

Definition or_invalid (counts : prune_counts) (p : io prune_counts) : io prune_counts :=
  io_try p (λ e, if counted e then Some (mret (count_invalid counts)) else None).

Definition is_node_char (a : ascii) : bool :=
  is_lower a || is_upper a || is_digit a || Ascii.eqb a "-" || Ascii.eqb a "_".

(** What an acknowledgement says, before its source is looked at: its event,
    its time and the parts of the path of its source *)
Definition read_acknowledgement (source_node_id : string) (ack : json) : res (obj * datetime * path) :=
  match ack with
  | JObj m =>
      raise_if (negb (set_eq (keys m) ACK_FIELDS) || negb (py_eq (get "ack_schema_version" m) (JStr "1.0.0")) ||
                negb (is_true (get "committed" m)))
        (SafetyError "acknowledgement contract is invalid") ;;
      raise_if (negb (py_eq (get "node_id" m) (JStr source_node_id)))
        (SafetyError "acknowledgement belongs to another producer") ;;
      acknowledged ← iso_time (get "acknowledged_at" m);
      relative ← match get "source_path" m with JStr s => Ok s | _ => Err TypeError end;
      event ← match get "input_event_id" m with JStr s => Ok (last_part s) | _ => Err AttributeError end;
      let source := ["spool"; source_node_id; event +:+ ".json"] in
      raise_if (is_absolute relative || negb (bool_decide (path_parts relative = source)))
        (SafetyError "acknowledgement source escapes its producer spool") ;;
      Ok (m, acknowledged, source)
  | _ => Err TypeError
  end.

Section prune.
Context `{env : environment} `{os : host}.

(** The bytes of the source are those the acknowledgement is for. *)
Definition source_matches (ack : obj) (raw : string) : res unit :=
  v ← loads_bytes raw;
  value ← validate_capture_envelope v;
  raise_if (negb (py_eq (get "input_event_id" value) (get "input_event_id" ack)))
    (SafetyError "acknowledgement event does not match source") ;;
  raise_if (negb (py_eq (get "payload_sha256" ack) (JStr (payload_sha256 (JObj value)))) ||
            negb (py_eq (get "source_file_sha256" ack) (JStr (sha256 raw))))
    (SafetyError "acknowledgement hash does not match source").

Definition prune_acknowledgement (source_node_id : string) (threshold : Z) (counts : prune_counts)
    (ack_path : path) : io prune_counts :=
  or_invalid counts (
    regular ← ask (Exists ack_path);
    io_guard (negb regular) (SafetyError "acknowledgement is not a regular file") ;;
    text ← read_ascii ack_path;
    ack ← pure_res (match loads text with Some v => Ok v | None => Err JSON_ERROR end);
    checked ← pure_res (read_acknowledgement source_node_id ack);
    let '(m, acknowledged, source) := checked in
    there ← ask (Exists source);
    if negb there then unlink ack_path ;; mret (count_already_pruned counts)
    else
      raw ← read_bytes source;
      pure_res (source_matches m raw) ;;
      at_ ← pure_res (in_utc acknowledged);
      if threshold <? instant at_ then mret (count_retained counts)
      else
        unlink source ;;
        unlink ack_path ;;
        mret (count_deleted counts)).

Definition QUARANTINE_FIELDS := ["quarantine_schema_version"; "receipt_id"; "error_type"; "content_included"].

(** When the refusal was recorded, by the receipt or else by its file *)
Definition receipt_time (p : path) (value : json) : res datetime :=
  match value with
  | JObj m =>
      let recorded := has_key "recorded_at" m in
      raise_if (negb (set_eq (keys m) (QUARANTINE_FIELDS ++ (if recorded then ["recorded_at"] else []))) ||
                negb (py_eq (get "quarantine_schema_version" m) (JStr "1.0.0")) ||
                negb (is_false (get "content_included" m)))
        (SafetyError "quarantine receipt contract is invalid") ;;
      if recorded then iso_time (get "recorded_at" m)
      else match modified p with
           | Some at_ =>
               let t := epoch_us + micros_of_float at_ in
               if (t <? us_per_day) || ((max_ordinal + 1) * us_per_day <=? t)
               then Err (ValueError "year is out of range") else Ok (of_instant t)
           | None => Err OSError
           end
  | _ => Err TypeError
  end.

Definition prune_receipt (threshold : Z) (counts : prune_counts) (receipt : path) : io prune_counts :=
  or_invalid counts (
    regular ← ask (Exists receipt);
    io_guard (negb regular) (SafetyError "quarantine receipt is not a regular file") ;;
    text ← read_ascii receipt;
    value ← pure_res (match loads text with Some v => Ok v | None => Err JSON_ERROR end);
    recorded ← pure_res (receipt_time receipt value);
    at_ ← pure_res (in_utc recorded);
    if instant at_ <=? threshold then unlink receipt ;; mret (count_quarantine counts)
    else mret counts).

(** The loops of the pruner, over what the directory listed first *)
Fixpoint io_fold {A S} (f : S → A → io S) (s : S) (l : list A) : io S :=
  match l with [] => mret s | x :: r => s' ← f s x; io_fold f s' r end.

Definition clock_of (now : option datetime) : io datetime :=
  match now with
  | Some d => io_guard (negb (aware d)) (SafetyError "retention clock must be timezone-aware") ;; pure_res (to_utc d)
  | None => writer now_
  end.

Definition prune_acknowledged_spools (source_node_id : string) (retention_days : Z) (now : option datetime)
    : io prune_counts :=
  io_guard (retention_days <? 1) (SafetyError "spool retention must be at least one day") ;;
  io_guard (String.eqb source_node_id "" || negb (str_forallb is_node_char source_node_id))
    (SafetyError "source node identity is unsafe") ;;
  clock ← clock_of now;
  threshold ← pure_res (plus_days clock (- retention_days));
  acks ← ask (Glob ["runtime"; "acknowledgements"; source_node_id] 1);
  counts ← io_fold (prune_acknowledgement source_node_id threshold) no_counts acks;
  receipts ← ask (Glob ["quarantine"] 1);
  io_fold (prune_receipt threshold) counts receipts.
End prune.

(** ** The compiler *)
Record compile_counts : Type := { captured : Z; duplicate : Z; quarantined : Z }.

Definition no_results : compile_counts := {| captured := 0; duplicate := 0; quarantined := 0 |}.
Definition count_quarantined (c : compile_counts) : compile_counts :=
  {| captured := captured c; duplicate := duplicate c; quarantined := quarantined c + 1 |}.
(** [counts[result] += 1] *)
Definition count_result (result : string) (c : compile_counts) : compile_counts :=
  if String.eqb result "captured"
  then {| captured := captured c + 1; duplicate := duplicate c; quarantined := quarantined c |}
  else {| captured := captured c; duplicate := duplicate c + 1; quarantined := quarantined c |}.

(** [type(error).__name__] of what the reading of an input may raise *)
Definition error_name (e : exn) : string :=
  match e with
  | ConflictError _ => "ConflictError"
  | ValueError _ | ValueErrorNames _ _ => "ValueError"
  | _ => "ValidationError"
  end.

(** What became of an input that was read: its envelope, the class of the
    error it is quarantined for, or an error that stops the compiler *)
Inductive reading : Type :=
| Accepted (envelope : obj)
| Rejected (error_type : string)
| Stopped (e : exn).

Definition read_input (raw : string) : reading :=
  if negb (valid_utf8 raw) then Rejected "UnicodeDecodeError"
  else match loads raw with
       | None => Rejected "JSONDecodeError"
       | Some (JObj m) =>
           match validate_capture_envelope (JObj m) with
           | Ok envelope => Accepted envelope
           | Err e => match e with
                      | ValueError _ | ValueErrorNames _ _ => Rejected (error_name e)
                      | _ => if is_validation e then Rejected (error_name e) else Stopped e
                      end
           end
       | Some _ => Rejected "ValueError"
       end.

Record input : Type := { in_path : path; in_envelope : obj }.

(** What the scan of the spools gathers *)
Record gathered : Type := { inputs : list input; producers : list string; scanned : compile_counts }.

(** [sorted] on (captured_at, input_event_id, path) *)
Definition input_leb (a b : input) : bool :=
  let at_ i := str_or "captured_at" (in_envelope i) in
  let event i := str_or "input_event_id" (in_envelope i) in
  match String.compare (at_ a) (at_ b) with
  | Lt => true
  | Gt => false
  | Eq => match String.compare (event a) (event b) with
          | Lt => true
          | Gt => false
          | Eq => path_leb (in_path a) (in_path b)
          end
  end.

Section compiler.
Context `{env : environment} `{os : host} `{ucd : unicode_data} `{norm : normalization} (s : store).

Definition gather (g : gathered) (p : path) : io gathered :=
  raw ← read_bytes p;
  match read_input raw with
  | Stopped e => io_raise e
  | Rejected error_type =>
      _quarantine_receipt p error_type ;;
      mret {| inputs := inputs g; producers := producers g; scanned := count_quarantined (scanned g) |}
  | Accepted envelope =>
      committed ← acknowledgement_committed p envelope;
      mret {| inputs := if (committed : bool) then inputs g
                        else inputs g ++ [{| in_path := p; in_envelope := envelope |}];
              producers := producers g ++ [str_or "node_id" envelope]; scanned := scanned g |}
  end.

Definition lease_body (nonce created heartbeat : string) : obj :=
  [("lock_schema_version", JStr "1.0.0"); ("nonce", JStr nonce); ("pid", JInt pid);
   ("host", JStr hostname); ("created_at", JStr created); ("heartbeat_at", JStr heartbeat)].

(** One result of the batch; the heartbeat follows. *)
Definition settle (nonce created : string) (counts : compile_counts) (i : input) (result : res string)
    : io compile_counts :=
  counts ← match result with
           | Err e =>
               if is_validation e || match e with ConflictError _ => true | _ => false end then
                 _quarantine_receipt (in_path i) (error_name e) ;; mret (count_quarantined counts)
               else io_raise TypeError
           | Ok r => _write_acknowledgement (in_path i) (in_envelope i) r ;; mret (count_result r counts)
           end;
  heartbeat ← _now;
  _write_lock_owner (lease_body nonce created heartbeat) ;;
  mret counts.

(** [zip(ordered, batch_results, strict=True)] *)
Fixpoint settle_all (nonce created : string) (counts : compile_counts) (ordered : list input)
    (results : list (res string)) : io compile_counts :=
  match ordered, results with
  | i :: ordered, r :: results =>
      counts ← settle nonce created counts i r;
      settle_all nonce created counts ordered results
  | [], [] => mret counts
  | _, _ => io_raise (ValueError "zip() arguments have different lengths")
  end.

Definition compile_locked (nonce : string) (retention_days batch_size : Z) : io compile_counts :=
  created ← _now;
  heartbeat ← _now;
  _write_lock_owner (lease_body nonce created heartbeat) ;;
  files ← ask (Glob ["spool"] 2);
  g ← io_fold gather {| inputs := []; producers := []; scanned := no_results |} files;
  let ordered := sort_by input_leb (inputs g) in
  results ← writer (apply_capture_batch s (map (λ i, (JObj (in_envelope i), posix (in_path i))) ordered) batch_size);
  counts ← settle_all nonce created (scanned g) ordered results;
  io_each (λ node, prune_acknowledged_spools node retention_days None ;; mret tt)
    (sorted_strs (dedup_strs (producers g))) ;;
  mret counts.

(** The lease is given back only by the compiler that took it. *)
Definition release (nonce : string) : io unit :=
  content ← ask (Read _lock_owner_path);
  match content with
  | None => mret tt
  | Some text =>
      if negb (str_forallb (λ a, byte_val a <? 128) text) then io_raise UNDECODABLE
      else match loads text with
           | None => mret tt
           | Some (JObj current) =>
               if py_eq (get "nonce" current) (JStr nonce) then
                 removed ← ask (Unlink _lock_owner_path);
                 if (removed : bool) then ask (Rmdir LOCK) ;; mret tt else mret tt
               else mret tt
           | Some _ => io_raise AttributeError
           end
  end.

Definition lock_held (state : obj) : exn :=
  SafetyError ("compiler lock already held; refusing a second writer; state=" +:+ str_or "state" state +:+
    " nonce=" +:+ match get_default "nonce" (JStr "unknown") state with JStr n => n | _ => "None" end).

Definition compile_spools (compiler_authorized : bool) (retention_days batch_size : Z) : io compile_counts :=
  io_guard (negb compiler_authorized) (SafetyError "canonical mutation requires explicit compiler authority") ;;
  secure_directory [] ;;
  nonce ← new_nonce;
  locked ← ask (Mkdir LOCK);
  if negb locked then state ← compiler_lock_state; io_raise (lock_held state)
  else
    secure_directory LOCK ;;
    io_finally (compile_locked nonce retention_days batch_size) (release nonce).
End compiler.

(** ** A spool file is written once *)
Lemma write_envelope_run envelope m w :
  validate_capture_envelope envelope = Ok m →
  ∃ r w1, Io.run (write_envelope envelope) w = (r, w1) ∧ backend w1 = backend w ∧
    match files w !! spool_path m with
    | None => r = Ok (spool_path m) ∧ files w1 = <[spool_path m := spool_bytes m]> (files w)
    | Some b => files w1 = files w ∧
        r = if String.eqb b (spool_bytes m) then Ok (spool_path m)
            else Err (ConflictError "same spool event path contains different bytes")
    end.
Proof.
  intros Hm. unfold write_envelope. rewrite run_bind, run_pure, Hm. cbv zeta.
  rewrite run_bind. change (Io.run (secure_directory (parent (spool_path m))) w) with
    (Ok tt, with_dirs (list_to_set (prefixes (parent (spool_path m))) ∪ dirs w) w). cbv beta iota.
  set (w0 := with_dirs _ w). rewrite run_bind, run_ask. cbn [perform fst snd].
  change (files w0) with (files w). destruct (files w !! spool_path m) as [b|] eqn:Hf.
  - rewrite bool_decide_true by by eexists. cbv iota. rewrite run_bind, run_secure_file by by eexists.
    rewrite run_bind, (run_read_bytes _ b) by done.
    exists (if String.eqb b (spool_bytes m) then Ok (spool_path m)
            else Err (ConflictError "same spool event path contains different bytes")), w0.
    by destruct (String.eqb b (spool_bytes m)).
  - rewrite bool_decide_false by (by intros []). cbv iota. rewrite run_bind, run_try, run_publish; [|simpl; set_solver|done].
    eexists _, _. split; [done|]. by split_and!.
Qed.

(** Writing it again changes nothing. *)
Corollary write_envelope_again envelope m w w1 :
  validate_capture_envelope envelope = Ok m → Io.run (write_envelope envelope) w = (Ok (spool_path m), w1) →
  (Io.run (write_envelope envelope) w1).1 = Ok (spool_path m) ∧
  files (Io.run (write_envelope envelope) w1).2 = files w1 ∧ files w1 !! spool_path m = Some (spool_bytes m).
Proof.
  intros Hm Hr. destruct (write_envelope_run envelope m w Hm) as (r & w2 & H & _ & Hf). rewrite Hr in H.
  injection H as <- <-.
  assert (files w1 !! spool_path m = Some (spool_bytes m)) as H1.
  { destruct (files w !! spool_path m) as [b|] eqn:E.
    - destruct Hf as [-> Hb]. destruct (String.eqb_spec b (spool_bytes m)) as [->|]; [done|discriminate].
    - destruct Hf as [_ ->]. apply lookup_insert_eq. }
  destruct (write_envelope_run envelope m w1 Hm) as (r & w2 & H & _ & H2). rewrite H1, String.eqb_refl in H2.
  rewrite H. simpl. by destruct H2 as [-> ->].
Qed.
