(* ===== verification/Asciitext.v ===== *)
(** * Texts that need no escape beyond ASCII

    What the acknowledgements of [Spool] hold - identifiers, digests, times
    and paths - is text that [json.dumps] writes the same way with and
    without ASCII escapes, so the files read back by the round trip of
    [Json]. *)
From S2P Require Import Prelude PyTime Urn Codec Unicode Retrieval Json Names Spool.
Import Sha256.

Definition clean_char (a : ascii) : bool := byte_val a <? 127.
Definition clean (s : string) : bool := str_forallb clean_char s.

Create HintDb clean.

Lemma clean_app a b : clean a = true → clean b = true → clean (a +:+ b) = true.
Proof. unfold clean. rewrite str_forallb_app. by intros -> ->. Qed.

Lemma clean_all p s : (∀ a, p a = true → clean_char a = true) → str_forallb p s = true → clean s = true.
Proof. apply str_forallb_impl. Qed.

Lemma clean_concat l : Forall (λ s, clean s = true) l → clean (str_concat l) = true.
Proof. induction 1; simpl; [done|by apply clean_app]. Qed.

Lemma clean_join sep l : clean sep = true → Forall (λ s, clean s = true) l → clean (join_with sep l) = true.
Proof.
  intros Hs. induction 1 as [|x l Hx Hl IH]; simpl; [done|]. destruct l; [done|].
  apply clean_app; [done|]. by apply clean_app.
Qed.

(** ** The two writers agree on such text. *)
Lemma escape_clean s : clean s = true → str_concat (map ascii_escape (chars s)) = escape s.
Proof.
  intros H. rewrite chars_ascii.
  - induction s as [|a s IH]; simpl in *; [done|]. unfold clean in H. simpl in H. bool_hyps.
    rewrite IH by done. f_equal. unfold ascii_escape.
    destruct (N.eqb_spec (N_of_ascii a) 127) as [E|]; [|done].
    unfold clean_char, byte_val in *. lia.
  - eapply str_forallb_impl; [|exact H]. unfold clean_char, byte_val, is_ascii. intros a Ha%Z.ltb_lt.
    apply N.ltb_lt. lia.
Qed.

Lemma clean_json s : clean s = true → ascii_json_string s = json_string s.
Proof. intros H. unfold ascii_json_string, json_string. by rewrite escape_clean. Qed.

(** An object of texts and other scalars *)
Definition flat (kv : string * json) : Prop :=
  clean kv.1 = true ∧
  match kv.2 with JStr s => clean s = true | JList _ | JObj _ => False | _ => True end.

Lemma dumps_flat m : Forall flat m → dumps_ascii (JObj m) = dumps (JObj m).
Proof.
  intros H. rewrite List.Forall_forall in H. cbn [dumps_ascii dumps]. cbv zeta. do 3 f_equal.
  assert (map (λ kv, (kv.1, dumps_ascii kv.2)) m = map (λ kv, (kv.1, dumps kv.2)) m) as ->.
  { apply map_ext_in. intros [k v] Hi. f_equal. destruct (H _ Hi) as [_ Hv].
    destruct v; simpl in *; try done. by apply clean_json. }
  apply map_ext_in. intros kv Hi. rewrite (clean_json kv.1); [done|].
  apply sort_by_In, in_map_iff in Hi as (kv' & <- & Hi). by apply H.
Qed.

(** ** The texts of an acknowledgement *)
Lemma hex_clean a : is_hex a = true → clean_char a = true.
Proof.
  assert (∀ a, negb (is_hex a) || clean_char a = true) as H by (apply ascii_cases; vm_compute; reflexivity).
  specialize (H a). intros Ha. by rewrite Ha in H.
Qed.

Lemma hex_dash_clean a : hex_dash a = true → clean_char a = true.
Proof.
  assert (∀ a, negb (hex_dash a) || clean_char a = true) as H by (apply ascii_cases; vm_compute; reflexivity).
  specialize (H a). intros Ha. by rewrite Ha in H.
Qed.

Lemma safe_clean s : safe_id s = true → clean s = true.
Proof.
  assert (∀ a, negb (is_lower_alnum a || Ascii.eqb a "-") || clean_char a = true) as H
    by (apply ascii_cases; vm_compute; reflexivity).
  destruct s as [|a s]; [done|]. unfold safe_id, clean. simpl. intros Hs. bool_hyps.
  apply andb_true_intro. split.
  - specialize (H a). match goal with E : is_lower_alnum a = true |- _ => by rewrite E in H end.
  - eapply str_forallb_impl; [|eassumption]. intros b Hb. specialize (H b). by rewrite Hb in H.
Qed.

Lemma event_clean s : is_urn (Some "event") s → clean s = true.
Proof.
  intros (k & u & -> & _ & Hk & z & Hz & -> & _). simpl in Hk. apply String.eqb_eq in Hk as ->.
  assert (clean (uuid_str z) = true) as H by by eapply clean_all; [apply hex_dash_clean|apply uuid_str_shape].
  repeat (apply clean_app; [reflexivity|]). exact H.
Qed.

(** A digest is eight words of 32 bits. *)
Definition word (n : N) : Prop := (n < 2 ^ 32)%N.

Lemma add32_word a b : word (add32 a b).
Proof.
  unfold word, add32, w32, MASK. change 4294967295%N with (N.ones 32). rewrite N.land_ones. by apply N.mod_lt.
Qed.

Lemma digest_words s : Forall word (digest s).
Proof.
  unfold digest. generalize (blocks (length (words (pad (bytes_of s)))) (words (pad (bytes_of s)))).
  intros l. assert (Forall word H0) as H by (repeat constructor; vm_compute; reflexivity).
  revert H. generalize H0. induction l as [|b l IH]; intros st Hst; simpl; [done|]. apply IH.
  unfold compress. apply List.Forall_map, List.Forall_forall. intros p _. apply add32_word.
Qed.

#[local] Transparent sha256.
Lemma sha256_clean s : clean (sha256 s) = true.
Proof.
  unfold sha256. apply clean_concat, List.Forall_map. eapply List.Forall_impl; [|apply digest_words].
  intros w Hw. eapply clean_all; [apply hex_clean|]. apply print_hex_is_hex. unfold word in Hw.
  change (16 ^ Z.of_nat 8) with (Z.of_N (2 ^ 32)). lia.
Qed.
#[local] Opaque sha256.

Lemma digits_clean n z : 0 ≤ z < 10 ^ Z.of_nat n → clean (print_digits n z) = true.
Proof.
  apply print_digits_forallb. intros d Hd. unfold clean_char, byte_val.
  rewrite N_ascii_embedding by lia. apply Z.ltb_lt. lia.
Qed.

Lemma isoformat_clean d : valid_fields d = true → clean (isoformat_utc d) = true.
Proof.
  unfold valid_fields. intros H. bool_hyps. pose proof (days_in_month_le (year d) (month d)).
  assert (clean (if microsecond d =? 0 then "" else "." +:+ print_digits 6 (microsecond d)) = true) as Hu.
  { destruct (_ =? 0); [done|]. apply clean_app; [done|]. apply digits_clean. simpl. lia. }
  unfold isoformat_utc.
  repeat (apply clean_app; [first [reflexivity|apply digits_clean; simpl; lia|exact Hu]|]). reflexivity.
Qed.
#[export] Hint Resolve sha256_clean isoformat_clean event_clean safe_clean clean_app : clean.
