(* ===== verification/Survival.v ===== *)
(** * No capture is lost on the way to the store

    Hooks write captures into their spools while compilers apply them,
    acknowledge them and prune what was acknowledged, in any interleaving and
    with any of them crashing at any call.  Every file that ever was in a
    spool is still there or is recorded in the committed store, unless its
    path is used a second time: the pruner checks and unlinks in two steps, and
    [pruned_unread] is a run in which it unlinks what came between. *)
From stdpp Require Import gmap relations.
From S2P Require Import Prelude PyTime Urn Contracts Codec Unicode Retrieval Json Names Clock Capture Chain.
From S2P Require Import Tables Integrity Txn Approval Store Records Semantic Review Safety Machine.
From S2P Require Import Rollback Intake Io Spool Asciitext.

(** ** What a batch leaves recorded *)
Section recorded.
Context `{signing : crypto} `{ucd : unicode_data} `{norm : normalization} (s : store).

(** An envelope of the event and digest was taken into the store: as an input
    of its own or as feedback the store already has. *)
Definition recorded (event sha : string) (d : db) : Prop :=
  ∃ value h, read_head s value = Ok h ∧ cap_event h = event ∧ payload_sha256 value = sha ∧
    (input_recorded event sha d ∨
     ∃ other, feedback_recorded (cap_operator h) (_feedback_content_sha256 (cap_text h)) other d).

Lemma recorded_durable event sha : durable (recorded event sha).
Proof.
  intros d e Hx (value & h & Hh & He & Hs & H). exists value, h. split_and!; [done..|].
  destruct H as [H|[other H]]; [left; by apply (input_recorded_durable _ _ d)|].
  right. exists other. by apply (feedback_recorded_durable _ _ _ d).
Qed.

Context `{env : environment}.

(** A result that is no error, and what it stands for *)
Definition taken (value : json) (r : res string) (d : db) : Prop :=
  ∀ x, r = Ok x → In x ["captured"; "duplicate"] ∧
    ∃ h, read_head s value = Ok h ∧ recorded (cap_event h) (payload_sha256 value) d.

Lemma taken_durable value r : durable (taken value r).
Proof.
  intros d e Hx H x Hr. destruct (H x Hr) as (? & h & ? & ?). split; [done|]. exists h. split; [done|].
  by apply (recorded_durable _ _ d).
Qed.

Definition at_rest (c : conn) : Prop := live c = saved c ∧ db_ok (saved c).

Lemma find_consumed_recorded event row d :
  find_consumed event d = Some row → input_recorded event (cs_sha row) d.
Proof. intros H. apply find_some in H as [Hr E]. apply String.eqb_eq in E. by exists row. Qed.

Lemma dedup_recorded operator sha d :
  existsb (is_dedup operator sha) (dedup (the_intake d)) = true → ∃ other, feedback_recorded operator sha other d.
Proof.
  rewrite existsb_exists. intros (r & Hr & E). unfold is_dedup in E. bool_hyps.
  repeat match goal with H : String.eqb _ _ = true |- _ => apply String.eqb_eq in H end.
  exists (dd_event r), r. by split_and!.
Qed.

Lemma tail_duplicate value path h c c1 :
  capture_tail value path h c = (Ok "duplicate", c1) → read_head s value = Ok h →
  recorded (cap_event h) (payload_sha256 value) (live c1).
Proof.
  unfold capture_tail. intros H Hh. exists value, h. split_and!; [done..|]. inv_txn.
  match goal with H : utc_now c = _ |- _ => apply utc_now_live in H as E end.
  destruct (find_consumed _ _) as [row|] eqn:Hf.
  - destruct (String.eqb_spec (cs_sha row) (payload_sha256 value)) as [Es|]; inv_txn.
    left. rewrite <- Es. by apply find_consumed_recorded.
  - inv_txn. destruct (existsb _ _) eqn:Hd; inv_txn; [|done]. right. by apply dedup_recorded.
Qed.

Lemma apply_capture_rests value path c :
  at_rest c → at_rest (apply_capture s value path c).2 ∧
              extends (saved c) (saved (apply_capture s value path c).2).
Proof.
  intros [Hl Hd]. destruct (apply_capture_safe s value path c Hd) as [H1 H2]. split; [split|]; [|done..].
  unfold apply_capture, connect. destruct (_apply_capture_on_connection s value path (rollback c)) as [[a|e] c']; done.
Qed.

Lemma apply_capture_taken value path c :
  at_rest c → taken value (apply_capture s value path c).1 (saved (apply_capture s value path c).2).
Proof.
  intros [Hl Hd] x Hx. destruct (apply_capture s value path c) as [r c1] eqn:E. simpl in *. subst r.
  pose proof E as E'. apply capture_Ok in E' as (h & c2 & Hh & Ht & ->).
  assert (x = "captured" ∨ x = "duplicate") as [->| ->].
  { revert Ht. unfold capture_tail. intros Ht. inv_txn.
    destruct (find_consumed _ _) as [row|]; [destruct (String.eqb _ _); inv_txn; auto; discriminate|].
    inv_txn. destruct (existsb _ _); inv_txn; auto. }
  - split; [by left|]. exists h. split; [done|].
    assert (c = open_on (saved c) (drawn c) (ticks c)) as Ec by (destruct c; simpl in *; by rewrite Hl).
    rewrite Ec in E. destruct (captured_stores s value path _ _ _ _ h Hd E Hh) as [[_ Hi] _].
    exists value, h. split_and!; [done..|]. by left.
  - split; [by right; left|]. exists h. split; [done|]. by apply (tail_duplicate value path h) in Ht.
Qed.

Lemma sequence_taken items : ∀ c, at_rest c →
  at_rest (capture_sequence s items c).2 ∧ extends (saved c) (saved (capture_sequence s items c).2) ∧
  Forall2 (λ i r, taken i.1 r (saved (capture_sequence s items c).2)) items (capture_sequence s items c).1.
Proof.
  induction items as [|[value path] items IH]; intros c Hc; simpl; [by split_and!|].
  pose proof (apply_capture_rests value path c Hc) as [H1 Hx1].
  pose proof (apply_capture_taken value path c Hc) as Ht.
  destruct (apply_capture s value path c) as [r c1]. simpl in *. destruct (IH c1 H1) as (H2 & Hx2 & Hf).
  destruct (capture_sequence s items c1) as [rs c2]. simpl in *. split_and!; [done|by etrans|].
  constructor; [|done]. by apply (taken_durable value r (saved c1)).
Qed.

Lemma batch_taken items size c :
  at_rest c →
  at_rest (apply_capture_batch s items size c).2 ∧
  extends (saved c) (saved (apply_capture_batch s items size c).2) ∧
  ∀ os, (apply_capture_batch s items size c).1 = Ok os →
    Forall2 (λ i r, taken i.1 r (saved (apply_capture_batch s items size c).2)) items os.
Proof.
  intros [Hl Hd]. destruct (apply_capture_batch_safe s items size c Hd) as [H1 H2].
  revert H1 H2. unfold apply_capture_batch. rewrite txn_guard_bind. destruct (negb _) eqn:Hb.
  { intros ? ?. split_and!; [by split|done|discriminate]. }
  apply negb_false_iff, andb_true_iff in Hb as [Hb _]. unfold connect.
  destruct (capture_groups _ _ _ _ _) as [[os|e] c1] eqn:E; simpl; intros H1 H2;
    (split_and!; [by split|done|]); [|discriminate]. intros os' [= <-].
  apply groups_sequence in E; [|lia|lia].
  destruct (sequence_taken items (Intake.settled (rollback c)) (conj eq_refl Hd)) as (_ & _ & Hf).
  rewrite E in Hf. exact Hf.
Qed.
End recorded.

(** ** Files and what they stand for *)
Definition spooled (p : path) : bool :=
  match p with [x; _; _] => String.eqb x "spool" | _ => false end.
Definition is_ack (p : path) : bool :=
  match p with [x; y; _; _] => String.eqb x "runtime" && String.eqb y "acknowledgements" | _ => false end.

Section survival.
Context `{signing : crypto} `{env : environment} `{os : host} `{ucd : unicode_data} `{norm : normalization}.
Context (s : store) (offered : path → string → Prop).

(** What an acknowledgement says was recorded *)
Definition honest (c : string) (d : db) : Prop :=
  ∀ m, loads c = Some (JObj m) → ∃ event sha, get "input_event_id" m = JStr event ∧
    get "payload_sha256" m = JStr sha ∧ recorded s event sha d.

(** The capture a file held is recorded: the same event with the same
    canonical bytes, as far as SHA-256 tells. *)
Definition kept (raw : string) (d : db) : Prop :=
  ∃ v e event, loads_bytes raw = Ok v ∧ validate_capture_envelope v = Ok e ∧
    get "input_event_id" e = JStr event ∧ recorded s event (payload_sha256 (JObj e)) d.

(** A recorded capture in other bytes that were offered for the same path *)
Definition reused (p : path) (raw : string) (d : db) : Prop :=
  ∃ other, other ≠ raw ∧ offered p other ∧ kept other d.

Definition accounted (p : path) (raw : string) (d : db) : Prop := kept raw d ∨ reused p raw d.

(** What is in a spool was offered for its path: it was there before the run,
    or somebody wants to write it there. *)
Record inv (w : world) : Prop := {
  iv_store : at_rest (backend w);
  iv_spool : ∀ p raw, spooled p = true → files w !! p = Some raw → offered p raw;
  iv_acks : ∀ p c, is_ack p = true → files w !! p = Some c → honest c (seen w)
}.

Record moves (w w1 : world) : Prop := {
  mv_store : extends (seen w) (seen w1);
  mv_spool : ∀ p raw, spooled p = true → files w !! p = Some raw →
    files w1 !! p = Some raw ∨ accounted p raw (seen w1)
}.

Lemma honest_durable c : durable (honest c).
Proof.
  intros d e Hx H m Hm. destruct (H m Hm) as (event & sha & ? & ? & Hr). exists event, sha.
  split_and!; [done..|]. by apply (recorded_durable s _ _ d).
Qed.

Lemma kept_durable raw : durable (kept raw).
Proof.
  intros d e Hx (v & en & event & ? & ? & ? & Hr). exists v, en, event. split_and!; [done..|].
  by apply (recorded_durable s _ _ d).
Qed.

Lemma accounted_durable p raw : durable (accounted p raw).
Proof.
  intros d e Hx [H|(other & ? & ? & H)]; [left; by apply (kept_durable raw d)|].
  right. exists other. split_and!; [done..|]. by apply (kept_durable other d).
Qed.

#[local] Instance moves_preorder : PreOrder moves.
Proof.
  split; [by intros w; split; [reflexivity|auto]|]. intros w w1 w2 [H1 H2] [H3 H4]. split; [by etrans|].
  intros p raw Hp Hf. destruct (H2 p raw Hp Hf) as [Hf1|Hk]; [auto|]. right. by apply (accounted_durable p raw (seen w1)).
Qed.

(** ** Calls that need no thought *)
Definition mild {B} (w : world) (c : call B) : Prop :=
  match c with
  | Link p content => (spooled p = true → offered p content) ∧ (is_ack p = true → honest content (seen w))
  | Replace p content => spooled p = false ∧ (is_ack p = true → honest content (seen w))
  | Unlink p => spooled p = true → ∃ raw, offered p raw ∧ kept raw (seen w)
  | Query m => idle m
  | _ => True
  end.

Lemma mild_later {B} w w1 (c : call B) : moves w w1 → mild w c → mild w1 c.
Proof.
  intros [Hx _]. destruct c; simpl; try done.
  - intros [H1 H2]. split; [done|]. intros H. by apply (honest_durable _ (seen w)), H2.
  - intros [H1 H2]. split; [done|]. intros H. by apply (honest_durable _ (seen w)), H2.
  - intros H Hp. destruct (H Hp) as (raw & ? & Hk). exists raw. split; [done|]. by apply (kept_durable raw (seen w)).
Qed.

Lemma inv_insert p content w :
  inv w → (spooled p = true → offered p content ∧ files w !! p = None) →
  (is_ack p = true → honest content (seen w)) →
  inv (with_files (<[p := content]> (files w)) w) ∧ moves w (with_files (<[p := content]> (files w)) w).
Proof.
  intros [H1 H2 H3] Ho Ha. split; [split|split]; simpl; try done.
  - intros q raw Hq. destruct (decide (p = q)) as [<-|Hne]; [rewrite lookup_insert_eq; intros [= <-]; by apply Ho|].
    rewrite lookup_insert_ne by done. auto.
  - intros q c Hq. destruct (decide (p = q)) as [<-|Hne]; [rewrite lookup_insert_eq; intros [= <-]; auto|].
    rewrite lookup_insert_ne by done. by apply H3.
  - intros q raw Hq Hf. left. destruct (decide (p = q)) as [<-|Hne]; [|by rewrite lookup_insert_ne].
    destruct (Ho Hq) as [_ Hn]. congruence.
Qed.

Lemma inv_delete p w :
  inv w → (spooled p = true → ∃ raw, offered p raw ∧ kept raw (seen w)) →
  inv (with_files (delete p (files w)) w) ∧ moves w (with_files (delete p (files w)) w).
Proof.
  intros [H1 H2 H3] Hk. split; [split|split]; simpl; try done.
  - intros q raw Hq [_ Hf]%lookup_delete_Some. auto.
  - intros q c Hq [_ Hf]%lookup_delete_Some. by apply (H3 q).
  - intros q raw Hq Hf. destruct (decide (p = q)) as [<-|Hne]; [|left; by rewrite lookup_delete_ne].
    right. destruct (Hk Hq) as (raw' & Ho & Hr). destruct (decide (raw' = raw)) as [->|]; [by left|].
    right. by exists raw'.
Qed.

Lemma inv_backend c w :
  inv w → at_rest c → extends (seen w) (live c) → inv (with_backend c w) ∧ moves w (with_backend c w).
Proof.
  intros [H1 H2 H3] Hc Hx. split; [split|split]; simpl; try done; [|by left].
  intros p content Hp Hf. by apply (honest_durable _ (seen w)), (H3 p).
Qed.

Lemma mild_step {B} w (c : call B) : inv w → mild w c → inv (perform c w).2 ∧ moves w (perform c w).2.
Proof.
  intros Hi Hm. assert (∀ d, inv (with_dirs d w) ∧ moves w (with_dirs d w)) as Hd.
  { intros d. destruct Hi. split; [by split|]. by split; [reflexivity|left]. }
  assert (inv w ∧ moves w w) as Hw by (split; [done|reflexivity]).
  destruct c; simpl in *; try done.
  - destruct (files w !! p) eqn:E; [done|]. destruct Hm. apply inv_insert; auto.
  - destruct Hm as [Hs ?]. apply inv_insert; [done| |done]. rewrite Hs. discriminate.
  - by apply inv_delete.
  - destruct (bool_decide _); simpl; auto.
  - destruct (m (backend w)) as [r c1] eqn:E. destruct (Hm (backend w)) as [Hl Hs]. rewrite E in *. simpl in *.
    destruct Hi as [[Hr Hok] H2 H3]. apply inv_backend; [by split| |unfold seen; by rewrite Hl].
    split; [congruence|]. by rewrite Hs.
Qed.

(** ** Programs of such calls *)
Definition answers {B} (w : world) (c : call B) (b : B) : Prop :=
  ∃ w1, inv w1 ∧ moves w w1 ∧ b = (perform c w1).1.

Fixpoint mildly {A} (w : world) (Q : A → Prop) (p : io A) : Prop :=
  match p with
  | Done r => match r with Ok a => Q a | Err _ => True end
  | Call c k => mild w c ∧ ∀ b, answers w c b → mildly w Q (k b)
  end.

Lemma answers_later {B} w w1 (c : call B) b : moves w w1 → answers w1 c b → answers w c b.
Proof. intros H (w2 & ? & ? & ?). exists w2. split_and!; [done| |done]. by etrans. Qed.

Lemma mildly_later {A} w w1 (Q : A → Prop) p : moves w w1 → mildly w Q p → mildly w1 Q p.
Proof.
  intros H. induction p as [r|B c k IH]; simpl; [done|]. intros [Hc Hk].
  split; [by apply (mild_later w)|]. intros b Hb. apply IH, Hk. by apply (answers_later w w1).
Qed.

Lemma mildly_weaken {A} w (P Q : A → Prop) p : (∀ a, P a → Q a) → mildly w P p → mildly w Q p.
Proof.
  intros H. induction p as [r|B c k IH]; simpl; [destruct r; auto|]. intros [Hc Hk]. split; [done|]. auto.
Qed.

Lemma mildly_and_then {A B} w (P : A → Prop) (Q : B → Prop) (p : io A) f :
  mildly w P p → (∀ a, P a → mildly w Q (f (Ok a))) → (∀ e, mildly w Q (f (Err e))) →
  mildly w Q (and_then_io p f).
Proof.
  intros Hp H1 H2. induction p as [r|C c k IH]; simpl in *; [destruct r; auto|].
  destruct Hp as [Hc Hk]. split; [done|]. auto.
Qed.

Lemma mildly_bind {A B} w (P : A → Prop) (Q : B → Prop) (p : io A) f :
  mildly w P p → (∀ a, P a → mildly w Q (f a)) → mildly w Q (p ≫= f).
Proof. intros Hp Hf. by eapply mildly_and_then; [exact Hp|exact Hf|]. Qed.

Lemma mildly_ask {A B} w (Q : A → Prop) (c : call B) f :
  mild w c → (∀ b, answers w c b → mildly w Q (f b)) → mildly w Q (ask c ≫= f).
Proof. done. Qed.

Lemma mildly_try {A} w (Q : A → Prop) (p : io A) h :
  mildly w Q p → (∀ e q, h e = Some q → mildly w Q q) → mildly w Q (io_try p h).
Proof. intros Hp Hh. eapply mildly_and_then; [exact Hp|done|]. intros e. destruct (h e) eqn:E; simpl; eauto. Qed.

Lemma mildly_ret {A} w (Q : A → Prop) a : Q a → mildly w Q (mret a).
Proof. done. Qed.
Lemma mildly_raise {A} w (Q : A → Prop) e : mildly w Q (io_raise e).
Proof. done. Qed.
Lemma mildly_pure {A} w (Q : A → Prop) (r : res A) : (∀ a, r = Ok a → Q a) → mildly w Q (pure_res r).
Proof. destruct r; simpl; auto. Qed.
Lemma mildly_guard w b e : mildly w (λ _, b = false) (io_guard b e).
Proof. by destruct b. Qed.

(** ** Programs that keep the invariant *)
Definition fine {A} (p : io A) (w : world) : Prop := ok inv moves (λ _ _, True) p w.

Lemma mildly_ok {A} (P : A → Prop) (Q : res A → world → Prop) p w :
  mildly w P p →
  (∀ r w1, inv w1 → moves w w1 → match r with Ok a => P a | Err _ => True end → Q r w1) →
  ok inv moves Q p w.
Proof.
  revert w. induction p as [r|B c k IH]; simpl; intros w Hp HQ; [by intros; apply HQ|].
  destruct Hp as [Hc Hk]. intros w1 H1 H2. destruct (mild_step w1 c H1) as [H3 H4]; [by apply (mild_later w)|].
  split_and!; [done..|]. apply IH.
  - apply (mildly_later w); [by trans w1|]. apply Hk. by exists w1.
  - intros r w2 H5 H6. apply HQ; [done|]. trans w1; [done|]. by etrans.
Qed.

Lemma fine_mildly {A} (P : A → Prop) p w : mildly w P p → fine p w.
Proof. intros H. by eapply mildly_ok. Qed.

Lemma fine_later {A} (p : io A) w w1 : moves w w1 → fine p w → fine p w1.
Proof. apply ok_later, _. Qed.

Lemma fine_and_then {A B} (P : A → Prop) (p : io A) (f : res A → io B) w :
  mildly w P p →
  (∀ r w1, inv w1 → moves w w1 → match r with Ok a => P a | Err _ => True end → fine (f r) w1) →
  fine (and_then_io p f) w.
Proof. intros Hp Hf. apply ok_and_then; [apply _|]. by eapply mildly_ok. Qed.

Lemma fine_bind {A B} (P : A → Prop) (p : io A) (f : A → io B) w :
  mildly w P p → (∀ a w1, inv w1 → moves w w1 → P a → fine (f a) w1) → fine (p ≫= f) w.
Proof. intros Hp Hf. eapply fine_and_then; [exact Hp|]. intros [a|e] w1 ???; [by apply Hf|done]. Qed.

Lemma fine_then {A B} (p : io A) (f : res A → io B) w :
  fine p w → (∀ r w1, inv w1 → moves w w1 → fine (f r) w1) → fine (and_then_io p f) w.
Proof.
  intros Hp Hf. apply ok_and_then; [apply _|]. eapply ok_weaken; [|apply ok_track; [apply _|exact Hp]].
  intros r w1 (? & ? & _). by apply Hf.
Qed.

Lemma fine_then_bind {A B} (p : io A) (f : A → io B) w :
  fine p w → (∀ a w1, inv w1 → moves w w1 → fine (f a) w1) → fine (p ≫= f) w.
Proof. intros Hp Hf. apply fine_then; [done|]. intros [a|e] w1 ??; [by apply Hf|done]. Qed.

Lemma fine_try {A} (p : io A) h w :
  fine p w → (∀ e q w1, h e = Some q → inv w1 → moves w w1 → fine q w1) → fine (io_try p h) w.
Proof.
  intros Hp Hh. apply fine_then; [done|]. intros [a|e] w1 ??; [done|]. destruct (h e) eqn:E; [by eapply Hh|done].
Qed.

(** A call whose answer is looked at where it is given *)
Lemma fine_ask {A B} (c : call B) (f : B → io A) w :
  mild w c →
  (∀ w1, inv w1 → moves w w1 → fine (f (perform c w1).1) (perform c w1).2) → fine (ask c ≫= f) w.
Proof.
  intros Hc Hf w1 H1 H2. destruct (mild_step w1 c H1) as [H3 H4]; [by apply (mild_later w)|].
  split_and!; [done..|]. by apply Hf.
Qed.

(** ** The small programs *)
Create HintDb mild.

Ltac mild_step :=
  lazymatch goal with
  | |- mildly _ _ (mbind _ (ask _)) => apply mildly_ask; [try done|intros ? _]
  | |- mildly _ _ (mbind _ (io_guard _ _)) => eapply mildly_bind; [apply mildly_guard|intros ? ?]
  | |- mildly _ _ (mbind _ (pure_res _)) => eapply mildly_bind; [apply mildly_pure; let E := fresh in intros ? E; exact E|intros ? ?]
  | |- mildly _ _ (mbind _ (mret _)) => eapply mildly_bind; [apply mildly_ret; exact I|intros ? _]
  | |- mildly _ _ (mbind _ (io_try _ _)) => eapply (mildly_bind _ (λ _, True)); [|intros ? _]
  | |- mildly _ _ (mbind _ _) => eapply mildly_bind; [solve [eauto with mild]|intros ? ?]
  | |- mildly _ _ (io_try _ _) =>
      apply mildly_try; [|let e := fresh "e" in intros e ? ?; destruct e; simplify_eq]
  | |- mildly _ _ (if ?b then _ else _) => destruct b eqn:?
  | |- mildly _ _ (match ?x with _ => _ end) => destruct x eqn:?
  | |- mildly _ _ (mret _) => apply mildly_ret
  | |- mildly _ _ (io_raise _) => apply mildly_raise
  | |- mildly _ _ (ask _) => split; [try done|done]
  | |- mildly _ _ (io_guard ?b _) => destruct b; done
  | |- mildly _ _ (pure_res _) => apply mildly_pure; intros ? ?
  | |- mildly _ _ _ => progress cbv zeta
  end.
Ltac mild := repeat mild_step; try done; try solve [eauto with mild].

Lemma mildly_secure_directory w p : mildly w (λ _, True) (secure_directory p).
Proof. by split. Qed.
Lemma mildly_secure_file w p : mildly w (λ _, True) (secure_file p).
Proof. unfold secure_file. mild. Qed.
Lemma mildly_read_bytes w p : mildly w (λ _, True) (read_bytes p).
Proof. unfold read_bytes. mild. Qed.
Hint Resolve mildly_secure_directory mildly_secure_file mildly_read_bytes : mild.
Lemma mildly_read_ascii w p : mildly w (λ _, True) (read_ascii p).
Proof. unfold read_ascii. mild. Qed.
Lemma mildly_publish w p content : mild w (Link p content) → mildly w (λ _, True) (publish_new_private p content).
Proof. intros H. unfold publish_new_private. mild. Qed.
Lemma mildly_replace w p content : mild w (Replace p content) → mildly w (λ _, True) (replace_private p content).
Proof. intros H. unfold replace_private. mild. Qed.
Lemma mildly_writer {A} w (m : txn A) : idle m → mildly w (λ _, True) (writer m).
Proof. intros H. unfold writer. mild. Qed.
Lemma mildly_nonce w : mildly w (λ _, True) new_nonce.
Proof. by apply mildly_writer. Qed.
Lemma mildly_now_ w : mildly w (λ _, True) (writer now_).
Proof. apply mildly_writer. auto with rollback. Qed.
Lemma mildly_unlink w p : spooled p = false → mildly w (λ _, True) (unlink p).
Proof. intros H. unfold unlink. mild. simpl. by rewrite H. Qed.
Hint Resolve mildly_read_ascii mildly_nonce mildly_now_ : mild.

Context (real_clock : ∀ n, valid_fields (clock n) = true).
Context (clean_names : ∀ p raw, offered p raw → Forall (λ x, clean x = true) p).

Lemma mildly_now w : mildly w (λ t, clean t = true) _now.
Proof.
  unfold _now, writer. apply mildly_ask; [apply idle_utc_now|]. intros b (w1 & _ & _ & ->). simpl.
  unfold utc_now, now_, mbind, txn_bind. simpl. by apply isoformat_clean.
Qed.
Hint Resolve mildly_now : mild.

Lemma mildly_owner w owner : mildly w (λ _, True) (_write_lock_owner owner).
Proof. apply mildly_replace. by split. Qed.

Lemma mildly_quarantine w p e : mildly w (λ _, True) (_quarantine_receipt p e).
Proof.
  unfold _quarantine_receipt. mild. apply mildly_publish. by split.
Qed.

Lemma mildly_matches w target body : mildly w (λ _, True) (matches_prior target body).
Proof. unfold matches_prior. mild. Qed.

Lemma mildly_committed w p e : mildly w (λ _, True) (acknowledgement_committed p e).
Proof. unfold acknowledgement_committed. mild. Qed.

Lemma mildly_release w nonce : mildly w (λ _, True) (release nonce).
Proof. unfold release. mild. Qed.

Lemma mildly_lock_state w : mildly w (λ _, True) compiler_lock_state.
Proof. unfold compiler_lock_state. mild. Qed.
Hint Resolve mildly_owner mildly_quarantine mildly_matches mildly_committed mildly_release mildly_lock_state : mild.

Lemma mildly_fold {A S} w (P : S → Prop) (f : S → A → io S) l : ∀ x,
  P x → (∀ x y, In y l → P x → mildly w P (f x y)) → mildly w P (io_fold f x l).
Proof.
  induction l as [|y l IH]; intros x Hx Hf; simpl; [done|].
  eapply mildly_bind; [apply Hf; [by left|done]|]. intros x' Hx'. apply IH; [done|]. intros. apply Hf; [by right|done].
Qed.

(** ** What a directory lists *)
Lemma listing_In p d n f :
  In p (listing d n f) → is_Some (f !! p) ∧ take (length d) p = d ∧ length p = (length d + n)%nat.
Proof.
  unfold listing. rewrite sort_by_In, filter_In. intros [([q raw] & <- & Hi)%in_map_iff Hb]. bool_hyps.
  apply list_elem_of_In, elem_of_map_to_list in Hi. split; [by eexists|].
  repeat match goal with H : bool_decide _ = true |- _ => apply bool_decide_eq_true in H end.
  split; [done|]. match goal with H : Nat.eqb _ _ = true |- _ => by apply Nat.eqb_eq in H end.
Qed.

Definition sourced (p : path) : Prop := spooled p = true ∧ ∃ raw, offered p raw.

Lemma spool_listing w p : inv w → In p (listing ["spool"] 2 (files w)) → sourced p.
Proof.
  intros Hi H. apply listing_In in H as ([raw Hf] & Ht & Hl). destruct p as [|x [|y [|z [|]]]]; try done.
  simpl in Ht. injection Ht as ->. split; [done|]. exists raw. by apply (iv_spool _ Hi).
Qed.

Lemma ack_listing node p f : In p (listing ["runtime"; "acknowledgements"; node] 1 f) → is_ack p = true.
Proof.
  intros (_ & Ht & Hl)%listing_In. destruct p as [|x [|y [|z [|u [|]]]]]; try done.
  simpl in Ht. by injection Ht as -> -> ->.
Qed.

Lemma receipt_listing p f : In p (listing ["quarantine"] 1 f) → spooled p = false.
Proof. intros (_ & Ht & Hl)%listing_In. by destruct p as [|x [|y [|]]]. Qed.

(** ** Acknowledgements *)
Lemma envelope_names v e :
  validate_capture_envelope v = Ok e →
  v = JObj e ∧ ∃ event node, get "input_event_id" e = JStr event ∧ clean event = true ∧
    get "node_id" e = JStr node ∧ clean node = true.
Proof.
  intros H. pose proof (capture_envelope_elim v e H) as [-> _]. split; [done|].
  unfold validate_capture_envelope in H. apply bind_Ok in H as (m & Hm & H). injection Hm as <-.
  apply bind_Ok in H as (? & _ & H). apply bind_Ok in H as (? & _ & H). apply bind_Ok in H as (? & _ & H).
  apply bind_Ok in H as (event & He & H). do 2 apply bind_Ok in H as (? & _ & H).
  apply bind_Ok in H as (node & Hn & H). apply bind_Ok in H as (? & Hs & _).
  unfold capture_urn in He. apply bind_Ok in He as (ev & Hi & He). apply require_urn_is_urn in He as [-> Hu].
  apply item_Ok, assoc_get in Hi, Hn. apply raise_if_Ok, negb_false_iff in Hs. destruct node as [| | | |n| |]; try done.
  exists event, n. split_and!; [done|by apply event_clean|done|by apply safe_clean].
Qed.

Lemma ack_reads e p source result now event node :
  get "input_event_id" e = JStr event → get "node_id" e = JStr node → clean event = true → clean node = true →
  clean result = true → clean now = true → clean (posix p) = true →
  loads (dumps_ascii (JObj (ack_body e p source result now)) +:+ newline) =
    Some (JObj (ack_body e p source result now)).
Proof.
  intros He Hn ?????. unfold ack_body. rewrite He, Hn. rewrite dumps_flat.
  - rewrite loads_text; [reflexivity| |by constructor; right; right; right; left|done].
    apply plain_obj. split; [|by repeat constructor]. simpl.
    repeat (constructor; [simpl; intros Hi; repeat destruct Hi as [Hi|Hi]; done|]). constructor.
  - unfold payload_sha256. repeat (constructor; [split; [reflexivity|simpl; auto with clean]|]). constructor.
Qed.

Lemma posix_clean p : sourced p → clean (posix p) = true.
Proof. intros [_ [raw H]]. apply clean_join; [done|]. by apply (clean_names p raw). Qed.

Definition good (i : input) : Prop :=
  sourced (in_path i) ∧ ∃ v, validate_capture_envelope v = Ok (in_envelope i).

Lemma taken_recorded e r d event :
  validate_capture_envelope (JObj e) = Ok e → get "input_event_id" e = JStr event →
  taken s (JObj e) (Ok r) d → In r ["captured"; "duplicate"] ∧ recorded s event (payload_sha256 (JObj e)) d.
Proof.
  intros Hv He Ht. destruct (Ht r eq_refl) as (Hr & h & Hh & Hd). split; [done|].
  enough (cap_event h = event) as <- by done. revert Hh. unfold read_head. rewrite Hv. simpl. intros Hh. inv_ok. simpl.
  match goal with H : text_item "input_event_id" e = Ok _ |- _ =>
    apply text_item_Ok, assoc_get in H; congruence end.
Qed.

Lemma mildly_acknowledge w i r :
  good i → taken s (JObj (in_envelope i)) (Ok r) (seen w) →
  mildly w (λ _, True) (_write_acknowledgement (in_path i) (in_envelope i) r).
Proof.
  intros (Hp & v & Hv) Ht. destruct (envelope_names v _ Hv) as (-> & event & node & He & ? & Hn & ?).
  destruct (taken_recorded _ _ _ _ Hv He Ht) as [Hr Hd].
  assert (clean r = true) as Hcr by (destruct Hr as [<-|[<-|[]]]; done).
  unfold _write_acknowledgement. cbv zeta. do 3 mild_step. mild. apply mildly_publish. split; [done|].
  intros _ m Hm. rewrite (ack_reads _ _ _ _ _ event node) in Hm by auto using posix_clean.
  injection Hm as <-. by exists event, (payload_sha256 (JObj (in_envelope i))).
Qed.

Lemma mildly_settle_all w nonce created ordered : ∀ results counts,
  Forall good ordered → Forall2 (λ i r, taken s (JObj (in_envelope i)) r (seen w)) ordered results →
  mildly w (λ _, True) (settle_all nonce created counts ordered results).
Proof.
  induction ordered as [|i ordered IH]; intros results counts Hg Ht; inversion Ht as [|? r ? results' Hr Ht']; subst; [done|].
  apply List.Forall_cons_iff in Hg as [Hi Hg]. simpl.
  eapply (mildly_bind _ (λ _, True)); [|intros counts' _; by apply IH]. unfold settle.
  eapply (mildly_bind _ (λ _, True)); [|intros; mild].
  destruct r as [r|e]; [|mild]. eapply mildly_bind; [by apply mildly_acknowledge|]. intros. mild.
Qed.

(** ** The scan, the pruner and the compiler *)
Lemma accepted_validated raw e : read_input raw = Accepted e → ∃ v, validate_capture_envelope v = Ok e.
Proof.
  unfold read_input. destruct (negb _); [done|]. destruct (loads raw) as [[| | | | | |m]|]; try done.
  destruct (validate_capture_envelope (JObj m)) as [e'|x] eqn:E; [|by destruct x]. intros [= <-]. by eexists.
Qed.

Lemma mildly_gather w g p :
  sourced p → Forall good (inputs g) → mildly w (λ g, Forall good (inputs g)) (gather g p).
Proof.
  intros Hp Hg. unfold gather. mild_step. destruct (read_input a) as [e|error_type|e] eqn:E; mild.
  apply accepted_validated in E. simpl. match goal with |- context [if ?b then _ else _] => destruct b end; [done|].
  apply List.Forall_app. split; [done|]. constructor; [by split|constructor].
Qed.

Lemma mildly_write_envelope w envelope :
  (∀ m, validate_capture_envelope envelope = Ok m → offered (spool_path m) (spool_bytes m)) →
  mildly w (λ _, True) (write_envelope envelope).
Proof.
  intros Ho. unfold write_envelope. mild. apply mildly_publish. split; [|done]. intros _. by apply Ho.
Qed.

Lemma source_kept m raw event sha d u :
  source_matches m raw = Ok u → get "input_event_id" m = JStr event → get "payload_sha256" m = JStr sha →
  recorded s event sha d → kept raw d.
Proof.
  unfold source_matches. intros H He Hs Hr. inv_ok. rewrite He, Hs in *. bool_hyps.
  repeat match goal with H : negb _ = false |- _ => apply negb_false_iff in H | H : py_eq _ _ = true |- _ => apply py_eq_str in H end.
  simplify_eq. eexists _, _, event. split_and!; [eassumption..|done].
Qed.

Lemma fine_pure {A B} (r : res A) (f : A → io B) w : (∀ a, r = Ok a → fine (f a) w) → fine (pure_res r ≫= f) w.
Proof. intros H. destruct r as [a|e]; [by apply H|]. by intros w1 _ _. Qed.

Lemma fine_read {A} p (f : string → io A) w :
  (∀ w1 text, inv w1 → moves w w1 → files w1 !! p = Some text → fine (f text) w1) → fine (read_bytes p ≫= f) w.
Proof.
  intros Hf w1 H1 H2. split_and!; [done|reflexivity|]. simpl.
  destruct (files w1 !! p) as [text|] eqn:E; simpl; [by apply Hf|done].
Qed.

Lemma fine_read_ascii {A} p (f : string → io A) w :
  (∀ w1 text, inv w1 → moves w w1 → files w1 !! p = Some text → fine (f text) w1) → fine (read_ascii p ≫= f) w.
Proof.
  intros Hf w1 H1 H2. split_and!; [done|reflexivity|]. simpl.
  destruct (files w1 !! p) as [text|] eqn:E; simpl; [|done].
  destruct (negb _); simpl; [done|by apply Hf].
Qed.

Lemma fine_prune_acknowledgement w node threshold counts a :
  is_ack a = true → fine (prune_acknowledgement node threshold counts a) w.
Proof.
  intros Ha. assert (spooled a = false) as Hn by by destruct a as [|x [|y [|z [|u [|]]]]].
  unfold prune_acknowledgement, or_invalid. apply fine_try; [|intros e q w1 Hq ??; destruct (counted e); by simplify_eq].
  apply fine_ask; [done|]. intros w1 H1 M1. eapply fine_bind; [apply mildly_guard|]. intros u w2 H2 M2 _. clear u.
  apply fine_read_ascii. intros w3 text H3 M3 Hf. pose proof (iv_acks _ H3 _ _ Ha Hf) as Hh.
  apply fine_pure. intros ack El. destruct (loads text) as [ack'|] eqn:El'; [|done]. injection El as ->.
  apply fine_pure. intros [[m at_] source] Er. cbv beta iota.
  assert (ack = JObj m ∧ spooled source = true) as [-> Hsp].
  { unfold read_acknowledgement in Er. destruct ack; try done. by inv_ok. }
  destruct (Hh m El') as (event & sha & He & Hs & Hr).
  apply fine_ask; [done|]. intros w4 H4 M4. destruct (negb _).
  { eapply fine_bind; [by apply mildly_unlink|]. by intros. }
  apply fine_read. intros w5 raw H5 M5 Hraw. apply fine_pure. intros u Em.
  assert (kept raw (seen w5)) as Hk.
  { apply (source_kept m raw event sha _ u); [done..|]. apply (recorded_durable s _ _ (seen w3)); [|done].
    apply mv_store. by trans w4. }
  apply fine_pure. intros t _. destruct (threshold <? instant t); [done|].
  eapply fine_bind.
  { unfold unlink. apply (mildly_ask _ (λ _, True)); [|intros b _; by destruct b]. intros _. exists raw.
    split; [by apply (iv_spool _ H5)|done]. }
  intros u' w6 H6 M6 _. eapply fine_bind; [by apply mildly_unlink|]. by intros.
Qed.

Lemma mildly_prune_receipt w threshold counts p :
  spooled p = false → mildly w (λ _, True) (prune_receipt threshold counts p).
Proof.
  intros Hp. pose proof (mildly_unlink w p Hp). unfold prune_receipt, or_invalid. apply mildly_try.
  - mild.
  - intros e q Hq. destruct (counted e); by simplify_eq.
Qed.

Lemma fine_fold {A S} (f : S → A → io S) l : ∀ x w,
  (∀ x y w1, In y l → fine (f x y) w1) → fine (io_fold f x l) w.
Proof.
  induction l as [|y l IH]; intros x w Hf; simpl; [done|]. apply fine_then_bind; [apply Hf; by left|].
  intros x' w1 _ _. apply IH. intros. apply Hf. by right.
Qed.

Lemma mildly_clock_of w now : mildly w (λ _, True) (clock_of now).
Proof. unfold clock_of. mild. Qed.

Lemma fine_prune w node days now : fine (prune_acknowledged_spools node days now) w.
Proof.
  unfold prune_acknowledged_spools. eapply fine_bind; [apply mildly_guard|]. intros _ w1 _ _ _.
  eapply fine_bind; [apply mildly_guard|]. intros _ w2 _ _ _.
  eapply fine_bind; [apply mildly_clock_of|]. intros clock w3 _ _ _.
  apply fine_pure. intros threshold _.
  apply fine_ask; [done|]. intros w4 H4 M4. apply fine_then_bind.
  - apply fine_fold. intros x a w5 Hi. apply fine_prune_acknowledgement.
    exact (ack_listing _ _ _ Hi).
  - intros counts w5 _ _. apply fine_ask; [done|]. intros w6 H6 M6. apply fine_fold. intros x p w7 Hi.
    eapply fine_mildly, mildly_prune_receipt. exact (receipt_listing _ _ Hi).
Qed.

Lemma fine_batch {A} (l : list input) size (f : list (res string) → io A) w :
  (∀ w1 rs, inv w1 → moves w w1 → Forall2 (λ i r, taken s (JObj (in_envelope i)) r (seen w1)) l rs →
     fine (f rs) w1) →
  fine (writer (apply_capture_batch s (map (λ i, (JObj (in_envelope i), posix (in_path i))) l) size) ≫= f) w.
Proof.
  intros Hf w1 H1 H2. simpl. pose proof (iv_store _ H1) as Hr.
  pose proof (batch_taken s (map (λ i, (JObj (in_envelope i), posix (in_path i))) l) size (backend w1) Hr)
    as (Hr' & Hx & Ht).
  destruct (apply_capture_batch _ _ _ (backend w1)) as [r c]. simpl in *.
  destruct (inv_backend c w1 H1 Hr') as [H3 H4]; [destruct Hr, Hr'; unfold seen; congruence|].
  split_and!; [done..|]. destruct r as [rs|]; [|done]. simpl. apply Hf; [done|by trans w1|].
  destruct Hr' as [E _]. unfold seen. simpl. rewrite E. specialize (Ht rs eq_refl).
  clear -Ht. revert rs Ht. induction l as [|i l IH]; intros rs Ht; inversion Ht; subst; constructor; auto.
Qed.

Lemma fine_each {A} (f : A → io unit) l : ∀ w, (∀ x w1, fine (f x) w1) → fine (io_each f l) w.
Proof.
  induction l as [|x l IH]; intros w Hf; simpl; [done|]. apply fine_then_bind; [apply Hf|]. intros _ w1 _ _. by apply IH.
Qed.

Lemma fine_compile_locked w nonce days size : fine (compile_locked s nonce days size) w.
Proof.
  unfold compile_locked. eapply fine_bind; [apply mildly_now|]. intros created w1 _ _ _.
  eapply fine_bind; [apply mildly_now|]. intros heartbeat w2 _ _ _.
  eapply fine_bind; [apply mildly_owner|]. intros _ w3 _ _ _.
  apply fine_ask; [done|]. intros w4 H4 M4.
  eapply (fine_bind (λ g, Forall good (inputs g))).
  { apply mildly_fold; [by constructor|]. intros g p Hp Hg. apply mildly_gather; [|done].
    exact (spool_listing _ _ H4 Hp). }
  intros g w5 _ _ Hg. cbv zeta. apply fine_batch. intros w6 rs H6 M6 Ht.
  eapply fine_bind.
  { apply mildly_settle_all; [|exact Ht]. eapply Forall_perm; [|exact Hg]. apply sort_by_perm. }
  intros counts w7 _ _ _. apply fine_then_bind; [|done]. apply fine_each. intros node w8.
  apply fine_then_bind; [apply fine_prune|done].
Qed.

Lemma fine_compile w authorized days size : fine (compile_spools s authorized days size) w.
Proof.
  unfold compile_spools. eapply fine_bind; [apply mildly_guard|]. intros _ w1 _ _ _.
  eapply fine_bind; [apply mildly_secure_directory|]. intros _ w2 _ _ _.
  eapply fine_bind; [apply mildly_nonce|]. intros nonce w3 _ _ _.
  apply fine_ask; [done|]. intros w4 _ _. destruct (negb _).
  - eapply fine_bind; [apply mildly_lock_state|]. by intros.
  - eapply fine_bind; [apply mildly_secure_directory|]. intros _ w5 _ _ _. unfold io_finally.
    apply fine_then; [apply fine_compile_locked|]. intros r w6 _ _. eapply fine_and_then; [apply mildly_release|].
    by intros [?|?] w7 _ _ _.
Qed.

(** ** The processes around a store *)
Definition quietly {A} (p : io A) : io unit := p ;; mret tt.

Inductive participant : io unit → Prop :=
| hook envelope :
    (∀ m, validate_capture_envelope envelope = Ok m → offered (spool_path m) (spool_bytes m)) →
    participant (quietly (write_envelope envelope))
| arrival p raw : spooled p = true → offered p raw → participant (publish_new_private p raw)
| compiler authorized days size : participant (quietly (compile_spools s authorized days size))
| pruner node days now : participant (quietly (prune_acknowledged_spools node days now)).

Lemma participant_fine p w : participant p → fine p w.
Proof.
  assert (∀ A (q : io A), fine q w → fine (quietly q) w) as Hq by (intros A q H; by apply fine_then_bind).
  destruct 1; try apply Hq.
  - by eapply fine_mildly, mildly_write_envelope.
  - eapply fine_mildly, mildly_publish. split; [done|]. by destruct p as [|x [|y [|z [|]]]].
  - apply fine_compile.
  - apply fine_prune.
Qed.

Lemma participants_keep ps w ps1 w1 :
  inv w → Forall participant ps → rtc Io.step (ps, w) (ps1, w1) →
  inv w1 ∧ moves w w1 ∧ Forall (λ p, fine p w1) ps1.
Proof.
  intros Hw Hp Hs. apply (ok_steps inv moves _ _ _ Hs Hw). eapply List.Forall_impl; [|exact Hp].
  intros p. apply participant_fine.
Qed.

Lemma participants_move ps w ps1 w1 ps2 w2 :
  inv w → Forall participant ps → rtc Io.step (ps, w) (ps1, w1) → rtc Io.step (ps1, w1) (ps2, w2) → moves w1 w2.
Proof.
  intros Hw Hp H1 H2. destruct (participants_keep _ _ _ _ Hw Hp H1) as (Hw1 & _ & Hk).
  by destruct (ok_steps inv moves _ _ _ H2 Hw1 Hk) as (_ & Hm & _).
Qed.

(** C9: Acknowledgements are honest.  At every moment of a run in which hooks,
    arriving files, compilers and pruners interleave or crash, a file in the
    acknowledgements that reads as an object names an event and a digest
    that the committed store has recorded. *)
Theorem acknowledgements_honest ps w ps1 w1 p text m :
  inv w → Forall participant ps → rtc Io.step (ps, w) (ps1, w1) →
  is_ack p = true → files w1 !! p = Some text → loads text = Some (JObj m) →
  ∃ event sha, get "input_event_id" m = JStr event ∧ get "payload_sha256" m = JStr sha ∧
    recorded s event sha (saved (backend w1)).
Proof.
  intros Hw Hp H1 Ha Hf Hm. destruct (participants_keep _ _ _ _ Hw Hp H1) as (Hw1 & _ & _).
  destruct (iv_store _ Hw1) as [E _]. rewrite <- E. by apply (iv_acks _ Hw1 p text).
Qed.
End survival.

(** ** Everyone around a store *)
Inductive activity : Type :=
| Hook (envelope : json)
| Arrival (node file raw : string)
| Compiler (authorized : bool) (days size : Z)
| Pruner (node : string) (days : Z) (now : option datetime).

Section crew.
Context `{signing : crypto} `{env : environment} `{os : host} `{ucd : unicode_data} `{norm : normalization}.
Context (s : store).

Definition program (a : activity) : io unit :=
  match a with
  | Hook envelope => quietly (write_envelope envelope)
  | Arrival node file raw => publish_new_private ["spool"; node; file] raw
  | Compiler authorized days size => quietly (compile_spools s authorized days size)
  | Pruner node days now => quietly (prune_acknowledged_spools node days now)
  end.

(** What it wants to write into a spool *)
Definition offers (a : activity) (p : path) (raw : string) : Prop :=
  match a with
  | Hook envelope => ∃ m, validate_capture_envelope envelope = Ok m ∧ p = spool_path m ∧ raw = spool_bytes m
  | Arrival node file content => p = ["spool"; node; file] ∧ raw = content
  | _ => False
  end.

Definition on_offer (l : list activity) (w : world) (p : path) (raw : string) : Prop :=
  (spooled p = true ∧ files w !! p = Some raw) ∨ ∃ a, In a l ∧ offers a p raw.

Lemma programs_participate l w : Forall (participant s (on_offer l w)) (map program l).
Proof.
  apply List.Forall_forall. intros q (a & <- & Ha)%in_map_iff. destruct a as [envelope|node file raw| |]; simpl.
  - apply hook. intros m Hm. right. exists (Hook envelope). split; [done|]. by exists m.
  - apply arrival; [done|]. right. by exists (Arrival node file raw).
  - apply compiler.
  - apply pruner.
Qed.

(** C8: Captures survive.  Start any number of hooks, arriving files, compilers
    and pruners on a store at rest whose acknowledgements are honest, with any
    files in the spools and anything to write there.  However they interleave,
    and wherever any of them crashes, a file that was in a spool at some moment
    is at every later moment still there with the same bytes, or the capture
    in it is recorded in the store, as an input of its own or as feedback the
    store already has; otherwise its path has been used twice: other bytes were
    offered for the same path, and it is their capture that is recorded.  (The
    clock tells real dates, and file names are ASCII.) *)
Theorem feedback_survives l w ps1 w1 ps2 w2 p raw :
  (∀ n, valid_fields (clock n) = true) →
  (∀ q c, on_offer l w q c → Forall (λ x, clean x = true) q) →
  at_rest (backend w) → (∀ q c, is_ack q = true → files w !! q = Some c → honest s c (seen w)) →
  rtc Io.step (map program l, w) (ps1, w1) → rtc Io.step (ps1, w1) (ps2, w2) →
  spooled p = true → files w1 !! p = Some raw →
  files w2 !! p = Some raw ∨ kept s raw (seen w2) ∨
  ∃ other, other ≠ raw ∧ on_offer l w p other ∧ kept s other (seen w2).
Proof.
  intros Hc Hn Hr Ha H1 H2 Hs Hf. assert (inv s (on_offer l w) w) as Hw by (split; [done|by left|done]).
  apply (mv_spool s (on_offer l w) w1 w2); [|done..].
  by apply (participants_move s (on_offer l w) Hc Hn (map program l) w ps1 w1 ps2 w2); [|apply programs_participate|..].
Qed.
End crew.

(** ** Concrete runs *)
From S2P Require Import Scenario.

#[local] Instance still : environment := {| uuids := example_uuid; tokens _ := ""; clock _ := example_now |}.
#[local] Instance plain_host : host := {|
  hostname := "laptop"; pid := 7; alive _ := true; modified _ := None; local_utc d := Ok d;
  other_encoding _ := None
|}.

Definition the_file : path := spool_path example_envelope.
Definition the_bytes : string := spool_bytes example_envelope.
Definition years_later : datetime :=
  {| year := 2030; month := 1; day := 1; hour := 0; minute := 0; second := 0; microsecond := 0;
     utcoffset := Some 0 |}.

Definition new_world : world := {| files := ∅; dirs := ∅; backend := open_on toy_install 0 0 |}.

(** A hook, a compiler and, years later, two pruners and another capture that
    arrives in a file with the name of the first *)
Definition late_envelope : obj :=
  Eval vm_compute in match make_urn (example_uuid 77) "event" with
                     | Ok event => set_item "input_event_id" (JStr event) example_envelope
                     | Err _ => []
                     end.
Definition late_bytes : string := spool_bytes late_envelope.
Definition crew : list activity :=
  [Hook (JObj example_envelope); Compiler true 30 100; Pruner "laptop" 1 (Some years_later);
   Pruner "laptop" 1 (Some years_later);
   Arrival (List.nth 1 the_file "") (List.nth 2 the_file "") late_bytes].

Definition spooled_once : list (io unit) * world := schedule (repeat 0 8)%nat (map (program toy_store) crew, new_world).
Definition pruned_later : list (io unit) * world := schedule (repeat 1 60 ++ repeat 2 12)%nat spooled_once.

Lemma still_clock n : valid_fields (clock n) = true.
Proof. reflexivity. Qed.

Lemma new_world_rests : at_rest (backend new_world).
Proof. split; [done|]. apply reachable_ok, installed_reachable. Qed.

Lemma crew_names p raw : on_offer crew new_world p raw → Forall (λ x, clean x = true) p.
Proof.
  assert (Forall (λ x, clean x = true) the_file) as H
    by (repeat (constructor; [vm_compute; reflexivity|]); constructor).
  intros [[_ Hf]|(a & [<-|[<-|[<-|[<-|[<-|[]]]]]] & Ho)]; simpl in *; try done.
  - destruct Ho as (m & Hm & -> & _). destruct (capture_envelope_elim _ _ Hm) as [E _]. by injection E as <-.
  - destruct Ho as [-> _]. exact H.
Qed.

Lemma new_world_inv : inv toy_store (on_offer crew new_world) new_world.
Proof. split; [apply new_world_rests|by left|done]. Qed.

Lemma feedback_survives_witness :
  files spooled_once.2 !! the_file = Some the_bytes ∧ files pruned_later.2 !! the_file = None ∧
  (kept toy_store the_bytes (seen pruned_later.2) ∨
   ∃ other, other ≠ the_bytes ∧ on_offer crew new_world the_file other ∧ kept toy_store other (seen pruned_later.2)).
Proof.
  assert (files spooled_once.2 !! the_file = Some the_bytes) as H1 by (vm_compute; reflexivity).
  assert (files pruned_later.2 !! the_file = None) as H2 by (vm_compute; reflexivity).
  split; [exact H1|]. split; [exact H2|].
  assert (rtc Io.step (map (program toy_store) crew, new_world) (spooled_once.1, spooled_once.2)) as S1
    by (rewrite <- surjective_pairing; apply schedule_steps).
  assert (rtc Io.step (spooled_once.1, spooled_once.2) (pruned_later.1, pruned_later.2)) as S2
    by (rewrite <- !surjective_pairing; apply schedule_steps).
  destruct (feedback_survives toy_store crew new_world _ _ _ _ the_file the_bytes still_clock crew_names
    new_world_rests ltac:(done) S1 S2 eq_refl H1) as [H|H]; [|exact H].
  rewrite H2 in H. discriminate H.
Defined.

(** The other outcome: a pruner has read and checked the acknowledged file;
    another one prunes it; the new file takes its place; the first pruner
    unlinks it.  It held a capture of its own, and nobody has read it. *)
Definition raced : list (io unit) * world :=
  schedule (repeat 1 60 ++ repeat 2 5 ++ repeat 3 12 ++ repeat 4 3)%nat spooled_once.

Example pruned_unread :
  validate_capture_envelope (JObj late_envelope) = Ok late_envelope ∧
  files raced.2 !! the_file = Some late_bytes ∧
  files (schedule [2]%nat raced).2 !! the_file = None ∧
  map cs_sha (consumed (the_intake (seen (schedule [2]%nat raced).2))) = [payload_sha256 (JObj example_envelope)].
Proof. split_and!; vm_compute; reflexivity. Qed.

Definition acknowledged_once : list (io unit) * world := schedule (repeat 1 60)%nat spooled_once.
Definition the_ack : path := _ack_path example_envelope.
Definition ack_text : string := Eval vm_compute in default "" (files acknowledged_once.2 !! the_ack).
Definition ack_read : obj :=
  Eval vm_compute in match loads ack_text with Some (JObj m) => m | _ => [] end.

Lemma acknowledgements_honest_witness :
  ∃ event sha, get "input_event_id" ack_read = JStr event ∧ get "payload_sha256" ack_read = JStr sha ∧
    recorded toy_store event sha (saved (backend acknowledged_once.2)).
Proof.
  assert (rtc Io.step (map (program toy_store) crew, new_world) (acknowledged_once.1, acknowledged_once.2)) as S
    by (rewrite <- surjective_pairing; unfold acknowledged_once, spooled_once;
        etrans; apply schedule_steps).
  apply (acknowledgements_honest toy_store (on_offer crew new_world) still_clock crew_names
    (map (program toy_store) crew) new_world _ _ the_ack ack_text ack_read new_world_inv
    (programs_participate toy_store crew new_world) S); vm_compute; reflexivity.
Defined.

(** A file whose [capture_mechanism] is a list stops the compiler, run after
    run: nothing behind it is compiled. *)
Definition poison : obj := set_item "capture_mechanism" (JList []) example_envelope.
Definition poisoned_world : world :=
  {| files := <[["spool"; "intruder"; "x.json"] := canonical_bytes (JObj poison)]> {[the_file := the_bytes]};
     dirs := ∅; backend := open_on toy_install 0 0 |}.

Example poisoned_spool :
  (Io.run (compile_spools toy_store true 30 100) poisoned_world).1 = Err TypeError ∧
  consumed (the_intake (seen (Io.run (compile_spools toy_store true 30 100) poisoned_world).2)) = [].
Proof. split; vm_compute; reflexivity. Qed.

(** An acknowledged file that no longer reads as a capture stops the pruner
    instead of being counted as invalid. *)
Example pruner_stops :
  ∃ names, (Io.run (prune_acknowledged_spools "laptop" 1 (Some years_later))
     {| files := <[the_file := "{}"]> {[the_ack := ack_text]}; dirs := ∅; backend := open_on toy_install 0 0 |}).1 =
  Err (ValidationErrorNames "missing top-level fields: " names).
Proof. eexists. vm_compute. reflexivity. Qed.
